(** * Newsletter signup automation: a shallow embedding

    The repository drives a browser through Playwright to find and submit
    email-capture forms.  Three orchestrators live side by side:

    - [Newsletter]: class [NewsletterAutomation] of
      automation/newsletter-automation.ts, built on [Selectors]
      (automation/selectors.ts) and [Diagnostics] (automation/diagnostics.ts)
      and called by [Runner] (automation/runner.ts);
    - [Base]: class [BQLNewsletterAutomation] of src/base.ts;
    - [Index]: class [NewsletterAutomation] of src/index.ts.

    The browser is an external collaborator.  It is modelled as an oracle: a
    transition function on an abstract world answering every driver call with
    a value or an exception.  The TypeScript control flow (early [return],
    [continue], [break], [throw], [try]/[catch]/[finally]) is kept through a
    completion monad, so each definition can be read next to its source. *)

From Stdlib Require Import String List ZArith QArith Lia Bool Arith DecimalString
  RelationClasses.
Import ListNotations.
Open Scope string_scope.

(** ** Strings *)

(** The double-quote character, for selectors such as input[type=email]
    whose attribute value is quoted in the source. *)
Definition dq : string := String (Ascii.ascii_of_nat 34) EmptyString.

(** [quoted v] is [v] between double quotes. *)
Definition quoted (v : string) : string := dq ++ v ++ dq.

(** Template-literal rendering of a number. *)
Definition show_Z (z : Z) : string := NilZero.string_of_int (Z.to_int z).

Definition show_nat (n : nat) : string := show_Z (Z.of_nat n).

Fixpoint mapChars (f : Ascii.ascii -> Ascii.ascii) (s : string) : string :=
  match s with
  | EmptyString => EmptyString
  | String c rest => String (f c) (mapChars f rest)
  end.

(** [s.replace] of every double quote by a single quote. *)
Definition singleQuoted (s : string) : string :=
  mapChars (fun c => if Ascii.eqb c (Ascii.ascii_of_nat 34)
                     then Ascii.ascii_of_nat 39 else c) s.

(** [s.toLowerCase()], for the ASCII text the selector tables hold. *)
Definition toLowerCase (s : string) : string :=
  mapChars (fun c =>
              let n := Ascii.nat_of_ascii c in
              if (65 <=? n)%nat && (n <=? 90)%nat
              then Ascii.ascii_of_nat (n + 32) else c) s.

(** The ASCII characters that [\s] matches: space, tab, line feed,
    vertical tab, form feed, carriage return. *)
Definition isSpace (c : Ascii.ascii) : bool :=
  let n := Ascii.nat_of_ascii c in
  (n =? 32)%nat || ((9 <=? n)%nat && (n <=? 13)%nat).

(** [s.replace(/\s+/g, ' ')]; [inRun] tells whether the character before
    was white space. *)
Fixpoint collapseSpace (inRun : bool) (s : string) : string :=
  match s with
  | EmptyString => EmptyString
  | String c rest =>
      if isSpace c
      then if inRun then collapseSpace true rest
           else String (Ascii.ascii_of_nat 32) (collapseSpace true rest)
      else String c (collapseSpace false rest)
  end.

Fixpoint trimStart (s : string) : string :=
  match s with
  | EmptyString => EmptyString
  | String c rest => if isSpace c then trimStart rest else s
  end.

Fixpoint trimEnd (s : string) : string :=
  match s with
  | EmptyString => EmptyString
  | String c rest =>
      match trimEnd rest with
      | EmptyString => if isSpace c then EmptyString else String c EmptyString
      | kept => String c kept
      end
  end.

(** [s.trim()] *)
Definition trim (s : string) : string := trimEnd (trimStart s).

(** ** Completion records

    A statement completes normally with a value, or abruptly: by [return]
    (carrying the function's result), [break], [continue] or [throw]. *)

Module Js.

  (** A thrown value, as the text its [message] carries. *)
Definition Exn := string.

Inductive Completion (R A : Type) : Type :=
  | Normal (a : A)
  | Return (r : R)
  | Break
  | Continue
  | Throw (e : Exn).

Arguments Normal {R A} a.
Arguments Return {R A} r.
Arguments Break {R A}.
Arguments Continue {R A}.
Arguments Throw {R A} e.

  (** Statements over a mutable store [S], inside a function returning [R]. *)
Definition M (S R A : Type) : Type := S -> Completion R A * S.

Section Ops.
Context {S : Type}.

Definition ret {R A} (a : A) : M S R A := fun s => (Normal a, s).

Definition bind {R A B} (m : M S R A) (k : A -> M S R B) : M S R B :=
      fun s =>
        match m s with
        | (Normal a, s') => k a s'
        | (Return r, s') => (Return r, s')
        | (Break, s') => (Break, s')
        | (Continue, s') => (Continue, s')
        | (Throw e, s') => (Throw e, s')
        end.

Definition skip {R} : M S R unit := ret tt.

    (** [return r;] *)
Definition return_ {R A} (r : R) : M S R A := fun s => (Return r, s).

    (** [continue;] and [break;] *)
Definition continue_ {R A} : M S R A := fun s => (Continue, s).
Definition break_ {R A} : M S R A := fun s => (Break, s).

    (** [throw e;] *)
Definition throw {R A} (e : Exn) : M S R A := fun s => (Throw e, s).

Definition get {R} : M S R S := fun s => (Normal s, s).
Definition modify {R} (f : S -> S) : M S R unit := fun s => (Normal tt, f s).

    (** [try { body } catch (e) { handler e }] *)
Definition tryCatch {R A} (body : M S R A) (handler : Exn -> M S R A)
      : M S R A :=
      fun s =>
        match body s with
        | (Throw e, s') => handler e s'
        | other => other
        end.

    (** [try { body } finally { fin }]: [fin] always runs; an abrupt
        completion of [fin] replaces that of [body]. *)
Definition tryFinally {R A} (body : M S R A) (fin : M S R unit)
      : M S R A :=
      fun s =>
        let '(c, s1) := body s in
        match fin s1 with
        | (Normal _, s2) => (c, s2)
        | (Return r, s2) => (Return r, s2)
        | (Break, s2) => (Break, s2)
        | (Continue, s2) => (Continue, s2)
        | (Throw e, s2) => (Throw e, s2)
        end.

    (** [for (const x of xs) { body x }] *)
Fixpoint forOf {R T} (xs : list T) (body : T -> M S R unit)
      : M S R unit :=
      match xs with
      | [] => skip
      | x :: rest =>
          fun s =>
            match body x s with
            | (Normal _, s') => forOf rest body s'
            | (Continue, s') => forOf rest body s'
            | (Break, s') => (Normal tt, s')
            | (Return r, s') => (Return r, s')
            | (Throw e, s') => (Throw e, s')
            end
      end.

    (** A call: the callee's [return r] is the call's value; falling off the
        end of the body gives [dflt] (undefined for a void function). *)
Definition call {R R' : Type} (dflt : R) (body : M S R unit)
      : M S R' R :=
      fun s =>
        match body s with
        | (Return r, s') => (Normal r, s')
        | (Throw e, s') => (Throw e, s')
        | (_, s') => (Normal dflt, s')
        end.

    (** [if (c) { m }] *)
Definition when {R} (c : bool) (m : M S R unit) : M S R unit :=
      if c then m else skip.

End Ops.

  (** The values of a counting loop
      [for (let i = lo; i < hi; i++)] whose body does not assign [i]. *)
Definition zrange (lo hi : Z) : list Z :=
    map (fun k => (lo + Z.of_nat k)%Z) (seq 0 (Z.to_nat (hi - lo))).

End Js.

Import Js.

Declare Scope js_scope.
Delimit Scope js_scope with js.
Notation "x <- m ;; k" := (bind m (fun x => k))
  (at level 100, m at next level, right associativity) : js_scope.
Notation "m ;; k" := (bind m (fun _ => k))
  (at level 100, right associativity) : js_scope.
Open Scope js_scope.

(** ** The driver capability

    What the code consumes from Playwright.  Locators are lazy descriptions
    (building one never touches the page); element handles and frames are
    opaque references handed out by the driver. *)

Inductive WaitState : Type := Visible | Hidden | Attached | Detached.

(** A document a locator is rooted in: the page itself, or the content of a
    frame as returned by [contentFrame()]. *)
Inductive Scope : Type :=
| MainDoc
| FrameDoc (frame : nat).

(** [page.locator(sel)], optionally narrowed by [first()] / [nth(i)]. *)
Record Locator : Type := mkLocator {
  l_scope : Scope;
  l_selector : string;
  l_nth : option nat
}.

Definition locator (sc : Scope) (sel : string) : Locator :=
  {| l_scope := sc; l_selector := sel; l_nth := None |}.

Definition first (l : Locator) : Locator :=
  {| l_scope := l_scope l; l_selector := l_selector l; l_nth := Some 0%nat |}.

Definition nth_match (l : Locator) (i : nat) : Locator :=
  {| l_scope := l_scope l; l_selector := l_selector l; l_nth := Some i |}.

(** The rectangle of [boundingBox()], in CSS pixels. *)
Record Rect : Type := mkRect { r_x : Q; r_y : Q; r_width : Q; r_height : Q }.

Definition Handle := nat.
Definition Frame := nat.

(** Where an element-handle query is rooted: [page.$], [frame.$] or
    [handle.$]. *)
Inductive QRoot : Type :=
| PageRoot
| FrameRoot (f : Frame)
| HandleRoot (h : Handle).

(** A truthy value that crossed the evaluate boundary: it is data, not a
    locator or a handle, and offers none of their methods. *)
Inductive JsValue : Type := Serialized (repr : string).

(** Driver calls that may reject.  Each in-page script of the source is one
    call, named after what the script does; the scripts of [findInShadowDOM]
    and of [handleShadowDomForm] are split into their steps.  [DeepQuery sel]
    is one run of [searchShadowDOM(document, sel)]: the first match of [sel]
    in the document or, depth first, in a shadow root below it, as the value
    that reaches the caller; it rejects when [querySelector] throws. *)
Inductive Call : Type -> Type :=
(* browser and page life cycle *)
| Launch (headless : bool) : Call unit
| NewContext : Call unit
| NewPage : Call unit
| SetViewportSize (w h : Z) : Call unit
| SetExtraHTTPHeaders : Call unit
| CloseBrowser : Call unit
| Goto (url : string) (timeout : option Z) : Call unit
| Title : Call string
| WaitForTimeout (ms : Z) : Call unit
| FrameWaitForTimeout (frame : nat) (ms : Z) : Call unit
(* locators *)
| Count (l : Locator) : Call nat
| WaitFor (l : Locator) (state : WaitState) (timeout : Z) : Call unit
| BoundingBox (l : Locator) : Call (option Rect)
| IsVisible (l : Locator) : Call bool
| IsChecked (l : Locator) : Call bool
| GetAttribute (l : Locator) (name : string) : Call (option string)
| OuterHTML (l : Locator) : Call string
| Click (l : Locator) : Call unit
| Fill (l : Locator) (text : string) : Call unit
| ContentFrame (l : Locator) : Call (option Frame)
(* element handles *)
| WaitForSelector (root : QRoot) (sel : string) (timeout : Z)
  : Call (option Handle)
| QueryFirst (root : QRoot) (sel : string) : Call (option Handle)
| QueryAll (sel : string) : Call (list Handle)
| ClosestForm (h : Handle) : Call Handle
| HClick (h : Handle) : Call unit
| HFill (h : Handle) (text : string) : Call unit
| HIsChecked (h : Handle) : Call bool
| HCheck (h : Handle) : Call unit
| MouseMove (x y : Z) : Call unit
(* in-page scripts *)
| ScrollBodyPercent (percent : Z) : Call unit
| ScrollBodyFraction (f : Q) : Call unit
| ScrollDocFraction (f : Q) : Call unit
| ScrollBodyBottom : Call unit
| StyleScrollLocked : Call bool
| StyleOverflowHidden : Call bool
| ComputedScrollLocked : Call bool
| AnyShadowRoot : Call bool
| EvaluatePage : Call unit
| DeepQuery (sel : string) : Call (option JsValue)
| HasShadowRoot (h : Handle) : Call bool
| ShadowQuery (h : Handle) (sel : string) : Call (option JsValue)
| DebugInfo : Call string
(* [host.evaluate(script, ...args)] and the steps of the script *)
| EvaluateOn (h : Handle) (args : list string) : Call unit
| InPageShadowRoot (h : Handle) : Call (option Handle)
| InPageQuerySelector (root : Handle) (sel : string) : Call (option Handle)
| InPageSetValue (el : Handle) (text : string) : Call unit
| InPageClick (el : Handle) : Call unit.

(** Synchronous observations, which cannot reject. *)
Inductive Query : Type -> Type :=
| DateNow : Query Z
| IsoTimestamp : Query string
| Frames : Query (list Frame)
| FrameUrl (f : Frame) : Query string.

Inductive Res (A : Type) : Type :=
| Ok (a : A)
| Err (e : Exn).
Arguments Ok {A} a.
Arguments Err {A} e.

(** Program points recorded in the trace.  They are ghost: no driver is
    consulted and no state changes but the trace. *)
Inductive Phase : Type :=
| PopupPass
| AttemptStart (n : Z).

(** What happened, oldest first. *)
Inductive Event : Type :=
| Asked {A : Type} (c : Call A) (r : Res A)
| Observed {A : Type} (o : Query A) (a : A)
| Slept (ms : Z)
| Mark (p : Phase).

Record Driver (W : Type) : Type := mkDriver {
  answer : forall A, Call A -> W -> Res A * W;
  observe : forall A, Query A -> W -> A * W
}.
Arguments answer {W} d {A} c w.
Arguments observe {W} d {A} o w.

(** The store threaded through a run: the browser world, the trace, and the
    fields of the object whose methods run. *)
Record St (W X : Type) : Type := mkSt {
  world : W;
  trace : list Event;
  self : X
}.
Arguments mkSt {W X} world trace self.
Arguments world {W X} s.
Arguments trace {W X} s.
Arguments self {W X} s.

Section Machine.
Context {W : Type} (drv : Driver W) {X : Type}.

Definition emit (ev : Event) (s : St W X) : St W X :=
    mkSt (world s) (trace s ++ [ev]) (self s).

  (** An awaited driver call: a rejection is thrown. *)
Definition ask {R A} (c : Call A) : M (St W X) R A :=
    fun s =>
      let '(r, w') := answer drv c (world s) in
      let s' := mkSt w' (trace s ++ [Asked c r]) (self s) in
      match r with
      | Ok a => (Normal a, s')
      | Err e => (Throw e, s')
      end.

Definition tell {R A} (o : Query A) : M (St W X) R A :=
    fun s =>
      let '(a, w') := observe drv o (world s) in
      (Normal a, mkSt w' (trace s ++ [Observed o a]) (self s)).

  (** A pause on a timer of the program itself,
      [new Promise(resolve => setTimeout(resolve, ms))]: time passes, nothing
      else, and the timer always fires.  The pauses of the page,
      [page.waitForTimeout(ms)] and [frame.waitForTimeout(ms)], are driver
      calls ([WaitForTimeout], [FrameWaitForTimeout]): they are rejected once
      the page is closed. *)
Definition sleep {R} (ms : Z) : M (St W X) R unit :=
    fun s => (Normal tt, emit (Slept ms) s).

Definition mark {R} (p : Phase) : M (St W X) R unit :=
    fun s => (Normal tt, emit (Mark p) s).

  (** Assignment to fields of the object. *)
Definition update {R} (f : X -> X) : M (St W X) R unit :=
    fun s => (Normal tt, mkSt (world s) (trace s) (f (self s))).

Definition this {R} : M (St W X) R X :=
    fun s => (Normal (self s), s).

End Machine.

Section Objects.
Context {W X Y : Type}.

(** A method call on another object: the callee [m] runs on the fields of
    [obj], in the same browser and on the same trace; its value comes back
    together with the fields as the call left them. *)
Definition invoke {R A} (obj : Y) (m : Js.M (St W Y) R A)
    : Js.M (St W X) R (A * Y) :=
  fun s =>
    let '(c, s') := m (mkSt (world s) (trace s) obj) in
    let back := mkSt (world s') (trace s') (self s) in
    match c with
    | Normal a => (Normal (a, self s'), back)
    | Return r => (Return r, back)
    | Break => (Break, back)
    | Continue => (Continue, back)
    | Throw e => (Throw e, back)
    end.

End Objects.

(** A [Map] with string keys: the entries in insertion order, no key
    twice. *)
Module JsMap.
Section Entries.
Context {V : Type}.

Fixpoint get (k : string) (m : list (string * V)) : option V :=
  match m with
  | [] => None
  | (k', v) :: rest => if String.eqb k k' then Some v else get k rest
  end.

(** [m.set(k, v)]: a key that is there keeps its place and takes the new
    value; a new key goes last. *)
Fixpoint set (k : string) (v : V) (m : list (string * V))
    : list (string * V) :=
  match m with
  | [] => [(k, v)]
  | (k', v') :: rest =>
      if String.eqb k k' then (k, v) :: rest else (k', v') :: set k v rest
  end.

Definition keys (m : list (string * V)) : list string := map fst m.

End Entries.
End JsMap.

(** ** automation/types.ts *)

(** [SelectorStrategy.waitFor]: 'visible' | 'attached' | 'detached'. *)
Inductive StrategyWait : Type := WaitVisible | WaitAttached | WaitDetached.

Definition waitState (w : StrategyWait) : WaitState :=
  match w with
  | WaitVisible => Visible
  | WaitAttached => Attached
  | WaitDetached => Detached
  end.

Record SelectorStrategy : Type := mkStrategy {
  primary : string;
  fallbacks : list string;
  context : option string;
  waitFor : option StrategyWait;
  timeout : option Z
}.

(** An object literal giving only [primary] and [fallbacks]. *)
Definition strategy (p : string) (fs : list string) : SelectorStrategy :=
  mkStrategy p fs None None None.

Record DiagnosticInfo : Type := mkDiagnosticInfo {
  pageTitle : string;
  popupDetected : bool;
  iframeCount : nat;
  shadowDOMDetected : bool;
  scrollLocked : bool;
  modalActive : bool
}.

Record AutomationResult : Type := mkResult {
  success : bool;
  timestamp : string;
  url : string;
  executionTime : Z;
  strategiesUsed : list string;
  errors : list string;
  diagnostics : DiagnosticInfo
}.

Record AutomationConfig : Type := mkConfig {
  cfg_url : string;
  cfg_email : string;
  cfg_timeout : Z;
  retryAttempts : Z;
  scrollDelay : Z;
  diagnosticMode : bool
}.

Inductive PopupAction : Type := ActClick | ActFill | ActWait.

Record PopupStrategy : Type := mkPopupStrategy {
  ps_name : string;
  ps_selectors : SelectorStrategy;
  ps_action : PopupAction
}.

Definition emptyDiagnostics : DiagnosticInfo :=
  mkDiagnosticInfo "" false 0 false false false.

(** ** automation/selectors.ts: class SelectorEngine *)

Module Selectors.
Section Engine.
Context {W : Type} (drv : Driver W) {X : Type}.
Abbreviation M := (Js.M (St W X)).

  (** [locator.all()]: one [nth(i)] locator per current match. *)
Definition all {R} (l : Locator) : M R (list Locator) :=
    n <- ask drv (Count l) ;;
    ret (map (nth_match l) (seq 0 n)).

  (** The fallback loop of [findAllElements]: [locators] is assigned and the
      loop left at the first fallback with a match; a failing fallback is
      skipped. *)
Fixpoint findAllFallbacks {R} (fbs : list string) : M R (list Locator) :=
    match fbs with
    | [] => ret []
    | fallback :: rest =>
        hit <- tryCatch
                 (let fallbackLocators := locator MainDoc fallback in
                  n <- ask drv (Count fallbackLocators) ;;
                  if (0 <? n)%nat
                  then (ls <- all fallbackLocators ;; ret (Some ls))
                  else ret None)
                 (fun _ => ret None) ;;
        match hit with
        | Some ls => ret ls
        | None => findAllFallbacks rest
        end
    end.

Definition findAllElements {R} (strategy : SelectorStrategy)
    : M R (list Locator) :=
    locators <- tryCatch
                  (let primaryLocators := locator MainDoc (primary strategy) in
                   n <- ask drv (Count primaryLocators) ;;
                   if (0 <? n)%nat then all primaryLocators else ret [])
                  (fun _ => ret []) ;;
    match locators with
    | [] => findAllFallbacks (fallbacks strategy)
    | _ => ret locators
    end.

  (** [state] defaults to 'visible' and [timeout] to 5000. *)
Definition isElementReady {R} (l : Locator) (state : option StrategyWait)
      (timeout : option Z) : M R bool :=
    call false
      (tryCatch
         (ask drv (WaitFor l
                     (match state with Some w => waitState w | None => Visible end)
                     (match timeout with Some t => t | None => 5000%Z end)) ;;
          return_ true)
         (fun _ => return_ false)).

Definition findElement {R} (strategy : SelectorStrategy)
    : M R (option Locator) :=
    call None
      (let selectorsToTry := primary strategy :: fallbacks strategy in
       forOf selectorsToTry (fun selector =>
         tryCatch
           (let element := first (locator MainDoc selector) in
            isReady <- isElementReady element (waitFor strategy)
                         (timeout strategy) ;;
            if isReady : bool then
              boundingBox <- ask drv (BoundingBox element) ;;
              match boundingBox with
              | Some _ => return_ (Some element)
              | None => skip
              end
            else skip)
           (fun _ => skip)) ;;
       return_ None).

Definition findInIframes {R} (strategy : SelectorStrategy)
    : M R (option Locator) :=
    call None
      (iframes <- all (locator MainDoc "iframe") ;;
       forOf iframes (fun iframe =>
         tryCatch
           (frame <- ask drv (ContentFrame iframe) ;;
            match frame with
            | None => continue_
            | Some frame =>
                let element := locator (FrameDoc frame) (primary strategy) in
                ready <- isElementReady element (waitFor strategy) None ;;
                (if ready : bool then return_ (Some element) else skip) ;;
                forOf (fallbacks strategy) (fun fallback =>
                  let fallbackElement := locator (FrameDoc frame) fallback in
                  ready <- isElementReady fallbackElement (waitFor strategy)
                             None ;;
                  if ready : bool then return_ (Some fallbackElement)
                  else skip)
            end)
           (fun _ => skip)) ;;
       return_ None).

  (** The script that [findInShadowDOM] runs in the page: the primary
      pattern, then the fallbacks, until one is found. *)
Definition shadowSearchScript {R} (selectorData : SelectorStrategy)
    : M R (option JsValue) :=
    call None
      (found <- ask drv (DeepQuery (primary selectorData)) ;;
       match found with
       | Some found => return_ (Some found)
       | None => skip
       end ;;
       forOf (fallbacks selectorData) (fun fallback =>
         found <- ask drv (DeepQuery fallback) ;;
         match found with
         | Some found => return_ (Some found)
         | None => skip
         end) ;;
       return_ None).

  (** [page.evaluate(script, strategy)]: whatever the script returns, or its
      exception, is the result.  No handler surrounds the evaluation. *)
Definition findInShadowDOM {R} (strategy : SelectorStrategy)
    : M R (option JsValue) :=
    call None
      (ask drv EvaluatePage ;;
       v <- shadowSearchScript strategy ;;
       return_ v).

End Engine.
End Selectors.

(** ** automation/diagnostics.ts: class DiagnosticEngine *)

Module Diagnostics.
Section Engine.
Context {W : Type} (drv : Driver W) {X : Type}.
Abbreviation M := (Js.M (St W X)).

Definition modalSelectors : list string :=
    [ "[role=" ++ quoted "dialog" ++ "]"; ".modal"; ".popup"; ".overlay";
      "[data-modal]"; ".newsletter-popup"; ".email-signup-modal" ].

Definition popupIndicators : list string :=
    [ ".popup-overlay"; ".modal-backdrop"; "[data-popup]";
      ".newsletter-popup"; ".email-capture" ].

Definition detectActiveModal {R} : M R bool :=
    call false
      (forOf modalSelectors (fun selector =>
         tryCatch
           (let element := first (locator MainDoc selector) in
            visible <- ask drv (IsVisible element) ;;
            if visible : bool then return_ true else skip)
           (fun _ => continue_)) ;;
       return_ false).

Definition detectPopups {R} : M R bool :=
    call false
      (forOf popupIndicators (fun selector =>
         tryCatch
           (count <- ask drv (Count (locator MainDoc selector)) ;;
            if (0 <? count)%nat then return_ true else skip)
           (fun _ => continue_)) ;;
       return_ false).

  (** [Some x] when [m] gives [x], [None] when it throws. *)
Definition caught {R A} (m : M R A) : M R (option A) :=
    tryCatch (x <- m ;; ret (Some x)) (fun _ => ret None).

  (** The fields are assigned one after the other inside one [try]; when a
      step throws, the fields assigned so far are kept and the rest stay at
      their defaults. *)
Definition collectDiagnostics {R} : M R DiagnosticInfo :=
    call emptyDiagnostics
      (let d := emptyDiagnostics in
       r <- caught (ask drv Title) ;;
       match r with None => return_ d | Some title =>
       let d := mkDiagnosticInfo title (popupDetected d) (iframeCount d)
                  (shadowDOMDetected d) (scrollLocked d) (modalActive d) in
       r <- caught (ask drv (Count (locator MainDoc "iframe"))) ;;
       match r with None => return_ d | Some n =>
       let d := mkDiagnosticInfo (pageTitle d) (popupDetected d) n
                  (shadowDOMDetected d) (scrollLocked d) (modalActive d) in
       r <- caught (ask drv StyleScrollLocked) ;;
       match r with None => return_ d | Some locked =>
       let d := mkDiagnosticInfo (pageTitle d) (popupDetected d) (iframeCount d)
                  (shadowDOMDetected d) locked (modalActive d) in
       r <- caught detectActiveModal ;;
       match r with None => return_ d | Some active =>
       let d := mkDiagnosticInfo (pageTitle d) (popupDetected d) (iframeCount d)
                  (shadowDOMDetected d) (scrollLocked d) active in
       r <- caught (ask drv AnyShadowRoot) ;;
       match r with None => return_ d | Some shadow =>
       let d := mkDiagnosticInfo (pageTitle d) (popupDetected d) (iframeCount d)
                  shadow (scrollLocked d) (modalActive d) in
       r <- caught detectPopups ;;
       match r with None => return_ d | Some popup =>
       return_ (mkDiagnosticInfo (pageTitle d) popup (iframeCount d)
                  (shadowDOMDetected d) (scrollLocked d) (modalActive d))
       end end end end end end).

End Engine.
End Diagnostics.

(** ** automation/newsletter-automation.ts: class NewsletterAutomation *)

Module Newsletter.

(** The private fields; a [bool] tells whether the reference is non-null.
    [result] is the result object that [executeAutomation] creates and hands,
    by reference, to the methods it calls. *)
Record Fields : Type := mkFields {
  f_browser : bool;
  f_page : bool;
  f_diagnostics : bool;
  f_selectors : bool;
  f_result : AutomationResult
}.

(** Elements as [findEmailInput] and [findSubmitButton] return them: the
    locator of a page or frame search, or the value the shadow search
    returned from the page. *)
Inductive Found : Type :=
| FoundLocator (l : Locator)
| FoundValue (v : JsValue).

Definition with_result (f : AutomationResult -> AutomationResult)
    (o : Fields) : Fields :=
  mkFields (f_browser o) (f_page o) (f_diagnostics o) (f_selectors o)
    (f (f_result o)).

Definition push_error (msg : string) (r : AutomationResult) : AutomationResult :=
  mkResult (success r) (timestamp r) (url r) (executionTime r)
    (strategiesUsed r) (errors r ++ [msg]) (diagnostics r).

Definition push_strategy (msg : string) (r : AutomationResult)
    : AutomationResult :=
  mkResult (success r) (timestamp r) (url r) (executionTime r)
    (strategiesUsed r ++ [msg]) (errors r) (diagnostics r).

Definition set_success (b : bool) (r : AutomationResult) : AutomationResult :=
  mkResult b (timestamp r) (url r) (executionTime r)
    (strategiesUsed r) (errors r) (diagnostics r).

Definition set_executionTime (t : Z) (r : AutomationResult)
    : AutomationResult :=
  mkResult (success r) (timestamp r) (url r) t
    (strategiesUsed r) (errors r) (diagnostics r).

Definition set_diagnostics (d : DiagnosticInfo) (r : AutomationResult)
    : AutomationResult :=
  mkResult (success r) (timestamp r) (url r) (executionTime r)
    (strategiesUsed r) (errors r) d.

(** [`${error.message || error}`]: the message, or the rendering of an
    error whose message is empty. *)
Definition errorText (e : Exn) : string :=
  if String.eqb e "" then "Error" else e.

Definition emailInputStrategies : list SelectorStrategy :=
  [ strategy ("input[type=" ++ quoted "email" ++ "]")
      [ "input[name*=" ++ quoted "email" ++ "]";
        "input[placeholder*=" ++ quoted "email" ++ " i]";
        "input[id*=" ++ quoted "email" ++ "]";
        ".email-input input";
        ".newsletter-email input";
        "[data-testid*=" ++ quoted "email" ++ "] input";
        "form input[type=" ++ quoted "email" ++ "]";
        "form input[name*=" ++ quoted "email" ++ " i]";
        "form input[placeholder*=" ++ quoted "email" ++ " i]";
        "form input[id*=" ++ quoted "email" ++ " i]";
        "form input[class*=" ++ quoted "email" ++ " i]" ];
    strategy ("input[name=" ++ quoted "EMAIL" ++ "]")
      [ "input[name=" ++ quoted "email_address" ++ "]";
        "input[name=" ++ quoted "user_email" ++ "]";
        "input[class*=" ++ quoted "email" ++ "]" ] ].

Definition submitButtonStrategies : list SelectorStrategy :=
  [ strategy ("button[type=" ++ quoted "submit" ++ "]")
      [ "input[type=" ++ quoted "submit" ++ "]";
        "button:has-text(" ++ quoted "Subscribe" ++ ")";
        "button:has-text(" ++ quoted "Sign Up" ++ ")";
        "button:has-text(" ++ quoted "Join" ++ ")";
        ".submit-btn";
        ".newsletter-submit";
        "[data-testid*=" ++ quoted "submit" ++ "]" ] ].

Definition checkboxStrategies : list SelectorStrategy :=
  [ strategy ("input[type=" ++ quoted "checkbox" ++ "]")
      [ "input[type=" ++ quoted "checkbox" ++ "][name*=" ++ quoted "agree" ++ "]";
        "input[type=" ++ quoted "checkbox" ++ "][id*=" ++ quoted "terms" ++ "]";
        "input[type=" ++ quoted "checkbox" ++ "][class*=" ++ quoted "consent" ++ "]" ] ].

Definition popupStrategies : list PopupStrategy :=
  [ mkPopupStrategy "Newsletter Popup"
      (strategy ".newsletter-popup"
         [ ".popup"; ".modal"; "[role=" ++ quoted "dialog" ++ "]" ])
      ActWait;
    mkPopupStrategy "Close Button"
      (strategy ".close-btn"
         [ ".close"; "[aria-label=" ++ quoted "Close" ++ "]";
           "button:has-text(" ++ quoted "×" ++ ")" ])
      ActClick ].

(** The [percentage] column of [scrollStrategies]: three steps down, then
    back up to the top. *)
Definition scrollStrategies : list Z := [25; 50; 75; 0]%Z.

Definition successIndicators : list string :=
  [ "text=" ++ quoted "Thank you"; "text=" ++ quoted "Success";
    "text=" ++ quoted "Subscribed"; "text=" ++ quoted "Check your email";
    ".success-message"; ".confirmation" ].

Section Methods.
Context {W : Type} (drv : Driver W).
Abbreviation M := (Js.M (St W Fields)).

Definition on_result {R} (f : AutomationResult -> AutomationResult)
    : M R unit :=
  update (with_result f).

(** A method called on a found element exists only on locators. *)
Definition fill {R} (el : Found) (text : string) : M R unit :=
  match el with
  | FoundLocator l => ask drv (Fill l text)
  | FoundValue _ => throw "emailInput.fill is not a function"
  end.

Definition click {R} (el : Found) : M R unit :=
  match el with
  | FoundLocator l => ask drv (Click l)
  | FoundValue _ => throw "submitButton.click is not a function"
  end.

Definition initialize {R} : M R unit :=
  call tt
    (ask drv (Launch true) ;;
     update (fun o => mkFields true (f_page o) (f_diagnostics o)
                        (f_selectors o) (f_result o)) ;;
     ask drv NewPage ;;
     update (fun o => mkFields (f_browser o) true true true (f_result o)) ;;
     ask drv (SetViewportSize 1920 1080) ;;
     ask drv SetExtraHTTPHeaders).

Definition cleanup {R} : M R unit :=
  call tt
    (o <- this ;;
     if f_browser o then ask drv CloseBrowser else skip).

(** The body of the loop over [scrollStrategies]: scroll, let the page
    settle, probe, and leave the loop when a modal or a scroll lock shows. *)
Definition scrollStage {R} (config : AutomationConfig) (percentage : Z)
    : M R unit :=
  ask drv (ScrollBodyPercent percentage) ;;
  ask drv (WaitForTimeout (scrollDelay config)) ;;
  diagnostics <- Diagnostics.collectDiagnostics drv ;;
  if modalActive diagnostics || scrollLocked diagnostics
  then break_ else skip.

Definition triggerPopupsWithScrolling {R} (config : AutomationConfig)
    : M R unit :=
  call tt
    (o <- this ;;
     (if negb (f_page o) then return_ tt else skip) ;;
     forOf scrollStrategies (scrollStage config)).

(** The body of the loop over [popupStrategies]. *)
Definition popupStep {R} (strategy : PopupStrategy) : M R unit :=
  tryCatch
    (element <- Selectors.findElement drv (ps_selectors strategy) ;;
     match element with
     | Some element =>
         on_result (push_strategy
                      ("Popup Strategy: " ++ ps_name strategy)) ;;
         match ps_action strategy with
         | ActClick =>
             ask drv (Click element) ;;
             ask drv (WaitForTimeout 1000) ;;
             d <- Diagnostics.collectDiagnostics drv ;;
             on_result (set_diagnostics d)
         | _ => skip
         end
     | None => skip
     end)
    (fun _ => skip).

Definition handlePopupsAndModals {R} (config : AutomationConfig) : M R unit :=
  call tt
    (mark PopupPass ;;
     o <- this ;;
     (if negb (f_page o) then return_ tt else skip) ;;
     ask drv (WaitForTimeout 2000) ;;
     triggerPopupsWithScrolling config ;;
     forOf popupStrategies popupStep).

Definition findEmailInput {R} : M R (option Found) :=
  call None
    (forOf emailInputStrategies (fun strategy =>
       element <- Selectors.findElement drv strategy ;;
       match element with
       | Some element =>
           on_result (push_strategy "Email input found on main page") ;;
           return_ (Some (FoundLocator element))
       | None => skip
       end) ;;
     forOf emailInputStrategies (fun strategy =>
       element <- Selectors.findInIframes drv strategy ;;
       match element with
       | Some element =>
           on_result (push_strategy "Email input found in iframe") ;;
           return_ (Some (FoundLocator element))
       | None => skip
       end) ;;
     forOf emailInputStrategies (fun strategy =>
       element <- Selectors.findInShadowDOM drv strategy ;;
       match element with
       | Some element =>
           on_result (push_strategy "Email input found in shadow DOM") ;;
           return_ (Some (FoundValue element))
       | None => skip
       end) ;;
     return_ None).

Definition findSubmitButton {R} : M R (option Found) :=
  call None
    (forOf submitButtonStrategies (fun strategy =>
       element <- Selectors.findElement drv strategy ;;
       match element with
       | Some element =>
           on_result (push_strategy "Submit button found on main page") ;;
           return_ (Some (FoundLocator element))
       | None => skip
       end) ;;
     forOf submitButtonStrategies (fun strategy =>
       element <- Selectors.findInIframes drv strategy ;;
       match element with
       | Some element =>
           on_result (push_strategy "Submit button found in iframe") ;;
           return_ (Some (FoundLocator element))
       | None => skip
       end) ;;
     forOf submitButtonStrategies (fun strategy =>
       element <- Selectors.findInShadowDOM drv strategy ;;
       match element with
       | Some element =>
           on_result (push_strategy "Submit button found in shadow DOM") ;;
           return_ (Some (FoundValue element))
       | None => skip
       end) ;;
     return_ None).

(** What one unchecked checkbox gets: a click on its label when it has an
    [id] and the label can be clicked, else a click on the box itself. *)
Definition tickCheckbox {R} (checkbox : Locator) : M R unit :=
  isChecked <- ask drv (IsChecked checkbox) ;;
  if negb isChecked then
    id <- ask drv (GetAttribute checkbox "id") ;;
    match id with
    | Some id =>
        if negb (String.eqb id "") then
          let label :=
            first (locator MainDoc ("label[for=" ++ quoted id ++ "]")) in
          tryCatch
            (ask drv (Click label) ;;
             on_result (push_strategy
                          ("Clicked checkbox label for ID: " ++ id)) ;;
             ask drv (WaitForTimeout 200) ;;
             continue_)
            (fun _ => skip)
        else skip
    | None => skip
    end ;;
    ask drv (Click checkbox) ;;
    html <- ask drv (OuterHTML checkbox) ;;
    on_result (push_strategy ("Clicked checkbox directly: " ++ html)) ;;
    ask drv (WaitForTimeout 200)
  else skip.

Definition handleCheckboxes {R} : M R unit :=
  call tt
    (o <- this ;;
     (if negb (f_page o) || negb (f_selectors o) then return_ tt else skip) ;;
     forOf checkboxStrategies (fun strategy =>
       tryCatch
         (checkboxes <- Selectors.findAllElements drv strategy ;;
          forOf checkboxes tickCheckbox)
         (fun _ => skip))).

Definition verifySubmissionSuccess {R} : M R bool :=
  call false
    (o <- this ;;
     (if negb (f_page o) then return_ false else skip) ;;
     forOf successIndicators (fun indicator =>
       tryCatch
         (ask drv (WaitForSelector PageRoot indicator 3000) ;;
          return_ true)
         (fun _ => continue_)) ;;
     return_ false).

(** The body of the retry loop, for one value of [attempt]. *)
Definition signupAttempt (config : AutomationConfig) (attempt : Z)
    : M bool unit :=
  mark (AttemptStart (attempt + 1)) ;;
  tryCatch
    (emailInput <- findEmailInput ;;
     match emailInput with
     | None =>
         on_result (push_error ("Attempt " ++ show_Z (attempt + 1)
                                  ++ ": Email input not found")) ;;
         continue_
     | Some emailInput =>
         fill emailInput (cfg_email config) ;;
         ask drv (WaitForTimeout 500) ;;
         handleCheckboxes ;;
         submitButton <- findSubmitButton ;;
         match submitButton with
         | None =>
             on_result (push_error ("Attempt " ++ show_Z (attempt + 1)
                                      ++ ": Submit button not found")) ;;
             continue_
         | Some submitButton =>
             click submitButton ;;
             ask drv (WaitForTimeout 2000) ;;
             on_result (push_strategy ("Successful on attempt "
                                         ++ show_Z (attempt + 1))) ;;
             (return_ true : M bool unit) ;;
             (* the statements after [return true] *)
             success <- verifySubmissionSuccess ;;
             if success : bool then skip else skip
         end
     end)
    (fun error =>
       on_result (push_error ("Attempt " ++ show_Z (attempt + 1)
                                ++ " failed: " ++ errorText error))) ;;
  if (attempt <? retryAttempts config - 1)%Z then ask drv (WaitForTimeout 1000) else skip.

Definition attemptNewsletterSignup {R} (config : AutomationConfig)
    : M R bool :=
  call false
    (o <- this ;;
     (if negb (f_page o) || negb (f_selectors o)
      then return_ false else skip) ;;
     forOf (zrange 0 (retryAttempts config)) (signupAttempt config) ;;
     return_ false).

Definition blankResult : AutomationResult :=
  mkResult false "" "" 0 [] [] emptyDiagnostics.

(** The statements of the [try] block of [executeAutomation]. *)
Definition navigateAndSignup {R} (config : AutomationConfig) : M R unit :=
  ask drv (Goto (cfg_url config) (Some (cfg_timeout config))) ;;
  d <- Diagnostics.collectDiagnostics drv ;;
  on_result (set_diagnostics d) ;;
  handlePopupsAndModals config ;;
  signupSuccess <- attemptNewsletterSignup config ;;
  if signupSuccess : bool
  then on_result (set_success true)
  else on_result (push_error "Newsletter signup failed after all attempts").

Definition executeAutomation {R} (config : AutomationConfig)
    : M R AutomationResult :=
  call blankResult
    (startTime <- tell drv DateNow ;;
     stamp <- tell drv IsoTimestamp ;;
     on_result (fun _ => mkResult false stamp (cfg_url config) 0 [] []
                           emptyDiagnostics) ;;
     o <- this ;;
     (if negb (f_page o) || negb (f_diagnostics o) || negb (f_selectors o)
      then
        on_result (push_error
          "Automation not initialized. Page, diagnostics, or selectors are null.") ;;
        on_result (set_success false) ;;
        now <- tell drv DateNow ;;
        on_result (set_executionTime (now - startTime)) ;;
        o <- this ;;
        return_ (f_result o)
      else skip) ;;
     tryFinally
       (tryCatch
          (navigateAndSignup config)
          (fun error =>
             on_result (push_error ("Automation failed: "
                                      ++ errorText error))))
       (now <- tell drv DateNow ;;
        on_result (set_executionTime (now - startTime))) ;;
     o <- this ;;
     return_ (f_result o)).

End Methods.
End Newsletter.

(** ** automation/config.ts and automation/runner.ts *)

Module Runner.

Definition defaultConfig : AutomationConfig :=
  mkConfig "https://www.jumia.com.ng/" "miracleolaniyan@yahoo.com"
    60000 3 1500 true.

(** [createConfig({ url, email })] *)
Definition createConfig (url email : string) : AutomationConfig :=
  mkConfig url email (cfg_timeout defaultConfig) (retryAttempts defaultConfig)
    (scrollDelay defaultConfig) (diagnosticMode defaultConfig).

(** [`${error}`] for an error object. *)
Definition errorString (e : Exn) : string :=
  if String.eqb e "" then "Error" else "Error: " ++ e.

Section Methods.
Context {W : Type} (drv : Driver W).
Abbreviation M := (Js.M (St W Newsletter.Fields)).

Definition runSingleSite {R} (url email : string) : M R AutomationResult :=
  call Newsletter.blankResult
    (let config := createConfig url email in
     tryFinally
       (Newsletter.initialize drv ;;
        result <- Newsletter.executeAutomation drv config ;;
        return_ result)
       (Newsletter.cleanup drv)).

(** The loop of [runBatch], with the local [results] threaded through. *)
Fixpoint runBatchFrom {R} (sites : list (string * string))
    (results : list AutomationResult) : M R (list AutomationResult) :=
  match sites with
  | [] => ret results
  | (url, email) :: rest =>
      results <- tryCatch
                   (result <- runSingleSite url email ;;
                    sleep 2000 ;;
                    ret (results ++ [result])%list)
                   (fun error =>
                      stamp <- tell drv IsoTimestamp ;;
                      let failure :=
                        mkResult false stamp url 0 []
                          ["Runner error: " ++ errorString error]
                          emptyDiagnostics in
                      ret (results ++ [failure])%list) ;;
      runBatchFrom rest results
  end.

Definition runBatch {R} (sites : list (string * string))
    : M R (list AutomationResult) :=
  call [] (results <- runBatchFrom sites [] ;; return_ results).

End Methods.
End Runner.

(** ** src/base.ts: class BQLNewsletterAutomation *)

Module Base.

Inductive StrategyContext : Type := CtxMain | CtxIframe | CtxShadow.

Record SelectorStrategy : Type := mkStrategy {
  name : string;
  selectors : list string;
  context : StrategyContext;
  priority : Z
}.

(** The configuration after the constructor merged the defaults in. *)
Record BQLConfig : Type := mkConfig {
  targetUrl : string;
  testEmail : string;
  headless : bool;
  maxRetries : Z;
  timeoutMs : Z;
  enableDiagnostics : bool;
  scrollLockDetection : bool;
  adaptiveScrolling : bool;
  debugMode : bool
}.

Record PerformanceMetrics : Type := mkMetrics {
  totalExecutionTime : Z;
  retryCount : Z;
  scrollEvents : Z;
  domQueries : Z
}.

Record DiagnosticData : Type := mkData {
  timestamp : string;
  url : string;
  frameCount : nat;
  shadowDomElements : Z;
  popupDetected : bool;
  scrollLockDetected : bool;
  formStrategiesAttempted : list string;
  successfulStrategy : option string;
  errorMessage : option string;
  performanceMetrics : PerformanceMetrics
}.

Record Fields : Type := mkFields {
  config : BQLConfig;
  diagnostics : DiagnosticData;
  startTime : Z;
  domQueryCount : Z;
  browserOpen : bool
}.

Definition with_diagnostics (f : DiagnosticData -> DiagnosticData)
    (o : Fields) : Fields :=
  mkFields (config o) (f (diagnostics o)) (startTime o) (domQueryCount o)
    (browserOpen o).

Definition with_metrics (f : PerformanceMetrics -> PerformanceMetrics)
    (d : DiagnosticData) : DiagnosticData :=
  mkData (timestamp d) (url d) (frameCount d) (shadowDomElements d)
    (popupDetected d) (scrollLockDetected d) (formStrategiesAttempted d)
    (successfulStrategy d) (errorMessage d) (f (performanceMetrics d)).

Definition set_frameCount (n : nat) (d : DiagnosticData) : DiagnosticData :=
  mkData (timestamp d) (url d) n (shadowDomElements d)
    (popupDetected d) (scrollLockDetected d) (formStrategiesAttempted d)
    (successfulStrategy d) (errorMessage d) (performanceMetrics d).

Definition incr_shadowDomElements (d : DiagnosticData) : DiagnosticData :=
  mkData (timestamp d) (url d) (frameCount d) (shadowDomElements d + 1)
    (popupDetected d) (scrollLockDetected d) (formStrategiesAttempted d)
    (successfulStrategy d) (errorMessage d) (performanceMetrics d).

Definition set_popupDetected (b : bool) (d : DiagnosticData) : DiagnosticData :=
  mkData (timestamp d) (url d) (frameCount d) (shadowDomElements d)
    b (scrollLockDetected d) (formStrategiesAttempted d)
    (successfulStrategy d) (errorMessage d) (performanceMetrics d).

Definition set_scrollLockDetected (b : bool) (d : DiagnosticData)
    : DiagnosticData :=
  mkData (timestamp d) (url d) (frameCount d) (shadowDomElements d)
    (popupDetected d) b (formStrategiesAttempted d)
    (successfulStrategy d) (errorMessage d) (performanceMetrics d).

Definition push_attempted (n : string) (d : DiagnosticData) : DiagnosticData :=
  mkData (timestamp d) (url d) (frameCount d) (shadowDomElements d)
    (popupDetected d) (scrollLockDetected d) (formStrategiesAttempted d ++ [n])
    (successfulStrategy d) (errorMessage d) (performanceMetrics d).

Definition set_successfulStrategy (n : string) (d : DiagnosticData)
    : DiagnosticData :=
  mkData (timestamp d) (url d) (frameCount d) (shadowDomElements d)
    (popupDetected d) (scrollLockDetected d) (formStrategiesAttempted d)
    (Some n) (errorMessage d) (performanceMetrics d).

Definition set_errorMessage (m : string) (d : DiagnosticData) : DiagnosticData :=
  mkData (timestamp d) (url d) (frameCount d) (shadowDomElements d)
    (popupDetected d) (scrollLockDetected d) (formStrategiesAttempted d)
    (successfulStrategy d) (Some m) (performanceMetrics d).

Definition set_retryCount (n : Z) (m : PerformanceMetrics) : PerformanceMetrics :=
  mkMetrics (totalExecutionTime m) n (scrollEvents m) (domQueries m).

Definition incr_scrollEvents (m : PerformanceMetrics) : PerformanceMetrics :=
  mkMetrics (totalExecutionTime m) (retryCount m) (scrollEvents m + 1)
    (domQueries m).

Definition set_domQueries (n : Z) (m : PerformanceMetrics) : PerformanceMetrics :=
  mkMetrics (totalExecutionTime m) (retryCount m) (scrollEvents m) n.

Definition set_totalExecutionTime (t : Z) (m : PerformanceMetrics)
    : PerformanceMetrics :=
  mkMetrics t (retryCount m) (scrollEvents m) (domQueries m).

Definition emailType : string := "input[type=" ++ quoted "email" ++ "]".

Definition selectorStrategies : list SelectorStrategy :=
  [ mkStrategy "standard-email-forms"
      [ "form " ++ emailType;
        "form input[name*=" ++ quoted "email" ++ " i]";
        "form input[placeholder*=" ++ quoted "email" ++ " i]";
        "form input[id*=" ++ quoted "email" ++ " i]";
        "form input[class*=" ++ quoted "email" ++ " i]" ]
      CtxMain 1;
    mkStrategy "newsletter-specific"
      [ "form[class*=" ++ quoted "newsletter" ++ "] " ++ emailType;
        "form[id*=" ++ quoted "newsletter" ++ "] " ++ emailType;
        "div[class*=" ++ quoted "newsletter" ++ "] " ++ emailType;
        "section[class*=" ++ quoted "newsletter" ++ "] " ++ emailType;
        "[data-newsletter] " ++ emailType ]
      CtxMain 2;
    mkStrategy "subscription-forms"
      [ "form[class*=" ++ quoted "subscribe" ++ "] " ++ emailType;
        "form[id*=" ++ quoted "subscribe" ++ "] " ++ emailType;
        "div[class*=" ++ quoted "subscribe" ++ "] " ++ emailType;
        "[data-subscribe] " ++ emailType;
        "form[class*=" ++ quoted "signup" ++ "] " ++ emailType ]
      CtxMain 3;
    mkStrategy "popup-modal-forms"
      [ "div[role=" ++ quoted "dialog" ++ "] " ++ emailType;
        ".modal " ++ emailType;
        ".popup " ++ emailType;
        "[aria-modal=" ++ quoted "true" ++ "] " ++ emailType;
        ".overlay " ++ emailType ]
      CtxMain 4;
    mkStrategy "iframe-embedded"
      [ emailType;
        "input[name*=" ++ quoted "email" ++ " i]";
        "input[placeholder*=" ++ quoted "email" ++ " i]" ]
      CtxIframe 5;
    mkStrategy "shadow-dom-components"
      [ emailType;
        "input[name*=" ++ quoted "email" ++ " i]" ]
      CtxShadow 6 ].

Definition popupSelectors : list string :=
  [ "div[role=" ++ quoted "dialog" ++ "]"; ".modal"; ".popup";
    "[aria-modal=" ++ quoted "true" ++ "]"; ".overlay"; "[data-popup]";
    "[data-modal]"; ".newsletter-popup"; ".subscribe-popup" ].

Definition closeSelectors : list string :=
  [ "button[aria-label*=" ++ quoted "close" ++ " i]";
    "button[aria-label*=" ++ quoted "dismiss" ++ " i]";
    ".close"; ".close-btn"; "[data-close]";
    "button:has-text(" ++ quoted "×" ++ ")";
    "button:has-text(" ++ quoted "Close" ++ ")" ].

Definition submitSelectors : list string :=
  [ "button[type=" ++ quoted "submit" ++ "]";
    "input[type=" ++ quoted "submit" ++ "]";
    "button:has-text(" ++ quoted "Subscribe" ++ ")";
    "button:has-text(" ++ quoted "Sign Up" ++ ")";
    "button:has-text(" ++ quoted "Join" ++ ")";
    "button:has-text(" ++ quoted "Submit" ++ ")";
    "button";
    "[data-submit]" ].

Definition frameSubmitSelectors : list string :=
  [ "button[type=" ++ quoted "submit" ++ "]";
    "input[type=" ++ quoted "submit" ++ "]";
    "button:has-text(" ++ quoted "Subscribe" ++ ")";
    "button:has-text(" ++ quoted "Sign Up" ++ ")";
    "button" ].

Definition scrollSteps : list Q := [1 # 4; 1 # 2; 3 # 4; 1 # 1]%Q.

(** [Array.prototype.sort] with the comparator [a.priority - b.priority]:
    a stable sort by ascending priority. *)
Fixpoint insertByPriority (x : SelectorStrategy) (l : list SelectorStrategy)
    : list SelectorStrategy :=
  match l with
  | [] => [x]
  | y :: rest =>
      if (priority x <=? priority y)%Z then x :: l
      else y :: insertByPriority x rest
  end.

Definition sortByPriority (l : list SelectorStrategy) : list SelectorStrategy :=
  fold_right insertByPriority [] l.

(** [s.includes(sub)] *)
Definition includes (s sub : string) : bool :=
  match String.index 0 sub s with
  | Some _ => true
  | None => false
  end.

Section Methods.
Context {W : Type} (drv : Driver W).
Abbreviation M := (Js.M (St W Fields)).

Definition on_diagnostics {R} (f : DiagnosticData -> DiagnosticData)
    : M R unit :=
  update (with_diagnostics f).

Definition initializeBrowser {R} : M R unit :=
  call tt
    (o <- this ;;
     ask drv (Launch (headless (config o))) ;;
     update (fun o => mkFields (config o) (diagnostics o) (startTime o)
                        (domQueryCount o) true) ;;
     ask drv NewContext ;;
     ask drv NewPage).

Definition navigateToTarget {R} : M R unit :=
  call tt
    (o <- this ;;
     ask drv (Goto (targetUrl (config o)) (Some (timeoutMs (config o)))) ;;
     ask drv (WaitForTimeout 2000)).

Definition queryElement {R} (selector : string) : M R (option Handle) :=
  call None
    (update (fun o => mkFields (config o) (diagnostics o) (startTime o)
                        (domQueryCount o + 1) (browserOpen o)) ;;
     o <- this ;;
     on_diagnostics (with_metrics (set_domQueries (domQueryCount o))) ;;
     tryCatch
       (h <- ask drv (QueryFirst PageRoot selector) ;; return_ h)
       (fun _ => return_ None)).

Definition findSubmitButton {R} (emailInput : Handle) : M R (option Handle) :=
  call None
    (form <- ask drv (ClosestForm emailInput) ;;
     forOf submitSelectors (fun selector =>
       btn <- ask drv (QueryFirst (HandleRoot form) selector) ;;
       match btn with
       | Some btn => return_ (Some btn)
       | None => skip
       end) ;;
     return_ None).

Definition findSubmitButtonInFrame {R} (frame : Frame) (emailInput : Handle)
    : M R (option Handle) :=
  call None
    (forOf frameSubmitSelectors (fun selector =>
       btn <- ask drv (QueryFirst (FrameRoot frame) selector) ;;
       match btn with
       | Some btn => return_ (Some btn)
       | None => skip
       end) ;;
     return_ None).

Definition executeMainFrameStrategy {R} (strategy : SelectorStrategy)
    : M R bool :=
  call false
    (forOf (selectors strategy) (fun selector =>
       emailInput <- queryElement selector ;;
       match emailInput with
       | Some emailInput =>
           submitButton <- findSubmitButton emailInput ;;
           match submitButton with
           | Some submitButton =>
               o <- this ;;
               ask drv (HFill emailInput (testEmail (config o))) ;;
               ask drv (WaitForTimeout 500) ;;
               ask drv (HClick submitButton) ;;
               return_ true
           | None => skip
           end
       | None => skip
       end) ;;
     return_ false).

Definition executeIframeStrategy {R} (strategy : SelectorStrategy)
    : M R bool :=
  call false
    (frames <- tell drv Frames ;;
     on_diagnostics (set_frameCount (length frames)) ;;
     forOf frames (fun frame =>
       frameUrl <- tell drv (FrameUrl frame) ;;
       (if includes frameUrl "about:blank" then continue_ else skip) ;;
       tryCatch
         (forOf (selectors strategy) (fun selector =>
            emailInput <- ask drv (QueryFirst (FrameRoot frame) selector) ;;
            match emailInput with
            | Some emailInput =>
                submitButton <- findSubmitButtonInFrame frame emailInput ;;
                match submitButton with
                | Some submitButton =>
                    o <- this ;;
                    ask drv (HFill emailInput (testEmail (config o))) ;;
                    ask drv (FrameWaitForTimeout frame 500) ;;
                    ask drv (HClick submitButton) ;;
                    return_ true
                | None => skip
                end
            | None => skip
            end))
         (fun _ => skip)) ;;
     return_ false).

(** An undefined value where a string is expected: [querySelector] takes
    the text of its argument. *)
Definition textOf (v : option string) : string :=
  match v with Some text => text | None => "undefined" end.

(** The function that [handleShadowDomForm] hands to [host.evaluate], with
    its three parameters; [sel] is [None] when the parameter is undefined.
    It fills and clicks when the shadow root holds both elements, and
    returns whether it did. *)
Definition shadowFormScript {R} (el : Handle) (email : string)
    (sel : option string) : M R bool :=
  call false
    (shadowRoot <- ask drv (InPageShadowRoot el) ;;
     match shadowRoot with
     | Some shadowRoot =>
         emailInput <- ask drv (InPageQuerySelector shadowRoot (textOf sel)) ;;
         submitBtn <- ask drv (InPageQuerySelector shadowRoot
                       ("button[type=" ++ quoted "submit" ++ "], button")) ;;
         match emailInput, submitBtn with
         | Some emailInput, Some submitBtn =>
             ask drv (InPageSetValue emailInput email) ;;
             ask drv (InPageClick submitBtn) ;;
             return_ true
         | _, _ => skip
         end
     | None => skip
     end ;;
     return_ false).

(** [host.evaluate(script, email, selector)].  [evaluate] takes the function
    and one argument for it.  The driver is handed both values and may
    reject the call for their number; when it accepts, the function runs in
    the page on [host] and on the first value only: its third parameter is
    undefined, and [selector] does not reach the page. *)
Definition evaluateShadowForm {R} (host : Handle) (email selector : string)
    : M R bool :=
  ask drv (EvaluateOn host [email; selector]) ;;
  shadowFormScript host email None.

Definition handleShadowDomForm {R} (host : Handle) (selector : string)
    : M R bool :=
  call false
    (tryCatch
       (o <- this ;;
        evaluateShadowForm host (testEmail (config o)) selector ;;
        return_ true)
       (fun _ => return_ false)).

Definition executeShadowDomStrategy {R} (strategy : SelectorStrategy)
    : M R bool :=
  call false
    (shadowHosts <- ask drv (QueryAll "*") ;;
     forOf shadowHosts (fun host =>
       tryCatch
         (hasShadowRoot <- ask drv (HasShadowRoot host) ;;
          if hasShadowRoot : bool then
            on_diagnostics incr_shadowDomElements ;;
            forOf (selectors strategy) (fun selector =>
              emailInput <- ask drv (ShadowQuery host selector) ;;
              match emailInput with
              | Some _ =>
                  success <- handleShadowDomForm host selector ;;
                  if success : bool then return_ true else skip
              | None => skip
              end)
          else skip)
         (fun _ => skip)) ;;
     return_ false).

Definition executeFormStrategies {R} : M R bool :=
  call false
    (let sortedStrategies := sortByPriority selectorStrategies in
     forOf sortedStrategies (fun strategy =>
       tryCatch
         (on_diagnostics (push_attempted (name strategy)) ;;
          success <- match context strategy with
                     | CtxMain => executeMainFrameStrategy strategy
                     | CtxIframe => executeIframeStrategy strategy
                     | CtxShadow => executeShadowDomStrategy strategy
                     end ;;
          if success : bool then
            on_diagnostics (set_successfulStrategy (name strategy)) ;;
            return_ true
          else skip)
         (fun _ => skip)) ;;
     return_ false).

Definition detectScrollLock {R} : M R bool :=
  call false
    (o <- this ;;
     (if negb (scrollLockDetection (config o))
      then return_ false else skip) ;;
     tryCatch
       (scrollLocked <- ask drv ComputedScrollLocked ;;
        return_ scrollLocked)
       (fun _ => return_ false)).

Definition closePopup {R} (popup : Handle) : M R unit :=
  call tt
    (forOf closeSelectors (fun selector =>
       closeBtn <- ask drv (QueryFirst (HandleRoot popup) selector) ;;
       match closeBtn with
       | Some closeBtn =>
           ask drv (HClick closeBtn) ;;
           ask drv (WaitForTimeout 1000) ;;
           return_ tt
       | None => skip
       end)).

Definition handleAdvancedPopups {R} : M R unit :=
  call tt
    (forOf popupSelectors (fun selector =>
       popup <- queryElement selector ;;
       match popup with
       | Some popup =>
           on_diagnostics (set_popupDetected true) ;;
           popupForm <- ask drv (QueryFirst (HandleRoot popup) emailType) ;;
           match popupForm with
           | Some popupForm =>
               submitBtn <- findSubmitButton popupForm ;;
               match submitBtn with
               | Some submitBtn =>
                   o <- this ;;
                   ask drv (HFill popupForm (testEmail (config o))) ;;
                   ask drv (HClick submitBtn) ;;
                   return_ tt
               | None => skip
               end
           | None => skip
           end ;;
           closePopup popup
       | None => skip
       end)).

Definition performAdaptiveScrolling {R} : M R unit :=
  call tt
    (forOf scrollSteps (fun step =>
       ask drv (ScrollDocFraction step) ;;
       on_diagnostics (with_metrics incr_scrollEvents) ;;
       ask drv (WaitForTimeout 1500))).

Definition gatherDebugInfo {R} : M R string :=
  call ""
    (tryCatch
       (info <- ask drv DebugInfo ;; return_ info)
       (fun err => return_ ("{ error: " ++ err ++ " }"))).

(** The body of the retry loop, for one value of [attempt]. *)
Definition signupAttempt (attempt : Z) : M bool unit :=
  mark (AttemptStart attempt) ;;
  tryCatch
    (on_diagnostics (with_metrics (set_retryCount attempt)) ;;
     scrollLocked <- detectScrollLock ;;
     (if scrollLocked : bool
      then on_diagnostics (set_scrollLockDetected true) else skip) ;;
     handleAdvancedPopups ;;
     success <- executeFormStrategies ;;
     (if success : bool then return_ true else skip) ;;
     o <- this ;;
     (if adaptiveScrolling (config o)
      then performAdaptiveScrolling else skip) ;;
     ask drv (WaitForTimeout 2000))
    (fun _ =>
       o <- this ;;
       if debugMode (config o)
       then (gatherDebugInfo ;; skip) else skip).

Definition executeNewsletterSignup {R} : M R bool :=
  call false
    (o <- this ;;
     forOf (zrange 1 (maxRetries (config o) + 1)) signupAttempt ;;
     return_ false).

Definition cleanup {R} : M R unit :=
  call tt
    (now <- tell drv DateNow ;;
     o <- this ;;
     on_diagnostics (with_metrics (set_totalExecutionTime (now - startTime o))) ;;
     if browserOpen o then ask drv CloseBrowser else skip).

Definition run {R} : M R bool :=
  call false
    (now <- tell drv DateNow ;;
     update (fun o => mkFields (config o) (diagnostics o) now
                        (domQueryCount o) (browserOpen o)) ;;
     tryFinally
       (tryCatch
          (initializeBrowser ;;
           navigateToTarget ;;
           success <- executeNewsletterSignup ;;
           if success : bool then return_ true
           else throw "❌ All signup strategies failed")
          (fun err =>
             on_diagnostics (set_errorMessage err) ;;
             return_ false))
       cleanup).

End Methods.

(** The configuration as a caller writes it: the optional keys may be
    missing. *)
Record RawConfig : Type := mkRaw {
  raw_targetUrl : string;
  raw_testEmail : string;
  raw_headless : option bool;
  raw_maxRetries : option Z;
  raw_timeoutMs : option Z;
  raw_enableDiagnostics : option bool;
  raw_scrollLockDetection : option bool;
  raw_adaptiveScrolling : option bool;
  raw_debugMode : option bool
}.

Definition orDefault {A} (d : A) (o : option A) : A :=
  match o with Some a => a | None => d end.

(** The object literal of the constructor: the defaults, then the keys of
    [config] spread over them. *)
Definition withDefaults (c : RawConfig) : BQLConfig :=
  mkConfig (raw_targetUrl c) (raw_testEmail c)
    (orDefault false (raw_headless c))
    (orDefault 5%Z (raw_maxRetries c))
    (orDefault 30000%Z (raw_timeoutMs c))
    (orDefault true (raw_enableDiagnostics c))
    (orDefault true (raw_scrollLockDetection c))
    (orDefault true (raw_adaptiveScrolling c))
    (orDefault true (raw_debugMode c)).

Section Construction.
Context {W : Type} (drv : Driver W) {X : Type}.

(** [new BQLNewsletterAutomation(config)], run by a caller whose own fields
    are [X]. *)
Definition constructor {R} (config : RawConfig)
    : Js.M (St W X) R Fields :=
  let merged := withDefaults config in
  stamp <- tell drv IsoTimestamp ;;
  ret (mkFields merged
         (mkData stamp (targetUrl merged) 0 0 false false [] None None
            (mkMetrics 0 0 0 0))
         0 0 false).

End Construction.

Definition getDiagnostics (o : Fields) : DiagnosticData := diagnostics o.

End Base.

(** ** src/BQLRunner.ts: class BQLRunner *)

Module BqlRunner.

Record Fields : Type := mkFields {
  automations : list (string * Base.Fields)
}.

Section Methods.
Context {W : Type} (drv : Driver W).
Abbreviation M := (Js.M (St W Fields)).

Definition runSingleTarget {R} (config : Base.RawConfig) : M R bool :=
  call false
    (automation <- Base.constructor drv config ;;
     ran <- invoke automation (Base.run drv) ;;
     let '(success, automation) := ran in
     update (fun o => mkFields (JsMap.set (Base.raw_targetUrl config)
                                  automation (automations o))) ;;
     return_ success).

(** The loop of [runMultipleTargets], with the local [results] threaded
    through. *)
Fixpoint runTargetsFrom {R} (configs : list Base.RawConfig)
    (results : list (string * bool)) : M R (list (string * bool)) :=
  match configs with
  | [] => ret results
  | config :: rest =>
      success <- runSingleTarget config ;;
      let results := JsMap.set (Base.raw_targetUrl config) success results in
      sleep 2000 ;;
      runTargetsFrom rest results
  end.

Definition runMultipleTargets {R} (configs : list Base.RawConfig)
    : M R (list (string * bool)) :=
  call [] (results <- runTargetsFrom configs [] ;; return_ results).

Definition getAutomationDiagnostics {R} (url : string)
    : M R (option Base.DiagnosticData) :=
  call None
    (o <- this ;;
     match JsMap.get url (automations o) with
     | Some automation => return_ (Some (Base.getDiagnostics automation))
     | None => return_ None
     end).

Definition getAllDiagnostics {R} : M R (list (string * Base.DiagnosticData)) :=
  call []
    (o <- this ;;
     return_ (fold_left
                (fun diagnostics entry =>
                   JsMap.set (fst entry) (Base.getDiagnostics (snd entry))
                     diagnostics)
                (automations o) [])).

End Methods.
End BqlRunner.

(** ** src/index.ts: class NewsletterAutomation *)

Module Index.

(** The configuration after the constructor filled the defaults in. *)
Record AutomationConfig : Type := mkConfig {
  targetUrl : string;
  testEmail : string;
  headless : bool;
  maxRetries : Z;
  timeoutMs : Z;
  enableDiagnostics : bool
}.

Record PerformanceMetrics : Type := mkMetrics {
  pageLoadTime : Z;
  totalExecutionTime : Z
}.

Record DiagnosticData : Type := mkData {
  timestamp : string;
  url : string;
  frameCount : nat;
  shadowDomElements : Z;
  popupDetected : bool;
  scrollLocked : bool;
  successStrategy : option string;
  failureReasons : list string;
  performanceMetrics : PerformanceMetrics
}.

(** The local variables that a loop body assigns and the code after the
    loop reads: [popupTriggered] of [adaptiveScroll], [emailInput] of
    [handleIframe], [success] of [run].  They are kept in the store next to
    the fields of the object. *)
Record Locals : Type := mkLocals {
  popupTriggered : bool;
  emailInput : option Handle;
  success : bool
}.

(** The private fields; a [bool] tells whether the reference is non-null. *)
Record Fields : Type := mkFields {
  browser : bool;
  context : bool;
  page : bool;
  diagnostics : DiagnosticData;
  config : AutomationConfig;
  startTime : Z;
  locals : Locals
}.

Definition with_diagnostics (f : DiagnosticData -> DiagnosticData)
    (o : Fields) : Fields :=
  mkFields (browser o) (context o) (page o) (f (diagnostics o)) (config o)
    (startTime o) (locals o).

Definition with_locals (f : Locals -> Locals) (o : Fields) : Fields :=
  mkFields (browser o) (context o) (page o) (diagnostics o) (config o)
    (startTime o) (f (locals o)).

Definition with_metrics (f : PerformanceMetrics -> PerformanceMetrics)
    (d : DiagnosticData) : DiagnosticData :=
  mkData (timestamp d) (url d) (frameCount d) (shadowDomElements d)
    (popupDetected d) (scrollLocked d) (successStrategy d) (failureReasons d)
    (f (performanceMetrics d)).

Definition set_frameCount (n : nat) (d : DiagnosticData) : DiagnosticData :=
  mkData (timestamp d) (url d) n (shadowDomElements d)
    (popupDetected d) (scrollLocked d) (successStrategy d) (failureReasons d)
    (performanceMetrics d).

Definition incr_shadowDomElements (d : DiagnosticData) : DiagnosticData :=
  mkData (timestamp d) (url d) (frameCount d) (shadowDomElements d + 1)
    (popupDetected d) (scrollLocked d) (successStrategy d) (failureReasons d)
    (performanceMetrics d).

Definition set_popupDetected (b : bool) (d : DiagnosticData) : DiagnosticData :=
  mkData (timestamp d) (url d) (frameCount d) (shadowDomElements d)
    b (scrollLocked d) (successStrategy d) (failureReasons d)
    (performanceMetrics d).

Definition set_scrollLocked (b : bool) (d : DiagnosticData) : DiagnosticData :=
  mkData (timestamp d) (url d) (frameCount d) (shadowDomElements d)
    (popupDetected d) b (successStrategy d) (failureReasons d)
    (performanceMetrics d).

Definition set_successStrategy (n : string) (d : DiagnosticData)
    : DiagnosticData :=
  mkData (timestamp d) (url d) (frameCount d) (shadowDomElements d)
    (popupDetected d) (scrollLocked d) (Some n) (failureReasons d)
    (performanceMetrics d).

Definition push_failure (reason : string) (d : DiagnosticData)
    : DiagnosticData :=
  mkData (timestamp d) (url d) (frameCount d) (shadowDomElements d)
    (popupDetected d) (scrollLocked d) (successStrategy d)
    (failureReasons d ++ [reason]) (performanceMetrics d).

Definition set_pageLoadTime (t : Z) (m : PerformanceMetrics)
    : PerformanceMetrics :=
  mkMetrics t (totalExecutionTime m).

Definition set_totalExecutionTime (t : Z) (m : PerformanceMetrics)
    : PerformanceMetrics :=
  mkMetrics (pageLoadTime m) t.

Definition set_popupTriggered (b : bool) (l : Locals) : Locals :=
  mkLocals b (emailInput l) (success l).

Definition set_emailInput (h : option Handle) (l : Locals) : Locals :=
  mkLocals (popupTriggered l) h (success l).

Definition set_success (b : bool) (l : Locals) : Locals :=
  mkLocals (popupTriggered l) (emailInput l) b.

Definition emailType : string := "input[type=" ++ quoted "email" ++ "]".

(** [scrollSteps] of [adaptiveScroll]: 30%, 60% and 90% of the page. *)
Definition scrollSteps : list Q := [3 # 10; 6 # 10; 9 # 10]%Q.

(** [popupSelectors] of [adaptiveScroll]. *)
Definition popupSelectors : list string :=
  [ "[class*=" ++ quoted "popup" ++ "]";
    "[class*=" ++ quoted "modal" ++ "]";
    "[class*=" ++ quoted "newsletter" ++ "]";
    "[id*=" ++ quoted "popup" ++ "]";
    "[data-popup]" ].

(** [emailSelectors] and [submitSelectors] of [handleIframe]. *)
Definition frameEmailSelectors : list string :=
  [ emailType;
    "input[name*=" ++ quoted "email" ++ "]";
    "input[placeholder*=" ++ quoted "email" ++ " i]";
    "input[id*=" ++ quoted "email" ++ "]";
    ".email-input input" ].

Definition frameSubmitSelectors : list string :=
  [ "button:has-text(" ++ quoted "Subscribe" ++ ")";
    "button:has-text(" ++ quoted "Sign Up" ++ ")";
    "button:has-text(" ++ quoted "Submit" ++ ")";
    "input[type=" ++ quoted "submit" ++ "]";
    "button[type=" ++ quoted "submit" ++ "]";
    ".submit-btn";
    ".subscribe-btn" ].

Record ModalStrategy : Type := mkModalStrategy {
  ms_selectors : list string;
  ms_type : string
}.

Definition modalStrategies : list ModalStrategy :=
  [ mkModalStrategy
      [ "button:has-text(" ++ quoted "Accept" ++ ")";
        "button:has-text(" ++ quoted "Allow" ++ ")";
        ".cookie-accept" ]
      "GDPR";
    mkModalStrategy
      [ "button:has-text(" ++ quoted "Yes" ++ ")";
        "button:has-text(" ++ quoted "I am" ++ ")";
        ".age-verify" ]
      "Age Verification";
    mkModalStrategy
      [ "button[aria-label=" ++ quoted "Close" ++ "]";
        ".popup-close"; ".modal-close"; "[data-dismiss]" ]
      "Close Modal" ].

(** [emailSelectors] and [submitSelectors] of [tryDirectSubmission]. *)
Definition directEmailSelectors : list string :=
  [ emailType;
    "input[name*=" ++ quoted "email" ++ " i]";
    "input[placeholder*=" ++ quoted "email" ++ " i]";
    "input[aria-label*=" ++ quoted "email" ++ " i]" ].

Definition checkboxSelector : string :=
  "input[type=" ++ quoted "checkbox" ++ "]:not([disabled])".

Definition directSubmitSelectors : list string :=
  [ "button:has-text(" ++ quoted "Subscribe" ++ ")";
    "button:has-text(" ++ quoted "Sign Up" ++ ")";
    "button:has-text(" ++ quoted "Submit" ++ ")";
    "input[type=" ++ quoted "submit" ++ "]";
    "button[type=" ++ quoted "submit" ++ "]" ].

Definition subscribeButton : string :=
  "button:has-text(" ++ quoted "Subscribe" ++ ")".

Definition exhaustedMessage : string := "All submission strategies exhausted".

Section Methods.
Context {W : Type} (drv : Driver W).
Abbreviation M := (Js.M (St W Fields)).

Definition on_diagnostics {R} (f : DiagnosticData -> DiagnosticData)
    : M R unit :=
  update (with_diagnostics f).

(** Assignment to a local kept in the store. *)
Definition assign {R} (f : Locals -> Locals) : M R unit :=
  update (with_locals f).

(** Every caller passes [timeout]; its default is not used. *)
Definition trySelector {R} (pageOrFrame : QRoot) (selector : string)
    (timeout : Z) : M R (option Handle) :=
  call None
    (let strategies :=
       [ selector; singleQuoted selector; toLowerCase selector;
         trim (collapseSpace false selector) ] in
     forOf strategies (fun strategy =>
       tryCatch
         (element <- ask drv (WaitForSelector pageOrFrame strategy timeout) ;;
          match element with
          | Some element => return_ (Some element)
          | None => skip
          end)
         (fun _ => skip)) ;;
     on_diagnostics
       (push_failure ("All selector strategies failed for: " ++ selector)) ;;
     return_ None).

Definition queryShadowDom {R} (selector : string) : M R (option Handle) :=
  call None
    (let shadowStrategies := [ ">>> " ++ selector; selector ] in
     forOf shadowStrategies (fun strategy =>
       tryCatch
         (element <- ask drv (WaitForSelector PageRoot strategy 3000) ;;
          match element with
          | Some element =>
              on_diagnostics incr_shadowDomElements ;;
              return_ (Some element)
          | None => skip
          end)
         (fun _ => skip)) ;;
     return_ None).

Definition adaptiveScroll {R} : M R bool :=
  call false
    (assign (set_popupTriggered false) ;;
     forOf scrollSteps (fun step =>
       tryCatch
         (ask drv (ScrollBodyFraction step) ;;
          ask drv (WaitForTimeout 1500) ;;
          forOf popupSelectors (fun popupSelector =>
            popup <- trySelector PageRoot popupSelector 1000 ;;
            match popup with
            | Some _ =>
                on_diagnostics (set_popupDetected true) ;;
                assign (set_popupTriggered true) ;;
                break_
            | None => skip
            end) ;;
          o <- this ;;
          if popupTriggered (locals o) then break_ else skip)
         (fun _ => skip)) ;;
     o <- this ;;
     return_ (popupTriggered (locals o))).

Definition handleIframe {R} (email : string) : M R bool :=
  call false
    (frames <- tell drv Frames ;;
     on_diagnostics (set_frameCount (length frames)) ;;
     forOf frames (fun frame =>
       tryCatch
         (frameUrl <- tell drv (FrameUrl frame) ;;
          (if String.eqb frameUrl "about:blank" then continue_ else skip) ;;
          assign (set_emailInput None) ;;
          forOf frameEmailSelectors (fun selector =>
            found <- trySelector (FrameRoot frame) selector 2000 ;;
            assign (set_emailInput found) ;;
            match found with
            | Some _ => break_
            | None => skip
            end) ;;
          o <- this ;;
          match emailInput (locals o) with
          | Some emailInput =>
              ask drv (HFill emailInput email) ;;
              forOf frameSubmitSelectors (fun selector =>
                submitBtn <- trySelector (FrameRoot frame) selector 2000 ;;
                match submitBtn with
                | Some submitBtn =>
                    ask drv (HClick submitBtn) ;;
                    on_diagnostics
                      (set_successStrategy ("iframe-" ++ selector)) ;;
                    return_ true
                | None => skip
                end)
          | None => skip
          end)
         (fun error =>
            frameUrl <- tell drv (FrameUrl frame) ;;
            on_diagnostics
              (push_failure ("Iframe error: " ++ frameUrl ++ " - "
                               ++ Runner.errorString error)))) ;;
     return_ false).

Definition handleModalsAndPopups {R} : M R unit :=
  call tt
    (scrollLocked <- ask drv StyleOverflowHidden ;;
     on_diagnostics (set_scrollLocked scrollLocked) ;;
     forOf modalStrategies (fun strategy =>
       forOf (ms_selectors strategy) (fun selector =>
         element <- trySelector PageRoot selector 2000 ;;
         match element with
         | Some element =>
             ask drv (HClick element) ;;
             ask drv (WaitForTimeout 1000) ;;
             break_
         | None => skip
         end))).

Definition tryDirectSubmission {R} : M R bool :=
  call false
    (o <- this ;;
     (if negb (page o) then return_ false else skip) ;;
     forOf directEmailSelectors (fun emailSelector =>
       emailInput <- trySelector PageRoot emailSelector 3000 ;;
       match emailInput with
       | Some emailInput =>
           ask drv (HFill emailInput (testEmail (config o))) ;;
           checkbox <- trySelector PageRoot checkboxSelector 2000 ;;
           match checkbox with
           | Some checkbox =>
               isChecked <- ask drv (HIsChecked checkbox) ;;
               if negb isChecked then ask drv (HCheck checkbox) else skip
           | None => skip
           end ;;
           forOf directSubmitSelectors (fun submitSelector =>
             submitBtn <- trySelector PageRoot submitSelector 2000 ;;
             match submitBtn with
             | Some submitBtn =>
                 ask drv (HClick submitBtn) ;;
                 on_diagnostics
                   (set_successStrategy ("direct-" ++ submitSelector)) ;;
                 return_ true
             | None => skip
             end)
       | None => skip
       end) ;;
     return_ false).

Definition tryShadowDomSubmission {R} : M R bool :=
  call false
    (o <- this ;;
     (if negb (page o) then return_ false else skip) ;;
     emailInput <- queryShadowDom emailType ;;
     match emailInput with
     | Some emailInput =>
         ask drv (HFill emailInput (testEmail (config o))) ;;
         submitBtn <- queryShadowDom subscribeButton ;;
         match submitBtn with
         | Some submitBtn =>
             ask drv (HClick submitBtn) ;;
             on_diagnostics (set_successStrategy "shadow-dom") ;;
             return_ true
         | None => skip
         end
     | None => skip
     end ;;
     return_ false).

Definition tryScrollTriggeredSubmission {R} : M R bool :=
  call false
    (o <- this ;;
     (if negb (page o) then return_ false else skip) ;;
     ask drv ScrollBodyBottom ;;
     ask drv (WaitForTimeout 2000) ;;
     ask drv (MouseMove 0 0) ;;
     ask drv (WaitForTimeout 1000) ;;
     submitted <- tryDirectSubmission ;;
     return_ submitted).

Definition executeAutomation {R} : M R bool :=
  call false
    (o <- this ;;
     (if negb (page o) then throw "Page not initialized" else skip) ;;
     pageLoadStart <- tell drv DateNow ;;
     ask drv (Goto (targetUrl (config o)) None) ;;
     now <- tell drv DateNow ;;
     on_diagnostics (with_metrics (set_pageLoadTime (now - pageLoadStart))) ;;
     ask drv (WaitForTimeout 3000) ;;
     handleModalsAndPopups ;;
     adaptiveScroll ;;
     directSuccess <- tryDirectSubmission ;;
     (if directSuccess : bool then return_ true else skip) ;;
     shadowSuccess <- tryShadowDomSubmission ;;
     (if shadowSuccess : bool then return_ true else skip) ;;
     iframeSuccess <- handleIframe (testEmail (config o)) ;;
     (if iframeSuccess : bool then return_ true else skip) ;;
     scrollSuccess <- tryScrollTriggeredSubmission ;;
     (if scrollSuccess : bool then return_ true else skip) ;;
     on_diagnostics (push_failure exhaustedMessage) ;;
     return_ false).

Definition generateDiagnosticReport {R} : M R unit :=
  call tt
    (o <- this ;;
     (if negb (enableDiagnostics (config o)) then return_ tt else skip) ;;
     now <- tell drv DateNow ;;
     on_diagnostics
       (with_metrics (set_totalExecutionTime (now - startTime o)))).

Definition cleanup {R} : M R unit :=
  call tt
    (tryCatch
       (o <- this ;;
        if browser o then ask drv CloseBrowser else skip)
       (fun _ => skip)).

(** The body of the [while] loop of [run], for one value of [attempt].
    [attempt] starts at 1, the statement that closes the body adds one to
    it and nothing else assigns it; the loop is left when [attempt] exceeds
    [maxRetries], or at the [break] that follows a success, which is also
    the only way for [success] to be true when the condition is tested. *)
Definition attemptStep (attempt : Z) : M bool unit :=
  mark (AttemptStart attempt) ;;
  tryCatch
    (submitted <- executeAutomation ;;
     assign (set_success submitted) ;;
     if submitted : bool then break_ else ask drv (WaitForTimeout 2000))
    (fun error =>
       on_diagnostics
         (push_failure ("Attempt " ++ show_Z attempt ++ ": "
                          ++ Runner.errorString error))).

(** The response listener that [run] registers on the page only writes to
    the console; it is left out. *)
Definition run {R} : M R bool :=
  call false
    (now <- tell drv DateNow ;;
     update (fun o => mkFields (browser o) (context o) (page o)
                        (diagnostics o) (config o) now (locals o)) ;;
     tryFinally
       (tryCatch
          (o <- this ;;
           ask drv (Launch (headless (config o))) ;;
           update (fun o => mkFields true (context o) (page o)
                              (diagnostics o) (config o) (startTime o)
                              (locals o)) ;;
           ask drv NewContext ;;
           update (fun o => mkFields (browser o) true (page o)
                              (diagnostics o) (config o) (startTime o)
                              (locals o)) ;;
           ask drv NewPage ;;
           update (fun o => mkFields (browser o) (context o) true
                              (diagnostics o) (config o) (startTime o)
                              (locals o)) ;;
           assign (set_success false) ;;
           forOf (zrange 1 (maxRetries (config o) + 1)) attemptStep ;;
           o <- this ;;
           (if success (locals o) then ask drv (WaitForTimeout 3000) else skip) ;;
           return_ (success (locals o)))
          (fun error =>
             on_diagnostics
               (push_failure ("Critical failure: "
                                ++ Runner.errorString error)) ;;
             return_ false))
       (generateDiagnosticReport ;; cleanup)).

End Methods.

(** The configuration as a caller writes it. *)
Record RawConfig : Type := mkRaw {
  raw_targetUrl : string;
  raw_testEmail : option string;
  raw_headless : option bool;
  raw_maxRetries : option Z;
  raw_timeoutMs : option Z;
  raw_enableDiagnostics : option bool
}.

Section Construction.
Context {W : Type} (drv : Driver W) {X : Type}.

(** [new NewsletterAutomation(config)].  An address that is missing or
    empty is replaced by one made from the clock; the other keys fall back
    to their defaults only when they are missing. *)
Definition constructor {R} (config : RawConfig)
    : Js.M (St W X) R Fields :=
  let generated : Js.M (St W X) R string :=
    (now <- tell drv DateNow ;;
     ret ("test+" ++ show_Z now ++ "@example.com")) in
  address <- match raw_testEmail config with
             | Some given => if String.eqb given "" then generated
                             else ret given
             | None => generated
             end ;;
  let merged :=
    mkConfig (raw_targetUrl config) address
      (Base.orDefault true (raw_headless config))
      (Base.orDefault 3%Z (raw_maxRetries config))
      (Base.orDefault 5000%Z (raw_timeoutMs config))
      (Base.orDefault true (raw_enableDiagnostics config)) in
  stamp <- tell drv IsoTimestamp ;;
  ret (mkFields false false false
         (mkData stamp (targetUrl merged) 0 0 false false None []
            (mkMetrics 0 0))
         merged 0 (mkLocals false None false)).

Definition runNewsletterAutomation {R} (config : RawConfig)
    : Js.M (St W X) R bool :=
  call false
    (automation <- constructor config ;;
     ran <- invoke automation (run drv) ;;
     return_ (fst ran)).

End Construction.
End Index.

(** * Concrete pages

    Small browser worlds on which the methods can be run.  The world is a
    clock: every call and every observation advances it by one tick, and
    [Date.now()] reads it.  What the page answers is fixed by a [Page]. *)

Module Pages.

Record Page : Type := mkPage {
  (** [waitFor] succeeds for this locator and state *)
  p_ready : Locator -> WaitState -> bool;
  (** what [boundingBox] returns *)
  p_box : Locator -> option Rect;
  p_count : Locator -> nat;
  p_contentFrame : Locator -> option Frame;
  p_visible : Locator -> bool;
  (** [searchShadowDOM(document, sel)] inside the page *)
  p_deepQuery : string -> Res (option JsValue);
  p_scrollLocked : bool;
  (** [page.$], [frame.$], [handle.$] *)
  p_query : QRoot -> string -> option Handle;
  p_closestForm : Handle -> Handle;
  (** [el.shadowRoot] and [shadowRoot.querySelector] inside the page *)
  p_shadowRoot : Handle -> option Handle;
  p_inPageQuery : Handle -> string -> option Handle
}.

(** [querySelector] takes CSS only: on a pattern that uses the text
    pseudo-class of Playwright it throws a syntax error.  Nothing lives in a
    shadow root, so every other pattern finds nothing. *)
Definition cssQuery (sel : string) : Res (option JsValue) :=
  if Base.includes sel ":has-text("
  then Err ("SyntaxError: '" ++ sel ++ "' is not a valid selector")
  else Ok None.

(** The main frame of the page, which [page.frames()] always lists, and
    the address it shows. *)
Definition mainFrame : Frame := 0%nat.

Definition pageUrl : string := "https://shop.example/".

(** A query rooted in the main frame is a query on the page. *)
Definition onPage (root : QRoot) : QRoot :=
  match root with
  | FrameRoot 0%nat => PageRoot
  | _ => root
  end.

(** What a page answers.  Pauses complete, and an evaluation is accepted
    with any number of values, in the manner of the versions of the driver
    that drop the values after the first. *)
Definition answers (p : Page) (A : Type) (c : Call A) : Res A :=
  match c in Call T return Res T with
  | Launch _ => Ok tt
  | NewContext => Ok tt
  | NewPage => Ok tt
  | SetViewportSize _ _ => Ok tt
  | SetExtraHTTPHeaders => Ok tt
  | CloseBrowser => Ok tt
  | Goto _ _ => Ok tt
  | Title => Ok "Shop"
  | WaitForTimeout _ => Ok tt
  | FrameWaitForTimeout _ _ => Ok tt
  | Count l => Ok (p_count p l)
  | WaitFor l st _ =>
      if p_ready p l st then Ok tt else Err "Timeout exceeded"
  | BoundingBox l => Ok (p_box p l)
  | IsVisible l => Ok (p_visible p l)
  | IsChecked _ => Ok true
  | GetAttribute _ _ => Ok None
  | OuterHTML _ => Ok "<input>"
  | Click _ => Ok tt
  | Fill _ _ => Ok tt
  | ContentFrame l => Ok (p_contentFrame p l)
  | WaitForSelector root sel _ =>
      match p_query p (onPage root) sel with
      | Some h => Ok (Some h)
      | None => Err "Timeout exceeded"
      end
  | QueryFirst root sel => Ok (p_query p (onPage root) sel)
  | QueryAll _ => Ok []
  | ClosestForm h => Ok (p_closestForm p h)
  | HClick _ => Ok tt
  | HFill _ _ => Ok tt
  | HIsChecked _ => Ok true
  | HCheck _ => Ok tt
  | MouseMove _ _ => Ok tt
  | ScrollBodyPercent _ => Ok tt
  | ScrollBodyFraction _ => Ok tt
  | ScrollDocFraction _ => Ok tt
  | ScrollBodyBottom => Ok tt
  | StyleScrollLocked => Ok (p_scrollLocked p)
  | StyleOverflowHidden => Ok (p_scrollLocked p)
  | ComputedScrollLocked => Ok (p_scrollLocked p)
  | AnyShadowRoot => Ok false
  | EvaluatePage => Ok tt
  | DeepQuery sel => p_deepQuery p sel
  | HasShadowRoot h =>
      Ok (match p_shadowRoot p h with Some _ => true | None => false end)
  | ShadowQuery _ _ => Ok None
  | DebugInfo => Ok "{}"
  | EvaluateOn _ _ => Ok tt
  | InPageShadowRoot h => Ok (p_shadowRoot p h)
  | InPageQuerySelector root sel => Ok (p_inPageQuery p root sel)
  | InPageSetValue _ _ => Ok tt
  | InPageClick _ => Ok tt
  end.

Definition observations (A : Type) (o : Query A) (now : Z) : A :=
  match o in Query T return T with
  | DateNow => now
  | IsoTimestamp => "2025-01-01T00:00:00.000Z"
  | Frames => [mainFrame]
  | FrameUrl f => if Nat.eqb f mainFrame then pageUrl else "about:blank"
  end.

Definition pageDriver (p : Page) : Driver Z :=
  mkDriver Z
    (fun A c now => (answers p A c, (now + 1)%Z))
    (fun A o now => (observations A o now, (now + 1)%Z)).

Definition sameLocator (a b : Locator) : bool :=
  String.eqb (l_selector a) (l_selector b)
  && match l_scope a, l_scope b with
     | MainDoc, MainDoc => true
     | FrameDoc f, FrameDoc g => Nat.eqb f g
     | _, _ => false
     end
  && match l_nth a, l_nth b with
     | None, None => true
     | Some i, Some j => Nat.eqb i j
     | _, _ => false
     end.

Definition box (w h : Q) : Rect := mkRect 0 0 w h.

(** A page with nothing on it: no element is ever ready, no frame, no shadow
    root, no scroll lock. *)
Definition emptyPage : Page :=
  mkPage (fun _ _ => false) (fun _ => None) (fun _ => 0%nat) (fun _ => None)
    (fun _ => false) cssQuery false
    (fun _ _ => None) (fun h => h) (fun _ => None) (fun _ _ => None).

Definition emailSelector : string := "input[type=" ++ quoted "email" ++ "]".
Definition submitSelector : string := "button[type=" ++ quoted "submit" ++ "]".

(** A page whose main document shows an email input and a submit button. *)
Definition formPage : Page :=
  let shown l :=
    sameLocator l (first (locator MainDoc emailSelector))
    || sameLocator l (first (locator MainDoc submitSelector)) in
  mkPage (fun l _ => shown l)
    (fun l => if shown l then Some (box 200 30) else None)
    (fun _ => 0%nat) (fun _ => None) (fun _ => false) cssQuery
    false (fun _ _ => None) (fun h => h) (fun _ => None) (fun _ _ => None).

(** A page showing a close button and an email input but no submit
    control. *)
Definition modalPage : Page :=
  let shown l :=
    sameLocator l (first (locator MainDoc ".close-btn"))
    || sameLocator l (first (locator MainDoc emailSelector)) in
  mkPage (fun l _ => shown l)
    (fun l => if shown l then Some (box 200 30) else None)
    (fun _ => 0%nat) (fun _ => None) (fun _ => false) cssQuery
    false (fun _ _ => None) (fun h => h) (fun _ => None) (fun _ _ => None).


(** A page with one frame holding an email input that is attached to the
    document but not rendered: it has no box. *)
Definition hiddenFramePage : Page :=
  mkPage
    (fun l st =>
       sameLocator l (locator (FrameDoc 7) emailSelector)
       && match st with Attached => true | _ => false end)
    (fun _ => None)
    (fun l => if sameLocator l (locator MainDoc "iframe") then 1%nat else 0%nat)
    (fun l => if sameLocator l (nth_match (locator MainDoc "iframe") 0)
              then Some 7%nat else None)
    (fun _ => false) cssQuery
    false (fun _ _ => None) (fun h => h) (fun _ => None) (fun _ _ => None).

(** The same input in the main document: attached, not rendered, no box. *)
Definition hiddenMainPage : Page :=
  mkPage
    (fun l st =>
       sameLocator l (first (locator MainDoc emailSelector))
       && match st with Attached => true | _ => false end)
    (fun _ => None) (fun _ => 0%nat) (fun _ => None)
    (fun _ => false) cssQuery
    false (fun _ _ => None) (fun h => h) (fun _ => None) (fun _ _ => None).

(** The strategy of an email input that only has to be attached. *)
Definition attachedEmail : SelectorStrategy :=
  mkStrategy emailSelector [] None (Some WaitAttached) None.

(** A page that navigates away while it is searched: every in-page query
    rejects. *)
Definition brokenShadowPage : Page :=
  mkPage (fun _ _ => false) (fun _ => None) (fun _ => 0%nat) (fun _ => None)
    (fun _ => false)
    (fun _ => Err "page.evaluate: Execution context was destroyed")
    false (fun _ _ => None) (fun h => h) (fun _ => None) (fun _ _ => None).

(** A page with a dialog (handle 1) that holds an email form: the input is
    handle 2, its form handle 3, the submit button handle 4.  The same input
    is what the first main-document strategy matches. *)
Definition dialogFormPage : Page :=
  mkPage (fun _ _ => false) (fun _ => None) (fun _ => 0%nat) (fun _ => None)
    (fun _ => false) cssQuery true
    (fun root sel =>
       match root with
       | PageRoot =>
           if String.eqb sel ("div[role=" ++ quoted "dialog" ++ "]")
           then Some 1%nat
           else if String.eqb sel ("form " ++ emailSelector) then Some 2%nat
           else None
       | HandleRoot 1%nat =>
           if String.eqb sel emailSelector then Some 2%nat else None
       | HandleRoot 3%nat =>
           if String.eqb sel submitSelector then Some 4%nat else None
       | _ => None
       end)
    (fun h => match h with 2%nat => 3%nat | _ => h end)
    (fun _ => None) (fun _ _ => None).

(** A page with a shadow host (handle 5) whose shadow root (handle 6) holds
    an email input (handle 7) and a button (handle 8). *)
Definition shadowFormPage : Page :=
  mkPage (fun _ _ => false) (fun _ => None) (fun _ => 0%nat) (fun _ => None)
    (fun _ => false) cssQuery false
    (fun _ _ => None) (fun h => h)
    (fun h => match h with 5%nat => Some 6%nat | _ => None end)
    (fun root sel =>
       match root with
       | 6%nat =>
           if String.eqb sel emailSelector then Some 7%nat
           else if String.eqb sel ("button[type=" ++ quoted "submit" ++ "], button")
                then Some 8%nat
                else None
       | _ => None
       end).

Definition blankFields (ready : bool) : Newsletter.Fields :=
  Newsletter.mkFields ready ready ready ready Newsletter.blankResult.

(** The store at the start of a run: time 0, empty trace. *)
Definition start (ready : bool) : St Z Newsletter.Fields :=
  mkSt 0%Z [] (blankFields ready).

Definition config (attempts : Z) : AutomationConfig :=
  mkConfig "https://shop.example/" "reader@example.com" 60000 attempts 1500 true.

Definition bqlConfig (retries : Z) : Base.BQLConfig :=
  Base.mkConfig "https://shop.example/" "reader@example.com" true retries
    30000 true true true true.

Definition bqlStart (retries : Z) : St Z Base.Fields :=
  mkSt 0%Z []
    (Base.mkFields (bqlConfig retries)
       (Base.mkData "2025-01-01T00:00:00.000Z" "https://shop.example/" 0 0
          false false [] None None (Base.mkMetrics 0 0 0 0))
       0 0 true).

(** A page on which a newsletter box (handle 9) shows up as soon as the
    page is scrolled. *)
Definition popupPage : Page :=
  mkPage (fun _ _ => false) (fun _ => None) (fun _ => 0%nat) (fun _ => None)
    (fun _ => false) cssQuery false
    (fun root sel =>
       match root with
       | PageRoot =>
           if String.eqb sel ("[class*=" ++ quoted "newsletter" ++ "]")
           then Some 9%nat else None
       | _ => None
       end)
    (fun h => h) (fun _ => None) (fun _ _ => None).

Definition indexConfig (retries : Z) : Index.AutomationConfig :=
  Index.mkConfig "https://shop.example/" "reader@example.com" true retries
    5000 true.

(** The store of a freshly constructed object of src/index.ts. *)
Definition indexStart (retries : Z) : St Z Index.Fields :=
  mkSt 0%Z []
    (Index.mkFields false false false
       (Index.mkData "2025-01-01T00:00:00.000Z" "https://shop.example/" 0 0
          false false None [] (Index.mkMetrics 0 0))
       (indexConfig retries) 0 (Index.mkLocals false None false)).

(** A browser that answers like page [p], except for the calls that
    [script] answers itself, and that shows, besides the main frame, the
    frames [frames] with their addresses. *)
Definition scriptedDriver (script : forall A, Call A -> option (Res A))
    (frames : list (Frame * string)) (p : Page) : Driver Z :=
  mkDriver Z
    (fun A c now =>
       (match script A c with
        | Some r => r
        | None => answers p A c
        end, (now + 1)%Z))
    (fun A o now =>
       (match o in Query T return T with
        | DateNow => now
        | IsoTimestamp => "2025-01-01T00:00:00.000Z"
        | Frames => mainFrame :: map fst frames
        | FrameUrl f =>
            match find (fun e => Nat.eqb (fst e) f) frames with
            | Some e => snd e
            | None => if Nat.eqb f mainFrame then pageUrl else "about:blank"
            end
        end, (now + 1)%Z)).

(** What Playwright answers once the page is closed. *)
Definition closedMessage : string :=
  "Target page, context or browser has been closed".

(** A page that is closed: every call on it or on one of its elements is
    rejected. *)
Definition closedPage (A : Type) (c : Call A) : option (Res A) :=
  match c with
  | Launch _ | NewContext | NewPage | CloseBrowser => None
  | _ => Some (Err closedMessage)
  end.

(** A browser whose page is closed when the clock reaches [closesAt] (by the
    user, or by a crash): from then on every call on the page or on one of
    its elements is rejected.  Starting and closing the browser, and the
    synchronous observations, go on as before. *)
Definition closingDriver (closesAt : Z) (p : Page) : Driver Z :=
  mkDriver Z
    (fun A c now =>
       (match c in Call T return Res T -> Res T with
        | Launch _ | NewContext | NewPage | CloseBrowser => fun r => r
        | _ => fun r => if (now <? closesAt)%Z then r else Err closedMessage
        end (answers p A c), (now + 1)%Z))
    (fun A o now => (observations A o now, (now + 1)%Z)).

(** A driver in the manner of Playwright 1.64: [evaluate] is rejected when
    it is handed more than one value for the function. *)
Definition oneArgument (A : Type) (c : Call A) : option (Res A) :=
  match c with
  | EvaluateOn _ args =>
      if (1 <? length args)%nat
      then Some (Err "Too many arguments. If you need to pass more than 1 argument to the function wrap them in an object.")
      else None
  | _ => None
  end.

Definition countFails (A : Type) (c : Call A) : option (Res A) :=
  match c with
  | Count _ => Some (Err "Target closed")
  | _ => None
  end.

Definition titleFails (A : Type) (c : Call A) : option (Res A) :=
  match c with
  | Title => Some (Err "Target closed")
  | _ => None
  end.

(** Two opt-in boxes, both ticked: the page answers 2 when the boxes are
    counted, and, like every page here, that a box is checked. *)
Definition checkboxSelector : string :=
  "input[type=" ++ quoted "checkbox" ++ "]".

Definition tickedBoxes (A : Type) (c : Call A) : option (Res A) :=
  match c with
  | Count l =>
      if String.eqb (l_selector l) checkboxSelector then Some (Ok 2%nat)
      else None
  | _ => None
  end.

Definition bqlRaw (url : string) (retries : option Z) : Base.RawConfig :=
  Base.mkRaw url "reader@example.com" (Some true) retries None None None
    None None.

(** A runner that has run nothing yet. *)
Definition runnerStart : St Z BqlRunner.Fields :=
  mkSt 0%Z [] (BqlRunner.mkFields []).

End Pages.

(** * Specification vocabulary

    Predicates on completions, on traces and on the automation object, in
    which the properties below are stated. *)

Import Newsletter.
Open Scope list_scope.

(** ** Completions and runs *)

(** A completion that is neither [return], [break] nor [continue]. *)
Definition plainC {R A} (c : Completion R A) : Prop :=
  match c with Normal _ | Throw _ => True | _ => False end.

(** A completion that is not a [throw]. *)
Definition quietC {R A} (c : Completion R A) : Prop :=
  match c with Throw _ => False | _ => True end.

Definition plain {S R A} (m : M S R A) : Prop := forall s, plainC (fst (m s)).

Definition quiet {S R A} (m : M S R A) : Prop := forall s, quietC (fst (m s)).

(** What a run added to the trace, and how it left the object. *)
Definition grows {W X} (P : Event -> Prop) (K : X -> X -> Prop)
    (s s' : St W X) : Prop :=
  (exists d, trace s' = trace s ++ d /\ Forall P d) /\ K (self s) (self s').

Definition steps {W X R A} (P : Event -> Prop) (K : X -> X -> Prop)
    (m : M (St W X) R A) : Prop :=
  forall s, grows P K s (snd (m s)).

(** [wp m Q s]: running [m] from [s] ends in a completion and a store that
    satisfy [Q]. *)
Definition wp {S R A} (m : M S R A) (Q : Completion R A -> S -> Prop)
    (s : S) : Prop :=
  Q (fst (m s)) (snd (m s)).

(** ** Classes of events *)

(** Events that come from the driver or the clock, not from a program
    point. *)
Definition driver_event (ev : Event) : Prop :=
  match ev with Mark _ => False | _ => True end.

(** What a lookup in the main document asks: a wait and a measure of the
    first match. *)
Definition main_probe (ev : Event) : Prop :=
  match ev with
  | Asked (WaitFor l _ _) _ => l_scope l = MainDoc /\ l_nth l = Some 0%nat
  | Asked (BoundingBox l) _ => l_scope l = MainDoc /\ l_nth l = Some 0%nat
  | _ => False
  end.

(** What a lookup in the frames asks: the frames, their content, and waits
    inside them.  No measure. *)
Definition frame_probe (ev : Event) : Prop :=
  match ev with
  | Asked (Count l) _ => l = locator MainDoc "iframe"
  | Asked (ContentFrame _) _ => True
  | Asked (WaitFor l _ _) _ => exists f, l_scope l = FrameDoc f
  | _ => False
  end.

(** What a lookup in the shadow roots asks: the in-page search. *)
Definition shadow_probe (ev : Event) : Prop :=
  match ev with
  | Asked EvaluatePage _ => True
  | Asked (DeepQuery _) _ => True
  | _ => False
  end.

Definition lookup_probe (ev : Event) : Prop :=
  main_probe ev \/ frame_probe ev \/ shadow_probe ev.

(** What [collectDiagnostics] asks. *)
Definition diag_probe (ev : Event) : Prop :=
  match ev with
  | Asked Title _ | Asked (Count _) _ | Asked StyleScrollLocked _
  | Asked (IsVisible _) _ | Asked AnyShadowRoot _ => True
  | _ => False
  end.

(** A probe that answered that a modal shows or that scrolling is locked. *)
Definition positive_probe (ev : Event) : Prop :=
  match ev with
  | Asked c r =>
      match c in Call T return Res T -> Prop with
      | StyleScrollLocked => fun r => r = Ok true
      | IsVisible _ => fun r => r = Ok true
      | _ => fun _ => False
      end r
  | _ => False
  end.

(** Scrolling and pausing, nothing else. *)
Definition scroll_only (ev : Event) : Prop :=
  match ev with
  | Asked (ScrollDocFraction _) _ | Asked (WaitForTimeout _) _ => True
  | _ => False
  end.

(** ** Reading a trace *)

(** The attempt numbers a trace records, oldest first. *)
Fixpoint attemptsOf (tr : list Event) : list Z :=
  match tr with
  | [] => []
  | Mark (AttemptStart n) :: rest => n :: attemptsOf rest
  | _ :: rest => attemptsOf rest
  end.

(** How many popup passes a trace records. *)
Fixpoint popupPasses (tr : list Event) : nat :=
  match tr with
  | [] => 0
  | Mark PopupPass :: rest => Datatypes.S (popupPasses rest)
  | _ :: rest => popupPasses rest
  end.

(** A trace in which at most one popup pass occurs and every attempt starts
    after it.  [seen] tells whether the pass already happened. *)
Fixpoint wellOrdered (seen : bool) (tr : list Event) : bool :=
  match tr with
  | [] => true
  | Mark PopupPass :: rest => negb seen && wellOrdered true rest
  | Mark (AttemptStart _) :: rest => seen && wellOrdered seen rest
  | _ :: rest => wellOrdered seen rest
  end.

(** The shape of the trace of one run: driver events only, or driver events,
    then the popup pass, then the attempts. *)
Definition run_shape (d : list Event) : Prop :=
  Forall driver_event d \/
  exists pre pass att,
    d = pre ++ Mark PopupPass :: pass ++ att /\
    Forall driver_event pre /\ Forall driver_event pass /\
    popupPasses att = 0%nat.

(** The percentages scrolled to, oldest first. *)
Fixpoint scrollOffsets (tr : list Event) : list Z :=
  match tr with
  | [] => []
  | Asked c _ :: rest =>
      match c with
      | ScrollBodyPercent p => p :: scrollOffsets rest
      | _ => scrollOffsets rest
      end
  | _ :: rest => scrollOffsets rest
  end.

(** The fractions of the document height scrolled to, oldest first. *)
Fixpoint scrollFractions (tr : list Event) : list Q :=
  match tr with
  | [] => []
  | Asked c _ :: rest =>
      match c with
      | ScrollDocFraction f => f :: scrollFractions rest
      | _ => scrollFractions rest
      end
  | _ :: rest => scrollFractions rest
  end.

(** The fractions of the body height scrolled to, oldest first. *)
Fixpoint bodyFractions (tr : list Event) : list Q :=
  match tr with
  | [] => []
  | Asked c _ :: rest =>
      match c with
      | ScrollBodyFraction f => f :: bodyFractions rest
      | _ => bodyFractions rest
      end
  | _ :: rest => bodyFractions rest
  end.

(** Nothing is scrolled after a probe answered positively. *)
Definition stops_on_detection (d : list Event) : Prop :=
  forall d1 ev d2,
    d = d1 ++ ev :: d2 -> positive_probe ev -> scrollOffsets d2 = [].

(** How a method that returns no value ended: it returned, or it raised
    [e]. *)
Definition outcome {R} (out : option Exn) : Completion R unit :=
  match out with None => Normal tt | Some e => Throw e end.

(** The trace of [triggerPopupsWithScrolling] over the percentages [ps]
    with the settle delay [delay], and how it ended.  A stage scrolls,
    pauses, and collects diagnostics, starting with the title.  The next
    stage follows when no probe of the stage answered positively; the
    stages end where one did, or after the last of them; a scroll or a
    pause that is rejected is raised. *)
Inductive staged (delay : Z)
    : list Z -> list Event -> option Exn -> Prop :=
| staged_end : staged delay [] [] None
| staged_scroll_rejected p ps e :
    staged delay (p :: ps) [Asked (ScrollBodyPercent p) (Err e)] (Some e)
| staged_pause_rejected p ps e :
    staged delay (p :: ps)
      [Asked (ScrollBodyPercent p) (Ok tt);
       Asked (WaitForTimeout delay) (Err e)] (Some e)
| staged_detected p ps r probes :
    Forall diag_probe probes -> Exists positive_probe probes ->
    staged delay (p :: ps)
      (Asked (ScrollBodyPercent p) (Ok tt)
         :: Asked (WaitForTimeout delay) (Ok tt)
         :: Asked Title r :: probes) None
| staged_next p ps r probes rest out :
    Forall diag_probe probes -> ~ Exists positive_probe probes ->
    staged delay ps rest out ->
    staged delay (p :: ps)
      (Asked (ScrollBodyPercent p) (Ok tt)
         :: Asked (WaitForTimeout delay) (Ok tt)
         :: Asked Title r :: probes ++ rest) out.

(** The trace of [performAdaptiveScrolling] of src/base.ts over the
    fractions [steps], and how it ended: a scroll and a pause of 1500 ms
    per fraction, nothing else, up to the first of them that is rejected. *)
Inductive paced : list Q -> list Event -> option Exn -> Prop :=
| paced_end : paced [] [] None
| paced_scroll_rejected step steps e :
    paced (step :: steps) [Asked (ScrollDocFraction step) (Err e)] (Some e)
| paced_pause_rejected step steps e :
    paced (step :: steps)
      [Asked (ScrollDocFraction step) (Ok tt);
       Asked (WaitForTimeout 1500) (Err e)] (Some e)
| paced_next step steps rest out :
    paced steps rest out ->
    paced (step :: steps)
      (Asked (ScrollDocFraction step) (Ok tt)
         :: Asked (WaitForTimeout 1500) (Ok tt) :: rest) out.

Fixpoint ascending (l : list Z) : bool :=
  match l with
  | a :: (b :: _) as rest => (a <? b)%Z && ascending rest
  | _ => true
  end.

(** How often an email value was typed into an element handle. *)
Fixpoint handleFills (tr : list Event) : nat :=
  match tr with
  | [] => 0
  | Asked c _ :: rest =>
      match c with
      | HFill _ _ => Datatypes.S (handleFills rest)
      | _ => handleFills rest
      end
  | _ :: rest => handleFills rest
  end.

(** How often handle [h] was clicked. *)
Fixpoint handleClicks (h : Handle) (tr : list Event) : nat :=
  match tr with
  | [] => 0
  | Asked c _ :: rest =>
      match c with
      | HClick h' =>
          if Nat.eqb h h' then Datatypes.S (handleClicks h rest)
          else handleClicks h rest
      | _ => handleClicks h rest
      end
  | _ :: rest => handleClicks h rest
  end.

(** ** The automation object *)

(** What the helper methods leave alone in the automation object: the
    references, the verdict and the error list. *)
Definition kept (o o' : Fields) : Prop :=
  f_browser o' = f_browser o /\ f_page o' = f_page o /\
  f_diagnostics o' = f_diagnostics o /\ f_selectors o' = f_selectors o /\
  success (f_result o') = success (f_result o) /\
  errors (f_result o') = errors (f_result o).

(** What every method below [executeAutomation] leaves alone: the
    references and the header of the result. *)
Definition kept_meta (o o' : Fields) : Prop :=
  f_page o' = f_page o /\ f_diagnostics o' = f_diagnostics o /\
  f_selectors o' = f_selectors o /\
  success (f_result o') = success (f_result o) /\
  url (f_result o') = url (f_result o).

Definition res {W} (s : St W Fields) : AutomationResult := f_result (self s).

Definition errs {W} (s : St W Fields) : list string :=
  errors (f_result (self s)).

(** The error entry of attempt number [k]: it names the attempt. *)
Definition attemptEntry (k : Z) (e : string) : Prop :=
  exists msg, e = ("Attempt " ++ show_Z k ++ msg)%string.

Definition initialized (o : Fields) : bool :=
  f_page o && f_diagnostics o && f_selectors o.

Definition notInitializedMessage : string :=
  "Automation not initialized. Page, diagnostics, or selectors are null.".

Definition exhaustedMessage : string :=
  "Newsletter signup failed after all attempts".

Definition waitStateOf (strategy : SelectorStrategy) : WaitState :=
  match waitFor strategy with Some w => waitState w | None => Visible end.

Definition timeoutOf (strategy : SelectorStrategy) : Z :=
  match timeout strategy with Some t => t | None => 5000%Z end.

Section PauseVocabulary.
Context {W : Type} (drv : Driver W).

(** The driver rejects a pause of [ms] milliseconds of the page with the
    error [e]. *)
Definition wait_rejected (ms : Z) (e : Exn) : Prop :=
  exists w w', answer drv (WaitForTimeout ms) w = (Err e, w').

(** Every pause of [ms] milliseconds of the page completes. *)
Definition waits_complete (ms : Z) : Prop :=
  forall w, exists w', answer drv (WaitForTimeout ms) w = (Ok tt, w').

End PauseVocabulary.

Section LookupVocabulary.
Context {W X : Type} (drv : Driver W).

(** The body of the loop of [findElement], for one selector. *)
Definition probeSelector (strategy : SelectorStrategy) (selector : string)
    : M (St W X) (option Locator) unit :=
  tryCatch
    (let element := first (locator MainDoc selector) in
     isReady <- Selectors.isElementReady (R:=option Locator) drv element
                  (waitFor strategy) (timeout strategy) ;;
     if isReady : bool then
       boundingBox <- ask drv (BoundingBox element) ;;
       match boundingBox with
       | Some _ => return_ (Some element)
       | None => skip
       end
     else skip)
    (fun _ => skip (R:=option Locator)).


(** Between [s] and [s'] only diagnostics probes were asked, and [flag]
    tells whether one of them answered positively. *)
Definition probed (s : St W X) (flag : bool) (s' : St W X) : Prop :=
  exists delta,
    trace s' = trace s ++ delta /\ self s' = self s /\
    Forall diag_probe delta /\
    (Exists positive_probe delta <-> flag = true).

End LookupVocabulary.

Section NewsletterVocabulary.
Context {W : Type} (drv : Driver W).


(** No lookup of the email input ever yields an element. *)
Definition never_finds_input : Prop :=
  forall (s : St W Fields) el s1,
    findEmailInput (R:=bool) drv s <> (Normal (Some el), s1).

(** One attempt of a run configured by [cfg]: it is announced in the trace,
    and it either returns true or leaves exactly one error entry.  After the
    entry it goes on to the next attempt, or it throws: then the wait before
    the retry was rejected, and the attempt was not the last one. *)
Definition attempt_post (cfg : AutomationConfig) (a : Z) (s : St W Fields)
    (c : Completion bool unit) (s' : St W Fields) : Prop :=
  (exists d, trace s' = trace s ++ Mark (AttemptStart (a + 1)) :: d /\
             Forall driver_event d) /\
  f_page (self s') = f_page (self s) /\
  f_selectors (self s') = f_selectors (self s) /\
  success (f_result (self s')) = success (f_result (self s)) /\
  ((c = Return true /\ errs s' = errs s) \/
   ((c = Normal tt \/ c = Continue \/
     exists e0, c = Throw e0 /\ wait_rejected drv 1000 e0 /\
                (a < retryAttempts cfg - 1)%Z) /\
    exists e, attemptEntry (a + 1) e /\ errs s' = errs s ++ [e])).

(** The retry loop over the attempts [xs]: it goes through all of them, or
    it returns true with one of them, or it throws after one of them. *)
Definition loop_post (cfg : AutomationConfig) (xs : list Z) (s : St W Fields)
    (c : Completion bool unit) (s' : St W Fields) : Prop :=
  f_page (self s') = f_page (self s) /\
  f_selectors (self s') = f_selectors (self s) /\
  success (f_result (self s')) = success (f_result (self s)) /\
  exists d es,
    trace s' = trace s ++ d /\ errs s' = errs s ++ es /\
    popupPasses d = 0%nat /\
    ((c = Normal tt /\
      attemptsOf d = map (fun a => (a + 1)%Z) xs /\
      Forall2 attemptEntry (map (fun a => (a + 1)%Z) xs) es) \/
     (c = Return true /\
      exists pre x post,
        xs = pre ++ x :: post /\
        attemptsOf d = map (fun a => (a + 1)%Z) (pre ++ [x]) /\
        Forall2 attemptEntry (map (fun a => (a + 1)%Z) pre) es) \/
     (exists e0 pre x post,
        c = Throw e0 /\ wait_rejected drv 1000 e0 /\
        xs = pre ++ x :: post /\ (x < retryAttempts cfg - 1)%Z /\
        attemptsOf d = map (fun a => (a + 1)%Z) (pre ++ [x]) /\
        Forall2 attemptEntry (map (fun a => (a + 1)%Z) (pre ++ [x])) es)).

(** What [attemptNewsletterSignup] leaves behind.  It answers false only
    after all the attempts, with one entry each; it answers true with an
    attempt; it throws only when a wait before a retry was rejected, after
    fewer attempts than configured, with one entry each. *)
Definition signup_post (cfg : AutomationConfig) (s : St W Fields) {R}
    (c : Completion R bool) (s' : St W Fields) : Prop :=
  exists d es,
    success (f_result (self s')) = success (f_result (self s)) /\
    trace s' = trace s ++ d /\ errs s' = errs s ++ es /\
    popupPasses d = 0%nat /\
    match c with
    | Normal b =>
        (f_page (self s) = true -> f_selectors (self s) = true -> b = false ->
         attemptsOf d = zrange 1 (retryAttempts cfg + 1) /\
         Forall2 attemptEntry (zrange 1 (retryAttempts cfg + 1)) es) /\
        (b = true -> attemptsOf d <> [])
    | Throw e0 =>
        wait_rejected drv 1000 e0 /\
        exists k, (1 <= k < retryAttempts cfg)%Z /\
                  attemptsOf d = zrange 1 (k + 1) /\
                  Forall2 attemptEntry (zrange 1 (k + 1)) es
    | _ => False
    end.

Definition nav_post (cfg : AutomationConfig) (s : St W Fields) {R}
    (c : Completion R unit) (s1 : St W Fields) : Prop :=
  kept_meta (self s)
    (with_result (set_success (success (res s))) (self s1)) /\
  (exists d, trace s1 = trace s ++ d /\ run_shape d /\
             (forall w1,
                 answer drv (Goto (cfg_url cfg) (Some (cfg_timeout cfg)))
                   (world s) = (Ok tt, w1) ->
                 popupPasses d = 1%nat)) /\
  match c with
  | Normal _ =>
      (success (res s1) = true /\
       exists sa sb,
         attemptNewsletterSignup (R:=R) drv cfg sa = (Normal true, sb)) \/
      (success (res s1) = success (res s) /\
       exists es, errs s1 = es ++ [exhaustedMessage])
  | Throw e => success (res s1) = success (res s)
  | _ => False
  end.

(** The store on entry to the [try] block of [executeAutomation]: the clock
    was read twice and the result object is fresh. *)
Definition tryEntry (cfg : AutomationConfig) (s : St W Fields) : St W Fields :=
  let '(t0, w1) := observe drv DateNow (world s) in
  let '(stamp, w2) := observe drv IsoTimestamp w1 in
  mkSt w2 ((trace s ++ [Observed DateNow t0]) ++ [Observed IsoTimestamp stamp])
    (with_result
       (fun _ => mkResult false stamp (cfg_url cfg) 0 [] [] emptyDiagnostics)
       (self s)).

Definition exec_post (cfg : AutomationConfig) (s : St W Fields) {R}
    (c : Completion R AutomationResult) (s' : St W Fields) : Prop :=
  exists r,
    c = Normal r /\ r = res s' /\ url r = cfg_url cfg /\
    (exists t0 t1 mid,
        trace s' = trace s ++ Observed DateNow t0 :: mid ++ [Observed DateNow t1] /\
        executionTime r = (t1 - t0)%Z /\ run_shape mid /\
        (initialized (self s) = true ->
         forall w1,
           answer drv (Goto (cfg_url cfg) (Some (cfg_timeout cfg)))
             (world (tryEntry cfg s)) = (Ok tt, w1) ->
           popupPasses mid = 1%nat)) /\
    (success r = false -> errors r <> []) /\
    (initialized (self s) = false ->
     success r = false /\ errors r = [notInitializedMessage]) /\
    (initialized (self s) = true ->
     forall e s1,
       navigateAndSignup (R:=AutomationResult) drv cfg (tryEntry cfg s)
         = (Throw e, s1) ->
       success r = false /\
       errors r = errs s1 ++ [("Automation failed: " ++ errorText e)%string]) /\
    (never_finds_input -> success r = false).

(** One stage of [triggerPopupsWithScrolling]: it scrolls once, and goes on
    to the next stage only if no probe answered positively. *)
Definition stage_post (p : Z) (s : St W Fields) (c : Completion unit unit)
    (s' : St W Fields) : Prop :=
  exists r rest,
    trace s' = trace s ++ Asked (ScrollBodyPercent p) r :: rest /\
    scrollOffsets rest = [] /\
    ((c = Normal tt /\ ~ Exists positive_probe rest) \/ c = Break \/
     exists e, c = Throw e).

(** What [handleShadowDomForm] asks of the driver for [host], [email] and
    [selector]: the evaluation, handed both values; then, in the page, the
    shadow root of [host], a query for the text of an undefined value and a
    query for a button, a value to type, which is [email], and a click. *)
Definition shadow_form_event (host : Handle) (email selector : string)
    (ev : Event) : Prop :=
  match ev with
  | Asked (EvaluateOn h args) _ => h = host /\ args = [email; selector]
  | Asked (InPageShadowRoot h) _ => h = host
  | Asked (InPageQuerySelector _ q) _ =>
      q = Base.textOf None \/
      q = ("button[type=" ++ quoted "submit" ++ "], button")%string
  | Asked (InPageSetValue _ text) _ => text = email
  | Asked (InPageClick _) _ => True
  | _ => False
  end.

(** The body of the loop of [performAdaptiveScrolling]. *)
Definition adaptiveStep (step : Q) : M (St W Base.Fields) unit unit :=
  ask drv (ScrollDocFraction step) ;;
  Base.on_diagnostics (Base.with_metrics Base.incr_scrollEvents) ;;
  ask drv (WaitForTimeout 1500).

End NewsletterVocabulary.

(** ** The object of src/index.ts *)

(** [s.startsWith(p)] *)
Fixpoint startsWith (s p : string) {struct p} : bool :=
  match p with
  | EmptyString => true
  | String a p' =>
      match s with
      | EmptyString => false
      | String b s' => Ascii.eqb a b && startsWith s' p'
      end
  end.

(** The failure reasons recorded so far. *)
Definition reasons {W} (s : St W Index.Fields) : list string :=
  Index.failureReasons (Index.diagnostics (self s)).

(** The entries of [failureReasons] that close an attempt of [Index.run]:
    the exhaustion message of [Index.executeAutomation], and the entry the
    loop writes when [Index.executeAutomation] throws.  The other entries
    report a selector or a frame. *)
Definition isVerdict (e : string) : bool :=
  String.eqb e Index.exhaustedMessage || startsWith e "Attempt ".

(** The entry that closes attempt number [k]. *)
Definition verdictOf (k : Z) (e : string) : Prop :=
  e = Index.exhaustedMessage \/ attemptEntry k e.

(** What the methods below the loop of [Index.run] leave alone: the
    configuration and the local [success]; to [failureReasons] they add
    only entries that close no attempt. *)
Definition noted (o o' : Index.Fields) : Prop :=
  Index.config o' = Index.config o /\
  Index.success (Index.locals o') = Index.success (Index.locals o) /\
  exists notes,
    Index.failureReasons (Index.diagnostics o')
    = Index.failureReasons (Index.diagnostics o) ++ notes /\
    Forall (fun e => isVerdict e = false) notes.

(** The patterns with which src/index.ts looks for an email input: the
    tables of [tryDirectSubmission] and of [handleIframe]. *)
Definition emailQueries : list string :=
  Index.directEmailSelectors ++ Index.frameEmailSelectors.

(** A completion that is the value false or an exception. *)
Definition failsOnly {R} (c : Completion R bool) : Prop :=
  c = Normal false \/ exists e, c = Throw e.

Section IndexVocabulary.
Context {W : Type} (drv : Driver W).

(** No lookup of an email input ever yields an element: neither
    [trySelector] on an email pattern nor the shadow query. *)
Definition never_selects_email : Prop :=
  (forall root sel t (s : St W Index.Fields) h s1,
      In sel emailQueries ->
      Index.trySelector (R:=bool) drv root sel t s <> (Normal (Some h), s1)) /\
  (forall (s : St W Index.Fields) h s1,
      Index.queryShadowDom (R:=bool) drv Index.emailType s
      <> (Normal (Some h), s1)).

(** Launching the browser and opening a context and a page succeed. *)
Definition browser_starts : Prop :=
  forall w,
    (forall h, exists w', answer drv (Launch h) w = (Ok tt, w')) /\
    (exists w', answer drv NewContext w = (Ok tt, w')) /\
    (exists w', answer drv NewPage w = (Ok tt, w')).

(** One run of [Index.executeAutomation] that does not succeed: it returns
    false after recording the exhaustion message, or it throws. *)
Definition index_exec_post (s : St W Index.Fields) {R}
    (c : Completion R bool) (s' : St W Index.Fields) : Prop :=
  (exists d, trace s' = trace s ++ d /\ Forall driver_event d) /\
  Index.config (self s') = Index.config (self s) /\
  Index.success (Index.locals (self s'))
  = Index.success (Index.locals (self s)) /\
  exists notes,
    Forall (fun e => isVerdict e = false) notes /\
    ((c = Normal false /\
      reasons s' = reasons s ++ notes ++ [Index.exhaustedMessage]) \/
     (exists e, c = Throw e /\ reasons s' = reasons s ++ notes)).

(** The entries that close the attempts [ks], in order.  An attempt is
    closed by one entry: the exhaustion message, or the entry that names
    the attempt, written when it threw.  It is closed by both, in this
    order, when it was exhausted and the pause before the retry was then
    rejected. *)
Inductive closings : list Z -> list string -> Prop :=
| closings_nil : closings [] []
| closings_one k ks v vs :
    verdictOf k v -> closings ks vs -> closings (k :: ks) (v :: vs)
| closings_two k ks e vs :
    wait_rejected drv 2000 e -> closings ks vs ->
    closings (k :: ks)
      (Index.exhaustedMessage
         :: ("Attempt " ++ show_Z k ++ ": " ++ Runner.errorString e)%string
         :: vs).

(** One attempt of [Index.run] that does not succeed: it is announced in
    the trace and closed in the failure reasons. *)
Definition index_attempt_post (k : Z) (s : St W Index.Fields)
    (c : Completion bool unit) (s' : St W Index.Fields) : Prop :=
  c = Normal tt /\
  (exists d, trace s' = trace s ++ Mark (AttemptStart k) :: d /\
             Forall driver_event d) /\
  Index.config (self s') = Index.config (self s) /\
  (Index.success (Index.locals (self s)) = false ->
   Index.success (Index.locals (self s')) = false) /\
  exists notes vs,
    Forall (fun e => isVerdict e = false) notes /\ closings [k] vs /\
    reasons s' = reasons s ++ notes ++ vs.

(** The loop of [Index.run] over the attempts [xs], none of which
    succeeds. *)
Definition index_loop_post (xs : list Z) (s : St W Index.Fields)
    (c : Completion bool unit) (s' : St W Index.Fields) : Prop :=
  c = Normal tt /\
  Index.config (self s') = Index.config (self s) /\
  Index.success (Index.locals (self s')) = false /\
  exists d es,
    trace s' = trace s ++ d /\ attemptsOf d = xs /\
    reasons s' = reasons s ++ es /\
    closings xs (filter isVerdict es).

End IndexVocabulary.

(** ** Further readings *)

(** The locators of the [n] matches of a pattern in the main document, as
    [all()] hands them out. *)
Definition matchesOf (sel : string) (n : nat) : list Locator :=
  map (nth_match (locator MainDoc sel)) (seq 0 n).

(** A result of [findAllElements]: nothing, or all the matches of one of the
    patterns. *)
Definition onePattern (patterns : list string) (ls : list Locator) : Prop :=
  ls = [] \/
  exists sel n, In sel patterns /\ (0 < n)%nat /\ ls = matchesOf sel n.

(** Every wait in this event is for state [st], for at most [t]
    milliseconds. *)
Definition waits_with (st : WaitState) (t : Z) (ev : Event) : Prop :=
  match ev with
  | Asked (WaitFor _ st' t') _ => st' = st /\ t' = t
  | _ => True
  end.

(** How many clicks on a locator the driver accepted. *)
Fixpoint landedClicks (tr : list Event) : nat :=
  match tr with
  | [] => 0
  | Asked c r :: rest =>
      match c with
      | Click _ =>
          match r with
          | Ok _ => Datatypes.S (landedClicks rest)
          | Err _ => landedClicks rest
          end
      | _ => landedClicks rest
      end
  | _ :: rest => landedClicks rest
  end.

(** Not a pause of the page that was rejected. *)
Definition pause_kept (ev : Event) : Prop :=
  match ev with
  | Asked (WaitForTimeout _) (Err _) => False
  | _ => True
  end.

Definition noClick (ev : Event) : Prop :=
  match ev with
  | Asked (Click _) _ => False
  | _ => True
  end.

(** Every checkbox the driver is asked about is ticked. *)
Definition all_checked {W} (drv : Driver W) : Prop :=
  forall l w, fst (answer drv (IsChecked l) w) = Ok true.

(** The calls that start and stop the browser of
    automation/newsletter-automation.ts. *)
Definition lifecycle_call (c : Call unit) : Prop :=
  c = Launch true \/ c = NewPage \/ c = SetViewportSize 1920 1080 \/
  c = SetExtraHTTPHeaders \/ c = CloseBrowser.

(** What a run configured by [cfg] may ask of the driver: it navigates to
    the configured address only, with the configured timeout; it types the
    configured email only; it neither starts nor closes a browser. *)
Definition confined (cfg : AutomationConfig) (ev : Event) : Prop :=
  match ev with
  | Asked (Goto u t) _ => u = cfg_url cfg /\ t = Some (cfg_timeout cfg)
  | Asked (Fill _ text) _ => text = cfg_email cfg
  | Asked (HFill _ _) _ | Asked (InPageSetValue _ _) _ => False
  | Asked (Launch _) _ | Asked NewContext _ | Asked NewPage _
  | Asked (SetViewportSize _ _) _ | Asked SetExtraHTTPHeaders _
  | Asked CloseBrowser _ => False
  | _ => True
  end.

(** The browser reference of the automation object is left as it was. *)
Definition browser_kept (o o' : Newsletter.Fields) : Prop :=
  Newsletter.f_browser o' = Newsletter.f_browser o.

(** Neither a navigation nor the start of an attempt. *)
Definition idle (ev : Event) : Prop :=
  match ev with
  | Asked (Goto _ _) _ => False
  | Mark (AttemptStart _) => False
  | _ => True
  end.

(** A result that says why it failed, if it did. *)
Definition accounted (r : AutomationResult) : Prop :=
  success r = false -> errors r <> [].

Section RunnerVocabulary.
Context {W : Type} (drv : Driver W).

(** What a call of [runSingleSite] for [site] leaves behind, from the store
    [s]: when the launch succeeded the automation holds a browser; when it
    holds one, the last thing asked of the driver was to close it; a result
    is for [site] and says why it failed if it did; an exception is the
    rejection of a call that starts or stops the browser. *)
Definition site_post (site : string) (s : St W Newsletter.Fields) {R}
    (c : Completion R AutomationResult)
    (s' : St W Newsletter.Fields) : Prop :=
  exists d,
    trace s' = trace s ++ d /\
    (forall w, answer drv (Launch true) (world s) = (Ok tt, w) ->
               Newsletter.f_browser (self s') = true) /\
    (Newsletter.f_browser (self s') = true ->
     exists d0 r, d = d0 ++ [Asked CloseBrowser r]) /\
    match c with
    | Normal r => url r = site /\ accounted r
    | Throw e =>
        exists call, lifecycle_call call /\ In (Asked call (Err e)) d
    | _ => False
    end.

End RunnerVocabulary.

(** [keeps J m]: run from a store that satisfies [J], [m] ends in a store
    that satisfies it, however it completes. *)
Definition keeps {W X R A} (J : St W X -> Prop) (m : M (St W X) R A) : Prop :=
  forall s, J s -> J (snd (m s)).

(** How many times the page was asked for the first match of a pattern in
    the main document. *)
Fixpoint pageQueries (tr : list Event) : Z :=
  match tr with
  | [] => 0
  | Asked c _ :: rest =>
      match c with
      | QueryFirst PageRoot _ => 1 + pageQueries rest
      | _ => pageQueries rest
      end
  | _ :: rest => pageQueries rest
  end.

(** A launch that the driver accepted. *)
Definition launch_ok (ev : Event) : Prop :=
  match ev with
  | Asked c r =>
      match c with
      | Launch _ => match r with Ok _ => True | Err _ => False end
      | _ => False
      end
  | _ => False
  end.

(** The names of the form strategies of src/base.ts, in the order in which
    [executeFormStrategies] goes through them. *)
Definition strategyNames : list string :=
  map Base.name (Base.sortByPriority Base.selectorStrategies).

(** The diagnostics of a run of src/base.ts account for its verdict: after
    a success they name the strategy that submitted, after a failure they
    hold an error message. *)
Definition explained (verdict : bool) (d : Base.DiagnosticData) : Prop :=
  if verdict
  then exists n, Base.successfulStrategy d = Some n /\ In n strategyNames
  else Base.errorMessage d <> None.

(** What the lookups and submissions of src/base.ts leave alone in the
    automation object: the configuration and the report of the strategies. *)
Definition report_kept (o o' : Base.Fields) : Prop :=
  Base.config o' = Base.config o /\
  Base.formStrategiesAttempted (Base.diagnostics o')
  = Base.formStrategiesAttempted (Base.diagnostics o) /\
  Base.successfulStrategy (Base.diagnostics o')
  = Base.successfulStrategy (Base.diagnostics o) /\
  Base.errorMessage (Base.diagnostics o')
  = Base.errorMessage (Base.diagnostics o).

(** The counter of page queries and the figure reported in the diagnostics
    agree. *)
Definition counted (o : Base.Fields) : Prop :=
  Base.domQueries (Base.performanceMetrics (Base.diagnostics o))
  = Base.domQueryCount o.

(** What [executeFormStrategies] leaves behind, from the store [s]: the
    log of attempted strategies grew by the names of the strategies it went
    through, in order; on success the last of them is recorded as the
    successful one; on failure it went through all of them. *)
Definition forms_post {W R} (s : St W Base.Fields) (c : Completion R bool)
    (s' : St W Base.Fields) : Prop :=
  Base.config (self s') = Base.config (self s) /\
  Base.errorMessage (Base.diagnostics (self s'))
  = Base.errorMessage (Base.diagnostics (self s)) /\
  exists tried rest,
    strategyNames = tried ++ rest /\
    Base.formStrategiesAttempted (Base.diagnostics (self s'))
    = Base.formStrategiesAttempted (Base.diagnostics (self s)) ++ tried /\
    match c with
    | Normal true =>
        exists before n,
          tried = before ++ [n] /\
          Base.successfulStrategy (Base.diagnostics (self s')) = Some n
    | Normal false =>
        rest = [] /\
        Base.successfulStrategy (Base.diagnostics (self s'))
        = Base.successfulStrategy (Base.diagnostics (self s))
    | _ => False
    end.

(** From [s0] to [s1] the counter of page queries went up by the number
    of page queries in the trace, and the figure in the diagnostics follows
    it. *)
Definition tallied {W} (s0 s1 : St W Base.Fields) : Prop :=
  exists d,
    trace s1 = trace s0 ++ d /\
    Base.domQueryCount (self s1)
    = (Base.domQueryCount (self s0) + pageQueries d)%Z /\
    counted (self s1).

(** From [s0] to [s1], a browser that was launched is held by the
    automation. *)
Definition launched {W} (s0 s1 : St W Base.Fields) : Prop :=
  exists d,
    trace s1 = trace s0 ++ d /\
    (Exists launch_ok d -> Base.browserOpen (self s1) = true).

(** Every verdict in [results] is backed by a stored automation whose
    diagnostics account for it. *)
Definition backed (results : list (string * bool))
    (automations : list (string * Base.Fields)) : Prop :=
  forall url verdict,
    JsMap.get url results = Some verdict ->
    exists a,
      JsMap.get url automations = Some a /\
      explained verdict (Base.diagnostics a).

(** What the methods of src/index.ts never undo in the diagnostics: a
    recorded success strategy stays recorded, and a list of failure reasons
    that is not empty stays so. *)
Definition recorded (o o' : Index.Fields) : Prop :=
  (Index.successStrategy (Index.diagnostics o) <> None ->
   Index.successStrategy (Index.diagnostics o') <> None) /\
  (Index.failureReasons (Index.diagnostics o) <> [] ->
   Index.failureReasons (Index.diagnostics o') <> []).

(** A submission method of src/index.ts that answers true has recorded its
    success strategy. *)
Definition struck {W R} (c : Completion R bool) (s' : St W Index.Fields)
    : Prop :=
  c = Normal true ->
  Index.successStrategy (Index.diagnostics (self s')) <> None.

(** The local [success] of [Index.run] and the diagnostics agree: true goes
    with a recorded strategy, false with a recorded reason. *)
Definition settled {W} (s : St W Index.Fields) : Prop :=
  if Index.success (Index.locals (self s))
  then Index.successStrategy (Index.diagnostics (self s)) <> None
  else Index.failureReasons (Index.diagnostics (self s)) <> [].

(** From [s0] to [s1], a browser that was launched is held by the
    automation of src/index.ts. *)
Definition index_launched {W} (s0 s1 : St W Index.Fields) : Prop :=
  exists d,
    trace s1 = trace s0 ++ d /\
    (Exists launch_ok d -> Index.browser (self s1) = true).

(** The spellings of a pattern that [trySelector] of src/index.ts goes
    through. *)
Definition selectorVariants (selector : string) : list string :=
  [ selector; singleQuoted selector; toLowerCase selector;
    trim (collapseSpace false selector) ].

(** A wait on [root] with the timeout [t], for a spelling of [selector]. *)
Definition variant_wait (root : QRoot) (selector : string) (t : Z)
    (ev : Event) : Prop :=
  exists v a,
    In v (selectorVariants selector) /\
    ev = Asked (WaitForSelector root v t) a.

(** From [s0] to [s1] the trace grew by events of class [P]. *)
Definition within {W X} (P : Event -> Prop) (s0 s1 : St W X) : Prop :=
  exists d, trace s1 = trace s0 ++ d /\ Forall P d.

(** What a run of src/base.ts configured by [cfg] may ask of the driver:
    it launches the browser in the configured mode, navigates to the
    configured address only, with the configured timeout, and types the
    configured email only. *)
Definition base_confined (cfg : Base.BQLConfig) (ev : Event) : Prop :=
  match ev with
  | Asked (Launch h) _ => h = Base.headless cfg
  | Asked (Goto u t) _ =>
      u = Base.targetUrl cfg /\ t = Some (Base.timeoutMs cfg)
  | Asked (HFill _ text) _ => text = Base.testEmail cfg
  | Asked (InPageSetValue _ text) _ => text = Base.testEmail cfg
  | Asked (Fill _ _) _ => False
  | _ => True
  end.

(** What a run of src/index.ts configured by [cfg] may ask of the driver:
    it launches the browser in the configured mode, navigates to the
    configured address only, without a timeout, types the configured email
    only, and waits for a selector for 1, 2 or 3 seconds. *)
Definition index_confined (cfg : Index.AutomationConfig) (ev : Event) : Prop :=
  match ev with
  | Asked (Launch h) _ => h = Index.headless cfg
  | Asked (Goto u t) _ => u = Index.targetUrl cfg /\ t = None
  | Asked (HFill _ text) _ => text = Index.testEmail cfg
  | Asked (WaitForSelector _ _ t) _ =>
      t = 1000%Z \/ t = 2000%Z \/ t = 3000%Z
  | Asked (Fill _ _) _ | Asked (InPageSetValue _ _) _ => False
  | _ => True
  end.

(** ** Claims as they are worded *)

(** C2 as stated, for one run with the maximum [n]: it ends with the value
    false, after the attempts 1 to [n], with one closing entry per
    attempt. *)
Definition bound_as_stated (n : Z) {R} (verdict : Completion R bool)
    (attempts : list Z) (entries : list string) : Prop :=
  verdict = Normal false /\ attempts = zrange 1 (n + 1) /\
  length entries = Z.to_nat n.

(** C5 as stated, for one attempt: when the driver accepted the typing of
    [email] and a click, the attempt returns true. *)
Definition submission_gives_success (email : string) (tr : list Event)
    (c : Completion bool unit) : Prop :=
  (exists l, In (Asked (Fill l email) (Ok tt)) tr) ->
  (exists l, In (Asked (Click l) (Ok tt)) tr) ->
  c = Return true.

(** C3 as stated: whatever a lookup returns has a box of positive size. *)
Definition positive_area_claim {W} (drv : Driver W) : Prop :=
  forall (strategy : SelectorStrategy) (s s' : St W unit) (l : Locator),
    Selectors.findElement (R:=unit) drv strategy s = (Normal (Some l), s') \/
    Selectors.findInIframes (R:=unit) drv strategy s = (Normal (Some l), s') ->
    exists r w',
      answer drv (BoundingBox l) (world s') = (Ok (Some r), w') /\
      (0 < r_width r)%Q /\ (0 < r_height r)%Q.


(** C7 as stated: the offsets scrolled to go up. *)
Definition ascending_stages (tr : list Event) : Prop :=
  ascending (scrollOffsets tr) = true.

(** * Properties *)

#[export] Instance kept_PreOrder : PreOrder kept.
Proof.
  split.
  - intros o; unfold kept; tauto.
  - intros a b c (A1 & A2 & A3 & A4 & A5 & A6) (B1 & B2 & B3 & B4 & B5 & B6).
    unfold kept. repeat split; congruence.
Qed.

#[export] Instance kept_meta_PreOrder : PreOrder kept_meta.
Proof.
  split.
  - intros o; unfold kept_meta; tauto.
  - intros a b c (A1 & A2 & A3 & A4 & A5) (B1 & B2 & B3 & B4 & B5).
    unfold kept_meta. repeat split; congruence.
Qed.

(** * Reasoning about completions *)

Section Completions.
Context {S : Type}.

Lemma call_plain {R R'} (d : R) (body : M S R unit) :
  plain (call (R':=R') d body).
Proof.
  intros s. unfold call. destruct (body s) as [[] ?]; exact I.
Qed.

Lemma call_cases {R R'} (d : R) (body : M S R unit) (s : S) :
  (exists r s', call (R':=R') d body s = (Normal r, s')) \/
  (exists e s', call (R':=R') d body s = (Throw e, s')).
Proof.
  unfold call. destruct (body s) as [[] ?]; eauto.
Qed.

Lemma plain_cases {R A} (m : M S R A) (s : S) :
  plain m ->
  (exists a s', m s = (Normal a, s')) \/ (exists e s', m s = (Throw e, s')).
Proof.
  intros H. specialize (H s). destruct (m s) as [[] ?]; simpl in H;
    try contradiction; eauto.
Qed.

Lemma quiet_ret {R A} (a : A) : quiet (ret (S:=S) (R:=R) a).
Proof. intros s; exact I. Qed.

Lemma quiet_bind {R A B} (m : M S R A) (k : A -> M S R B) :
  quiet m -> (forall a, quiet (k a)) -> quiet (bind m k).
Proof.
  intros Hm Hk s. unfold bind. specialize (Hm s).
  destruct (m s) as [[] s1]; simpl in *; try exact I; try contradiction.
  apply Hk.
Qed.

Lemma quiet_tryCatch {R A} (body : M S R A) (h : Exn -> M S R A) :
  (forall e, quiet (h e)) -> quiet (tryCatch body h).
Proof.
  intros Hh s. unfold tryCatch.
  destruct (body s) as [[] s1]; simpl; try exact I. apply Hh.
Qed.

Lemma quiet_forOf {R T} (xs : list T) (body : T -> M S R unit) :
  (forall x, quiet (body x)) -> quiet (forOf xs body).
Proof.
  intros Hb. induction xs as [|x xs IH]; intros s; simpl; [exact I|].
  specialize (Hb x s).
  destruct (body x s) as [[] s1]; simpl in *; try exact I; try contradiction;
    apply IH.
Qed.

Lemma quiet_call {R R'} (d : R) (body : M S R unit) :
  quiet body -> quiet (call (R':=R') d body).
Proof.
  intros Hb s. unfold call. specialize (Hb s).
  destruct (body s) as [[] s1]; simpl in *; try exact I; contradiction.
Qed.

Lemma quiet_plain_normal {R A} (m : M S R A) (s : S) :
  quiet m -> plain m -> exists a s', m s = (Normal a, s').
Proof.
  intros Hq Hp. specialize (Hq s). specialize (Hp s).
  destruct (m s) as [[] s1]; simpl in *; try contradiction; eauto.
Qed.

End Completions.

Section Growth.
Context {W X : Type} (P : Event -> Prop) (K : X -> X -> Prop) `{!PreOrder K}.

Lemma grows_refl (s : St W X) : grows P K s s.
Proof.
  split; [exists []; rewrite app_nil_r; auto | reflexivity].
Qed.

Lemma grows_trans (a b c : St W X) :
  grows P K a b -> grows P K b c -> grows P K a c.
Proof.
  intros [[d1 [E1 F1]] K1] [[d2 [E2 F2]] K2]. split.
  - exists (d1 ++ d2). rewrite E2, E1, app_assoc. split; auto.
    apply Forall_app; auto.
  - etransitivity; eauto.
Qed.

Lemma steps_ret {R A} (a : A) : steps P K (ret (S:=St W X) (R:=R) a).
Proof. intros s; apply grows_refl. Qed.

Lemma steps_return {R A} (r : R) : steps P K (return_ (S:=St W X) (A:=A) r).
Proof. intros s; apply grows_refl. Qed.

Lemma steps_continue {R A} : steps P K (continue_ (S:=St W X) (R:=R) (A:=A)).
Proof. intros s; apply grows_refl. Qed.

Lemma steps_break {R A} : steps P K (break_ (S:=St W X) (R:=R) (A:=A)).
Proof. intros s; apply grows_refl. Qed.

Lemma steps_throw {R A} (e : Exn) : steps P K (throw (S:=St W X) (R:=R) (A:=A) e).
Proof. intros s; apply grows_refl. Qed.

Lemma steps_this {R} : steps P K (this (W:=W) (X:=X) (R:=R)).
Proof. intros s; apply grows_refl. Qed.

Lemma steps_bind {R A B} (m : M (St W X) R A) (k : A -> M (St W X) R B) :
  steps P K m -> (forall a, steps P K (k a)) -> steps P K (bind m k).
Proof.
  intros Hm Hk s. unfold bind. specialize (Hm s).
  destruct (m s) as [[] s1]; simpl in *; auto.
  eapply grows_trans; [exact Hm|]. apply Hk.
Qed.

Lemma steps_tryCatch {R A} (body : M (St W X) R A) h :
  steps P K body -> (forall e, steps P K (h e)) -> steps P K (tryCatch body h).
Proof.
  intros Hb Hh s. unfold tryCatch. specialize (Hb s).
  destruct (body s) as [[] s1]; simpl in *; auto.
  eapply grows_trans; [exact Hb|]. apply Hh.
Qed.

Lemma steps_tryFinally {R A} (body : M (St W X) R A) fin :
  steps P K body -> steps P K fin -> steps P K (tryFinally body fin).
Proof.
  intros Hb Hf s. unfold tryFinally. specialize (Hb s).
  destruct (body s) as [c s1]. specialize (Hf s1).
  destruct (fin s1) as [[] s2]; simpl in *; eapply grows_trans; eauto.
Qed.

Lemma steps_forOf {R T} (xs : list T) (body : T -> M (St W X) R unit) :
  (forall x, steps P K (body x)) -> steps P K (forOf xs body).
Proof.
  intros Hb. induction xs as [|x xs IH]; intros s; simpl; [apply grows_refl|].
  specialize (Hb x s).
  destruct (body x s) as [[] s1]; simpl in *; auto;
    eapply grows_trans; eauto; apply IH.
Qed.

Lemma steps_call {R R'} (d : R) (body : M (St W X) R unit) :
  steps P K body -> steps P K (call (R':=R') d body).
Proof.
  intros Hb s. unfold call. specialize (Hb s).
  destruct (body s) as [[] s1]; simpl in *; auto.
Qed.

Lemma steps_ask (drv : Driver W) {R A} (c : Call A) :
  (forall r, P (Asked c r)) -> steps P K (ask drv (X:=X) (R:=R) c).
Proof.
  intros Hc s. unfold ask.
  destruct (answer drv c (world s)) as [r w'].
  assert (G : grows P K s (mkSt w' (trace s ++ [Asked c r]) (self s))).
  { split; simpl; [eexists; split; eauto | reflexivity]. }
  destruct r; exact G.
Qed.

Lemma steps_tell (drv : Driver W) {R A} (o : Query A) :
  (forall a, P (Observed o a)) -> steps P K (tell drv (X:=X) (R:=R) o).
Proof.
  intros Ho s. unfold tell.
  destruct (observe drv o (world s)) as [a w'].
  split; simpl; [eexists; split; eauto | reflexivity].
Qed.

Lemma steps_sleep {R} (ms : Z) :
  P (Slept ms) -> steps P K (sleep (W:=W) (X:=X) (R:=R) ms).
Proof.
  intros H s. split; simpl; [eexists; split; eauto | reflexivity].
Qed.

Lemma steps_mark {R} (p : Phase) :
  P (Mark p) -> steps P K (mark (W:=W) (X:=X) (R:=R) p).
Proof.
  intros H s. split; simpl; [eexists; split; eauto | reflexivity].
Qed.

Lemma steps_update {R} (f : X -> X) :
  (forall x, K x (f x)) -> steps P K (update (W:=W) (R:=R) f).
Proof.
  intros H s. split; simpl; [exists []; rewrite app_nil_r; auto | apply H].
Qed.

End Growth.

(** * Weakest preconditions *)

Section Wp.
Context {S : Type}.

Lemma wp_run {R A} (m : M S R A) Q s c s' :
  wp m Q s -> m s = (c, s') -> Q c s'.
Proof. unfold wp. intros H E. rewrite E in H. exact H. Qed.

Lemma wp_intro {R A} (m : M S R A) (Q : Completion R A -> S -> Prop) s :
  (forall c s', m s = (c, s') -> Q c s') -> wp m Q s.
Proof. intros H. unfold wp. apply H. destruct (m s); reflexivity. Qed.

Lemma wp_mono {R A} (m : M S R A) (Q Q' : Completion R A -> S -> Prop) s :
  wp m Q s -> (forall c s', Q c s' -> Q' c s') -> wp m Q' s.
Proof. unfold wp. auto. Qed.

Lemma wp_ret {R A} (a : A) (Q : Completion R A -> S -> Prop) s :
  Q (Normal a) s -> wp (ret a) Q s.
Proof. auto. Qed.

Lemma wp_return {R A} (r : R) (Q : Completion R A -> S -> Prop) s :
  Q (Return r) s -> wp (return_ r) Q s.
Proof. auto. Qed.

Lemma wp_continue {R A} (Q : Completion R A -> S -> Prop) s :
  Q Continue s -> wp continue_ Q s.
Proof. auto. Qed.

Lemma wp_break {R A} (Q : Completion R A -> S -> Prop) s :
  Q Break s -> wp break_ Q s.
Proof. auto. Qed.

Lemma wp_throw {R A} e (Q : Completion R A -> S -> Prop) s :
  Q (Throw e) s -> wp (throw e) Q s.
Proof. auto. Qed.

Lemma wp_bind {R A B} (m : M S R A) (k : A -> M S R B) Q s :
  wp m (fun c s1 =>
          match c with
          | Normal a => wp (k a) Q s1
          | Return r => Q (Return r) s1
          | Break => Q Break s1
          | Continue => Q Continue s1
          | Throw e => Q (Throw e) s1
          end) s ->
  wp (bind m k) Q s.
Proof.
  unfold wp, bind. destruct (m s) as [[] s1]; simpl; auto.
Qed.

Lemma wp_tryCatch {R A} (body : M S R A) h Q s :
  wp body (fun c s1 =>
             match c with
             | Throw e => wp (h e) Q s1
             | _ => Q c s1
             end) s ->
  wp (tryCatch body h) Q s.
Proof.
  unfold wp, tryCatch. destruct (body s) as [[] s1]; simpl; auto.
Qed.

Lemma wp_tryFinally {R A} (body : M S R A) fin Q s :
  wp body (fun c s1 =>
             wp fin (fun cf s2 =>
                       match cf with
                       | Normal _ => Q c s2
                       | Return r => Q (Return r) s2
                       | Break => Q Break s2
                       | Continue => Q Continue s2
                       | Throw e => Q (Throw e) s2
                       end) s1) s ->
  wp (tryFinally body fin) Q s.
Proof.
  unfold wp, tryFinally. destruct (body s) as [c s1]; simpl.
  destruct (fin s1) as [[] s2]; simpl; auto.
Qed.

Lemma wp_call {R R'} (d : R) (body : M S R unit)
    (Q : Completion R' R -> S -> Prop) s :
  wp body (fun c s1 =>
             match c with
             | Return r => Q (Normal r) s1
             | Throw e => Q (Throw e) s1
             | _ => Q (Normal d) s1
             end) s ->
  wp (call d body) Q s.
Proof.
  unfold wp, call. destruct (body s) as [[] s1]; simpl; auto.
Qed.

Lemma wp_forOf_nil {R T} (body : T -> M S R unit) Q s :
  Q (Normal tt) s -> wp (forOf [] body) Q s.
Proof. auto. Qed.

Lemma wp_forOf_cons {R T} x xs (body : T -> M S R unit) Q s :
  wp (body x) (fun c s1 =>
                 match c with
                 | Normal _ | Continue => wp (forOf xs body) Q s1
                 | Break => Q (Normal tt) s1
                 | Return r => Q (Return r) s1
                 | Throw e => Q (Throw e) s1
                 end) s ->
  wp (forOf (x :: xs) body) Q s.
Proof.
  unfold wp. simpl. destruct (body x s) as [[] s1]; simpl; auto.
Qed.

End Wp.

Section WpMachine.
Context {W X : Type} (drv : Driver W).

Lemma wp_ask {R A} (c : Call A) (Q : Completion R A -> St W X -> Prop) s :
  (forall r w',
      answer drv c (world s) = (r, w') ->
      Q (match r with Ok a => Normal a | Err e => Throw e end)
        (mkSt w' (trace s ++ [Asked c r]) (self s))) ->
  wp (ask drv c) Q s.
Proof.
  intros H. unfold wp, ask.
  destruct (answer drv c (world s)) as [r w'] eqn:E.
  specialize (H r w' eq_refl). destruct r; exact H.
Qed.

Lemma wp_tell {R A} (o : Query A) (Q : Completion R A -> St W X -> Prop) s :
  (forall a w',
      observe drv o (world s) = (a, w') ->
      Q (Normal a) (mkSt w' (trace s ++ [Observed o a]) (self s))) ->
  wp (tell drv o) Q s.
Proof.
  intros H. unfold wp, tell.
  destruct (observe drv o (world s)) as [a w'] eqn:E. exact (H a w' eq_refl).
Qed.

Lemma wp_sleep {R} ms (Q : Completion R unit -> St W X -> Prop) s :
  Q (Normal tt) (emit (Slept ms) s) -> wp (sleep ms) Q s.
Proof. auto. Qed.

Lemma wp_mark {R} p (Q : Completion R unit -> St W X -> Prop) s :
  Q (Normal tt) (emit (Mark p) s) -> wp (mark p) Q s.
Proof. auto. Qed.

Lemma wp_update {R} f (Q : Completion R unit -> St W X -> Prop) s :
  Q (Normal tt) (mkSt (world s) (trace s) (f (self s))) -> wp (update f) Q s.
Proof. auto. Qed.

Lemma wp_this {R} (Q : Completion R X -> St W X -> Prop) s :
  Q (Normal (self s)) s -> wp this Q s.
Proof. auto. Qed.

(** A callee known through what it adds to the trace and keeps in the
    object. *)
Lemma wp_steps {R A} P K (m : M (St W X) R A) Q s :
  steps P K m -> plain m ->
  (forall c s1, m s = (c, s1) -> grows P K s s1 -> plainC c -> Q c s1) ->
  wp m Q s.
Proof.
  intros Hs Hp H. apply wp_intro. intros c s1 E.
  apply H; auto.
  - specialize (Hs s). rewrite E in Hs. exact Hs.
  - specialize (Hp s). rewrite E in Hp. exact Hp.
Qed.

End WpMachine.

Lemma steps_weaken {W X R A} (P Q : Event -> Prop) (K L : X -> X -> Prop)
    (m : M (St W X) R A) :
  (forall ev, P ev -> Q ev) -> (forall x y, K x y -> L x y) ->
  steps P K m -> steps Q L m.
Proof.
  intros HP HK Hm s. destruct (Hm s) as [[d [E F]] Hk]. split; auto.
  exists d; split; auto. eapply Forall_impl; eauto.
Qed.

Ltac head_of t :=
  lazymatch t with
  | ?f _ => head_of f
  | _ => t
  end.

(** Break a body into its statements.  [tac] is tried first, for the
    callees that have a lemma of their own; the other callees are
    unfolded. *)
Ltac steps_with tac :=
  repeat first
    [ tac
    | match goal with
      | |- steps _ _ (ret _) => apply steps_ret
      | |- steps _ _ skip => apply steps_ret
      | |- steps _ _ (return_ _) => apply steps_return
      | |- steps _ _ continue_ => apply steps_continue
      | |- steps _ _ break_ => apply steps_break
      | |- steps _ _ (throw _) => apply steps_throw
      | |- steps _ _ this => apply steps_this
      | |- steps _ _ (bind _ _) => apply steps_bind
      | |- steps _ _ (tryCatch _ _) => apply steps_tryCatch
      | |- steps _ _ (tryFinally _ _) => apply steps_tryFinally
      | |- steps _ _ (forOf _ _) => apply steps_forOf
      | |- steps _ _ (call _ _) => apply steps_call
      | |- steps _ _ (ask _ _) => apply steps_ask
      | |- steps _ _ (tell _ _) => apply steps_tell
      | |- steps _ _ (sleep _) => apply steps_sleep
      | |- steps _ _ (mark _) => apply steps_mark
      | |- steps _ _ (update _) => apply steps_update
      | |- PreOrder _ => typeclasses eauto
      | |- forall _, _ => intro
      | |- steps _ _ (match ?x with _ => _ end) => destruct x
      | |- steps _ _ (if ?x then _ else _) => destruct x
      | |- steps _ _ (let _ := _ in _) => cbv zeta
      | |- steps _ _ ?m =>
          let h := head_of m in
          lazymatch h with
          | @Selectors.findAllFallbacks => fail
          | _ => unfold h
          end
      end ].

Ltac steps_go := steps_with fail.

Section SelectorFacts.
Context {W X : Type} (drv : Driver W).






End SelectorFacts.

Section DiagnosticFacts.
Context {W X : Type} (drv : Driver W).

Lemma caught_steps {R A} P (m : M (St W X) R A) :
  steps P eq m -> steps P eq (Diagnostics.caught m).
Proof. intros H. unfold Diagnostics.caught. steps_go. exact H. Qed.

Lemma detectActiveModal_steps {R} :
  steps diag_probe eq (Diagnostics.detectActiveModal (X:=X) (R:=R) drv).
Proof. unfold Diagnostics.detectActiveModal. steps_go; simpl; auto. Qed.

Lemma detectPopups_steps {R} :
  steps diag_probe eq (Diagnostics.detectPopups (X:=X) (R:=R) drv).
Proof. unfold Diagnostics.detectPopups. steps_go; simpl; auto. Qed.

Lemma collectDiagnostics_steps {R} :
  steps diag_probe eq (Diagnostics.collectDiagnostics (X:=X) (R:=R) drv).
Proof.
  unfold Diagnostics.collectDiagnostics.
  steps_go; try apply caught_steps; steps_go;
    try apply detectActiveModal_steps; try apply detectPopups_steps;
    simpl; auto.
Qed.

Lemma caught_quiet {R A} (m : M (St W X) R A) : quiet (Diagnostics.caught m).
Proof.
  unfold Diagnostics.caught. apply quiet_tryCatch. intros e s; exact I.
Qed.

Lemma collectDiagnostics_total {R} (s : St W X) :
  exists d s', Diagnostics.collectDiagnostics (R:=R) drv s = (Normal d, s').
Proof.
  apply quiet_plain_normal; [|apply call_plain].
  unfold Diagnostics.collectDiagnostics. apply quiet_call.
  repeat (apply quiet_bind; [apply caught_quiet|intros [?|]; [|intros ?; exact I]]).
  intros ?; exact I.
Qed.

End DiagnosticFacts.

Lemma main_probe_driver ev : main_probe ev -> driver_event ev.
Proof. destruct ev; simpl; auto. Qed.

Lemma diag_probe_driver ev : diag_probe ev -> driver_event ev.
Proof. destruct ev; simpl; auto. Qed.

Lemma lookup_probe_driver ev : lookup_probe ev -> driver_event ev.
Proof. destruct ev; simpl; auto. unfold lookup_probe; simpl; tauto. Qed.

Lemma eq_kept (x y : Fields) : x = y -> kept x y.
Proof. intros <-. reflexivity. Qed.

Create HintDb steps.
#[export] Hint Resolve main_probe_driver diag_probe_driver lookup_probe_driver
  eq_kept : steps.

(** Use a lemma about a callee, at a coarser event class and relation. *)
Ltac leaf L :=
  eapply steps_weaken; [ | | apply L ];
  [ try solve [ auto with steps
              | intros ? ?; unfold lookup_probe; tauto ]
  | try solve [ auto with steps | intros ? ? <-; reflexivity | auto ] ].

Section NewsletterFacts.
Context {W : Type} (drv : Driver W).

Lemma with_push_strategy_kept msg o : kept o (with_result (push_strategy msg) o).
Proof. unfold kept; simpl; tauto. Qed.

Lemma with_set_diagnostics_kept d o : kept o (with_result (set_diagnostics d) o).
Proof. unfold kept; simpl; tauto. Qed.

Lemma on_result_steps {R} P (K : Fields -> Fields -> Prop) `{!PreOrder K} f :
  (forall o, K o (with_result f o)) ->
  steps P K (on_result (W:=W) (R:=R) f).
Proof. intros H. unfold on_result. apply steps_update; auto. Qed.

Ltac helper :=
  steps_go;
  try solve [ simpl; auto
            | unfold lookup_probe; simpl; eauto 6
            | unfold kept; simpl; tauto ].

Lemma findEmailInput_steps {R} :
  steps lookup_probe kept (findEmailInput (R:=R) drv).
Proof. unfold findEmailInput. helper. Qed.

Lemma findSubmitButton_steps {R} :
  steps lookup_probe kept (findSubmitButton (R:=R) drv).
Proof. unfold findSubmitButton. helper. Qed.

Lemma findAllFallbacks_steps {R} fbs :
  steps driver_event eq (Selectors.findAllFallbacks (X:=Fields) (R:=R) drv fbs).
Proof. induction fbs as [|fb rest IH]; simpl; helper. Qed.

Lemma tickCheckbox_steps {R} checkbox :
  steps driver_event kept (tickCheckbox (R:=R) drv checkbox).
Proof. unfold tickCheckbox. helper. Qed.

Lemma handleCheckboxes_steps {R} :
  steps driver_event kept (handleCheckboxes (R:=R) drv).
Proof.
  unfold handleCheckboxes. helper.
  eapply steps_weaken; [| |apply findAllFallbacks_steps]; auto with steps.
Qed.

Lemma handleCheckboxes_total {R} s :
  exists s', handleCheckboxes (R:=R) drv s = (Normal tt, s').
Proof.
  destruct (quiet_plain_normal (handleCheckboxes (R:=R) drv) s) as (a & s' & E).
  - unfold handleCheckboxes. apply quiet_call.
    apply quiet_bind; [intros ?; exact I|intros o].
    apply quiet_bind; [destruct (_ || _); intros ?; exact I|intros _].
    apply quiet_forOf. intros x. apply quiet_tryCatch. intros e ?; exact I.
  - apply call_plain.
  - destruct a. eauto.
Qed.

Lemma fill_steps {R} el text :
  steps driver_event kept (fill (R:=R) drv el text).
Proof. unfold fill. destruct el; helper. Qed.

Lemma click_steps {R} el :
  steps driver_event kept (click (R:=R) drv el).
Proof. unfold click. destruct el; helper. Qed.

Lemma verifySubmissionSuccess_steps {R} :
  steps driver_event kept (verifySubmissionSuccess (R:=R) drv).
Proof. unfold verifySubmissionSuccess. helper. Qed.

End NewsletterFacts.

Lemma attemptsOf_app a b : attemptsOf (a ++ b) = attemptsOf a ++ attemptsOf b.
Proof.
  induction a as [|ev a IH]; simpl; auto.
  destruct ev as [? ? ?|? ? ?| |[]]; simpl; auto. rewrite IH. reflexivity.
Qed.

Lemma popupPasses_app a b : popupPasses (a ++ b) = (popupPasses a + popupPasses b)%nat.
Proof.
  induction a as [|ev a IH]; simpl; auto.
  destruct ev as [? ? ?|? ? ?| |[]]; simpl; auto.
Qed.

Lemma attemptsOf_driver d : Forall driver_event d -> attemptsOf d = [].
Proof.
  induction 1 as [|ev d H _ IH]; simpl; auto.
  destruct ev as [? ? ?|? ? ?| |[]]; simpl in *; auto; contradiction.
Qed.

Lemma popupPasses_driver d : Forall driver_event d -> popupPasses d = 0%nat.
Proof.
  induction 1 as [|ev d H _ IH]; simpl; auto.
  destruct ev as [? ? ?|? ? ?| |[]]; simpl in *; auto; contradiction.
Qed.

Section Growth2.
Context {W X : Type} (P : Event -> Prop) (K : X -> X -> Prop) `{!PreOrder K}.

Lemma grows_emit (s0 s : St W X) ev :
  grows P K s0 s -> P ev -> grows P K s0 (emit ev s).
Proof.
  intros G H. eapply grows_trans; [typeclasses eauto|exact G|].
  split; simpl; [exists [ev]; auto | reflexivity].
Qed.

Lemma grows_asked (s0 s : St W X) {A} (c : Call A) r w' :
  grows P K s0 s -> P (Asked c r) ->
  grows P K s0 (mkSt w' (trace s ++ [Asked c r]) (self s)).
Proof.
  intros G H. eapply grows_trans; [typeclasses eauto|exact G|].
  split; simpl; [eexists; eauto | reflexivity].
Qed.

Lemma grows_self (s0 s : St W X) f :
  grows P K s0 s -> K (self s) (f (self s)) ->
  grows P K s0 (mkSt (world s) (trace s) (f (self s))).
Proof.
  intros G H. eapply grows_trans; [typeclasses eauto|exact G|].
  split; simpl; [exists []; rewrite app_nil_r; auto | exact H].
Qed.

End Growth2.

Section Attempts.
Context {W : Type} (drv : Driver W).

Lemma post_failed cfg a (s s2 : St W Fields) c msg extra w :
  grows driver_event kept (emit (Mark (AttemptStart (a + 1))) s) s2 ->
  c = Normal tt \/ c = Continue \/
  (exists e0, c = Throw e0 /\ wait_rejected drv 1000 e0 /\
              (a < retryAttempts cfg - 1)%Z) ->
  Forall driver_event extra ->
  attempt_post drv cfg a s c
    (mkSt w (trace s2 ++ extra)
       (with_result (push_error ("Attempt " ++ show_Z (a + 1) ++ msg)%string)
          (self s2))).
Proof.
  intros [[d [E F]] (K1 & K2 & K3 & K4 & K5 & K6)] Hc Hx. simpl in *.
  unfold attempt_post, errs. simpl. repeat split; auto.
  - exists (d ++ extra). rewrite E, <- !app_assoc. simpl. split; auto.
    apply Forall_app; auto.
  - right. split; auto. eexists. split; [exists msg; reflexivity|].
    rewrite K6. reflexivity.
Qed.

Lemma post_success cfg a (s s2 : St W Fields) msg extra w :
  grows driver_event kept (emit (Mark (AttemptStart (a + 1))) s) s2 ->
  Forall driver_event extra ->
  attempt_post drv cfg a s (Return true)
    (mkSt w (trace s2 ++ extra)
       (with_result (push_strategy msg) (self s2))).
Proof.
  intros [[d [E F]] (K1 & K2 & K3 & K4 & K5 & K6)] Hx. simpl in *.
  unfold attempt_post, errs. simpl. repeat split; auto.
  - exists (d ++ extra). rewrite E, <- !app_assoc. simpl. split; auto.
    apply Forall_app; auto.
Qed.

Lemma findEmailInput_driver {R} :
  steps driver_event kept (findEmailInput (R:=R) drv).
Proof.
  eapply steps_weaken; [| |apply findEmailInput_steps]; auto with steps.
Qed.

Lemma findSubmitButton_driver {R} :
  steps driver_event kept (findSubmitButton (R:=R) drv).
Proof.
  eapply steps_weaken; [| |apply findSubmitButton_steps]; auto with steps.
Qed.

Lemma fill_plain {R} el text : plain (fill (R:=R) drv el text).
Proof.
  intros s. unfold fill. destruct el; simpl; auto.
  unfold ask. destruct (answer _ _ _) as [[] ?]; simpl; auto.
Qed.

Lemma click_plain {R} el : plain (click (R:=R) drv el).
Proof.
  intros s. unfold click. destruct el; simpl; auto.
  unfold ask. destruct (answer _ _ _) as [[] ?]; simpl; auto.
Qed.

Lemma findEmailInput_plain {R} : plain (findEmailInput (R:=R) drv).
Proof. apply call_plain. Qed.

Lemma findSubmitButton_plain {R} : plain (findSubmitButton (R:=R) drv).
Proof. apply call_plain. Qed.

Lemma handleCheckboxes_plain {R} : plain (handleCheckboxes (R:=R) drv).
Proof. apply call_plain. Qed.

(** Walk one callee: keep the accumulated growth in [G]. *)
Ltac callee L PL G :=
  apply wp_bind; eapply (wp_steps _ _ _ _ _ L PL);
  let c := fresh "c" in let s1 := fresh "s" in
  let E := fresh "E" in let G1 := fresh "G" in let Pc := fresh "Pc" in
  intros c s1 E G1 Pc;
  pose proof (grows_trans _ _ _ _ _ G G1); clear G G1;
  destruct c; try contradiction.

(** A pause inside the [try] of the attempt: when it is rejected the
    handler takes over. *)
Lemma wp_pause_in_try {R} ms (Q : Completion R unit -> St W Fields -> Prop)
    (s0 s : St W Fields) :
  grows driver_event kept s0 s ->
  (forall s1, grows driver_event kept s0 s1 -> Q (Normal tt) s1) ->
  (forall e s1, grows driver_event kept s0 s1 -> Q (Throw e) s1) ->
  wp (ask drv (WaitForTimeout ms)) Q s.
Proof.
  intros G HN HT. apply wp_ask. intros r w' _.
  assert (G' : grows driver_event kept s0
                 (mkSt w' (trace s ++ [Asked (WaitForTimeout ms) r]) (self s)))
    by (apply grows_asked; simpl; auto; apply _).
  destruct r as [[]|e]; auto.
Qed.

Lemma signupAttempt_spec cfg a s :
  wp (signupAttempt drv cfg a) (attempt_post drv cfg a s) s.
Proof.
  unfold signupAttempt.
  apply wp_bind, wp_mark.
  assert (G : grows driver_event kept (emit (Mark (AttemptStart (a + 1))) s)
                (emit (Mark (AttemptStart (a + 1))) s)) by apply grows_refl, _.
  set (after :=
         fun (c : Completion bool unit) (s1 : St W Fields) =>
           match c with
           | Normal _ =>
               wp (if (a <? retryAttempts cfg - 1)%Z
                   then ask drv (WaitForTimeout 1000) else skip)
                 (attempt_post drv cfg a s) s1
           | Return r => attempt_post drv cfg a s (Return r) s1
           | Break => attempt_post drv cfg a s Break s1
           | Continue => attempt_post drv cfg a s Continue s1
           | Throw e => attempt_post drv cfg a s (Throw e) s1
           end).
  assert (Handler : forall e s2,
             grows driver_event kept (emit (Mark (AttemptStart (a + 1))) s) s2 ->
             wp (on_result (R:=bool)
                   (push_error ("Attempt " ++ show_Z (a + 1) ++ " failed: "
                                  ++ errorText e)%string)) after s2).
  { intros e s2 G2. apply wp_update. unfold after.
    destruct (a <? _)%Z eqn:Last.
    - apply wp_ask. simpl. intros r w' Ew.
      apply (post_failed cfg a s s2 _ (" failed: " ++ errorText e)%string
               [Asked (WaitForTimeout 1000) r]); auto;
        [|repeat constructor].
      destruct r as [[]|e0]; auto.
      right; right. exists e0. split; auto. split; [|lia].
      exists (world s2), w'. exact Ew.
    - apply wp_ret.
      pose proof (post_failed cfg a s s2 (Normal tt)
                    (" failed: " ++ errorText e)%string [] (world s2) G2) as H.
      rewrite app_nil_r in H. apply H; auto. }
  apply wp_bind. fold after. apply wp_tryCatch.
  callee (findEmailInput_driver (R:=bool)) (findEmailInput_plain (R:=bool)) G;
    [|apply Handler; auto].
  destruct a0 as [emailInput|].
  2:{ apply wp_bind, wp_update, wp_continue.
      pose proof (post_failed cfg a s s0 Continue ": Email input not found" []
                    (world s0) H) as H1.
      rewrite app_nil_r in H1. apply H1; auto. }
  callee (fill_steps drv (R:=bool) emailInput (cfg_email cfg))
         (fill_plain (R:=bool) emailInput (cfg_email cfg)) H;
    [|apply Handler; auto].
  apply wp_bind.
  apply (wp_pause_in_try 500 _ (emit (Mark (AttemptStart (a + 1))) s) s1 H0);
    [|intros e s2 G2; apply Handler; exact G2].
  intros s1' G. clear H0.
  callee (handleCheckboxes_steps drv (R:=bool)) (handleCheckboxes_plain (R:=bool)) G;
    [|apply Handler; auto].
  callee (findSubmitButton_driver (R:=bool)) (findSubmitButton_plain (R:=bool)) H;
    [|apply Handler; auto].
  destruct a2 as [submitButton|].
  2:{ apply wp_bind, wp_update, wp_continue.
      pose proof (post_failed cfg a s s3 Continue ": Submit button not found" []
                    (world s3) H0) as H1.
      rewrite app_nil_r in H1. apply H1; auto. }
  callee (click_steps drv (R:=bool) submitButton)
         (click_plain (R:=bool) submitButton) H0;
    [|apply Handler; auto].
  apply wp_bind.
  apply (wp_pause_in_try 2000 _ (emit (Mark (AttemptStart (a + 1))) s) s4 H);
    [|intros e s5 G5; apply Handler; exact G5].
  intros s5 G5.
  apply wp_bind, wp_update.
  apply wp_bind, wp_return. unfold after.
  pose proof (post_success cfg a s s5 ("Successful on attempt " ++ show_Z (a + 1))%string
                [] (world s5) G5) as H1.
  rewrite app_nil_r in H1. apply H1. constructor.
Qed.

End Attempts.

Lemma zrange_shift lo hi :
  map (fun a => (a + 1)%Z) (zrange lo hi) = zrange (lo + 1) (hi + 1).
Proof.
  unfold zrange. rewrite map_map.
  replace (hi + 1 - (lo + 1))%Z with (hi - lo)%Z by lia.
  apply map_ext. intros k. lia.
Qed.

Lemma zrange_length lo hi : length (zrange lo hi) = Z.to_nat (hi - lo).
Proof. unfold zrange. rewrite length_map, length_seq. reflexivity. Qed.

Lemma zrange_cons lo hi :
  (lo < hi)%Z -> zrange lo hi = lo :: zrange (lo + 1) hi.
Proof.
  intros H. unfold zrange.
  replace (Z.to_nat (hi - lo)) with (Datatypes.S (Z.to_nat (hi - (lo + 1))))
    by lia.
  simpl. f_equal; [lia|].
  rewrite <- seq_shift, map_map. apply map_ext. intros k. lia.
Qed.

Lemma zrange_nil lo hi : (hi <= lo)%Z -> zrange lo hi = [].
Proof.
  intros H. unfold zrange. replace (Z.to_nat (hi - lo)) with 0%nat by lia.
  reflexivity.
Qed.

(** The values of a counting loop up to one of them are those of the loop
    that stops after it. *)
Lemma zrange_split lo hi pre x post :
  zrange lo hi = pre ++ x :: post ->
  pre ++ [x] = zrange lo (x + 1) /\ (lo <= x < hi)%Z.
Proof.
  revert lo. induction pre as [|p pre IH]; intros lo E.
  - destruct (Z_lt_le_dec lo hi) as [L|L].
    + rewrite (zrange_cons lo hi L) in E. simpl in E. inversion E; subst.
      split; [|lia]. rewrite (zrange_cons x (x + 1)) by lia.
      rewrite zrange_nil by lia. reflexivity.
    + rewrite zrange_nil in E by lia. discriminate.
  - destruct (Z_lt_le_dec lo hi) as [L|L].
    + rewrite (zrange_cons lo hi L) in E. simpl in E. inversion E; subst.
      destruct (IH _ H1) as [Ep Hx]. split; [|lia].
      rewrite (zrange_cons p (x + 1)) by lia. simpl. rewrite Ep. reflexivity.
    + rewrite zrange_nil in E by lia. discriminate.
Qed.

Section Loop.
Context {W : Type} (drv : Driver W).

Lemma retry_loop cfg xs : forall s,
  wp (forOf xs (signupAttempt drv cfg)) (loop_post drv cfg xs s) s.
Proof.
  induction xs as [|x xs IH]; intros s.
  - apply wp_forOf_nil. unfold loop_post. repeat split; auto.
    exists [], []. rewrite !app_nil_r. repeat split; auto.
  - apply wp_forOf_cons.
    eapply wp_mono; [apply signupAttempt_spec|].
    intros c s1 ([d [Ed Fd]] & Kp & Ks & Ksucc & Hc).
    assert (Next : forall e, attemptEntry (x + 1) e ->
                     errs s1 = errs s ++ [e] ->
                     wp (forOf xs (signupAttempt drv cfg))
                       (loop_post drv cfg (x :: xs) s) s1).
    { intros e He Ee. eapply wp_mono; [apply IH|].
      intros c' s2 (Kp' & Ks' & Ksucc' & d' & es' & Ed' & Ee' & Pp & Hc').
      unfold loop_post. repeat split; try congruence.
      exists ((Mark (AttemptStart (x + 1)) :: d) ++ d'), (e :: es').
      split; [rewrite Ed', Ed, <- app_assoc; reflexivity|].
      split; [rewrite Ee', Ee, <- app_assoc; reflexivity|].
      split.
      { rewrite popupPasses_app. simpl.
        rewrite (popupPasses_driver d Fd). simpl. exact Pp. }
      rewrite attemptsOf_app. simpl. rewrite (attemptsOf_driver d Fd). simpl.
      destruct Hc' as [(-> & A & F)|[(-> & pre & y & post & -> & A & F)
                                    |(e0 & pre & y & post & -> & Hw & -> & Hy & A & F)]].
      - left. repeat split; auto. rewrite A. reflexivity.
      - right; left. split; auto. exists (x :: pre), y, post. simpl.
        repeat split; auto. rewrite A. reflexivity.
      - right; right. exists e0, (x :: pre), y, post. simpl.
        repeat split; auto. rewrite A. reflexivity. }
    destruct Hc as [(-> & Ee)|([-> | [-> | (e0 & -> & Hw & Hx)]] & e & He & Ee)];
      eauto.
    + unfold loop_post. repeat split; auto.
      exists (Mark (AttemptStart (x + 1)) :: d), [].
      rewrite app_nil_r. repeat split; auto.
      * simpl. apply popupPasses_driver; auto.
      * right; left. split; auto. exists [], x, xs. simpl. repeat split; auto.
        rewrite (attemptsOf_driver d Fd). reflexivity.
    + unfold loop_post. repeat split; auto.
      exists (Mark (AttemptStart (x + 1)) :: d), [e].
      repeat split; auto.
      * simpl. apply popupPasses_driver; auto.
      * right; right. exists e0, [], x, xs. simpl. repeat split; auto.
        rewrite (attemptsOf_driver d Fd). reflexivity.
Qed.

Lemma signupAttempt_no_input cfg a s :
  never_finds_input drv -> fst (signupAttempt drv cfg a s) <> Return true.
Proof.
  intros H. unfold signupAttempt, bind, tryCatch, mark.
  destruct (findEmailInput drv _) as [c1 s1] eqn:E1.
  pose proof (findEmailInput_plain drv (R:=bool) (emit (Mark (AttemptStart (a + 1))) s)) as Pl.
  rewrite E1 in Pl. simpl in Pl.
  destruct c1 as [[el|]| | | |e]; try contradiction.
  - exfalso. eapply H; eauto.
  - unfold on_result, update, continue_. simpl. discriminate.
  - unfold on_result, update. simpl.
    destruct (a <? _)%Z; simpl; [|discriminate].
    unfold ask. destruct (answer _ _ _) as [[] ?]; simpl; discriminate.
Qed.

(** When no input is ever found the loop is left at its end, or by the
    rejection of a wait before a retry. *)
Lemma retry_loop_exhausted cfg xs s c s' :
  never_finds_input drv ->
  forOf xs (signupAttempt drv cfg) s = (c, s') ->
  c = Normal tt \/ exists e, c = Throw e.
Proof.
  intros H. revert s. induction xs as [|x xs IH]; intros s E; simpl in E.
  - inversion E; auto.
  - pose proof (signupAttempt_no_input cfg x s H) as N.
    pose proof (signupAttempt_spec drv cfg x s) as Sp. unfold wp in Sp.
    destruct (signupAttempt drv cfg x s) as [c1 s1]. simpl in *.
    destruct Sp as (_ & _ & _ & _ & [(-> & _)|([-> | [-> | (e0 & -> & _)]] & _)]);
      try congruence; eauto.
    inversion E; eauto.
Qed.

(** When moreover the waits before the retries complete, it is left at its
    end. *)
Lemma retry_loop_completes cfg xs s c s' :
  never_finds_input drv -> waits_complete drv 1000 ->
  forOf xs (signupAttempt drv cfg) s = (c, s') -> c = Normal tt.
Proof.
  intros H Hw E.
  pose proof (wp_run _ _ _ _ _ (retry_loop cfg xs s) E)
    as (_ & _ & _ & d & es & _ & _ & _ & Hc).
  destruct (retry_loop_exhausted cfg xs s c s' H E) as [->|[e ->]]; auto.
  destruct Hc as [(Hc & _)|[(Hc & _)|(e0 & pre & x & post & Hc & (w & w' & Ew) & _)]];
    try discriminate.
  destruct (Hw w) as [w2 Ew2]. congruence.
Qed.

End Loop.

Section Signup.
Context {W : Type} (drv : Driver W).

Lemma attemptNewsletterSignup_spec {R} cfg s :
  wp (attemptNewsletterSignup (R:=R) drv cfg) (signup_post drv cfg s) s.
Proof.
  unfold attemptNewsletterSignup.
  apply wp_call, wp_bind, wp_this, wp_bind.
  destruct (negb (f_page (self s)) || negb (f_selectors (self s))) eqn:Init.
  - apply wp_return. exists [], []. rewrite !app_nil_r.
    split; [reflexivity|]. split; [reflexivity|]. split; [reflexivity|].
    split; [reflexivity|]. split; [|discriminate].
    intros Hp Hs. rewrite Hp, Hs in Init. discriminate.
  - apply wp_ret, wp_bind.
    eapply wp_mono; [apply retry_loop|].
    intros c s1 (Kp & Ks & Ksucc & d & es & Ed & Ee & Pp & Hc).
    rewrite zrange_shift in Hc. simpl in Hc.
    destruct Hc as [(-> & A & F)|[(-> & pre & x & post & X & A & F)
                                 |(e0 & pre & x & post & -> & Hw & X & Hx & A & F)]].
    + apply wp_return. exists d, es.
      split; [auto|]. split; [auto|]. split; [auto|]. split; [auto|].
      split; [auto|discriminate].
    + exists d, es.
      split; [auto|]. split; [auto|]. split; [auto|]. split; [auto|].
      split; [discriminate|].
      intros _. rewrite A, map_app. simpl. intros N.
      apply app_eq_nil in N. destruct N; discriminate.
    + exists d, es.
      split; [auto|]. split; [auto|]. split; [auto|]. split; [auto|].
      split; [auto|].
      destruct (zrange_split _ _ _ _ _ X) as [Ep Hr].
      exists (x + 1)%Z. split; [lia|].
      rewrite Ep, zrange_shift in A, F. auto.
Qed.

(** When no input is ever found, [attemptNewsletterSignup] answers false or
    throws. *)
Lemma attemptNewsletterSignup_exhausted {R} cfg s c s' :
  never_finds_input drv ->
  attemptNewsletterSignup (R:=R) drv cfg s = (c, s') ->
  c = Normal false \/ exists e, c = Throw e.
Proof.
  intros H. unfold attemptNewsletterSignup, call, bind, this.
  destruct (negb _ || negb _); simpl.
  - intros E; inversion E; auto.
  - destruct (forOf _ _ s) as [c1 s1] eqn:E1.
    apply (retry_loop_exhausted drv cfg _ _ _ _ H) in E1.
    destruct E1 as [->|[e ->]]; simpl; intros E; inversion E; eauto.
Qed.

Lemma attemptNewsletterSignup_completes {R} cfg s c s' :
  never_finds_input drv -> waits_complete drv 1000 ->
  attemptNewsletterSignup (R:=R) drv cfg s = (c, s') -> c = Normal false.
Proof.
  intros H Hw. unfold attemptNewsletterSignup, call, bind, this.
  destruct (negb _ || negb _); simpl.
  - intros E; inversion E; auto.
  - destruct (forOf _ _ s) as [c1 s1] eqn:E1.
    apply (retry_loop_completes drv cfg _ _ _ _ H Hw) in E1. subst c1. simpl.
    intros E; inversion E; auto.
Qed.

End Signup.

Lemma eq_kept_meta (x y : Fields) : x = y -> kept_meta x y.
Proof. intros <-. reflexivity. Qed.

#[export] Hint Resolve eq_kept_meta : steps.

Section Run.
Context {W : Type} (drv : Driver W).

Ltac meta :=
  steps_go;
  try solve [ simpl; auto
            | unfold kept_meta; simpl; tauto
            | eapply steps_weaken; [| |apply findAllFallbacks_steps];
              auto with steps ].

Lemma popupStep_steps {R} strategy :
  steps driver_event kept_meta (popupStep (R:=R) drv strategy).
Proof. unfold popupStep. meta. Qed.

Lemma triggerPopupsWithScrolling_steps {R} cfg :
  steps driver_event kept_meta (triggerPopupsWithScrolling (R:=R) drv cfg).
Proof. unfold triggerPopupsWithScrolling. meta. Qed.

Lemma handlePopupsAndModals_spec {R} cfg s c s' :
  handlePopupsAndModals (R:=R) drv cfg s = (c, s') ->
  plainC c /\ kept_meta (self s) (self s') /\
  exists d, trace s' = trace s ++ Mark PopupPass :: d /\ Forall driver_event d.
Proof.
  intros E. split.
  { pose proof (call_plain (R':=R) tt
                  (mark PopupPass ;; o <- this ;;
                   (if negb (f_page o) then return_ tt else skip) ;;
                   ask drv (WaitForTimeout 2000) ;;
                   triggerPopupsWithScrolling drv cfg ;;
                   forOf popupStrategies (popupStep drv)) s) as Pl.
    unfold handlePopupsAndModals in E. rewrite E in Pl. exact Pl. }
  revert E. unfold handlePopupsAndModals, call. unfold bind at 1. unfold mark.
  match goal with
  | |- context [?m (emit (Mark PopupPass) s)] => set (rest := m)
  end.
  assert (Hst : steps driver_event kept_meta rest) by (unfold rest; meta).
  specialize (Hst (emit (Mark PopupPass) s)).
  destruct (rest (emit (Mark PopupPass) s)) as [c1 s1].
  destruct Hst as [[d [Ed Fd]] Km]. simpl in *.
  intros E.
  assert (s' = s1) by (destruct c1; inversion E; auto). subst s1.
  split; auto. exists d. rewrite Ed, <- app_assoc. auto.
Qed.

Lemma attemptNewsletterSignup_meta {R} cfg :
  steps (fun _ => True) kept_meta (attemptNewsletterSignup (R:=R) drv cfg).
Proof. unfold attemptNewsletterSignup. meta; unfold fill, click; meta. Qed.

End Run.

Section Navigate.
Context {W : Type} (drv : Driver W).

Lemma collectDiagnostics_plain {R X} :
  plain (Diagnostics.collectDiagnostics (X:=X) (R:=R) drv).
Proof. apply call_plain. Qed.

Lemma navigateAndSignup_spec {R} cfg s :
  wp (navigateAndSignup (R:=R) drv cfg) (nav_post drv cfg s) s.
Proof.
  unfold navigateAndSignup.
  apply wp_bind, wp_ask. intros r w1 E1.
  set (goto := Asked (Goto (cfg_url cfg) (Some (cfg_timeout cfg))) r).
  destruct r as [[]|e].
  2:{ unfold nav_post, res. simpl. split; [unfold kept_meta; simpl; tauto|].
      split; auto. exists [goto]. split; auto. split.
      - left. repeat constructor.
      - intros w1' E'. rewrite E1 in E'. discriminate. }
  apply wp_bind.
  eapply (wp_steps _ _ _ _ _ (collectDiagnostics_steps drv) collectDiagnostics_plain).
  intros c2 s2 E2 [[d2 [Ed2 Fd2]] K2] Pc2. simpl in *.
  assert (Fd2' : Forall driver_event ([goto] ++ d2)).
  { apply Forall_app. split; [repeat constructor|].
    eapply Forall_impl; [|exact Fd2]. apply diag_probe_driver. }
  destruct c2 as [info| | | |e]; try contradiction.
  2:{ exfalso.
      match type of E2 with
      | Diagnostics.collectDiagnostics drv ?st = _ =>
          destruct (collectDiagnostics_total drv (R:=R) st) as (i & s2' & E2')
      end.
      rewrite E2' in E2. discriminate. }
  apply wp_bind, wp_update, wp_bind, wp_intro.
  intros c3 s3 E3.
  apply handlePopupsAndModals_spec in E3.
  destruct E3 as (Pc3 & K3 & d3 & Ed3 & Fd3). simpl in *. rewrite <- K2 in K3.
  simpl in K3.
  assert (Shape3 : forall att, popupPasses att = 0%nat ->
                     run_shape (([goto] ++ d2) ++ Mark PopupPass :: d3 ++ att) /\
                     (forall w1' : W,
                         answer drv (Goto (cfg_url cfg) (Some (cfg_timeout cfg)))
                           (world s) = (Ok tt, w1') ->
                         popupPasses (([goto] ++ d2) ++ Mark PopupPass :: d3 ++ att)
                         = 1%nat)).
  { intros att Hatt. split.
    - right. exists ([goto] ++ d2), d3, att. auto.
    - intros _ _. rewrite popupPasses_app.
      replace (popupPasses ([goto] ++ d2)) with 0%nat
        by (symmetry; apply popupPasses_driver; exact Fd2').
      simpl. rewrite popupPasses_app, (popupPasses_driver _ Fd3), Hatt.
      reflexivity. }
  assert (T3 : forall att,
             trace s3 ++ att =
             trace s ++ ([goto] ++ d2) ++ Mark PopupPass :: d3 ++ att).
  { intros att. rewrite Ed3, Ed2. simpl. rewrite <- !app_assoc. simpl.
    reflexivity. }
  destruct K3 as (K31 & K32 & K33 & K34 & K35). simpl in *.
  destruct c3 as [[]| | | |e]; try contradiction.
  2:{ unfold nav_post, res. split; [unfold kept_meta; simpl; tauto|].
      split; auto. eexists. split.
      - rewrite <- (app_nil_r (trace s3)). apply T3.
      - apply Shape3. reflexivity. }
  apply wp_bind, wp_intro. intros c4 s4 E4.
  pose proof (attemptNewsletterSignup_meta drv (R:=R) cfg s3) as M4.
  rewrite E4 in M4. destruct M4 as [_ (K41 & K42 & K43 & K44 & K45)].
  pose proof (wp_run _ _ _ _ _ (attemptNewsletterSignup_spec drv cfg s3) E4) as S4.
  destruct S4 as (d4 & es4 & _ & Ed4 & Ee4 & Pp4 & _).
  simpl in *.
  assert (Tr : exists d, trace s4 = trace s ++ d /\ run_shape d /\
                         (forall w1' : W,
                             answer drv (Goto (cfg_url cfg) (Some (cfg_timeout cfg)))
                               (world s) = (Ok tt, w1') ->
                             popupPasses d = 1%nat)).
  { eexists. split; [rewrite Ed4; apply T3|apply Shape3; exact Pp4]. }
  pose proof (call_plain (R':=R) false
                (o <- this ;;
                 (if negb (f_page o) || negb (f_selectors o)
                  then return_ false else skip) ;;
                 forOf (zrange 0 (retryAttempts cfg)) (signupAttempt drv cfg) ;;
                 return_ false) s3) as Pc4.
  unfold attemptNewsletterSignup in E4. rewrite E4 in Pc4. simpl in Pc4.
  fold (attemptNewsletterSignup (R:=R) drv cfg) in E4.
  destruct c4 as [b| | | |e]; try contradiction.
  2:{ unfold nav_post, res. simpl.
      split; [unfold kept_meta; simpl; repeat split; congruence|].
      split; auto. congruence. }
  destruct b.
  - apply wp_update. unfold nav_post, res. simpl.
    split; [unfold kept_meta; simpl; repeat split; congruence|].
    split; auto. left. split; eauto.
  - apply wp_update. unfold nav_post, res, errs. simpl.
    split; [unfold kept_meta; simpl; repeat split; congruence|].
    split; auto. right. split; [congruence|]. eexists. reflexivity.
Qed.

End Navigate.

Section Execute.
Context {W : Type} (drv : Driver W).

Lemma snoc_neq_nil {A} (l : list A) x : l ++ [x] <> [].
Proof. destruct l; discriminate. Qed.

Lemma executeAutomation_spec {R} cfg s :
  wp (executeAutomation (R:=R) drv cfg) (exec_post drv cfg s) s.
Proof.
  unfold executeAutomation.
  apply wp_call, wp_bind, wp_tell. intros t0 w1 E0.
  apply wp_bind, wp_tell. intros stamp w2 Es. simpl in Es.
  apply wp_bind, wp_update, wp_bind, wp_this. simpl.
  assert (Entry : tryEntry drv cfg s =
                  mkSt w2 ((trace s ++ [Observed DateNow t0])
                             ++ [Observed IsoTimestamp stamp])
                    (with_result
                       (fun _ => mkResult false stamp (cfg_url cfg) 0 [] []
                                   emptyDiagnostics) (self s))).
  { unfold tryEntry. rewrite E0, Es. reflexivity. }
  rewrite <- Entry.
  assert (Init : negb (f_page (self s)) || negb (f_diagnostics (self s))
                 || negb (f_selectors (self s)) = negb (initialized (self s))).
  { unfold initialized.
    destruct (f_page _), (f_diagnostics _), (f_selectors _); reflexivity. }
  rewrite Init. clear Init.
  destruct (initialized (self s)) eqn:I; simpl.
  - (* initialised: the try block runs *)
    apply wp_bind, wp_ret, wp_bind, wp_tryFinally, wp_tryCatch, wp_intro.
    intros c s1 E1.
    pose proof (wp_run _ _ _ _ _ (navigateAndSignup_spec drv cfg (tryEntry drv cfg s)) E1)
      as (Km & (d & Ed & Sh & Hone) & Hc).
    destruct Km as (_ & _ & _ & _ & Ku). simpl in Ku.
    assert (Hfresh : success (res (tryEntry drv cfg s)) = false)
      by (rewrite Entry; reflexivity).
    assert (Tr : forall t1,
               trace s1 ++ [Observed DateNow t1] =
               trace s ++ Observed DateNow t0
                 :: (Observed IsoTimestamp stamp :: d) ++ [Observed DateNow t1]).
    { intros. rewrite Ed, Entry. simpl. rewrite <- !app_assoc. reflexivity. }
    assert (Sh' : run_shape (Observed IsoTimestamp stamp :: d)).
    { destruct Sh as [F|(pre & pass & att & -> & Fp & Fa & Pa)].
      - left. constructor; simpl; auto.
      - right. exists (Observed IsoTimestamp stamp :: pre), pass, att.
        repeat split; auto. constructor; simpl; auto. }
    assert (Url : url (res s1) = cfg_url cfg).
    { unfold res. rewrite Ku, Entry. reflexivity. }
    destruct c as [[]| | | |e]; try contradiction.
    + apply wp_bind, wp_tell. intros t1 w' Et.
      apply wp_update, wp_bind, wp_this, wp_return. simpl.
      eexists. split; [reflexivity|]. unfold res; simpl.
      split; [reflexivity|]. split; [exact Url|].
      split; [exists t0, t1; eexists; split; [apply Tr|]; split; [auto|];
              split; [auto|]; intros _ w1' Eg; simpl; eauto|].
      destruct Hc as [(Hs & sa & sb & Ea)|(Hs & es & Ee)].
      * split; [unfold res in *; congruence|].
        split; [congruence|]. split.
        { intros _ e s2 E2. rewrite E2 in E1. discriminate. }
        intros H. apply (attemptNewsletterSignup_exhausted drv cfg _ _ _ H) in Ea.
        destruct Ea as [Ea|[e Ea]]; discriminate.
      * unfold errs in Ee. split; [intros _; rewrite Ee; apply snoc_neq_nil|].
        split; [congruence|]. split.
        { intros _ e s2 E2. rewrite E2 in E1. discriminate. }
        intros _. unfold res in *. congruence.
    + apply wp_update. apply wp_bind, wp_tell. intros t1 w' Et.
      apply wp_update, wp_bind, wp_this, wp_return. simpl.
      eexists. split; [reflexivity|]. unfold res; simpl.
      split; [reflexivity|]. split; [exact Url|].
      split; [exists t0, t1; eexists; split; [apply Tr|]; split; [auto|];
              split; [auto|]; intros _ w1' Eg; simpl; eauto|].
      unfold res in Hc, Hfresh.
      split; [intros _; apply snoc_neq_nil|].
      split; [congruence|]. split; [|intros _; congruence].
      intros _ e' s2 E2. rewrite E2 in E1. inversion E1; subst.
      split; [congruence|reflexivity].
  - (* not initialised *)
    rewrite Entry.
    apply wp_bind, wp_bind, wp_update, wp_bind, wp_update, wp_bind, wp_tell.
    intros t1 w' Et. apply wp_bind, wp_update, wp_bind, wp_this, wp_return.
    simpl. eexists. split; [reflexivity|]. unfold res; simpl.
    split; [reflexivity|]. split; [reflexivity|].
    split.
    { exists t0, t1, [Observed IsoTimestamp stamp]. simpl.
      rewrite <- !app_assoc. simpl. split; [reflexivity|].
      split; [reflexivity|]. split; [left; repeat constructor|].
      intros Hi. rewrite I in Hi. discriminate. }
    split; [intros _; discriminate|]. split; [auto|].
    split; [congruence|auto].
Qed.

(** executeAutomation always returns a result. *)
Lemma executeAutomation_returns {R} cfg s :
  exists r s',
    executeAutomation (R:=R) drv cfg s = (Normal r, s') /\
    exec_post drv cfg s (Normal (R:=R) r) s'.
Proof.
  pose proof (executeAutomation_spec (R:=R) cfg s) as H. unfold wp in H.
  destruct (executeAutomation drv cfg s) as [c s'] eqn:E. simpl in H.
  pose proof H as (r & -> & _). eauto.
Qed.

End Execute.

Section Claims.
Context {W : Type} (drv : Driver W).

(** The attempt bound of automation/newsletter-automation.ts.  When the
    automation is initialised and no lookup of the email input ever yields
    an element, [attemptNewsletterSignup] makes the attempts 1 to [k], in
    this order, and appends exactly one error entry per attempt made, the
    i-th naming attempt i.  It returns false after all [retryAttempts]
    attempts, or it throws after fewer: then a wait before a retry was
    rejected.  When these waits complete it returns false after exactly
    [retryAttempts] attempts.  Under the same assumption on the lookups
    every run of [executeAutomation] returns a result whose [success] is
    false and whose [errors] is not empty. *)
Lemma attemptNewsletterSignup_bound {R} (cfg : AutomationConfig)
    (s : St W Fields) :
  f_page (self s) = true -> f_selectors (self s) = true ->
  never_finds_input drv ->
  (exists c s' d es k,
      attemptNewsletterSignup (R:=R) drv cfg s = (c, s') /\
      trace s' = trace s ++ d /\
      attemptsOf d = zrange 1 (k + 1) /\
      errs s' = errs s ++ es /\
      Forall2 attemptEntry (zrange 1 (k + 1)) es /\
      ((c = Normal false /\ k = retryAttempts cfg) \/
       (exists e, c = Throw e /\ wait_rejected drv 1000 e /\
                  (1 <= k < retryAttempts cfg)%Z)) /\
      (waits_complete drv 1000 ->
       c = Normal false /\ k = retryAttempts cfg /\
       length es = Z.to_nat (retryAttempts cfg))) /\
  (forall s0 : St W Fields,
      exists r s',
        executeAutomation (R:=R) drv cfg s0 = (Normal r, s') /\
        success r = false /\ errors r <> []).
Proof.
  intros Hp Hs H. split.
  - destruct (attemptNewsletterSignup (R:=R) drv cfg s) as [c s'] eqn:E.
    pose proof (wp_run _ _ _ _ _ (attemptNewsletterSignup_spec drv cfg s) E)
      as (d & es & _ & Ed & Ee & _ & Hc).
    destruct (attemptNewsletterSignup_exhausted drv cfg s c s' H E)
      as [->|[e ->]].
    + destruct Hc as [Hf _]. destruct (Hf Hp Hs eq_refl) as [A F].
      exists (Normal false), s', d, es, (retryAttempts cfg).
      repeat split; auto.
      apply Forall2_length in F. rewrite <- F, zrange_length. f_equal. lia.
    + destruct Hc as (Hw & k & Hk & A & F).
      exists (Throw e), s', d, es, k. repeat split; auto.
      * right. exists e. auto.
      * pose proof (attemptNewsletterSignup_completes drv cfg s _ _ H H0 E).
        discriminate.
      * pose proof (attemptNewsletterSignup_completes drv cfg s _ _ H H0 E).
        discriminate.
      * pose proof (attemptNewsletterSignup_completes drv cfg s _ _ H H0 E).
        discriminate.
  - intros s0.
    destruct (executeAutomation_returns drv (R:=R) cfg s0)
      as (r & s' & E & r' & Er & _ & _ & _ & Herr & _ & _ & Hnever).
    inversion Er as [Hrr]. rewrite <- Hrr in *.
    exists r, s'. repeat split; auto.
Qed.

(** C5, amended.  Verification does not gate success.  In an attempt whose
    email input is found and filled, whose submit control is found, whose
    click completes and whose two pauses (after the fill and after the
    click) complete, the attempt returns true right after the pause that
    follows the click: the last events of the trace are the click and that
    pause, so [verifySubmissionSuccess], which the source places after
    [return true], is never run and cannot change the verdict.  The retry
    loop returns true with that attempt. *)
Theorem submission_completes_attempt (cfg : AutomationConfig) (attempt : Z)
    (s s1 s2 s4 s5 : St W Fields) (w3 w6 : W)
    (emailInput submitButton : Found) :
  findEmailInput (R:=bool) drv (emit (Mark (AttemptStart (attempt + 1))) s)
    = (Normal (Some emailInput), s1) ->
  fill (R:=bool) drv emailInput (cfg_email cfg) s1 = (Normal tt, s2) ->
  answer drv (WaitForTimeout 500) (world s2) = (Ok tt, w3) ->
  findSubmitButton (R:=bool) drv
    (snd (handleCheckboxes (R:=bool) drv
            (mkSt w3 (trace s2 ++ [Asked (WaitForTimeout 500) (Ok tt)])
               (self s2))))
    = (Normal (Some submitButton), s4) ->
  click (R:=bool) drv submitButton s4 = (Normal tt, s5) ->
  answer drv (WaitForTimeout 2000) (world s5) = (Ok tt, w6) ->
  let final :=
    mkSt w6 (trace s5 ++ [Asked (WaitForTimeout 2000) (Ok tt)])
      (with_result
         (push_strategy ("Successful on attempt " ++ show_Z (attempt + 1))%string)
         (self s5)) in
  signupAttempt drv cfg attempt s = (Return true, final) /\
  forall later,
    forOf (attempt :: later) (signupAttempt drv cfg) s = (Return true, final).
Proof.
  intros Hfind Hfill Hp1 Hsubmit Hclick Hp2 final.
  assert (E : signupAttempt drv cfg attempt s = (Return true, final)).
  { unfold signupAttempt, bind, tryCatch, mark.
    rewrite Hfind, Hfill. unfold ask at 1. rewrite Hp1.
    match type of Hsubmit with
    | context [handleCheckboxes drv ?st] =>
        destruct (handleCheckboxes_total drv (R:=bool) st) as [s3 E3]
    end.
    rewrite E3 in Hsubmit |- *. simpl in Hsubmit. rewrite Hsubmit, Hclick.
    unfold ask. rewrite Hp2. reflexivity. }
  split; [exact E|]. intros later. simpl. rewrite E. reflexivity.
Qed.

(** C10.  [executeAutomation] never throws: for every configuration and
    every store it returns the result object, whose [url] is the configured
    one and whose [executionTime] is the difference of the last and the first
    clock readings of the call.  A failed result always carries an error.
    Called before initialisation it returns [success = false] with the single
    error "Automation not initialized...".  When the [try] block throws,
    whether from navigation or from a later driver call, the error
    "Automation failed: ..." is appended and [success] stays false. *)
Theorem executeAutomation_never_throws {R} (cfg : AutomationConfig)
    (s : St W Fields) :
  exists r s',
    executeAutomation (R:=R) drv cfg s = (Normal r, s') /\
    r = f_result (self s') /\
    url r = cfg_url cfg /\
    (exists t0 t1 mid,
        trace s' = trace s ++ Observed DateNow t0 :: mid ++ [Observed DateNow t1] /\
        executionTime r = (t1 - t0)%Z) /\
    (success r = false -> errors r <> []) /\
    (initialized (self s) = false ->
     success r = false /\ errors r = [notInitializedMessage]) /\
    (initialized (self s) = true ->
     forall e s1,
       navigateAndSignup (R:=AutomationResult) drv cfg (tryEntry drv cfg s)
         = (Throw e, s1) ->
       success r = false /\
       errors r = errs s1 ++ [("Automation failed: " ++ errorText e)%string]).
Proof.
  destruct (executeAutomation_returns drv (R:=R) cfg s)
    as (r & s' & E & r' & Er & Hr & Hu & (t0 & t1 & mid & Ht & Hx & _)
        & Herr & Hinit & Hthrow & _).
  inversion Er as [Hrr]. rewrite <- Hrr in *. clear Hrr Er.
  exists r, s'.
  split; [exact E|]. split; [exact Hr|]. split; [exact Hu|].
  split; [exists t0, t1, mid; auto|]. auto.
Qed.

End Claims.

Section BaseClaims.
Context {W : Type} (drv : Driver W).
Import Base.

Lemma evaluateShadowForm_plain {R} host email sel :
  plain (evaluateShadowForm (R:=R) drv host email sel).
Proof.
  intros s. unfold evaluateShadowForm, bind, ask.
  destruct (answer _ _ _) as [[] w1]; simpl; auto.
  apply call_plain.
Qed.

Lemma evaluateShadowForm_steps {R} host email sel :
  steps (shadow_form_event host email sel) eq
    (evaluateShadowForm (R:=R) drv host email sel).
Proof.
  unfold evaluateShadowForm, shadowFormScript. steps_go; simpl; auto.
Qed.

(** C9.  [handleShadowDomForm] discards the verdict of its in-page script:
    whenever the evaluation completes, whatever boolean the script computed,
    it returns true; it returns false exactly when the evaluation throws,
    be it that the driver rejects the call or that the script fails.  The
    evaluation is handed the email and the selector; in the page only the
    email is used: the pattern queried for the input is the text of an
    undefined value, never the selector as such. *)
Theorem shadow_form_verdict_discarded {R} (host : Handle) (selector : string)
    (s s1 : St W Fields) (c : Completion bool bool) :
  evaluateShadowForm drv host (testEmail (config (self s))) selector s
    = (c, s1) ->
  handleShadowDomForm (R:=R) drv host selector s
    = (Normal (match c with Throw _ => false | _ => true end), s1) /\
  exists d,
    trace s1 = trace s ++ d /\
    Forall (shadow_form_event host (testEmail (config (self s))) selector) d.
Proof.
  intros E. split.
  - pose proof (evaluateShadowForm_plain (R:=bool) host
                  (testEmail (config (self s))) selector s) as Pl.
    rewrite E in Pl. simpl in Pl.
    unfold handleShadowDomForm, call, tryCatch, bind, this.
    rewrite E. destruct c; try contradiction; reflexivity.
  - pose proof (evaluateShadowForm_steps (R:=bool) host
                  (testEmail (config (self s))) selector s) as [G _].
    rewrite E in G. exact G.
Qed.

End BaseClaims.

Section Probe.
Context {W X : Type} (drv : Driver W).

Lemma findElement_unfold {R} strategy :
  Selectors.findElement (X:=X) (R:=R) drv strategy =
  call None
    (forOf (primary strategy :: fallbacks strategy)
       (probeSelector (X:=X) drv strategy) ;;
     return_ None).
Proof. reflexivity. Qed.

(** One selector either yields its first match, after a successful wait and
    a non-null bounding box, or nothing. *)
Lemma probeSelector_cases strategy selector (s : St W X) :
  let l := first (locator MainDoc selector) in
  (exists r w1 w2,
      answer drv (WaitFor l (waitStateOf strategy) (timeoutOf strategy))
        (world s) = (Ok tt, w1) /\
      answer drv (BoundingBox l) w1 = (Ok (Some r), w2) /\
      probeSelector (X:=X) drv strategy selector s =
      (Return (Some l),
       mkSt w2
         (trace s
            ++ [Asked (WaitFor l (waitStateOf strategy) (timeoutOf strategy))
                  (Ok tt);
                Asked (BoundingBox l) (Ok (Some r))])
         (self s))) \/
  (exists s', probeSelector (X:=X) drv strategy selector s = (Normal tt, s') /\
              grows main_probe eq s s' /\
              ~ (exists r w1 w2,
                    answer drv (WaitFor l (waitStateOf strategy)
                                  (timeoutOf strategy)) (world s) = (Ok tt, w1) /\
                    answer drv (BoundingBox l) w1 = (Ok (Some r), w2))).
Proof.
  intros l.
  unfold probeSelector, Selectors.isElementReady.
  fold l. fold (waitStateOf strategy). fold (timeoutOf strategy).
  cbv [tryCatch bind call ask return_ skip ret].
  destruct (answer drv (WaitFor l _ _) (world s)) as [[[]|e] w1] eqn:E1; simpl.
  - destruct (answer drv (BoundingBox l) w1) as [[[r|]|e] w2] eqn:E2; simpl.
    + left. exists r, w1, w2. split; [reflexivity|]. split; [exact E2|].
      rewrite <- app_assoc. reflexivity.
    + right. eexists. split; [reflexivity|]. split.
      * split; simpl; [|reflexivity]. eexists. rewrite <- app_assoc.
        split; [reflexivity|]. repeat constructor; simpl; auto.
      * intros (r & w1' & w2' & A & B). inversion A; subst.
        rewrite E2 in B. discriminate.
    + right. eexists. split; [reflexivity|]. split.
      * split; simpl; [|reflexivity]. eexists. rewrite <- app_assoc.
        split; [reflexivity|]. repeat constructor; simpl; auto.
      * intros (r & w1' & w2' & A & B). inversion A; subst.
        rewrite E2 in B. discriminate.
  - right. eexists. split; [reflexivity|]. split.
    + split; simpl; [|reflexivity]. eexists.
      split; [reflexivity|]. repeat constructor; simpl; auto.
    + intros (r & w1' & w2' & A & B). discriminate.
Qed.



End Probe.

Section Precedence.
Context {W : Type} (drv : Driver W).




Lemma findElement_total {R X} strategy (s : St W X) :
  exists r s', Selectors.findElement (R:=R) drv strategy s = (Normal r, s').
Proof.
  rewrite findElement_unfold. unfold call, bind.
  generalize (primary strategy :: fallbacks strategy). intros xs.
  revert s. induction xs as [|x xs IH]; intros s; simpl; eauto.
  destruct (probeSelector_cases drv strategy x s)
    as [(r & w1 & w2 & A & B & ->)|(s1 & -> & G & _)]; eauto.
Qed.


End Precedence.


Section C6.
Context {W : Type} (drv : Driver W).


End C6.

Section Detection.
Context {W X : Type} (drv : Driver W).

Lemma probed_refl (s : St W X) : probed s false s.
Proof.
  exists []. rewrite app_nil_r. repeat split; auto; try discriminate.
  intros H. inversion H.
Qed.

(** Two runs of probes one after the other: one of them answered
    positively when one of the first or one of the second did. *)
Lemma probed_step (s s1 s2 : St W X) flag1 flag2 :
  probed s flag1 s1 -> probed s1 flag2 s2 -> probed s (flag1 || flag2) s2.
Proof.
  intros (d1 & T1 & S1 & F1 & P1) (d2 & T2 & S2 & F2 & P2).
  exists (d1 ++ d2). rewrite T2, T1, app_assoc. repeat split; auto.
  - congruence.
  - apply Forall_app; auto.
  - intros H. apply Exists_app in H. apply orb_true_iff. tauto.
  - intros H. apply Exists_app. apply orb_true_iff in H. tauto.
Qed.

Lemma probed_flag (s s' : St W X) flag flag' :
  probed s flag s' -> flag = flag' -> probed s flag' s'.
Proof. intros H <-. exact H. Qed.

Lemma probed_asked (s : St W X) {A} (c : Call A) r w' flag :
  diag_probe (Asked c r) ->
  (positive_probe (Asked c r) <-> flag = true) ->
  probed s flag (mkSt w' (trace s ++ [Asked c r]) (self s)).
Proof.
  intros D P. exists [Asked c r]. simpl. repeat split; auto.
  - intros H. inversion H as [? ? H1|? ? H1]; subst; [tauto|inversion H1].
  - intros H. constructor. tauto.
Qed.

(** A probe that is not one of the two that detect. *)
Lemma probed_neutral (s : St W X) {A} (c : Call A) r w' :
  diag_probe (Asked c r) -> ~ positive_probe (Asked c r) ->
  probed s false (mkSt w' (trace s ++ [Asked c r]) (self s)).
Proof.
  intros D N. apply probed_asked; auto. split; [tauto|discriminate].
Qed.

Lemma detectActiveModal_probed {R} (s : St W X) :
  exists active s',
    Diagnostics.detectActiveModal (R:=R) drv s = (Normal active, s') /\
    probed s active s'.
Proof.
  unfold Diagnostics.detectActiveModal, call, bind.
  generalize Diagnostics.modalSelectors. intros xs. revert s.
  induction xs as [|x xs IH]; intros s; simpl.
  - exists false, s. split; auto. apply probed_refl.
  - unfold tryCatch, bind, ask.
    destruct (answer drv (IsVisible (first (locator MainDoc x))) (world s))
      as [[[|]|e] w1] eqn:E; simpl.
    + eexists _, _. split; [reflexivity|].
      apply probed_asked; simpl; auto. tauto.
    + match goal with
      | |- context [forOf xs _ ?st] =>
          destruct (IH st) as (active & s' & E' & P');
          assert (P0 : probed s false st)
            by (apply probed_neutral; simpl; auto; discriminate)
      end.
      destruct (forOf xs _ _) as [c2 s2].
      exists active, s'. split.
      * destruct c2; simpl in *; inversion E'; subst; reflexivity.
      * eapply probed_flag; [eapply probed_step; eauto|reflexivity].
    + match goal with
      | |- context [forOf xs _ ?st] =>
          destruct (IH st) as (active & s' & E' & P');
          assert (P0 : probed s false st)
            by (apply probed_neutral; simpl; auto; discriminate)
      end.
      destruct (forOf xs _ _) as [c2 s2].
      exists active, s'. split.
      * destruct c2; simpl in *; inversion E'; subst; reflexivity.
      * eapply probed_flag; [eapply probed_step; eauto|reflexivity].
Qed.

Lemma detectPopups_probed {R} (s : St W X) :
  exists popup s',
    Diagnostics.detectPopups (R:=R) drv s = (Normal popup, s') /\
    probed s false s'.
Proof.
  unfold Diagnostics.detectPopups, call, bind.
  generalize Diagnostics.popupIndicators. intros xs. revert s.
  induction xs as [|x xs IH]; intros s; simpl.
  - exists false, s. split; auto. apply probed_refl.
  - unfold tryCatch, bind, ask.
    destruct (answer drv (Count (locator MainDoc x)) (world s))
      as [[n|e] w1] eqn:E; simpl.
    + match goal with
      | |- context [mkSt w1 ?tr ?o] =>
          assert (P0 : probed s false (mkSt w1 tr o))
            by (apply probed_neutral; simpl; auto)
      end.
      destruct (0 <? n)%nat; simpl.
      * eexists _, _. split; [reflexivity|]. exact P0.
      * match goal with
        | |- context [forOf xs _ ?st] =>
            destruct (IH st) as (popup & s' & E' & P')
        end.
        destruct (forOf xs _ _) as [c2 s2].
        exists popup, s'. split.
        -- destruct c2; simpl in *; inversion E'; subst; reflexivity.
        -- eapply probed_flag; [eapply probed_step; eauto|reflexivity].
    + match goal with
      | |- context [forOf xs _ ?st] =>
          destruct (IH st) as (popup & s' & E' & P');
          assert (P0 : probed s false st)
            by (apply probed_neutral; simpl; auto)
      end.
      destruct (forOf xs _ _) as [c2 s2].
      exists popup, s'. split.
      * destruct c2; simpl in *; inversion E'; subst; reflexivity.
      * eapply probed_flag; [eapply probed_step; eauto|reflexivity].
Qed.

Ltac tail := eexists; simpl; rewrite <- ?app_assoc; simpl; reflexivity.

(** [collectDiagnostics] first asks for the title; the record it returns
    reports an active modal or a scroll lock exactly when one of its probes
    answered so. *)
Lemma collectDiagnostics_probed {R} (s : St W X) :
  exists d s',
    Diagnostics.collectDiagnostics (R:=R) drv s = (Normal d, s') /\
    probed s (modalActive d || scrollLocked d) s' /\
    exists r rest, trace s' = trace s ++ Asked Title r :: rest.
Proof.
  unfold Diagnostics.collectDiagnostics, call.
  unfold bind at 1. unfold Diagnostics.caught at 1. unfold tryCatch, bind at 1, ask.
  destruct (answer drv Title (world s)) as [[title|e] w1]; simpl.
  2:{ eexists _, _. split; [reflexivity|].
      split; [|exists (Err e), []; reflexivity].
      apply probed_neutral; simpl; auto. }
  set (s1 := mkSt w1 (trace s ++ [Asked Title (Ok title)]) (self s)).
  assert (P1 : probed s false s1) by (apply probed_neutral; simpl; auto).
  assert (First : forall tr : list Event,
             (exists d, tr = trace s1 ++ d) ->
             exists r rest, tr = trace s ++ Asked Title r :: rest).
  { intros tr [d T]. exists (Ok title), d. rewrite T. unfold s1. simpl.
    rewrite <- app_assoc. reflexivity. }
  unfold bind at 1. unfold Diagnostics.caught at 1. unfold tryCatch, bind at 1, ask.
  destruct (answer drv (Count (locator MainDoc "iframe")) _)
    as [[n|e] w2]; simpl.
  2:{ eexists _, _. split; [reflexivity|]. split.
      - eapply probed_flag; [eapply probed_step; [exact P1|]|reflexivity].
        apply (probed_neutral s1); simpl; auto.
      - apply First. tail. }
  set (s2 := mkSt w2 (trace s1 ++ [Asked (Count (locator MainDoc "iframe")) (Ok n)]) (self s)).
  assert (P2 : probed s1 false s2) by (apply (probed_neutral s1); simpl; auto).
  unfold bind at 1. unfold Diagnostics.caught at 1. unfold tryCatch, bind at 1, ask.
  destruct (answer drv StyleScrollLocked _) as [[locked|e] w3]; simpl.
  2:{ eexists _, _. split; [reflexivity|]. split.
      - eapply probed_flag;
          [eapply probed_step; [exact P1|eapply probed_step; [exact P2|]]
          |reflexivity].
        apply (probed_neutral s2); simpl; auto; discriminate.
      - apply First. tail. }
  set (s3 := mkSt w3 (trace s2 ++ [Asked StyleScrollLocked (Ok locked)]) (self s)).
  assert (P3 : probed s2 locked s3).
  { apply (probed_asked s2); simpl; auto.
    split; [intros H; inversion H; reflexivity|intros ->; reflexivity]. }
  unfold bind at 1. unfold Diagnostics.caught at 1. unfold tryCatch, bind at 1.
  match goal with
  | |- context [Diagnostics.detectActiveModal drv ?st] =>
      destruct (detectActiveModal_probed (R:=DiagnosticInfo) st)
        as (active & s4 & E4 & P4)
  end.
  rewrite E4. simpl.
  assert (P4' : probed s (active || locked) s4).
  { eapply probed_flag;
      [eapply probed_step; [exact P1|eapply probed_step;
         [exact P2|eapply probed_step; [exact P3|exact P4]]]|].
    simpl. apply orb_comm. }
  assert (T4 : exists d, trace s4 = trace s1 ++ d).
  { destruct P4 as (d4 & T4 & _). rewrite T4. tail. }
  unfold bind at 1. unfold Diagnostics.caught at 1. unfold tryCatch, bind at 1, ask.
  destruct (answer drv AnyShadowRoot _) as [[shadow|e] w5]; simpl.
  2:{ eexists _, _. split; [reflexivity|]. simpl. split.
      - eapply probed_flag; [eapply probed_step; [exact P4'|]|apply orb_false_r].
        apply (probed_neutral s4); simpl; auto.
      - apply First. simpl. destruct T4 as [d T4]. rewrite T4. tail. }
  set (s5 := mkSt w5 (trace s4 ++ [Asked AnyShadowRoot (Ok shadow)]) (self s4)).
  assert (P5 : probed s (active || locked) s5).
  { eapply probed_flag; [eapply probed_step; [exact P4'|]|apply orb_false_r].
    apply (probed_neutral s4); simpl; auto. }
  unfold bind at 1. unfold Diagnostics.caught at 1. unfold tryCatch, bind at 1.
  match goal with
  | |- context [Diagnostics.detectPopups drv ?st] =>
      destruct (detectPopups_probed (R:=DiagnosticInfo) st)
        as (popup & s6 & E6 & P6)
  end.
  rewrite E6. simpl.
  eexists _, _. split; [reflexivity|]. simpl. split.
  - eapply probed_flag; [eapply probed_step; [exact P5|exact P6]|apply orb_false_r].
  - apply First. destruct P6 as (d6 & T6 & _). rewrite T6. unfold s5. simpl.
    destruct T4 as [d T4]. rewrite T4. tail.
Qed.

End Detection.

Lemma scrollOffsets_app a b :
  scrollOffsets (a ++ b) = scrollOffsets a ++ scrollOffsets b.
Proof.
  induction a as [|ev a IH]; simpl; auto.
  destruct ev as [? c ?|? ? ?| |]; auto. destruct c; simpl; auto.
  rewrite IH. reflexivity.
Qed.

Lemma scrollFractions_app a b :
  scrollFractions (a ++ b) = scrollFractions a ++ scrollFractions b.
Proof.
  induction a as [|ev a IH]; simpl; auto.
  destruct ev as [? c ?|? ? ?| |]; auto. destruct c; simpl; auto.
  rewrite IH. reflexivity.
Qed.

Lemma scrollOffsets_diag d : Forall diag_probe d -> scrollOffsets d = [].
Proof.
  induction 1 as [|ev d H _ IH]; simpl; auto.
  destruct ev as [? c ?|? ? ?| |]; auto. destruct c; simpl in *; auto.
  contradiction.
Qed.

Lemma in_firstn {A} (x : A) k l : In x (firstn k l) -> In x l.
Proof.
  intros H. rewrite <- (firstn_skipn k l). apply in_or_app. auto.
Qed.

Lemma split_after_quiet {A} (P : A -> Prop) (a d d1 d2 : list A) ev :
  a ++ d = d1 ++ ev :: d2 -> ~ Exists P a -> P ev ->
  exists d1', d1 = a ++ d1' /\ d = d1' ++ ev :: d2.
Proof.
  revert d1. induction a as [|x a IH]; intros d1 E N Hev; simpl in *.
  - exists d1. auto.
  - destruct d1 as [|y d1]; simpl in E; inversion E; subst.
    + exfalso. apply N. constructor. exact Hev.
    + destruct (IH d1 H1) as (d1' & -> & ->); auto.
      exists d1'. auto.
Qed.

Section Revealer.
Context {W : Type} (drv : Driver W).

(** One stage, exactly. *)
Lemma scrollStage_cases cfg p (s : St W Fields) :
  let c := fst (scrollStage (R:=unit) drv cfg p s) in
  let s' := snd (scrollStage (R:=unit) drv cfg p s) in
  self s' = self s /\
  ((exists e, c = Throw e /\
              trace s' = trace s ++ [Asked (ScrollBodyPercent p) (Err e)]) \/
   (exists e, c = Throw e /\
              trace s' = trace s ++ [Asked (ScrollBodyPercent p) (Ok tt);
                                     Asked (WaitForTimeout (scrollDelay cfg))
                                       (Err e)]) \/
   (exists r probes,
       trace s' = trace s ++ Asked (ScrollBodyPercent p) (Ok tt)
                    :: Asked (WaitForTimeout (scrollDelay cfg)) (Ok tt)
                    :: Asked Title r :: probes /\
       Forall diag_probe probes /\
       ((c = Break /\ Exists positive_probe probes) \/
        (c = Normal tt /\ ~ Exists positive_probe probes)))).
Proof.
  unfold scrollStage, bind, ask.
  destruct (answer drv (ScrollBodyPercent p) (world s)) as [[[]|e] w1]; simpl.
  2:{ split; auto. left. eauto. }
  destruct (answer drv (WaitForTimeout (scrollDelay cfg)) w1) as [[[]|e] w2];
    simpl.
  2:{ split; auto. right; left. exists e. rewrite <- app_assoc. auto. }
  match goal with
  | |- context [Diagnostics.collectDiagnostics drv ?st] =>
      destruct (collectDiagnostics_probed drv (R:=unit) st)
        as (d & s2 & E & (delta & T & Sf & F & Pp) & (r & rest & T'))
  end.
  rewrite E. simpl in *.
  rewrite T in T'. apply app_inv_head in T'. subst delta.
  inversion F as [|? ? _ Frest]; subst.
  assert (Pos : Exists positive_probe rest <->
                modalActive d || scrollLocked d = true).
  { rewrite <- Pp. split; intros H.
    - right. exact H.
    - inversion H as [? ? H1|? ? H1]; subst; [inversion H1|exact H1]. }
  assert (Tr : trace s2 = trace s ++ Asked (ScrollBodyPercent p) (Ok tt)
                 :: Asked (WaitForTimeout (scrollDelay cfg)) (Ok tt)
                 :: Asked Title r :: rest)
    by (rewrite T, <- !app_assoc; reflexivity).
  destruct (modalActive d || scrollLocked d) eqn:Flag; simpl;
    (split; [exact Sf|]); right; right; exists r, rest;
    (split; [exact Tr|]); (split; [exact Frest|]).
  - left. split; auto. apply Pos. reflexivity.
  - right. split; auto. intros H. apply Pos in H. discriminate.
Qed.

Lemma scrollStage_spec cfg p s :
  wp (scrollStage (R:=unit) drv cfg p) (stage_post p s) s.
Proof.
  unfold wp.
  destruct (scrollStage_cases cfg p s)
    as [_ [(e & -> & T)|[(e & -> & T)|(r & probes & T & F & Hc)]]];
    unfold stage_post.
  - exists (Err e), []. split; [exact T|]. split; [reflexivity|eauto].
  - eexists (Ok tt), _. split; [exact T|]. split; [reflexivity|eauto].
  - eexists (Ok tt), _. split; [exact T|]. split.
    + simpl. apply scrollOffsets_diag. exact F.
    + destruct Hc as [(-> & _)|(-> & N)]; auto.
      left. split; auto. intros H.
      inversion H as [? ? H1|? ? H1]; subst; [inversion H1|].
      inversion H1 as [? ? H2|? ? H2]; subst; [inversion H2|auto].
Qed.

(** The loop over the stages, exactly. *)
Lemma staged_loop cfg xs : forall s : St W Fields,
  exists d out,
    trace (snd (forOf xs (scrollStage (R:=unit) drv cfg) s)) = trace s ++ d /\
    self (snd (forOf xs (scrollStage (R:=unit) drv cfg) s)) = self s /\
    fst (forOf xs (scrollStage (R:=unit) drv cfg) s) = outcome out /\
    staged (scrollDelay cfg) xs d out.
Proof.
  induction xs as [|x xs IH]; intros s; simpl.
  - exists [], None. rewrite app_nil_r. repeat split; auto. constructor.
  - pose proof (scrollStage_cases cfg x s) as Sp. simpl in Sp.
    destruct (scrollStage drv cfg x s) as [c s1]. simpl in Sp.
    destruct Sp as [Sf [(e & -> & T)|[(e & -> & T)|(r & probes & T & F & Hc)]]].
    + eexists _, (Some e). simpl. repeat split; eauto. constructor.
    + eexists _, (Some e). simpl. repeat split; eauto. constructor.
    + destruct Hc as [(-> & P)|(-> & N)].
      * eexists _, None. simpl. repeat split; eauto.
        apply staged_detected; auto.
      * destruct (IH s1) as (d' & out & T' & Sf' & C' & St').
        exists (Asked (ScrollBodyPercent x) (Ok tt)
                  :: Asked (WaitForTimeout (scrollDelay cfg)) (Ok tt)
                  :: Asked Title r :: probes ++ d'), out.
        split; [rewrite T', T, <- app_assoc; reflexivity|].
        split; [congruence|]. split; [exact C'|].
        apply staged_next; auto.
Qed.

(** Stages that end without a positive probe and without a rejection are
    all the stages. *)
Lemma staged_all delay ps d :
  staged delay ps d None -> ~ Exists positive_probe d -> scrollOffsets d = ps.
Proof.
  intros H. remember None as out eqn:O. revert O.
  induction H as [| | |p ps r probes F P|p ps r probes rest out F N St IH];
    intros O Hn; try discriminate; auto.
  - exfalso. apply Hn. do 3 right. exact P.
  - simpl. f_equal. rewrite scrollOffsets_app, (scrollOffsets_diag _ F). simpl.
    apply IH; auto. intros H. apply Hn. do 3 right.
    apply Exists_app. auto.
Qed.

Lemma scroll_loop cfg xs : forall s,
  exists d k,
    trace (snd (forOf xs (scrollStage (R:=unit) drv cfg) s)) = trace s ++ d /\
    scrollOffsets d = firstn k xs /\ stops_on_detection d.
Proof.
  induction xs as [|x xs IH]; intros s; simpl.
  - exists [], 0%nat. rewrite app_nil_r. repeat split; auto.
    intros d1 ev d2 E. destruct d1; discriminate.
  - pose proof (scrollStage_spec cfg x s) as Sp. unfold wp in Sp.
    destruct (scrollStage drv cfg x s) as [c s1]. simpl in Sp.
    destruct Sp as (r & rest & T & Sr & Hc).
    assert (Stop : exists d k,
               trace s1 = trace s ++ d /\
               scrollOffsets d = firstn k (x :: xs) /\ stops_on_detection d).
    { exists (Asked (ScrollBodyPercent x) r :: rest), 1%nat.
      split; [exact T|]. split; [simpl; rewrite Sr; reflexivity|].
      intros d1 ev d2 E Hev. destruct d1 as [|y d1]; simpl in E; inversion E; subst.
      - simpl in Hev. contradiction.
      - rewrite scrollOffsets_app in Sr. apply app_eq_nil in Sr.
        destruct Sr as [_ Sr]. simpl in Sr.
        destruct ev as [? c0 ?|? ? ?| |]; simpl in Hev; try contradiction.
        destruct c0; simpl in *; try contradiction; auto. }
    destruct Hc as [(-> & Nq)|[-> | (e & ->)]]; simpl; auto.
    destruct (IH s1) as (d' & k' & T' & So' & St').
    exists ((Asked (ScrollBodyPercent x) r :: rest) ++ d'), (Datatypes.S k').
    split; [rewrite T', T, <- app_assoc; reflexivity|].
    split; [rewrite scrollOffsets_app; simpl; rewrite Sr, So'; reflexivity|].
    intros d1 ev d2 E Hev.
    apply (split_after_quiet positive_probe) in E; auto.
    + destruct E as (d1' & -> & E'). eapply St'; eauto.
    + intros H. inversion H as [? ? H1|? ? H1]; subst; auto.
Qed.

Lemma scroll_loop_plain cfg xs s :
  plainC (fst (forOf xs (scrollStage (R:=unit) drv cfg) s)).
Proof.
  revert s. induction xs as [|x xs IH]; intros s; simpl; auto.
  pose proof (scrollStage_spec cfg x s) as Sp. unfold wp in Sp.
  destruct (scrollStage drv cfg x s) as [c s1]. simpl in Sp.
  destruct Sp as (r & rest & T & Sr & [(-> & Nq)|[-> | (e & ->)]]);
    simpl; auto.
Qed.

End Revealer.

Section Revealing.
Context {W : Type} (drv : Driver W).

Lemma performAdaptiveScrolling_steps {R} :
  steps scroll_only (fun _ _ => True) (Base.performAdaptiveScrolling (R:=R) drv).
Proof.
  assert (PreOrder (fun _ _ : Base.Fields => True)) by (split; auto).
  unfold Base.performAdaptiveScrolling. steps_go; simpl; auto.
Qed.

Lemma performAdaptiveScrolling_unfold {R} :
  Base.performAdaptiveScrolling (R:=R) drv =
  call tt (forOf Base.scrollSteps (adaptiveStep drv)).
Proof. reflexivity. Qed.

(** The loop over the fractions, exactly. *)
Lemma paced_loop xs : forall s : St W Base.Fields,
  exists d out,
    trace (snd (forOf xs (adaptiveStep drv) s)) = trace s ++ d /\
    fst (forOf xs (adaptiveStep drv) s) = outcome out /\
    paced xs d out.
Proof.
  induction xs as [|x xs IH]; intros s; simpl.
  - exists [], None. rewrite app_nil_r. repeat split; auto. constructor.
  - destruct (adaptiveStep drv x s) as [c s1] eqn:E1.
    unfold adaptiveStep, bind, ask in E1.
    destruct (answer drv (ScrollDocFraction x) (world s)) as [[[]|e] w1];
      simpl in E1.
    2:{ inversion E1; subst. eexists _, (Some e). simpl.
        repeat split; eauto. constructor. }
    destruct (answer drv (WaitForTimeout 1500) w1) as [[[]|e] w2];
      simpl in E1; inversion E1; subst; clear E1.
    2:{ eexists _, (Some e). simpl. rewrite <- app_assoc. simpl.
        repeat split; eauto. constructor. }
    match goal with
    | |- context [forOf xs (adaptiveStep drv) ?st] =>
        destruct (IH st) as (d & out & T & C & P)
    end.
    exists (Asked (ScrollDocFraction x) (Ok tt)
              :: Asked (WaitForTimeout 1500) (Ok tt) :: d), out.
    split; [rewrite T; simpl; rewrite <- !app_assoc; reflexivity|].
    split; [exact C|]. constructor. exact P.
Qed.

Lemma paced_all xs d : paced xs d None -> scrollFractions d = xs.
Proof.
  intros H. remember None as out eqn:O. revert O.
  induction H as [| | |step steps rest out P IH]; intros O;
    try discriminate; auto.
  simpl. f_equal. auto.
Qed.

End Revealing.

Section C7.
Context {W : Type} (drv : Driver W).

Lemma trigger_unfold cfg (s : St W Newsletter.Fields) :
  Newsletter.f_page (self s) = true ->
  Newsletter.triggerPopupsWithScrolling (R:=unit) drv cfg s
  = call tt (forOf Newsletter.scrollStrategies
               (Newsletter.scrollStage (R:=unit) drv cfg)) s.
Proof.
  intros Hp. unfold Newsletter.triggerPopupsWithScrolling, call, bind, this.
  rewrite Hp. reflexivity.
Qed.

Lemma trigger_skip cfg (s : St W Newsletter.Fields) :
  Newsletter.f_page (self s) = false ->
  Newsletter.triggerPopupsWithScrolling (R:=unit) drv cfg s = (Normal tt, s).
Proof.
  intros Hp. unfold Newsletter.triggerPopupsWithScrolling, call, bind, this.
  rewrite Hp. reflexivity.
Qed.

(** C7, amended.  [triggerPopupsWithScrolling] goes through the stages 25,
    50, 75 and 0 percent (three steps down, then back to the top: not
    ascending, none above 100).  In each stage it scrolls, pauses for the
    settle delay and collects diagnostics; it goes on to the next stage
    exactly when no probe of the stage answered that a modal shows or that
    scrolling is locked, and ends at the first stage where one did; a scroll
    or a pause that is rejected is raised.  So it scrolls to a prefix of the
    four offsets, scrolls no further after a positive probe, and goes
    through all four when it returns without one.  It returns no value.
    [performAdaptiveScrolling] of src/base.ts only scrolls and pauses: a
    scroll and a pause of 1500 ms for each of 1/4, 1/2, 3/4 and 1 of the
    height, in this order, up to the first of them that is rejected; it
    probes nothing, and it goes through all four whenever it returns.  It
    returns no value either. *)
Theorem staged_scrolling (cfg : AutomationConfig) (s : St W Newsletter.Fields)
    (b : St W Base.Fields) :
  (exists d out,
      trace (snd (Newsletter.triggerPopupsWithScrolling (R:=unit) drv cfg s))
        = trace s ++ d /\
      fst (Newsletter.triggerPopupsWithScrolling (R:=unit) drv cfg s)
        = outcome out /\
      (if Newsletter.f_page (self s)
       then staged (scrollDelay cfg) [25; 50; 75; 0]%Z d out
       else d = [] /\ out = None) /\
      (exists k, scrollOffsets d = firstn k [25; 50; 75; 0]%Z) /\
      Forall (fun p => (0 <= p <= 100)%Z) (scrollOffsets d) /\
      stops_on_detection d /\
      (if Newsletter.f_page (self s)
       then out = None -> ~ Exists positive_probe d ->
            scrollOffsets d = [25; 50; 75; 0]%Z
       else True)) /\
  (exists d out,
      trace (snd (Base.performAdaptiveScrolling (R:=unit) drv b)) = trace b ++ d /\
      fst (Base.performAdaptiveScrolling (R:=unit) drv b) = outcome out /\
      paced [1 # 4; 1 # 2; 3 # 4; 1 # 1]%Q d out /\
      Forall scroll_only d /\
      (out = None -> scrollFractions d = [1 # 4; 1 # 2; 3 # 4; 1 # 1]%Q)).
Proof.
  split.
  - destruct (Newsletter.f_page (self s)) eqn:Hp.
    + rewrite (trigger_unfold cfg s Hp). unfold call.
      destruct (scroll_loop drv cfg Newsletter.scrollStrategies s)
        as (d & k & T & So & St).
      destruct (staged_loop drv cfg Newsletter.scrollStrategies s)
        as (d' & out & T' & _ & C' & Sg).
      rewrite T in T'. apply app_inv_head in T'. subst d'.
      exists d, out.
      destruct (forOf _ _ s) as [c s1]. cbn [fst snd] in *. subst c.
      split; [destruct out; exact T|].
      split; [destruct out; reflexivity|].
      split; [exact Sg|]. split; [exists k; exact So|].
      split; [|split; [exact St|]].
      * rewrite So. unfold Newsletter.scrollStrategies.
        apply Forall_forall. intros p Hp'. apply in_firstn in Hp'.
        simpl in Hp'. intuition lia.
      * intros -> N. apply (staged_all _ _ _ Sg N).
    + rewrite (trigger_skip cfg s Hp).
      exists [], None. cbn [fst snd]. rewrite app_nil_r. repeat split; auto.
      * exists 0%nat. reflexivity.
      * intros d1 ev d2 E. destruct d1; discriminate.
  - unfold Base.performAdaptiveScrolling.
    change (forOf Base.scrollSteps _) with
      (forOf Base.scrollSteps (adaptiveStep (W:=W) drv)).
    unfold call.
    destruct (paced_loop drv Base.scrollSteps b) as (d & out & T & C & P).
    exists d, out.
    destruct (forOf _ _ b) as [c s1]. cbn [fst snd] in *. subst c.
    split; [destruct out; exact T|].
    split; [destruct out; reflexivity|].
    split; [exact P|]. split; [|intros ->; apply (paced_all _ _ P)].
    clear T. induction P; repeat constructor; simpl; auto.
Qed.

End C7.


Lemma wellOrdered_attempts att :
  popupPasses att = 0%nat -> wellOrdered true att = true.
Proof.
  induction att as [|ev att IH]; simpl; auto.
  destruct ev as [? ? ?|? ? ?| |[]]; simpl; auto. discriminate.
Qed.


Section LookupsAndPopups.
Context {W : Type} (drv : Driver W).




(** [findElement] never raises: it returns a locator or none. *)
Lemma findElement_never_raises {R X} (strategy : SelectorStrategy)
    (s : St W X) :
  exists r s', Selectors.findElement (R:=R) drv strategy s = (Normal r, s').
Proof. apply findElement_total. Qed.

End LookupsAndPopups.

Section Batch.
Context {W : Type} (drv : Driver W).

Lemma runSingleSite_plain {R} url email :
  plain (Runner.runSingleSite (R:=R) drv url email).
Proof. apply call_plain. Qed.

Lemma runBatchFrom_total {R} sites : forall results (s : St W Newsletter.Fields),
  exists rs s',
    Runner.runBatchFrom (R:=R) drv sites results s = (Normal rs, s') /\
    length rs = (length results + length sites)%nat.
Proof.
  induction sites as [|[url email] rest IH]; intros results s; simpl.
  - exists results, s. split; auto.
  - unfold bind at 1, tryCatch. unfold bind at 1.
    destruct (plain_cases (Runner.runSingleSite (R:=R) drv url email) s
                (runSingleSite_plain url email))
      as [(r & s1 & E)|(e & s1 & E)]; rewrite E; simpl.
    + destruct (IH (results ++ [r]) (emit (Slept 2000) s1)) as (rs & s' & E' & L).
      exists rs, s'. split; [exact E'|].
      rewrite L, length_app. simpl. lia.
    + unfold bind, tell. destruct (observe drv IsoTimestamp (world s1)) as [stamp w2].
      simpl.
      match goal with
      | |- context [Runner.runBatchFrom drv rest ?acc ?st] =>
          destruct (IH acc st) as (rs & s' & E' & L)
      end.
      exists rs, s'. split; [exact E'|].
      rewrite L, length_app. simpl. lia.
Qed.

(** [runBatch] returns one result per site and never raises. *)
Lemma runBatch_total {R} sites (s : St W Newsletter.Fields) :
  exists rs s',
    Runner.runBatch (R:=R) drv sites s = (Normal rs, s') /\
    length rs = length sites.
Proof.
  unfold Runner.runBatch, call, bind.
  destruct (runBatchFrom_total (R:=list AutomationResult) sites [] s)
    as (rs & s' & E & L).
  rewrite E. simpl. eauto.
Qed.

End Batch.

(** * The retry loop of src/index.ts *)

#[export] Instance noted_PreOrder : PreOrder noted.
Proof.
  split.
  - intros o. unfold noted. repeat split; auto.
    exists []. rewrite app_nil_r. auto.
  - intros a b c (A1 & A3 & n1 & A4 & A5) (B1 & B3 & n2 & B4 & B5).
    unfold noted. repeat split; try congruence.
    exists (n1 ++ n2). rewrite B4, A4, app_assoc. split; auto.
    apply Forall_app; auto.
Qed.

Lemma verdictOf_isVerdict k v : verdictOf k v -> isVerdict v = true.
Proof.
  intros [->|[msg ->]]; [reflexivity|].
  unfold isVerdict. apply orb_true_iff. right. reflexivity.
Qed.

Lemma filter_notes notes :
  Forall (fun e => isVerdict e = false) notes -> filter isVerdict notes = [].
Proof.
  induction 1 as [|e notes He _ IH]; simpl; auto. rewrite He. exact IH.
Qed.

Lemma noted_diag f o :
  (forall d, Index.failureReasons (f d) = Index.failureReasons d) ->
  noted o (Index.with_diagnostics f o).
Proof.
  intros H. unfold noted. simpl. repeat split; auto.
  exists []. rewrite app_nil_r, H. auto.
Qed.

Lemma noted_note msg o :
  isVerdict msg = false ->
  noted o (Index.with_diagnostics (Index.push_failure msg) o).
Proof.
  intros H. unfold noted. simpl. repeat split; auto.
  exists [msg]. split; auto.
Qed.

Lemma noted_locals f o :
  (forall l, Index.success (f l) = Index.success l) ->
  noted o (Index.with_locals f o).
Proof.
  intros H. unfold noted. simpl. repeat split; auto.
  exists []. rewrite app_nil_r. auto.
Qed.

Ltac index_leaf :=
  try solve
    [ exact I
    | apply noted_note; reflexivity
    | apply noted_diag; intros; reflexivity
    | apply noted_locals; intros; reflexivity
    | simpl; auto ].

(** Walk the statements of a body, one weakest-precondition rule each. *)
Ltac wp_walk :=
  repeat
    (cbv beta iota;
     match goal with
     | |- wp (bind _ _) _ _ => apply wp_bind
     | |- wp (ret _) _ _ => apply wp_ret
     | |- wp skip _ _ => apply wp_ret
     | |- wp (return_ _) _ _ => apply wp_return
     | |- wp continue_ _ _ => apply wp_continue
     | |- wp break_ _ _ => apply wp_break
     | |- wp (throw _) _ _ => apply wp_throw
     | |- wp this _ _ => apply wp_this
     | |- wp (update _) _ _ => apply wp_update
     | |- wp (Index.on_diagnostics _) _ _ => apply wp_update
     | |- wp (Index.assign _) _ _ => apply wp_update
     | |- wp (sleep _) _ _ => apply wp_sleep
     | |- wp (mark _) _ _ => apply wp_mark
     | |- wp (tell _ _) _ _ => apply wp_tell; intros ? ? ?
     | |- wp (ask _ _) _ _ => apply wp_ask; intros [?|?] ? ?
     | |- wp (tryCatch _ _) _ _ => apply wp_tryCatch
     | |- wp (call _ _) _ _ => apply wp_call
     | |- wp (if ?b then _ else _) _ _ => destruct b eqn:?
     | |- wp (match ?x with _ => _ end) _ _ => destruct x eqn:?
     end).

Section Loops.
Context {S : Type}.

(** A loop whose iterations keep [I]. *)
Lemma wp_forOf_inv {R T} (I : S -> Prop) (xs : list T)
    (body : T -> M S R unit) (Q : Completion R unit -> S -> Prop) :
  (forall x s, In x xs -> I s ->
      wp (body x) (fun c s1 =>
                     match c with
                     | Normal _ | Continue => I s1
                     | Break => Q (Normal tt) s1
                     | Return r => Q (Return r) s1
                     | Throw e => Q (Throw e) s1
                     end) s) ->
  (forall s, I s -> Q (Normal tt) s) ->
  forall s, I s -> wp (forOf xs body) Q s.
Proof.
  induction xs as [|x xs IH]; intros Hb Hq s Hi.
  - apply wp_forOf_nil. auto.
  - apply wp_forOf_cons.
    eapply wp_mono; [apply Hb; simpl; auto|].
    intros c s1. destruct c; auto; intros Hi1;
      apply IH; auto; intros; apply Hb; simpl; auto.
Qed.

End Loops.

Section IndexFacts.
Context {W : Type} (drv : Driver W).

(** ** What the methods add to the trace and to the failure reasons *)

Lemma trySelector_steps {R} root sel t :
  steps driver_event noted (Index.trySelector (R:=R) drv root sel t).
Proof. unfold Index.trySelector. steps_with fail; index_leaf. Qed.

Lemma queryShadowDom_steps {R} sel :
  steps driver_event noted (Index.queryShadowDom (R:=R) drv sel).
Proof. unfold Index.queryShadowDom. steps_with fail; index_leaf. Qed.

Ltac lookups :=
  first [ apply trySelector_steps | apply queryShadowDom_steps ].

Lemma adaptiveScroll_steps {R} :
  steps driver_event noted (Index.adaptiveScroll (R:=R) drv).
Proof. unfold Index.adaptiveScroll. steps_with lookups; index_leaf. Qed.

Lemma handleIframe_steps {R} email :
  steps driver_event noted (Index.handleIframe (R:=R) drv email).
Proof. unfold Index.handleIframe. steps_with lookups; index_leaf. Qed.

Lemma handleModalsAndPopups_steps {R} :
  steps driver_event noted (Index.handleModalsAndPopups (R:=R) drv).
Proof. unfold Index.handleModalsAndPopups. steps_with lookups; index_leaf. Qed.

Lemma tryDirectSubmission_steps {R} :
  steps driver_event noted (Index.tryDirectSubmission (R:=R) drv).
Proof. unfold Index.tryDirectSubmission. steps_with lookups; index_leaf. Qed.

Lemma tryShadowDomSubmission_steps {R} :
  steps driver_event noted (Index.tryShadowDomSubmission (R:=R) drv).
Proof. unfold Index.tryShadowDomSubmission. steps_with lookups; index_leaf. Qed.

Lemma tryScrollTriggeredSubmission_steps {R} :
  steps driver_event noted (Index.tryScrollTriggeredSubmission (R:=R) drv).
Proof.
  unfold Index.tryScrollTriggeredSubmission.
  steps_with ltac:(apply tryDirectSubmission_steps); index_leaf.
Qed.

Lemma generateDiagnosticReport_steps {R} :
  steps driver_event noted (Index.generateDiagnosticReport (R:=R) drv).
Proof. unfold Index.generateDiagnosticReport. steps_with fail; index_leaf. Qed.

Lemma index_cleanup_steps {R} :
  steps driver_event noted (Index.cleanup (R:=R) drv).
Proof. unfold Index.cleanup. steps_with fail; index_leaf. Qed.

(** ** Lookups that find nothing *)

Section NoEmail.
Hypothesis Hnever : never_selects_email drv.

Lemma trySelector_misses root sel t (s : St W Index.Fields) :
  In sel emailQueries ->
  wp (Index.trySelector (R:=bool) drv root sel t)
    (fun c _ => c = Normal None \/ exists e, c = Throw e) s.
Proof.
  intros Hin. unfold wp.
  destruct (plain_cases (Index.trySelector (R:=bool) drv root sel t) s
              (call_plain _ _)) as [(r & s' & E)|(e & s' & E)];
    rewrite E; simpl; eauto.
  destruct r as [h|]; auto.
  exfalso. exact (proj1 Hnever root sel t s h s' Hin E).
Qed.

Lemma queryShadowDom_misses (s : St W Index.Fields) :
  wp (Index.queryShadowDom (R:=bool) drv Index.emailType)
    (fun c _ => c = Normal None \/ exists e, c = Throw e) s.
Proof.
  unfold wp.
  destruct (plain_cases (Index.queryShadowDom (R:=bool) drv Index.emailType) s
              (call_plain _ _)) as [(r & s' & E)|(e & s' & E)];
    rewrite E; simpl; eauto.
  destruct r as [h|]; auto.
  exfalso. exact (proj2 Hnever s h s' E).
Qed.

Lemma tryDirectSubmission_fails {R} (s : St W Index.Fields) :
  wp (Index.tryDirectSubmission (R:=R) drv) (fun c _ => failsOnly c) s.
Proof.
  unfold Index.tryDirectSubmission. wp_walk; [left; reflexivity|].
  apply (wp_forOf_inv (fun _ => True)); auto.
  - intros x s1 Hin _. apply wp_bind.
    eapply wp_mono;
      [apply trySelector_misses; unfold emailQueries; apply in_or_app; auto|].
    intros c s2 [->|[e ->]]; cbv beta iota.
    + apply wp_ret. exact I.
    + right. eauto.
  - intros s1 _. apply wp_return. left. reflexivity.
Qed.

Lemma tryShadowDomSubmission_fails {R} (s : St W Index.Fields) :
  wp (Index.tryShadowDomSubmission (R:=R) drv) (fun c _ => failsOnly c) s.
Proof.
  unfold Index.tryShadowDomSubmission. wp_walk; [left; reflexivity|].
  eapply wp_mono; [apply queryShadowDom_misses|].
  intros c s2 [->|[e ->]]; cbv beta iota.
  - wp_walk. left. reflexivity.
  - right. eauto.
Qed.

Lemma tryScrollTriggeredSubmission_fails {R} (s : St W Index.Fields) :
  wp (Index.tryScrollTriggeredSubmission (R:=R) drv)
    (fun c _ => failsOnly c) s.
Proof.
  unfold Index.tryScrollTriggeredSubmission.
  wp_walk; try (left; reflexivity); try (right; eauto; fail).
  eapply wp_mono; [apply (tryDirectSubmission_fails (R:=bool))|].
  intros c s2 [->|[e ->]]; cbv beta iota.
  - apply wp_return. left. reflexivity.
  - right. eauto.
Qed.

Lemma handleIframe_fails {R} email (s : St W Index.Fields) :
  wp (Index.handleIframe (R:=R) drv email) (fun c _ => failsOnly c) s.
Proof.
  unfold Index.handleIframe. wp_walk.
  apply (wp_forOf_inv (fun _ => True)); auto.
  2:{ intros s1 _. apply wp_return. left. reflexivity. }
  intros frame s1 _ _. wp_walk; try exact I.
  apply (wp_forOf_inv
           (fun s => Index.emailInput (Index.locals (self s)) = None)).
  - intros sel s2 Hin Hinv. apply wp_bind.
    eapply wp_mono;
      [apply trySelector_misses; unfold emailQueries; apply in_or_app; auto|].
    intros c s3 [->|[e ->]]; cbv beta iota.
    + wp_walk. reflexivity.
    + wp_walk. exact I.
  - intros s2 Hinv. apply wp_bind, wp_this. cbv beta iota.
    rewrite Hinv. apply wp_ret. exact I.
  - reflexivity.
Qed.

End NoEmail.

End IndexFacts.

Section IndexPrimitives.
Context {W X : Type} (drv : Driver W).

Lemma ask_plain {R A} (c : Call A) : plain (ask drv (X:=X) (R:=R) c).
Proof.
  intros s. unfold ask. destruct (answer drv c (world s)) as [[] ?]; exact I.
Qed.

Lemma tell_plain {R A} (o : Query A) : plain (tell drv (X:=X) (R:=R) o).
Proof.
  intros s. unfold tell. destruct (observe drv o (world s)); exact I.
Qed.

Lemma update_plain {R} (f : X -> X) : plain (update (W:=W) (R:=R) f).
Proof. intros s; exact I. Qed.

Lemma sleep_plain {R} ms : plain (sleep (W:=W) (X:=X) (R:=R) ms).
Proof. intros s; exact I. Qed.

Lemma this_plain {R} : plain (this (W:=W) (X:=X) (R:=R)).
Proof. intros s; exact I. Qed.

(** A statement known through what it adds ([steps]) and through how it
    completes ([Good]). *)
Lemma wp_callee {R A} P (K : X -> X -> Prop) `{!PreOrder K}
    (m : M (St W X) R A) (Good : Completion R A -> Prop) Q s0 s :
  steps P K m -> plain m ->
  (forall s, wp m (fun c _ => Good c) s) ->
  grows P K s0 s ->
  (forall c s1, grows P K s0 s1 -> plainC c -> Good c -> Q c s1) ->
  wp m Q s.
Proof.
  intros Hs Hp Hg G H. apply wp_intro. intros c s1 E. apply H.
  - eapply grows_trans; [typeclasses eauto|exact G|].
    specialize (Hs s). rewrite E in Hs. exact Hs.
  - specialize (Hp s). rewrite E in Hp. exact Hp.
  - specialize (Hg s). unfold wp in Hg. rewrite E in Hg. exact Hg.
Qed.

End IndexPrimitives.

Ltac index_plain :=
  first [ apply call_plain | apply ask_plain | apply tell_plain
        | apply update_plain | apply sleep_plain | apply this_plain ].

Section IndexRun.
Context {W : Type} (drv : Driver W).

Ltac index_steps :=
  steps_with
    ltac:(first [ apply trySelector_steps | apply queryShadowDom_steps
                | apply adaptiveScroll_steps | apply handleIframe_steps
                | apply handleModalsAndPopups_steps
                | apply tryDirectSubmission_steps
                | apply tryShadowDomSubmission_steps
                | apply tryScrollTriggeredSubmission_steps
                | apply generateDiagnosticReport_steps
                | apply index_cleanup_steps ]);
  index_leaf.

Lemma exec_throw {R} (s s1 : St W Index.Fields) e :
  grows driver_event noted s s1 -> index_exec_post s (R:=R) (Throw e) s1.
Proof.
  intros [[d [E F]] (K1 & K2 & notes & K3 & K4)].
  unfold index_exec_post, reasons. repeat split; eauto.
  exists notes. split; auto. right. eauto.
Qed.

Lemma exec_false {R} (s s1 : St W Index.Fields) :
  grows driver_event noted s s1 ->
  index_exec_post s (R:=R) (Normal false)
    (mkSt (world s1) (trace s1)
       (Index.with_diagnostics (Index.push_failure Index.exhaustedMessage)
          (self s1))).
Proof.
  intros [[d [E F]] (K1 & K2 & notes & K3 & K4)].
  unfold index_exec_post, reasons. simpl. repeat split; eauto.
  exists notes. split; auto. left. split; auto.
  rewrite K3, app_assoc. reflexivity.
Qed.

(** One statement of [executeAutomation]: on an exception the run is over,
    otherwise go on with what [G] has accumulated. *)
Ltac exec_stmt G good :=
  apply wp_bind;
  eapply (wp_callee driver_event noted _ good);
  [ index_steps | index_plain | | exact G | ];
  [ | clear G; intros [?| | | |?] ? G ? ?; try contradiction;
      cbv beta iota; [ | solve [ apply exec_throw; exact G ] ] ].

Section NoEmail.
Hypothesis Hnever : never_selects_email drv.

Lemma index_executeAutomation_spec {R} (s : St W Index.Fields) :
  wp (Index.executeAutomation (R:=R) drv) (index_exec_post s) s.
Proof.
  unfold Index.executeAutomation. apply wp_call.
  pose proof (grows_refl driver_event noted s) as G.
  exec_stmt G (fun _ : Completion bool Index.Fields => True);
    [intros; exact I|].
  apply wp_bind. destruct (negb _); [apply wp_throw, exec_throw, G|].
  apply wp_ret.
  exec_stmt G (fun _ : Completion bool Z => True); [intros; exact I|].
  exec_stmt G (fun _ : Completion bool unit => True); [intros; exact I|].
  exec_stmt G (fun _ : Completion bool Z => True); [intros; exact I|].
  exec_stmt G (fun _ : Completion bool unit => True); [intros; exact I|].
  exec_stmt G (fun _ : Completion bool unit => True); [intros; exact I|].
  exec_stmt G (fun _ : Completion bool unit => True); [intros; exact I|].
  exec_stmt G (fun _ : Completion bool bool => True); [intros; exact I|].
  exec_stmt G (failsOnly (R:=bool));
    [intros; apply tryDirectSubmission_fails; auto|].
  match goal with H : failsOnly _ |- _ =>
    destruct H as [H|[? H]]; inversion H; subst end.
  apply wp_bind, wp_ret.
  exec_stmt G (failsOnly (R:=bool));
    [intros; apply tryShadowDomSubmission_fails; auto|].
  match goal with H : failsOnly _ |- _ =>
    destruct H as [H|[? H]]; inversion H; subst end.
  apply wp_bind, wp_ret.
  exec_stmt G (failsOnly (R:=bool));
    [intros; apply handleIframe_fails; auto|].
  match goal with H : failsOnly _ |- _ =>
    destruct H as [H|[? H]]; inversion H; subst end.
  apply wp_bind, wp_ret.
  exec_stmt G (failsOnly (R:=bool));
    [intros; apply tryScrollTriggeredSubmission_fails; auto|].
  match goal with H : failsOnly _ |- _ =>
    destruct H as [H|[? H]]; inversion H; subst end.
  apply wp_bind, wp_ret.
  apply wp_bind, wp_update. apply wp_return.
  apply exec_false, G.
Qed.

Lemma attempt_failed k (s s2 : St W Index.Fields) notes vs extra w :
  (exists d, trace s2 = trace (emit (Mark (AttemptStart k)) s) ++ d /\
             Forall driver_event d) ->
  Index.config (self s2) = Index.config (self s) ->
  (Index.success (Index.locals (self s)) = false ->
   Index.success (Index.locals (self s2)) = false) ->
  Forall (fun e => isVerdict e = false) notes -> closings drv [k] vs ->
  reasons s2 = reasons s ++ notes ++ vs ->
  Forall driver_event extra ->
  index_attempt_post drv k s (Normal tt)
    (mkSt w (trace s2 ++ extra) (self s2)).
Proof.
  intros (d & E & F) Hc Hs Hn Hv Hr Hx.
  unfold index_attempt_post. simpl. repeat split; auto.
  - exists (d ++ extra). rewrite E. simpl. rewrite <- !app_assoc. simpl.
    split; auto. apply Forall_app; auto.
  - exists notes, vs. auto.
Qed.

Lemma index_attemptStep_spec k (s : St W Index.Fields) :
  wp (Index.attemptStep drv k) (index_attempt_post drv k s) s.
Proof.
  unfold Index.attemptStep. apply wp_bind, wp_mark. cbv beta iota.
  apply wp_tryCatch, wp_bind.
  eapply wp_mono; [apply (index_executeAutomation_spec (R:=bool))|].
  intros c s2 (Ht & Hc & Hs & notes & Hn & Hr).
  destruct Hr as [[-> Hr]|(e & -> & Hr)]; cbv beta iota.
  - apply wp_bind, wp_update. cbv beta iota. apply wp_ask.
    cbn [world trace self]. intros r w' Ew.
    destruct r as [[]|e].
    + apply (attempt_failed k s
               (mkSt (world s2) (trace s2)
                  (Index.with_locals (Index.set_success false) (self s2)))
               notes [Index.exhaustedMessage]
               [Asked (WaitForTimeout 2000) (Ok tt)]); auto.
      * apply closings_one; [left; reflexivity|constructor].
      * repeat constructor.
    + apply wp_update. cbn [world trace self].
      apply (attempt_failed k s
               (mkSt (world s2) (trace s2)
                  (Index.with_diagnostics
                     (Index.push_failure
                        ("Attempt " ++ show_Z k ++ ": "
                           ++ Runner.errorString e)%string)
                     (Index.with_locals (Index.set_success false) (self s2))))
               notes
               [Index.exhaustedMessage;
                ("Attempt " ++ show_Z k ++ ": " ++ Runner.errorString e)%string]
               [Asked (WaitForTimeout 2000) (Err e)]); auto.
      * apply closings_two; [|constructor]. exists (world s2), w'. exact Ew.
      * unfold reasons in *. simpl. rewrite Hr, <- !app_assoc. reflexivity.
      * repeat constructor.
  - apply wp_update.
    pose proof (attempt_failed k s
                  (mkSt (world s2) (trace s2)
                     (Index.with_diagnostics
                        (Index.push_failure
                           ("Attempt " ++ show_Z k ++ ": "
                              ++ Runner.errorString e)%string) (self s2)))
                  notes
                  [("Attempt " ++ show_Z k ++ ": " ++ Runner.errorString e)%string]
                  [] (world s2)) as H.
    cbn [world trace self] in H. rewrite app_nil_r in H. apply H; auto.
    + simpl. intros H0. rewrite Hs. exact H0.
    + apply closings_one; [|constructor]. right. eexists. reflexivity.
    + unfold reasons in *. simpl. rewrite Hr, <- app_assoc. reflexivity.
Qed.

Lemma closings_verdicts ks vs :
  closings drv ks vs -> filter isVerdict vs = vs.
Proof.
  induction 1 as [|k ks v vs Hv _ IH|k ks e vs _ _ IH]; simpl; auto.
  - rewrite (verdictOf_isVerdict k v Hv), IH. reflexivity.
  - rewrite IH. reflexivity.
Qed.

Lemma closings_app ks1 vs1 ks2 vs2 :
  closings drv ks1 vs1 -> closings drv ks2 vs2 ->
  closings drv (ks1 ++ ks2) (vs1 ++ vs2).
Proof.
  intros H1 H2.
  induction H1; simpl;
    [exact H2|apply closings_one; auto|apply closings_two; auto].
Qed.

(** When the pauses before the retries complete, every attempt is closed
    by exactly one entry. *)
Lemma closings_complete ks vs :
  waits_complete drv 2000 -> closings drv ks vs -> Forall2 verdictOf ks vs.
Proof.
  intros Hw. induction 1 as [|k ks v vs Hv _ IH|k ks e vs (w & w' & Ew) _ IH].
  - constructor.
  - constructor; auto.
  - destruct (Hw w) as [w2 Ew2]. congruence.
Qed.

Lemma index_retry_loop xs (s : St W Index.Fields) :
  Index.success (Index.locals (self s)) = false ->
  wp (forOf xs (Index.attemptStep drv)) (index_loop_post drv xs s) s.
Proof.
  revert s. induction xs as [|k xs IH]; intros s Hs.
  - apply wp_forOf_nil. unfold index_loop_post. repeat split; auto.
    exists [], []. rewrite !app_nil_r. repeat split; auto. constructor.
  - apply wp_forOf_cons.
    eapply wp_mono; [apply index_attemptStep_spec|].
    intros c s1 (-> & (d1 & Et & Fd) & Hc & Hs1 & notes & vs & Hn & Hv & Hr).
    eapply wp_mono; [apply IH; auto|].
    intros c s2 (-> & Hc2 & Hs2 & d2 & es & Et2 & Ha & Hr2 & Hf).
    unfold index_loop_post. repeat split; auto; try congruence.
    exists (Mark (AttemptStart k) :: d1 ++ d2), ((notes ++ vs) ++ es).
    repeat split.
    + rewrite Et2, Et, <- app_assoc. reflexivity.
    + simpl. rewrite attemptsOf_app, (attemptsOf_driver d1 Fd), Ha.
      reflexivity.
    + rewrite Hr2, Hr, <- !app_assoc. reflexivity.
    + rewrite !filter_app, (filter_notes notes Hn). simpl.
      rewrite (closings_verdicts _ _ Hv).
      apply (closings_app [k] vs xs _ Hv Hf).
Qed.

Lemma wp_ask_ok {R A} (c : Call A) (a : A)
    (Q : Completion R A -> St W Index.Fields -> Prop) s :
  (exists w', answer drv c (world s) = (Ok a, w')) ->
  (forall w', Q (Normal a) (mkSt w' (trace s ++ [Asked c (Ok a)]) (self s))) ->
  wp (ask drv c) Q s.
Proof.
  intros [w1 E] H. apply wp_ask. intros r w' E'.
  rewrite E in E'. inversion E'; subst. apply H.
Qed.

(** The [finally] block of [run] completes normally. *)
Lemma index_finally_spec {R} (s : St W Index.Fields) :
  wp (Index.generateDiagnosticReport (R:=R) drv ;; Index.cleanup drv)
    (fun c s' => c = Normal tt /\ grows driver_event noted s s') s.
Proof.
  pose proof (grows_refl driver_event noted s) as G.
  apply wp_bind.
  eapply (wp_callee driver_event noted _ (fun c => c = Normal tt));
    [ index_steps | index_plain | | exact G | ].
  { intros s0. unfold Index.generateDiagnosticReport. wp_walk; reflexivity. }
  clear G. intros c s1 G _ ->. cbv beta iota.
  eapply (wp_callee driver_event noted _ (fun c => c = Normal tt));
    [ index_steps | index_plain | | exact G | ].
  { intros s0. unfold Index.cleanup. wp_walk; reflexivity. }
  intros c s2 G2 _ ->. auto.
Qed.

(** Every run of [Index.run] on which no email input is found: as many
    attempts as [maxRetries], each closed in the failure reasons, and the
    value false. *)
Lemma index_run_spec {R} (s : St W Index.Fields) :
  browser_starts drv ->
  wp (Index.run (R:=R) drv)
    (fun c s' =>
       c = Normal false /\
       exists d es,
         trace s' = trace s ++ d /\
         attemptsOf d
         = zrange 1 (Index.maxRetries (Index.config (self s)) + 1) /\
         reasons s' = reasons s ++ es /\
         closings drv
           (zrange 1 (Index.maxRetries (Index.config (self s)) + 1))
           (filter isVerdict es)) s.
Proof.
  intros Hstart. unfold Index.run. apply wp_call.
  apply wp_bind, wp_tell. intros now w0 _. cbv beta iota.
  apply wp_bind, wp_update. cbv beta iota. cbn [world trace self].
  apply wp_tryFinally, wp_tryCatch.
  apply wp_bind, wp_this. cbv beta iota. cbn [world trace self].
  apply wp_bind, (wp_ask_ok _ tt); [apply (proj1 (Hstart _))|]. intros w1.
  cbv beta iota. cbn [world trace self].
  apply wp_bind, wp_update. cbv beta iota. cbn [world trace self].
  apply wp_bind, (wp_ask_ok _ tt); [apply (proj1 (proj2 (Hstart _)))|].
  intros w2. cbv beta iota. cbn [world trace self].
  apply wp_bind, wp_update. cbv beta iota. cbn [world trace self].
  apply wp_bind, (wp_ask_ok _ tt); [apply (proj2 (proj2 (Hstart _)))|].
  intros w3. cbv beta iota. cbn [world trace self].
  apply wp_bind, wp_update. cbv beta iota. cbn [world trace self].
  apply wp_bind, wp_update. cbv beta iota. cbn [world trace self].
  apply wp_bind.
  eapply wp_mono; [apply index_retry_loop; reflexivity|].
  intros c s6 (-> & Hc & Hs & d & es & Et & Ha & Hr & Hf). cbv beta iota.
  apply wp_bind, wp_this. cbv beta iota. rewrite Hs.
  apply wp_bind, wp_ret. apply wp_return.
  eapply wp_mono; [apply index_finally_spec|].
  intros c s7 (-> & (dfin & Ef & Ff) & K1 & K2 & notes & K3 & K4).
  split; [reflexivity|].
  cbn [trace self world] in Et, Ha, Hf, Hr.
  eexists. exists (es ++ notes).
  split; [rewrite Ef, Et, <- !app_assoc; reflexivity|].
  repeat split.
  - simpl. rewrite attemptsOf_app, (attemptsOf_driver dfin Ff), app_nil_r.
    exact Ha.
  - unfold reasons in *. rewrite K3, Hr. simpl. rewrite app_assoc.
    reflexivity.
  - rewrite filter_app, (filter_notes notes K4), app_nil_r. exact Hf.
Qed.

End NoEmail.
End IndexRun.

Section AttemptBound.
Context {W : Type} (drv : Driver W).

(** C2, amended.  Attempt bound, for the two retry loops the claim cites.
    Let the driver never yield an email input: no lookup of
    [findEmailInput] returns an element, and neither [Index.trySelector] on
    an email pattern nor the shadow query of src/index.ts does.

    - automation/newsletter-automation.ts: once initialised,
      [attemptNewsletterSignup] makes the attempts 1 to [k] with
      [k <= retryAttempts] and appends exactly one error entry per attempt
      made, the i-th naming attempt i.  When the waits before the retries
      complete it returns false (it does not raise) after exactly
      [retryAttempts] attempts.  Otherwise it may end early: it then raises
      the rejection of such a wait.  Every run of [executeAutomation]
      returns a result whose [success] is false and whose [errors] is not
      empty.
    - src/index.ts: when the browser starts, [Index.run] returns false (it
      does not raise) after exactly [maxRetries] attempts, numbered 1 to
      [maxRetries], and every attempt is closed in the failure reasons.
      When the pauses before the retries complete, the entries that close
      an attempt (the exhaustion message, or the entry written when the
      attempt threw) are exactly one per attempt, in order.  The other
      entries it appends report single selectors. *)
Theorem attempt_bound {R} (cfg : AutomationConfig)
    (s : St W Newsletter.Fields) (si : St W Index.Fields) :
  Newsletter.f_page (self s) = true ->
  Newsletter.f_selectors (self s) = true ->
  never_finds_input drv ->
  browser_starts drv -> never_selects_email drv ->
  (exists c s' d es k,
      Newsletter.attemptNewsletterSignup (R:=R) drv cfg s = (c, s') /\
      trace s' = trace s ++ d /\
      attemptsOf d = zrange 1 (k + 1) /\
      errs s' = errs s ++ es /\
      Forall2 attemptEntry (zrange 1 (k + 1)) es /\
      ((c = Normal false /\ k = retryAttempts cfg) \/
       (exists e, c = Throw e /\ wait_rejected drv 1000 e /\
                  (1 <= k < retryAttempts cfg)%Z)) /\
      (waits_complete drv 1000 ->
       c = Normal false /\ k = retryAttempts cfg /\
       length es = Z.to_nat (retryAttempts cfg))) /\
  (forall s0 : St W Newsletter.Fields,
      exists r s',
        Newsletter.executeAutomation (R:=R) drv cfg s0 = (Normal r, s') /\
        success r = false /\ errors r <> []) /\
  (exists s' d es,
      Index.run (R:=R) drv si = (Normal false, s') /\
      trace s' = trace si ++ d /\
      attemptsOf d
      = zrange 1 (Index.maxRetries (Index.config (self si)) + 1) /\
      reasons s' = reasons si ++ es /\
      closings drv
        (zrange 1 (Index.maxRetries (Index.config (self si)) + 1))
        (filter isVerdict es) /\
      (waits_complete drv 2000 ->
       Forall2 verdictOf
         (zrange 1 (Index.maxRetries (Index.config (self si)) + 1))
         (filter isVerdict es) /\
       length (filter isVerdict es)
       = Z.to_nat (Index.maxRetries (Index.config (self si))))).
Proof.
  intros Hp Hs Hfind Hstart Hsel.
  destruct (attemptNewsletterSignup_bound drv (R:=R) cfg s Hp Hs Hfind)
    as [A B].
  split; [exact A|]. split; [exact B|].
  pose proof (index_run_spec drv Hsel (R:=R) si Hstart) as H.
  unfold wp in H.
  destruct (Index.run (R:=R) drv si) as [c s'] eqn:E. simpl in H.
  destruct H as (-> & d & es & Et & Ha & Hr & Hf).
  exists s', d, es. repeat split; auto.
  - apply (closings_complete drv); auto.
  - apply (closings_complete drv _ _ H) in Hf.
    apply Forall2_length in Hf. rewrite <- Hf, zrange_length. f_equal. lia.
Qed.

End AttemptBound.

Import Pages.

(** On the empty page no lookup finds anything. *)
Lemma emptyPage_never_finds : never_finds_input (pageDriver emptyPage).
Proof.
  intros [w tr o] el s1. vm_compute. intros H. discriminate H.
Qed.

(** On the empty page the browser starts and no selector is ever
    matched. *)
Lemma emptyPage_starts : browser_starts (pageDriver emptyPage).
Proof. intros w. repeat split; eexists; reflexivity. Qed.

Lemma emptyPage_never_selects : never_selects_email (pageDriver emptyPage).
Proof.
  split.
  - intros root sel t [w tr o] h s1 _. vm_compute. intros H. discriminate H.
  - intros [w tr o] h s1. vm_compute. intros H. discriminate H.
Qed.

Lemma emptyPage_waits ms : waits_complete (pageDriver emptyPage) ms.
Proof. intros w. eexists. reflexivity. Qed.

(** C2, amended, on the empty page with three attempts: the waits
    complete, and each loop makes its three attempts, closes each with one
    entry and answers false. *)
Lemma attempt_bound_witness :
  f_page (self (start true)) = true /\
  f_selectors (self (start true)) = true /\
  never_finds_input (pageDriver emptyPage) /\
  browser_starts (pageDriver emptyPage) /\
  never_selects_email (pageDriver emptyPage) /\
  waits_complete (pageDriver emptyPage) 1000 /\
  waits_complete (pageDriver emptyPage) 2000 /\
  (exists s' d es,
      attemptNewsletterSignup (R:=unit) (pageDriver emptyPage) (config 3)
        (start true) = (Normal false, s') /\
      trace s' = trace (start true) ++ d /\
      attemptsOf d = zrange 1 (retryAttempts (config 3) + 1) /\
      errs s' = errs (start true) ++ es /\
      Forall2 attemptEntry (zrange 1 (retryAttempts (config 3) + 1)) es /\
      length es = Z.to_nat (retryAttempts (config 3))) /\
  (forall s0 : St Z Fields,
      exists r s',
        executeAutomation (R:=unit) (pageDriver emptyPage) (config 3) s0
          = (Normal r, s') /\
        success r = false /\ errors r <> []) /\
  (exists s' d es,
      Index.run (R:=unit) (pageDriver emptyPage) (indexStart 3)
      = (Normal false, s') /\
      trace s' = trace (indexStart 3) ++ d /\
      attemptsOf d
      = zrange 1 (Index.maxRetries (Index.config (self (indexStart 3))) + 1) /\
      reasons s' = reasons (indexStart 3) ++ es /\
      Forall2 verdictOf
        (zrange 1 (Index.maxRetries (Index.config (self (indexStart 3))) + 1))
        (filter isVerdict es) /\
      length (filter isVerdict es)
      = Z.to_nat (Index.maxRetries (Index.config (self (indexStart 3))))).
Proof.
  split; [reflexivity|]. split; [reflexivity|].
  split; [exact emptyPage_never_finds|].
  split; [exact emptyPage_starts|].
  split; [exact emptyPage_never_selects|].
  split; [apply emptyPage_waits|]. split; [apply emptyPage_waits|].
  destruct (attempt_bound (R:=unit) (pageDriver emptyPage) (config 3)
              (start true) (indexStart 3) eq_refl eq_refl
              emptyPage_never_finds emptyPage_starts emptyPage_never_selects)
    as ((c & s' & d & es & k & E & T & A & Ee & F & _ & Hw) & B
        & (si' & di & esi & Ei & Ti & Ai & Ri & _ & Hwi)).
  destruct (Hw (emptyPage_waits 1000)) as (-> & -> & L).
  destruct (Hwi (emptyPage_waits 2000)) as (Fi & Li).
  split; [exists s', d, es; repeat split; assumption|].
  split; [exact B|].
  exists si', di, esi. repeat split; assumption.
Defined.

Section NoSelection.
Context {W : Type} (drv : Driver W).

(** A driver on which every wait for a selector times out or is rejected
    never yields an email input to src/index.ts. *)
Lemma timeouts_never_select :
  (forall root sel t w,
      exists e w', answer drv (WaitForSelector root sel t) w = (Err e, w')) ->
  never_selects_email drv.
Proof.
  intros H.
  assert (Miss : forall root sel t (s : St W Index.Fields)
                   (Q : Completion (option Handle) (option Handle)
                        -> St W Index.Fields -> Prop),
             (forall e s1, Q (Throw e) s1) ->
             wp (ask drv (WaitForSelector root sel t)) Q s).
  { intros root sel t s Q HQ. apply wp_ask. intros r w' E.
    destruct (H root sel t (world s)) as (e & w2 & E2).
    rewrite E2 in E. inversion E; subst. apply HQ. }
  split.
  - intros root sel t s h s1 _ E.
    assert (P : wp (Index.trySelector (R:=bool) drv root sel t)
                  (fun c _ => c = Normal None) s).
    { unfold Index.trySelector. apply wp_call, wp_bind.
      repeat (apply wp_forOf_cons, wp_tryCatch, wp_bind, Miss;
              intros; cbv beta iota; apply wp_ret).
      apply wp_forOf_nil, wp_bind, wp_update, wp_return. reflexivity. }
    apply (wp_run _ _ _ _ _ P) in E. discriminate.
  - intros s h s1 E.
    assert (P : wp (Index.queryShadowDom (R:=bool) drv Index.emailType)
                  (fun c _ => c = Normal None) s).
    { unfold Index.queryShadowDom. apply wp_call, wp_bind.
      repeat (apply wp_forOf_cons, wp_tryCatch, wp_bind, Miss;
              intros; cbv beta iota; apply wp_ret).
      apply wp_forOf_nil, wp_return. reflexivity. }
    apply (wp_run _ _ _ _ _ P) in E. discriminate.
Qed.

End NoSelection.

(** On a closed page no lookup finds anything. *)
Lemma closedPage_never_finds :
  never_finds_input (scriptedDriver closedPage [] emptyPage).
Proof.
  intros [w tr o] el s1. vm_compute. intros H. discriminate H.
Qed.

(** On an empty page that is closed at some time the browser starts and no
    selector is ever matched. *)
Lemma closing_starts T : browser_starts (closingDriver T emptyPage).
Proof. intros w. repeat split; eexists; reflexivity. Qed.

Lemma closing_never_selects T : never_selects_email (closingDriver T emptyPage).
Proof.
  apply timeouts_never_select. intros root sel t w. simpl.
  destruct (w <? T)%Z; eexists _, _; reflexivity.
Qed.

(** C2 fails as stated, in both loops, when a wait before a retry is
    rejected.  On a closed page [attemptNewsletterSignup], configured for
    three attempts, records attempt 1 and is then left by the rejection of
    the wait: one attempt is made, and the method raises.  On an empty page
    that is closed when attempt 1 of [Index.run] has been exhausted, the
    rejected pause adds a second closing entry for that attempt.  On
    neither driver is an email input ever found. *)
Lemma rejected_wait_breaks_bound :
  let closed := scriptedDriver closedPage [] emptyPage in
  let r := attemptNewsletterSignup (R:=unit) closed (config 3) (start true) in
  let closing := closingDriver 175 emptyPage in
  let ri := Index.run (R:=unit) closing (indexStart 1) in
  (never_finds_input closed /\
   fst r = Throw closedMessage /\
   attemptsOf (trace (snd r)) = [1%Z] /\
   errs (snd r) = [("Attempt 1 failed: " ++ closedMessage)%string] /\
   ~ bound_as_stated 3 (fst r) (attemptsOf (trace (snd r))) (errs (snd r))) /\
  (browser_starts closing /\ never_selects_email closing /\
   fst ri = Normal false /\
   attemptsOf (trace (snd ri)) = [1%Z] /\
   filter isVerdict (reasons (snd ri))
   = [Index.exhaustedMessage;
      ("Attempt 1: Error: " ++ closedMessage)%string] /\
   ~ bound_as_stated 1 (fst ri) (attemptsOf (trace (snd ri)))
       (filter isVerdict (reasons (snd ri)))).
Proof.
  intros closed r closing ri. split.
  - split; [exact closedPage_never_finds|].
    split; [vm_compute; reflexivity|]. split; [vm_compute; reflexivity|].
    split; [vm_compute; reflexivity|].
    intros (H & _). vm_compute in H. discriminate H.
  - split; [apply closing_starts|]. split; [apply closing_never_selects|].
    split; [vm_compute; reflexivity|]. split; [vm_compute; reflexivity|].
    split; [vm_compute; reflexivity|].
    intros (_ & _ & H). vm_compute in H. discriminate H.
Qed.

Example empty_page_errors :
  errs (snd (attemptNewsletterSignup (R:=unit) (pageDriver emptyPage) (config 3)
               (start true)))
  = ["Attempt 1: Email input not found"; "Attempt 2: Email input not found";
     "Attempt 3: Email input not found"]%string.
Proof. reflexivity. Qed.

(** src/index.ts on the empty page, two attempts: the entries that close
    an attempt, among the 78 failure reasons recorded. *)
Example empty_page_verdicts :
  let run := Index.run (R:=unit) (pageDriver emptyPage) (indexStart 2) in
  fst run = Normal false /\
  attemptsOf (trace (snd run)) = [1; 2]%Z /\
  length (reasons (snd run)) = 78%nat /\
  filter isVerdict (reasons (snd run))
  = [Index.exhaustedMessage; Index.exhaustedMessage].
Proof. vm_compute. repeat split. Qed.

(** C1.  On a page whose dialog holds an email form that the first
    main-document strategy matches too, one attempt of
    [executeNewsletterSignup] submits the form twice: [handleAdvancedPopups]
    fills the input and clicks the submit button, returns nothing, and
    [executeFormStrategies] fills and clicks the same elements again. *)
Theorem popup_form_submitted_twice :
  let run := Base.executeNewsletterSignup (R:=unit) (pageDriver dialogFormPage)
               (bqlStart 1) in
  fst run = Normal true /\
  attemptsOf (trace (snd run)) = [1%Z] /\
  handleFills (trace (snd run)) = 2%nat /\
  handleClicks 4%nat (trace (snd run)) = 2%nat.
Proof. vm_compute. repeat split. Qed.

(** C3.  The frame lookup returns an element that has no box.  On a page
    whose frame holds an email input that is attached but not rendered,
    [findInIframes], asked for an input that only has to be attached,
    returns that input although the driver answers that it has no bounding
    box: the claim fails there.  The lookup in the main document does test
    the box: for the same input in the main document [findElement] returns
    none. *)
Theorem frame_lookup_skips_box :
  ~ positive_area_claim (pageDriver hiddenFramePage) /\
  (let s := mkSt 0%Z [] tt in
   let hidden := locator (FrameDoc 7%nat) emailSelector in
   fst (Selectors.findInIframes (R:=unit) (pageDriver hiddenFramePage)
          attachedEmail s) = Normal (Some hidden) /\
   fst (answer (pageDriver hiddenFramePage) (BoundingBox hidden) 0%Z)
   = Ok None /\
   fst (Selectors.findElement (R:=unit) (pageDriver hiddenMainPage)
          attachedEmail s) = Normal None /\
   trace (snd (Selectors.findElement (R:=unit) (pageDriver hiddenMainPage)
                 attachedEmail s))
   = [Asked (WaitFor (first (locator MainDoc emailSelector)) Attached 5000)
        (Ok tt);
      Asked (BoundingBox (first (locator MainDoc emailSelector))) (Ok None)]).
Proof.
  split.
  - intros H.
    destruct (H attachedEmail (mkSt 0%Z [] tt)
                (snd (Selectors.findInIframes (R:=unit)
                        (pageDriver hiddenFramePage)
                        attachedEmail (mkSt 0%Z [] tt)))
                (locator (FrameDoc 7%nat) emailSelector))
      as (r & w' & E & _).
    + right. vm_compute. reflexivity.
    + vm_compute in E. discriminate E.
  - vm_compute. repeat split.
Qed.




(** C5, amended, on the form page. *)
Lemma submission_completes_attempt_witness :
  exists final,
    signupAttempt (pageDriver formPage) (config 3) 0 (start true)
      = (Return true, final) /\
    forall later,
      forOf (0%Z :: later) (signupAttempt (pageDriver formPage) (config 3))
        (start true) = (Return true, final).
Proof.
  eexists.
  eapply (submission_completes_attempt (pageDriver formPage) (config 3) 0
            (start true) _ _ _ _ 4%Z 12%Z
            (FoundLocator (first (locator MainDoc emailSelector)))
            (FoundLocator (first (locator MainDoc submitSelector))));
    vm_compute; reflexivity.
Defined.

(** C5 fails as stated when the pause after the click is rejected.  On
    the form page, closed right after the submit click, the one attempt
    types the email and clicks the submit button, both accepted by the
    driver; the pause that follows is rejected, and the attempt is recorded
    as failed: it does not return true, and [attemptNewsletterSignup]
    answers false. *)
Lemma rejected_pause_fails_submission :
  let drv := closingDriver 11 formPage in
  let r := signupAttempt drv (config 1) 0 (start true) in
  In (Asked (Fill (first (locator MainDoc emailSelector)) "reader@example.com")
        (Ok tt)) (trace (snd r)) /\
  In (Asked (Click (first (locator MainDoc submitSelector))) (Ok tt))
    (trace (snd r)) /\
  last (trace (snd r)) (Mark PopupPass)
  = Asked (WaitForTimeout 2000) (Err closedMessage) /\
  fst r = Normal tt /\
  errs (snd r) = [("Attempt 1 failed: " ++ closedMessage)%string] /\
  fst (attemptNewsletterSignup (R:=unit) drv (config 1) (start true))
  = Normal false /\
  ~ submission_gives_success "reader@example.com" (trace (snd r)) (fst r).
Proof.
  intros drv r.
  assert (F : In (Asked (Fill (first (locator MainDoc emailSelector))
                           "reader@example.com") (Ok tt)) (trace (snd r)))
    by (vm_compute; do 3 right; left; reflexivity).
  assert (C : In (Asked (Click (first (locator MainDoc submitSelector))) (Ok tt))
                (trace (snd r)))
    by (vm_compute; do 11 right; left; reflexivity).
  split; [exact F|]. split; [exact C|].
  split; [vm_compute; reflexivity|]. split; [vm_compute; reflexivity|].
  split; [vm_compute; reflexivity|]. split; [vm_compute; reflexivity|].
  intros H.
  assert (E : fst r = Return true) by (apply H; eexists; eassumption).
  vm_compute in E. discriminate E.
Qed.



(** C7 fails as stated: on the empty page the revealer scrolls to 25, 50,
    75 and then 0 percent, which is not ascending. *)
Lemma scroll_stages_not_ascending :
  let tr := trace (snd (triggerPopupsWithScrolling (R:=unit)
                          (pageDriver emptyPage) (config 3) (start true))) in
  scrollOffsets tr = [25; 50; 75; 0]%Z /\ ~ ascending_stages tr.
Proof.
  vm_compute. split; [reflexivity|]. intros H. discriminate H.
Qed.

(** On a page whose scrolling is locked the revealer stops after its first
    stage: the probe for the lock answers positively. *)
Example revealer_stops_on_lock :
  let r := triggerPopupsWithScrolling (R:=unit) (pageDriver dialogFormPage)
             (config 3) (start true) in
  fst r = Normal tt /\ scrollOffsets (trace (snd r)) = [25%Z] /\
  Exists positive_probe (trace (snd r)).
Proof.
  vm_compute. split; [reflexivity|]. split; [reflexivity|].
  do 4 right. left. reflexivity.
Qed.

(** The revealer of src/base.ts scrolls through every stage on a page whose
    scrolling is locked by a dialog: it asks nothing between the stages. *)
Example adaptive_scrolling_never_probes :
  trace (snd (Base.performAdaptiveScrolling (R:=unit) (pageDriver dialogFormPage)
                (bqlStart 1)))
  = [Asked (ScrollDocFraction (1 # 4)) (Ok tt);
     Asked (WaitForTimeout 1500) (Ok tt);
     Asked (ScrollDocFraction (1 # 2)) (Ok tt);
     Asked (WaitForTimeout 1500) (Ok tt);
     Asked (ScrollDocFraction (3 # 4)) (Ok tt);
     Asked (WaitForTimeout 1500) (Ok tt);
     Asked (ScrollDocFraction (1 # 1)) (Ok tt);
     Asked (WaitForTimeout 1500) (Ok tt)].
Proof. reflexivity. Qed.

(** The revealer of src/index.ts, for comparison: its stages go up, it
    probes after each of them, and it stops and answers true at the first
    stage where a popup shows. *)
Example index_adaptive_scroll_stops :
  fst (Index.adaptiveScroll (R:=unit) (pageDriver emptyPage) (indexStart 1))
  = Normal false /\
  bodyFractions
    (trace (snd (Index.adaptiveScroll (R:=unit) (pageDriver emptyPage)
                   (indexStart 1))))
  = [3 # 10; 6 # 10; 9 # 10]%Q /\
  fst (Index.adaptiveScroll (R:=unit) (pageDriver popupPage) (indexStart 1))
  = Normal true /\
  bodyFractions
    (trace (snd (Index.adaptiveScroll (R:=unit) (pageDriver popupPage)
                   (indexStart 1))))
  = [3 # 10]%Q.
Proof. vm_compute. repeat split. Qed.

(** C8.  [findInShadowDOM] raises where its siblings return none.  On a
    page that shows an email input but no submit control, the shadow lookup
    of the submit button reaches the fallback button:has-text(Subscribe),
    which [querySelector] rejects: the evaluation throws, [findInShadowDOM]
    raises and so does [findSubmitButton] above it, and the attempt ends in
    the handler of the retry loop instead of reporting that no submit button
    was found.  On a page whose evaluation fails for another reason the
    lookup of the email input raises likewise. *)
Theorem shadow_lookup_raises :
  let drv := pageDriver modalPage in
  let rejected :=
    ("SyntaxError: 'button:has-text(" ++ quoted "Subscribe"
       ++ ")' is not a valid selector")%string in
  (forall strat, In strat submitButtonStrategies ->
     fst (Selectors.findInShadowDOM (R:=unit) drv strat (start true))
     = Throw rejected) /\
  fst (findSubmitButton (R:=unit) drv (start true)) = Throw rejected /\
  errs (snd (attemptNewsletterSignup (R:=unit) drv (config 1) (start true)))
  = [("Attempt 1 failed: " ++ rejected)%string] /\
  fst (findEmailInput (R:=unit) (pageDriver brokenShadowPage) (start true))
  = Throw "page.evaluate: Execution context was destroyed"%string.
Proof.
  split; [intros strat [<-|[]]; vm_compute; reflexivity|].
  vm_compute. repeat split.
Qed.

(** C9 on a shadow host whose shadow root holds an email input (handle 7)
    and a button (handle 8), with a driver that accepts the evaluation: the
    script asks for the text of an undefined value, finds nothing, types
    and clicks nothing and answers false; the method answers true. *)
Lemma shadow_form_verdict_discarded_witness :
  let drv := pageDriver shadowFormPage in
  let s := bqlStart 1 in
  let run := Base.handleShadowDomForm (R:=unit) drv 5%nat emailSelector s in
  fst (Base.evaluateShadowForm (R:=bool) drv 5%nat "reader@example.com"
         emailSelector s) = Normal false /\
  fst run = Normal true /\
  trace (snd run)
  = [Asked (EvaluateOn 5%nat ["reader@example.com"%string; emailSelector])
       (Ok tt);
     Asked (InPageShadowRoot 5%nat) (Ok (Some 6%nat));
     Asked (InPageQuerySelector 6%nat "undefined") (Ok None);
     Asked (InPageQuerySelector 6%nat
              ("button[type=" ++ quoted "submit" ++ "], button")%string)
       (Ok (Some 8%nat))].
Proof.
  intros drv s run. split; [reflexivity|].
  destruct (shadow_form_verdict_discarded (R:=unit) drv 5%nat emailSelector s
              (snd (Base.evaluateShadowForm (R:=bool) drv 5%nat
                      "reader@example.com" emailSelector s))
              (Normal false) eq_refl) as [E _].
  unfold run. rewrite E. split; reflexivity.
Defined.

(** C9 with a driver that rejects an evaluation handed two values: the
    method answers false, and nothing is asked in the page. *)
Example shadow_form_rejected :
  let drv := scriptedDriver oneArgument [] shadowFormPage in
  let run := Base.handleShadowDomForm (R:=unit) drv 5%nat emailSelector
               (bqlStart 1) in
  fst run = Normal false /\ length (trace (snd run)) = 1%nat.
Proof. vm_compute. split; reflexivity. Qed.

(** C10 for a call before initialisation. *)
Lemma executeAutomation_never_throws_witness :
  exists r s',
    executeAutomation (R:=unit) (pageDriver emptyPage) (config 3) (start false)
      = (Normal r, s') /\
    success r = false /\ errors r = [notInitializedMessage] /\
    executionTime r = 2%Z.
Proof.
  destruct (executeAutomation_never_throws (R:=unit) (pageDriver emptyPage)
              (config 3) (start false))
    as (r & s' & E & Hr & _ & _ & _ & Hinit & _).
  exists r, s'. split; [exact E|].
  destruct (Hinit eq_refl) as [Hs He]. split; [exact Hs|]. split; [exact He|].
  vm_compute in E. inversion E. reflexivity.
Defined.

Import Pages.

(** * Further properties of the code

    What the methods do on their edges, what they keep and what they never
    do, beyond the properties above. *)

(** Walk the statements of a body, one weakest-precondition rule each; a
    driver call splits into its two outcomes, a callee without a rule is
    unfolded.  [tac] is tried first. *)
Ltac wp_with tac :=
  repeat
    (cbv beta iota;
     first
       [ tac
       | match goal with
         | |- wp (bind _ _) _ _ => apply wp_bind
         | |- wp (ret _) _ _ => apply wp_ret
         | |- wp skip _ _ => apply wp_ret
         | |- wp (return_ _) _ _ => apply wp_return
         | |- wp continue_ _ _ => apply wp_continue
         | |- wp break_ _ _ => apply wp_break
         | |- wp (throw _) _ _ => apply wp_throw
         | |- wp this _ _ => apply wp_this
         | |- wp (update _) _ _ => apply wp_update
         | |- wp (sleep _) _ _ => apply wp_sleep
         | |- wp (mark _) _ _ => apply wp_mark
         | |- wp (tell _ _) _ _ => apply wp_tell; intros ? ? ?
         | |- wp (ask _ _) _ _ => apply wp_ask; intros [?|?] ? ?
         | |- wp (tryCatch _ _) _ _ => apply wp_tryCatch
         | |- wp (tryFinally _ _) _ _ => apply wp_tryFinally
         | |- wp (call _ _) _ _ => apply wp_call
         | |- wp (forOf [] _) _ _ => apply wp_forOf_nil
         | |- wp (if ?b then _ else _) _ _ => destruct b eqn:?
         | |- wp (match ?x with _ => _ end) _ _ => destruct x eqn:?
         | |- wp (let _ := _ in _) _ _ => cbv zeta
         | |- wp (forOf _ _) _ _ => fail 1
         | |- wp ?m _ _ =>
             let h := head_of m in
             lazymatch h with
             | @Selectors.findAllFallbacks => fail
             | @Runner.runBatchFrom => fail
             | @BqlRunner.runTargetsFrom => fail
             | _ => unfold h
             end
         end ]).

Ltac wp_go := wp_with fail.

(** Bring the store of the goal back to a record of its three parts. *)
Ltac tidy := cbv beta iota; cbn [world trace self].

Section Kinds.
Context {S : Type}.

(** A callee that neither returns from its caller nor leaves a loop of
    it. *)
Lemma wp_plain {R A} (m : M S R A) (Q : Completion R A -> S -> Prop) s :
  plain m ->
  (forall a s1, m s = (Normal a, s1) -> Q (Normal a) s1) ->
  (forall e s1, m s = (Throw e, s1) -> Q (Throw e) s1) ->
  wp m Q s.
Proof.
  intros Hp Hn Ht. apply wp_intro. intros c s1 E.
  specialize (Hp s). rewrite E in Hp.
  destruct c; simpl in Hp; try contradiction; auto.
Qed.

(** A loop completes normally, returns or throws: a [break] or a
    [continue] of its body stays inside. *)
Lemma forOf_kinds {R T} (xs : list T) (body : T -> M S R unit) s :
  match fst (forOf xs body s) with
  | Break | Continue => False
  | Normal _ | Return _ | Throw _ => True
  end.
Proof.
  revert s. induction xs as [|x xs IH]; intros s; simpl; auto.
  destruct (body x s) as [[] s1]; simpl; auto; apply IH.
Qed.

End Kinds.

(** ** Invariants of the store *)

Section Keeping.
Context {W X : Type} (J : St W X -> Prop).

Lemma keeps_ret {R A} (a : A) : keeps J (ret (S:=St W X) (R:=R) a).
Proof. intros s H; exact H. Qed.

Lemma keeps_return {R A} (r : R) : keeps J (return_ (S:=St W X) (A:=A) r).
Proof. intros s H; exact H. Qed.

Lemma keeps_continue {R A} : keeps J (continue_ (S:=St W X) (R:=R) (A:=A)).
Proof. intros s H; exact H. Qed.

Lemma keeps_break {R A} : keeps J (break_ (S:=St W X) (R:=R) (A:=A)).
Proof. intros s H; exact H. Qed.

Lemma keeps_throw {R A} (e : Exn) :
  keeps J (throw (S:=St W X) (R:=R) (A:=A) e).
Proof. intros s H; exact H. Qed.

Lemma keeps_this {R} : keeps J (this (W:=W) (X:=X) (R:=R)).
Proof. intros s H; exact H. Qed.

Lemma keeps_bind {R A B} (m : M (St W X) R A) (k : A -> M (St W X) R B) :
  keeps J m -> (forall a, keeps J (k a)) -> keeps J (bind m k).
Proof.
  intros Hm Hk s H. unfold bind. specialize (Hm s H).
  destruct (m s) as [[] s1]; simpl in *; auto. apply Hk, Hm.
Qed.

Lemma keeps_tryCatch {R A} (body : M (St W X) R A) h :
  keeps J body -> (forall e, keeps J (h e)) -> keeps J (tryCatch body h).
Proof.
  intros Hb Hh s H. unfold tryCatch. specialize (Hb s H).
  destruct (body s) as [[] s1]; simpl in *; auto. apply Hh, Hb.
Qed.

Lemma keeps_tryFinally {R A} (body : M (St W X) R A) fin :
  keeps J body -> keeps J fin -> keeps J (tryFinally body fin).
Proof.
  intros Hb Hf s H. unfold tryFinally. specialize (Hb s H).
  destruct (body s) as [c s1]. specialize (Hf s1 Hb).
  destruct (fin s1) as [[] s2]; simpl in *; auto.
Qed.

Lemma keeps_forOf {R T} (xs : list T) (body : T -> M (St W X) R unit) :
  (forall x, keeps J (body x)) -> keeps J (forOf xs body).
Proof.
  intros Hb. induction xs as [|x xs IH]; intros s H; simpl; [exact H|].
  specialize (Hb x s H).
  destruct (body x s) as [[] s1]; simpl in *; auto; apply IH, Hb.
Qed.

Lemma keeps_call {R R'} (d : R) (body : M (St W X) R unit) :
  keeps J body -> keeps J (call (R':=R') d body).
Proof.
  intros Hb s H. unfold call. specialize (Hb s H).
  destruct (body s) as [[] s1]; simpl in *; auto.
Qed.

Lemma keeps_ask (drv : Driver W) {R A} (c : Call A) :
  (forall s r w', J s -> J (mkSt w' (trace s ++ [Asked c r]) (self s))) ->
  keeps J (ask drv (X:=X) (R:=R) c).
Proof.
  intros Hc s H. unfold ask.
  destruct (answer drv c (world s)) as [r w'].
  specialize (Hc s r w' H). destruct r; exact Hc.
Qed.

Lemma keeps_tell (drv : Driver W) {R A} (o : Query A) :
  (forall s a w', J s -> J (mkSt w' (trace s ++ [Observed o a]) (self s))) ->
  keeps J (tell drv (X:=X) (R:=R) o).
Proof.
  intros Ho s H. unfold tell.
  destruct (observe drv o (world s)) as [a w']. apply Ho, H.
Qed.

Lemma keeps_sleep {R} (ms : Z) :
  (forall s, J s -> J (emit (Slept ms) s)) ->
  keeps J (sleep (W:=W) (X:=X) (R:=R) ms).
Proof. intros H s Hs. apply H, Hs. Qed.

Lemma keeps_mark {R} (p : Phase) :
  (forall s, J s -> J (emit (Mark p) s)) ->
  keeps J (mark (W:=W) (X:=X) (R:=R) p).
Proof. intros H s Hs. apply H, Hs. Qed.

Lemma keeps_update {R} (f : X -> X) :
  (forall s, J s -> J (mkSt (world s) (trace s) (f (self s)))) ->
  keeps J (update (W:=W) (R:=R) f).
Proof. intros H s Hs. apply H, Hs. Qed.

End Keeping.

(** Break a body into its statements, as [steps_with] does. *)
Ltac keeps_with tac :=
  repeat first
    [ tac
    | match goal with
      | |- keeps _ (ret _) => apply keeps_ret
      | |- keeps _ skip => apply keeps_ret
      | |- keeps _ (return_ _) => apply keeps_return
      | |- keeps _ continue_ => apply keeps_continue
      | |- keeps _ break_ => apply keeps_break
      | |- keeps _ (throw _) => apply keeps_throw
      | |- keeps _ this => apply keeps_this
      | |- keeps _ (bind _ _) => apply keeps_bind
      | |- keeps _ (tryCatch _ _) => apply keeps_tryCatch
      | |- keeps _ (tryFinally _ _) => apply keeps_tryFinally
      | |- keeps _ (forOf _ _) => apply keeps_forOf
      | |- keeps _ (call _ _) => apply keeps_call
      | |- keeps _ (ask _ _) => apply keeps_ask
      | |- keeps _ (tell _ _) => apply keeps_tell
      | |- keeps _ (sleep _) => apply keeps_sleep
      | |- keeps _ (mark _) => apply keeps_mark
      | |- keeps _ (update _) => apply keeps_update
      | |- forall _, keeps _ _ => intro
      | |- keeps _ (match ?x with _ => _ end) => destruct x
      | |- keeps _ (if ?x then _ else _) => destruct x
      | |- keeps _ (let _ := _ in _) => cbv zeta
      | |- keeps _ ?m =>
          let h := head_of m in
          lazymatch h with
          | @Selectors.findAllFallbacks => fail
          | @Runner.runBatchFrom => fail
          | @BqlRunner.runTargetsFrom => fail
          | _ => unfold h
          end
      end ].

Import Pages.

(** ** automation/selectors.ts *)

Section SelectorEdges.
Context {W X : Type} (drv : Driver W).

Lemma all_shape {R} l (s : St W X) :
  wp (Selectors.all (R:=R) drv l)
    (fun c s' =>
       self s' = self s /\
       match c with
       | Normal ls => exists n, ls = map (nth_match l) (seq 0 n)
       | Throw _ => True
       | _ => False
       end) s.
Proof. wp_go; simpl; eauto. Qed.

Lemma onePattern_cons p ps ls : onePattern ps ls -> onePattern (p :: ps) ls.
Proof.
  intros [->|(sel & n & I & N & E)]; [left; auto|].
  right. exists sel, n. simpl. auto.
Qed.

Lemma onePattern_matches p ps n :
  onePattern (p :: ps) (map (nth_match (locator MainDoc p)) (seq 0 n)).
Proof.
  destruct n as [|n]; [left; reflexivity|].
  right. exists p, (Datatypes.S n). simpl. repeat split; auto. lia.
Qed.

Lemma findAllFallbacks_shape {R} fbs : forall s : St W X,
  wp (Selectors.findAllFallbacks (R:=R) drv fbs)
    (fun c s' => self s' = self s /\
                 exists ls, c = Normal ls /\ onePattern fbs ls) s.
Proof.
  induction fbs as [|fb rest IH]; intros s; simpl.
  - apply wp_ret. split; auto. exists []. split; auto. left; auto.
  - apply wp_bind, wp_tryCatch, wp_bind, wp_ask. intros [n|e] w' _.
    2:{ cbv beta iota. apply wp_ret. cbv beta iota.
        eapply wp_mono; [apply IH|]. simpl.
        intros c s' (Hs & ls & -> & Hl). split; auto.
        exists ls. split; auto. apply onePattern_cons, Hl. }
    cbv beta iota. destruct (0 <? n)%nat.
    + apply wp_bind. eapply wp_mono; [apply all_shape|].
      intros c s1 (Hs & Hc). destruct c; try contradiction; cbv beta iota.
      * destruct Hc as (m & ->). apply wp_ret. cbv beta iota. apply wp_ret.
        split; [exact Hs|]. eexists. split; [reflexivity|].
        apply onePattern_matches.
      * apply wp_ret. cbv beta iota.
        eapply wp_mono; [apply IH|]. simpl.
        intros c s' (Hs' & ls & -> & Hl). simpl in Hs. split; [congruence|].
        exists ls. split; auto. apply onePattern_cons, Hl.
    + apply wp_ret. cbv beta iota.
      eapply wp_mono; [apply IH|]. simpl.
      intros c s' (Hs & ls & -> & Hl). split; auto.
      exists ls. split; auto. apply onePattern_cons, Hl.
Qed.

Lemma findAllElements_shape {R} (strategy : SelectorStrategy) (s : St W X) :
  wp (Selectors.findAllElements (R:=R) drv strategy)
    (fun c s' =>
       self s' = self s /\
       exists ls, c = Normal ls /\
         onePattern (primary strategy :: fallbacks strategy) ls) s.
Proof.
  unfold Selectors.findAllElements.
  assert (Rest : forall s1 : St W X, self s1 = self s ->
            wp (Selectors.findAllFallbacks (R:=R) drv (fallbacks strategy))
              (fun c s' =>
                 self s' = self s /\
                 exists ls, c = Normal ls /\
                   onePattern (primary strategy :: fallbacks strategy) ls) s1).
  { intros s1 E1. eapply wp_mono; [apply findAllFallbacks_shape|].
    simpl. intros c s' (Hs & ls & -> & Hl). split; [congruence|].
    exists ls. split; auto. apply onePattern_cons, Hl. }
  apply wp_bind, wp_tryCatch. cbv zeta. apply wp_bind, wp_ask.
  intros [n|e] w' _; cbv beta iota.
  2:{ apply wp_ret. cbv beta iota. apply Rest. reflexivity. }
  destruct (0 <? n)%nat.
  - eapply wp_mono; [apply all_shape|].
    intros c s1 (Hs & Hc). destruct c; try contradiction; cbv beta iota.
    + destruct Hc as (m & ->). destruct m as [|m].
      * simpl. apply Rest. exact Hs.
      * simpl. apply wp_ret. split; [exact Hs|]. eexists. split; eauto.
        apply (onePattern_matches (primary strategy) (fallbacks strategy)
                 (Datatypes.S m)).
    + apply wp_ret. cbv beta iota. apply Rest. exact Hs.
  - apply wp_ret. cbv beta iota. apply Rest. reflexivity.
Qed.

(** X1.  [findAllElements] never raises, whatever the driver answers, and
    leaves the object alone.  What it returns is empty or holds all the
    matches of one single pattern of the strategy, never matches of two
    patterns. *)
Theorem findAllElements_one_pattern {R} (strategy : SelectorStrategy)
    (s : St W X) :
  exists ls s',
    Selectors.findAllElements (R:=R) drv strategy s = (Normal ls, s') /\
    self s' = self s /\
    onePattern (primary strategy :: fallbacks strategy) ls.
Proof.
  pose proof (findAllElements_shape (R:=R) strategy s) as H.
  unfold wp in H.
  destruct (Selectors.findAllElements (R:=R) drv strategy s) as [c s'].
  simpl in H. destruct H as (Hs & ls & -> & Hl). eauto.
Qed.

(** Every wait of [findElement] is for the state and the time the strategy
    asks for. *)
Lemma findElement_waits {R} strategy :
  steps (waits_with (waitStateOf strategy) (timeoutOf strategy)) eq
    (Selectors.findElement (X:=X) (R:=R) drv strategy).
Proof.
  unfold Selectors.findElement. steps_go;
    unfold waits_with, waitStateOf, timeoutOf; simpl; auto.
Qed.

Lemma findInIframes_waits {R} strategy :
  steps (waits_with (waitStateOf strategy) 5000%Z) eq
    (Selectors.findInIframes (X:=X) (R:=R) drv strategy).
Proof.
  unfold Selectors.findInIframes. steps_go;
    unfold waits_with, waitStateOf; simpl; auto.
Qed.

(** X2.  The time a lookup waits.  [findElement] waits for every pattern as
    long as the strategy says ([timeout], 5000 ms when it gives none);
    [findInIframes] waits 5000 ms for every pattern whatever the strategy
    says.  Both wait for the state the strategy names. *)
Theorem frame_lookup_ignores_timeout {R} (strategy : SelectorStrategy)
    (s : St W X) :
  (exists d,
      trace (snd (Selectors.findElement (R:=R) drv strategy s)) = trace s ++ d /\
      Forall (waits_with (waitStateOf strategy) (timeoutOf strategy)) d) /\
  (exists d,
      trace (snd (Selectors.findInIframes (R:=R) drv strategy s))
      = trace s ++ d /\
      Forall (waits_with (waitStateOf strategy) 5000%Z) d).
Proof.
  split.
  - destruct (findElement_waits (R:=R) strategy s) as [G _]. exact G.
  - destruct (findInIframes_waits (R:=R) strategy s) as [G _]. exact G.
Qed.

End SelectorEdges.

Section FrameEnumeration.
Context {W X : Type} (drv : Driver W).

(** X3.  What [findInIframes] does with errors.  The frames are counted
    outside any handler: when that count rejects, the lookup raises the same
    exception after this one call.  Once the frames are counted, nothing
    that happens inside a frame makes it raise.  On a page without frames
    it answers none after the count alone. *)
Theorem findInIframes_enumeration {R} (strategy : SelectorStrategy)
    (s : St W X) :
  let count := Count (locator MainDoc "iframe") in
  (forall e w',
      answer drv count (world s) = (Err e, w') ->
      Selectors.findInIframes (R:=R) drv strategy s
      = (Throw e, mkSt w' (trace s ++ [Asked count (Err e)]) (self s))) /\
  (forall w',
      answer drv count (world s) = (Ok 0%nat, w') ->
      Selectors.findInIframes (R:=R) drv strategy s
      = (Normal None,
         mkSt w' (trace s ++ [Asked count (Ok 0%nat)]) (self s))) /\
  (forall n w',
      answer drv count (world s) = (Ok n, w') ->
      exists r s', Selectors.findInIframes (R:=R) drv strategy s
                   = (Normal r, s')).
Proof.
  intros count. unfold count. repeat split.
  - intros e w' E. unfold Selectors.findInIframes, Selectors.all, call.
    unfold bind at 1. unfold bind at 1. unfold ask. rewrite E. reflexivity.
  - intros w' E. unfold Selectors.findInIframes, Selectors.all, call.
    unfold bind at 1. unfold bind at 1. unfold ask. rewrite E. reflexivity.
  - intros n w' E. unfold Selectors.findInIframes, Selectors.all, call.
    unfold bind at 1. unfold bind at 1. unfold ask. rewrite E. simpl.
    unfold bind at 1.
    match goal with
    | |- context [forOf ?xs ?body ?st] =>
        assert (Q : quietC (fst (forOf xs body st)))
          by (apply quiet_forOf; intros x; apply quiet_tryCatch;
              intros e0 s0; exact I);
        pose proof (forOf_kinds xs body st) as K;
        destruct (forOf xs body st) as [[] s1]
    end; simpl in *; try contradiction; eauto.
Qed.

End FrameEnumeration.

(** ** automation/diagnostics.ts *)

Section DiagnosticEdges.
Context {W X : Type} (drv : Driver W).

(** X4.  [collectDiagnostics] never raises and leaves the object alone.
    A probe that rejects ends the collection: the fields read so far are
    kept, the others stay at their defaults.  So when the title cannot be
    read the record is all defaults, and when the frames cannot be counted
    it holds the title and nothing else. *)
Theorem collectDiagnostics_partial {R} (s : St W X) :
  (exists d s',
      Diagnostics.collectDiagnostics (R:=R) drv s = (Normal d, s') /\
      self s' = self s) /\
  (forall e w',
      answer drv Title (world s) = (Err e, w') ->
      Diagnostics.collectDiagnostics (R:=R) drv s
      = (Normal emptyDiagnostics,
         mkSt w' (trace s ++ [Asked Title (Err e)]) (self s))) /\
  (forall title w1 e w2,
      answer drv Title (world s) = (Ok title, w1) ->
      answer drv (Count (locator MainDoc "iframe")) w1 = (Err e, w2) ->
      Diagnostics.collectDiagnostics (R:=R) drv s
      = (Normal (mkDiagnosticInfo title false 0 false false false),
         mkSt w2
           (trace s ++ [Asked Title (Ok title);
                        Asked (Count (locator MainDoc "iframe")) (Err e)])
           (self s))).
Proof.
  repeat split.
  - destruct (collectDiagnostics_total drv (R:=R) s) as (d & s' & E).
    exists d, s'. split; [exact E|].
    destruct (collectDiagnostics_steps drv (R:=R) s) as [_ K].
    rewrite E in K. simpl in K. symmetry. exact K.
  - intros e w' E. unfold Diagnostics.collectDiagnostics, call.
    unfold bind at 1. unfold Diagnostics.caught at 1.
    unfold tryCatch, bind at 1, ask. rewrite E. reflexivity.
  - intros title w1 e w2 E1 E2.
    unfold Diagnostics.collectDiagnostics, call.
    unfold bind at 1. unfold Diagnostics.caught at 1.
    unfold tryCatch, bind at 1, ask. rewrite E1. simpl.
    unfold bind at 1. unfold Diagnostics.caught at 1.
    unfold tryCatch, bind at 1, ask. simpl. rewrite E2. simpl.
    rewrite <- app_assoc. reflexivity.
Qed.

(** X5.  [detectActiveModal] never raises.  It answers true exactly when
    the last thing the driver said is that one of the modal patterns is
    visible; it answers false after asking about all seven patterns without
    a single such answer, a pattern whose check rejects counting as not
    visible. *)
Theorem detectActiveModal_exact {R} (s : St W X) :
  exists b s' d,
    Diagnostics.detectActiveModal (R:=R) drv s = (Normal b, s') /\
    trace s' = trace s ++ d /\ self s' = self s /\
    (b = true -> exists pre l, d = pre ++ [Asked (IsVisible l) (Ok true)]) /\
    (b = false ->
     length d = 7%nat /\ Forall (fun ev => ~ positive_probe ev) d).
Proof.
  assert (H : wp (Diagnostics.detectActiveModal (R:=R) drv)
                (fun c s' =>
                   exists b d,
                     c = Normal b /\
                     trace s' = trace s ++ d /\ self s' = self s /\
                     (b = true ->
                      exists pre l, d = pre ++ [Asked (IsVisible l) (Ok true)]) /\
                     (b = false ->
                      length d = 7%nat /\
                      Forall (fun ev => ~ positive_probe ev) d)) s).
  { unfold Diagnostics.detectActiveModal. apply wp_call, wp_bind.
    match goal with
    | |- wp (forOf _ ?body) _ _ =>
        assert (L : forall xs (s0 : St W X),
                   wp (forOf xs body)
                     (fun c s' =>
                        exists d,
                          trace s' = trace s0 ++ d /\ self s' = self s0 /\
                          ((c = Return true /\
                            exists pre l,
                              d = pre ++ [Asked (IsVisible l) (Ok true)]) \/
                           (c = Normal tt /\ length d = length xs /\
                            Forall (fun ev => ~ positive_probe ev) d))) s0)
    end.
    { induction xs as [|x xs IH]; intros s0.
      - apply wp_forOf_nil. exists []. rewrite app_nil_r.
        split; [reflexivity|]. split; [reflexivity|]. right.
        split; [reflexivity|]. split; [reflexivity|]. constructor.
      - apply wp_forOf_cons, wp_tryCatch. cbv zeta.
        apply wp_bind, wp_ask. intros [[|]|e] w' _; cbv beta iota.
        + apply wp_return. eexists. simpl. repeat split; eauto.
          left. split; auto. exists [], (first (locator MainDoc x)).
          reflexivity.
        + apply wp_ret. eapply wp_mono; [apply IH|]. simpl.
          intros c s' (d & T & Sf & H). eexists (_ :: d).
          split; [rewrite T, <- app_assoc; reflexivity|]. split; auto.
          destruct H as [[-> (pre & l & ->)]|(-> & L & F)].
          * left. split; auto. eexists (_ :: pre), l. reflexivity.
          * right. repeat split; simpl; auto. constructor; auto.
            simpl. intros H; discriminate H.
        + apply wp_continue. eapply wp_mono; [apply IH|]. simpl.
          intros c s' (d & T & Sf & H). eexists (_ :: d).
          split; [rewrite T, <- app_assoc; reflexivity|]. split; auto.
          destruct H as [[-> (pre & l & ->)]|(-> & L & F)].
          * left. split; auto. eexists (_ :: pre), l. reflexivity.
          * right. repeat split; simpl; auto. constructor; auto.
            simpl. intros H; discriminate H. }
    eapply wp_mono; [apply L|]. simpl.
    intros c s' (d & T & Sf & [[-> P]|(-> & Len & F)]).
    - exists true, d. split; [reflexivity|]. split; [exact T|].
      split; [exact Sf|]. split; [intros _; exact P|].
      intros H; discriminate H.
    - apply wp_return. exists false, d. split; [reflexivity|].
      split; [exact T|]. split; [exact Sf|].
      split; [intros H; discriminate H|]. intros _. split; auto. }
  unfold wp in H.
  destruct (Diagnostics.detectActiveModal (R:=R) drv s) as [c s'].
  simpl in H. destruct H as (b & d & -> & T & Sf & Ht & Hf).
  exists b, s', d. auto.
Qed.

End DiagnosticEdges.

Import Pages.

(** ** automation/newsletter-automation.ts *)

(** The trace of a store built from [s] by appending events, as [trace s]
    followed by one list. *)
Ltac trace_tail :=
  cbn [trace world self emit];
  repeat rewrite <- app_assoc; cbn [app]; reflexivity.

Section Checkboxes.
Context {W : Type} (drv : Driver W).

(** X6.  The clicks one checkbox gets.  [tickCheckbox] first asks whether
    the box is ticked.  Unless the answer is that it is not, nothing else is
    asked of the driver: a ticked box is never clicked, and neither is one
    whose state cannot be read.  Otherwise at most two clicks land, and at
    most one as long as no pause is rejected: on the label, or, when that
    click is rejected or there is no id, on the box itself.  The second
    click comes when the label was clicked and the pause after it is
    rejected: the handler of the label click takes that for a failed click
    and the box is clicked too. *)
Theorem tickCheckbox_clicks {R} (checkbox : Locator)
    (s : St W Newsletter.Fields) :
  exists r rest,
    trace (snd (Newsletter.tickCheckbox (R:=R) drv checkbox s))
    = trace s ++ Asked (IsChecked checkbox) r :: rest /\
    (r <> Ok false -> rest = []) /\
    (landedClicks rest <= 2)%nat /\
    (Forall pause_kept rest -> (landedClicks rest <= 1)%nat).
Proof.
  assert (H : wp (Newsletter.tickCheckbox (R:=R) drv checkbox)
                (fun _ s' =>
                   exists r rest,
                     trace s' = trace s ++ Asked (IsChecked checkbox) r :: rest /\
                     (r <> Ok false -> rest = []) /\
                     (landedClicks rest <= 2)%nat /\
                     (Forall pause_kept rest -> (landedClicks rest <= 1)%nat)) s).
  { unfold Newsletter.tickCheckbox.
    wp_go;
      repeat match goal with
             | H : negb ?a = _ |- _ =>
                 is_var a; destruct a; simpl in H; try discriminate H; clear H
             end;
      (eexists; eexists; split; [trace_tail|]; split;
       [ let Hne := fresh "Hne" in
         intros Hne; try reflexivity; exfalso; apply Hne; reflexivity
       | split;
         [ simpl; lia
         | let HF := fresh "HF" in
           intros HF; simpl;
           first
             [ lia
             | exfalso; rewrite Forall_forall in HF;
               match goal with
               | e : Exn |- _ =>
                   apply (HF (Asked (WaitForTimeout 200) (Err e)));
                   simpl; tauto
               end ] ] ]). }
  exact H.
Qed.

Lemma findAllFallbacks_noClick {R} fbs :
  steps noClick eq
    (Selectors.findAllFallbacks (X:=Newsletter.Fields) (R:=R) drv fbs).
Proof. induction fbs as [|fb rest IH]; simpl; steps_go; simpl; auto. Qed.

Lemma findAllElements_noClick {R} strategy :
  steps noClick eq
    (Selectors.findAllElements (X:=Newsletter.Fields) (R:=R) drv strategy).
Proof.
  unfold Selectors.findAllElements.
  steps_with ltac:(apply findAllFallbacks_noClick); simpl; auto.
Qed.

(** X7.  On a page whose checkboxes are all ticked, [handleCheckboxes]
    completes without clicking anything and without touching the result
    object. *)
Theorem handleCheckboxes_leaves_ticked {R} (s : St W Newsletter.Fields) :
  all_checked drv ->
  exists s' d,
    Newsletter.handleCheckboxes (R:=R) drv s = (Normal tt, s') /\
    trace s' = trace s ++ d /\ Forall noClick d /\ self s' = self s.
Proof.
  intros Hall.
  assert (Tick : forall checkbox (s0 s1 : St W Newsletter.Fields),
             grows noClick eq s0 s1 ->
             wp (Newsletter.tickCheckbox (R:=unit) drv checkbox)
               (fun c s' => c = Normal tt /\ grows noClick eq s0 s') s1).
  { intros checkbox s0 s1 G. unfold Newsletter.tickCheckbox.
    apply wp_bind, wp_ask. intros r w' E.
    pose proof (Hall checkbox (world s1)) as Ha. rewrite E in Ha.
    simpl in Ha. subst r. cbv beta iota. simpl. apply wp_ret.
    split; auto. apply grows_asked; auto; [apply _|exact I]. }
  assert (H : wp (Newsletter.handleCheckboxes (R:=R) drv)
                (fun c s' => c = Normal tt /\ grows noClick eq s s') s).
  { unfold Newsletter.handleCheckboxes. apply wp_call, wp_bind, wp_this.
    cbv beta iota. apply wp_bind.
    destruct (negb _ || negb _).
    { apply wp_return. split; auto. apply grows_refl, _. }
    apply wp_ret. cbv beta iota.
    apply (wp_forOf_inv (fun s1 => grows noClick eq s s1));
      [ | auto | apply grows_refl, _ ].
    intros strategy s1 _ G1. apply wp_tryCatch, wp_bind.
    apply wp_intro. intros c s2 E.
    pose proof (findAllElements_noClick (R:=unit) strategy s1) as G2.
    pose proof (findAllElements_shape drv (R:=unit) strategy s1) as Sh.
    unfold wp in Sh. rewrite E in G2, Sh. simpl in G2, Sh.
    destruct Sh as (_ & ls & -> & _).
    pose proof (grows_trans _ _ _ _ _ G1 G2) as G.
    cbv beta iota.
    apply (wp_forOf_inv (fun s3 => grows noClick eq s s3)); auto.
    intros checkbox s3 _ G3.
    eapply wp_mono; [apply Tick; exact G3|].
    intros c s4 (-> & G4). exact G4. }
  unfold wp in H.
  destruct (Newsletter.handleCheckboxes (R:=R) drv s) as [c s'].
  simpl in H. destruct H as (-> & (d & T & F) & K).
  exists s', d. repeat split; auto.
Qed.

End Checkboxes.

#[export] Instance browser_kept_PreOrder : PreOrder browser_kept.
Proof.
  split; [intros o; reflexivity|].
  intros a b c H1 H2. unfold browser_kept in *. congruence.
Qed.

Section Confinement.
Context {W : Type} (drv : Driver W).

Lemma findAllFallbacks_counts {R} (P : Event -> Prop) fbs :
  (forall l r, P (Asked (Count l) r)) ->
  steps P eq
    (Selectors.findAllFallbacks (X:=Newsletter.Fields) (R:=R) drv fbs).
Proof.
  intros HP. induction fbs as [|fb rest IH]; simpl; steps_go; auto.
Qed.

Lemma executeAutomation_stays {R} (cfg : AutomationConfig) :
  steps (confined cfg) browser_kept
    (Newsletter.executeAutomation (R:=R) drv cfg).
Proof.
  unfold Newsletter.executeAutomation.
  steps_with
    ltac:(eapply steps_weaken;
          [| |apply (findAllFallbacks_counts (confined cfg))];
          [auto|intros ? ? <-; reflexivity|intros; exact I]);
    try solve [ exact I | reflexivity | simpl; auto ].
Qed.

(** X8.  What [executeAutomation] asks of the driver stays within its
    configuration: every navigation goes to [config.url] with
    [config.timeout], every text typed into the page is [config.email], and
    no browser is started or closed.  The automation keeps the browser
    reference it had. *)
Theorem executeAutomation_confined {R} (cfg : AutomationConfig)
    (s : St W Newsletter.Fields) :
  exists d,
    trace (snd (Newsletter.executeAutomation (R:=R) drv cfg s))
    = trace s ++ d /\
    Forall (confined cfg) d /\
    Newsletter.f_browser
      (self (snd (Newsletter.executeAutomation (R:=R) drv cfg s)))
    = Newsletter.f_browser (self s).
Proof.
  destruct (executeAutomation_stays (R:=R) cfg s) as ((d & T & F) & K).
  eauto.
Qed.

(** [cleanup] asks for the browser to be closed when the automation holds
    one, and does nothing else. *)
Lemma cleanup_spec {R} (s : St W Newsletter.Fields) :
  wp (Newsletter.cleanup (R:=R) drv)
    (fun c s' =>
       self s' = self s /\
       if Newsletter.f_browser (self s)
       then exists r, trace s' = trace s ++ [Asked CloseBrowser r] /\
                      c = match r with Ok _ => Normal tt | Err e => Throw e end
       else trace s' = trace s /\ c = Normal tt) s.
Proof.
  unfold Newsletter.cleanup. apply wp_call, wp_bind, wp_this.
  destruct (Newsletter.f_browser (self s)).
  - apply wp_ask. intros [[]|e] w' _; simpl; eauto.
  - apply wp_ret. auto.
Qed.

End Confinement.

Section Sites.
Context {W : Type} (drv : Driver W).

(** The [finally] of [runSingleSite], after a run that added [d1] to the
    trace and completed as [c]. *)
Lemma closing {R} site (s s1 : St W Newsletter.Fields) d1
    (c : Completion R AutomationResult) :
  trace s1 = trace s ++ d1 ->
  (forall w, answer drv (Launch true) (world s) = (Ok tt, w) ->
             Newsletter.f_browser (self s1) = true) ->
  match c with
  | Normal r => url r = site /\ accounted r
  | Throw e => exists call, lifecycle_call call /\ In (Asked call (Err e)) d1
  | _ => False
  end ->
  wp (Newsletter.cleanup (R:=R) drv)
    (fun cf s2 =>
       (cf = Normal tt /\ site_post drv site s c s2) \/
       (exists e0, cf = Throw e0 /\
                   site_post drv site s (R:=R) (Throw e0) s2))
    s1.
Proof.
  intros T HL Hc. eapply wp_mono; [apply cleanup_spec|].
  intros cf s2 (Hself & H).
  destruct (Newsletter.f_browser (self s1)) eqn:B.
  - destruct H as (r & T2 & ->). destruct r as [[]|e0].
    + left. split; auto. exists (d1 ++ [Asked CloseBrowser (Ok tt)]).
      split; [rewrite T2, T, app_assoc; reflexivity|].
      split; [intros w Hw; rewrite Hself; exact B|].
      split; [eauto|].
      destruct c; auto. destruct Hc as (call & L & I).
      exists call. split; auto. apply in_or_app. auto.
    + right. exists e0. split; auto.
      exists (d1 ++ [Asked CloseBrowser (Err e0)]).
      split; [rewrite T2, T, app_assoc; reflexivity|].
      split; [intros w Hw; rewrite Hself; exact B|].
      split; [eauto|].
      exists CloseBrowser. split; [unfold lifecycle_call; tauto|].
      apply in_or_app. right. left. reflexivity.
  - destruct H as (T2 & ->). left. split; auto. exists d1.
    split; [congruence|].
    split; [intros w Hw; rewrite Hself; eauto|].
    split; [rewrite Hself, B; discriminate|].
    exact Hc.
Qed.

Lemma runSingleSite_spec {R} site email (s : St W Newsletter.Fields) :
  wp (Runner.runSingleSite (R:=R) drv site email) (site_post drv site s) s.
Proof.
  unfold Runner.runSingleSite. apply wp_call. cbv zeta.
  apply wp_tryFinally, wp_bind. unfold Newsletter.initialize.
  wp_with ltac:(idtac; match goal with
                | |- wp (Newsletter.executeAutomation _ _) _ _ => fail 2
                | |- wp (Newsletter.cleanup _) _ _ => fail 2
                end).
  all: cbn [world trace self Newsletter.f_browser].
  2-5: eapply wp_mono;
    [ eapply (closing site s _ _ (Throw e));
      [ repeat rewrite <- app_assoc; reflexivity
      | intros w Hw; first [reflexivity | congruence]
      | eexists; split;
        [ | simpl; repeat first [left; reflexivity | right] ];
        unfold lifecycle_call; tauto ]
    | intros cf s2 [(-> & Hp)|(e0 & -> & Hp)]; exact Hp ].
  apply wp_intro. intros c s1 E.
  match type of E with
  | Newsletter.executeAutomation _ ?cfg ?s0 = _ =>
      pose proof (wp_run _ _ _ _ _
                    (executeAutomation_spec drv (R:=AutomationResult) cfg s0) E)
        as (r & -> & _ & Hu & _ & Ha & _);
      pose proof (executeAutomation_stays drv (R:=AutomationResult) cfg s0)
        as G;
      unfold steps in G; rewrite E in G;
      destruct G as ((d & T & _) & K)
  end.
  cbn [world trace self snd Newsletter.f_browser] in T, K.
  apply wp_return.
  eapply wp_mono;
    [ eapply (closing site s s1 _ (Normal r));
      [ rewrite T; repeat rewrite <- app_assoc; reflexivity
      | intros w Hw; exact K
      | split; [exact Hu|exact Ha] ]
    | intros cf s2 [(-> & Hp)|(e0 & -> & Hp)]; exact Hp ].
Qed.

(** X9.  [runSingleSite] does not leave a browser running: when the launch
    succeeds, the last thing the call asks of the driver is to close the
    browser, whatever happened in between and whether the call returns or
    raises. *)
Theorem runSingleSite_closes_browser {R} site email
    (s : St W Newsletter.Fields) w :
  answer drv (Launch true) (world s) = (Ok tt, w) ->
  exists d r,
    trace (snd (Runner.runSingleSite (R:=R) drv site email s))
    = trace s ++ d ++ [Asked CloseBrowser r].
Proof.
  intros Hw. pose proof (runSingleSite_spec (R:=R) site email s) as H.
  unfold wp in H. destruct H as (d & T & HL & HC & _).
  destruct (HC (HL w Hw)) as (d0 & r & ->). eauto.
Qed.

(** X10.  [runSingleSite] either returns a result or raises.  A result is
    for the site that was asked for, and when it reports a failure it lists
    at least one error.  An exception is always the rejection of one of the
    calls that start or stop the browser: what goes wrong on the page ends
    up in the result. *)
Theorem runSingleSite_outcome {R} site email (s : St W Newsletter.Fields) :
  match fst (Runner.runSingleSite (R:=R) drv site email s) with
  | Normal r => url r = site /\ (success r = false -> errors r <> [])
  | Throw e =>
      exists call d,
        lifecycle_call call /\
        trace (snd (Runner.runSingleSite (R:=R) drv site email s))
        = trace s ++ d /\
        In (Asked call (Err e)) d
  | _ => False
  end.
Proof.
  pose proof (runSingleSite_spec (R:=R) site email s) as H.
  unfold wp in H. destruct H as (d & T & _ & _ & Hc).
  destruct (fst (Runner.runSingleSite (R:=R) drv site email s)); auto.
  destruct Hc as (call & L & I). eauto.
Qed.

Lemma runBatchFrom_spec {R} sites :
  forall results (s : St W Newsletter.Fields),
    wp (Runner.runBatchFrom (R:=R) drv sites results)
      (fun c _ =>
         exists new,
           c = Normal (results ++ new) /\
           map url new = map fst sites /\ Forall accounted new) s.
Proof.
  induction sites as [|[site email] rest IH]; intros results s; simpl.
  - apply wp_ret. exists []. rewrite app_nil_r. auto.
  - assert (Next : forall r s1, url r = site -> accounted r ->
              wp (Runner.runBatchFrom (R:=R) drv rest (results ++ [r]))
                (fun c _ =>
                   exists new,
                     c = Normal (results ++ new) /\
                     map url new = site :: map fst rest /\
                     Forall accounted new) s1).
    { intros r s1 Hu Ha. eapply wp_mono; [apply IH|].
      intros c _ (new & -> & Hm & Hf). exists (r :: new).
      rewrite <- app_assoc. simpl. split; auto. split; [congruence|auto]. }
    apply wp_bind, wp_tryCatch, wp_bind.
    eapply wp_mono; [apply runSingleSite_spec|].
    intros c s1 (d & _ & _ & _ & Hc).
    destruct c as [r| | | |e]; try contradiction.
    + destruct Hc as (Hu & Ha).
      apply wp_bind, wp_sleep, wp_ret. cbv beta iota. apply Next; auto.
    + apply wp_bind, wp_tell. intros stamp w' _. cbv zeta.
      apply wp_ret. cbv beta iota. apply Next; [reflexivity|].
      unfold accounted. simpl. discriminate.
Qed.

(** X11.  [runBatch] never raises and answers for every site, in order: the
    k-th result carries the address of the k-th site, also when the run of
    that site raised, and every result that reports a failure lists at least
    one error. *)
Theorem runBatch_results {R} sites (s : St W Newsletter.Fields) :
  exists rs s',
    Runner.runBatch (R:=R) drv sites s = (Normal rs, s') /\
    map url rs = map fst sites /\
    Forall (fun r => success r = false -> errors r <> []) rs.
Proof.
  assert (H : wp (Runner.runBatch (R:=R) drv sites)
                (fun c _ => exists rs, c = Normal rs /\
                                       map url rs = map fst sites /\
                                       Forall accounted rs) s).
  { unfold Runner.runBatch. apply wp_call, wp_bind.
    eapply wp_mono; [apply runBatchFrom_spec|].
    intros c s1 (new & -> & Hm & Hf). apply wp_return. eauto. }
  unfold wp in H.
  destruct (Runner.runBatch (R:=R) drv sites s) as [c s'].
  simpl in H. destruct H as (rs & -> & Hm & Hf). eauto.
Qed.

End Sites.

Import Pages.

(** ** src/base.ts *)

#[export] Instance report_kept_PreOrder : PreOrder report_kept.
Proof.
  split.
  - intros o. unfold report_kept. tauto.
  - intros a b c (A1 & A2 & A3 & A4) (B1 & B2 & B3 & B4).
    unfold report_kept. repeat split; congruence.
Qed.

Section BaseFacts.
Context {W : Type} (drv : Driver W).

Ltac report :=
  steps_go;
  try solve [ exact I | unfold report_kept; simpl; tauto ].

Lemma executeMainFrameStrategy_steps {R} strategy :
  steps (fun _ => True) report_kept
    (Base.executeMainFrameStrategy (R:=R) drv strategy).
Proof. unfold Base.executeMainFrameStrategy. report. Qed.

Lemma executeIframeStrategy_steps {R} strategy :
  steps (fun _ => True) report_kept
    (Base.executeIframeStrategy (R:=R) drv strategy).
Proof. unfold Base.executeIframeStrategy. report. Qed.

Lemma executeShadowDomStrategy_steps {R} strategy :
  steps (fun _ => True) report_kept
    (Base.executeShadowDomStrategy (R:=R) drv strategy).
Proof. unfold Base.executeShadowDomStrategy. report. Qed.

Lemma executeFormStrategies_spec {R} (s : St W Base.Fields) :
  wp (Base.executeFormStrategies (R:=R) drv) (forms_post s) s.
Proof.
  unfold Base.executeFormStrategies. apply wp_call. cbv zeta. apply wp_bind.
  match goal with
  | |- wp (forOf _ ?body) _ _ =>
      assert (L : forall rest tried (s1 : St W Base.Fields),
                 strategyNames = tried ++ map Base.name rest ->
                 Base.config (self s1) = Base.config (self s) ->
                 Base.errorMessage (Base.diagnostics (self s1))
                 = Base.errorMessage (Base.diagnostics (self s)) ->
                 Base.successfulStrategy (Base.diagnostics (self s1))
                 = Base.successfulStrategy (Base.diagnostics (self s)) ->
                 Base.formStrategiesAttempted (Base.diagnostics (self s1))
                 = Base.formStrategiesAttempted (Base.diagnostics (self s))
                     ++ tried ->
                 wp (forOf rest body)
                   (fun c s' =>
                      match c with
                      | Normal _ => forms_post s (R:=R) (Normal false) s'
                      | Return r => forms_post s (R:=R) (Normal r) s'
                      | _ => False
                      end) s1)
  end.
  { induction rest as [|strategy rest IH]; intros tried s1 Hn Hc He Hs Ha.
    - apply wp_forOf_nil. split; [exact Hc|]. split; [exact He|].
      exists tried, []. auto.
    - assert (Next : forall s2 : St W Base.Fields,
                report_kept
                  (Base.with_diagnostics
                     (Base.push_attempted (Base.name strategy)) (self s1))
                  (self s2) ->
                strategyNames
                = (tried ++ [Base.name strategy]) ++ map Base.name rest /\
                Base.config (self s2) = Base.config (self s) /\
                Base.errorMessage (Base.diagnostics (self s2))
                = Base.errorMessage (Base.diagnostics (self s)) /\
                Base.successfulStrategy (Base.diagnostics (self s2))
                = Base.successfulStrategy (Base.diagnostics (self s)) /\
                Base.formStrategiesAttempted (Base.diagnostics (self s2))
                = Base.formStrategiesAttempted (Base.diagnostics (self s))
                    ++ tried ++ [Base.name strategy]).
      { intros s2 (K1 & K2 & K3 & K4). simpl in K1, K2, K3, K4.
        split; [rewrite <- app_assoc; exact Hn|].
        split; [congruence|]. split; [congruence|]. split; [congruence|].
        rewrite K2, Ha, app_assoc. reflexivity. }
      apply wp_forOf_cons, wp_tryCatch, wp_bind, wp_update, wp_bind.
      eapply (wp_steps (fun _ => True) report_kept).
      { destruct (Base.context strategy);
          [ apply executeMainFrameStrategy_steps
          | apply executeIframeStrategy_steps
          | apply executeShadowDomStrategy_steps ]. }
      { destruct (Base.context strategy); apply call_plain. }
      intros c s2 _ (_ & K) Pc. cbn [self] in K.
      destruct c as [[|]| | | |e]; try contradiction; cbv beta iota.
      + apply wp_bind, wp_update, wp_return. cbv beta iota.
        destruct K as (K1 & K2 & K3 & K4). simpl in K1, K2, K3, K4.
        split; [simpl; congruence|]. split; [simpl; congruence|].
        exists (tried ++ [Base.name strategy]), (map Base.name rest).
        split; [rewrite <- app_assoc; exact Hn|].
        split; [simpl; rewrite K2, Ha, app_assoc; reflexivity|].
        exists tried, (Base.name strategy). split; reflexivity.
      + apply wp_ret.
        destruct (Next s2 K) as (F1 & F2 & F3 & F4 & F5).
        apply (IH _ _ F1 F2 F3 F4 F5).
      + apply wp_ret.
        destruct (Next s2 K) as (F1 & F2 & F3 & F4 & F5).
        apply (IH _ _ F1 F2 F3 F4 F5). }
  eapply wp_mono;
    [apply (L _ []); try reflexivity; rewrite app_nil_r; reflexivity|].
  intros c s' H. destruct c as [[]| | | |]; try contradiction.
  - apply wp_return. exact H.
  - exact H.
Qed.

(** X12.  [executeFormStrategies] never raises.  It appends to
    [formStrategiesAttempted] the names of the strategies it went through,
    in priority order and without gaps.  When it returns true, the last
    name appended is the one stored in [successfulStrategy]; when it
    returns false, it went through all six and [successfulStrategy] is what
    it was. *)
Theorem executeFormStrategies_log {R} (s : St W Base.Fields) :
  exists b s' tried rest,
    Base.executeFormStrategies (R:=R) drv s = (Normal b, s') /\
    strategyNames = tried ++ rest /\
    Base.formStrategiesAttempted (Base.diagnostics (self s'))
    = Base.formStrategiesAttempted (Base.diagnostics (self s)) ++ tried /\
    if b
    then exists before n,
           tried = before ++ [n] /\
           Base.successfulStrategy (Base.diagnostics (self s')) = Some n
    else rest = [] /\
         Base.successfulStrategy (Base.diagnostics (self s'))
         = Base.successfulStrategy (Base.diagnostics (self s)).
Proof.
  pose proof (executeFormStrategies_spec (R:=R) s) as H. unfold wp in H.
  destruct (Base.executeFormStrategies (R:=R) drv s) as [c s'].
  destruct H as (_ & _ & tried & rest & Hn & Ha & Hc). simpl in *.
  destruct c as [b| | | |]; try contradiction.
  exists b, s', tried, rest.
  split; [reflexivity|]. split; [exact Hn|]. split; [exact Ha|].
  destruct b; exact Hc.
Qed.

Lemma forms_post_explained {R} (s s' : St W Base.Fields) :
  forms_post s (R:=R) (Normal true) s' ->
  explained true (Base.diagnostics (self s')).
Proof.
  intros (_ & _ & tried & rest & Hn & _ & before & n & -> & Hs).
  exists n. split; [exact Hs|]. rewrite Hn.
  apply in_or_app. left. apply in_or_app. right. left. reflexivity.
Qed.

(** [executeNewsletterSignup] never raises, and returns true only with the
    successful strategy recorded. *)
Lemma executeNewsletterSignup_spec {R} (s : St W Base.Fields) :
  wp (Base.executeNewsletterSignup (R:=R) drv)
    (fun c s' =>
       match c with
       | Normal b => b = true -> explained true (Base.diagnostics (self s'))
       | _ => False
       end) s.
Proof.
  unfold Base.executeNewsletterSignup.
  apply wp_call, wp_bind, wp_this, wp_bind.
  apply (wp_forOf_inv (fun _ => True)); [|intros; apply wp_return; discriminate|exact I].
  intros attempt s1 _ _. unfold Base.signupAttempt.
  apply wp_bind, wp_mark.
  match goal with
  | |- wp (tryCatch _ ?h) _ _ =>
      assert (Hd : forall e (s2 : St W Base.Fields),
                 wp (h e) (fun c _ => c = Normal tt) s2)
  end.
  { intros e s2. wp_go; reflexivity. }
  apply wp_tryCatch.
  apply wp_mono with
    (Q := fun c s4 =>
            match c with
            | Return r =>
                r = true -> explained true (Base.diagnostics (self s4))
            | _ => True
            end).
  2:{ intros c s4 H. destruct c as [a|r| | |e]; auto.
      - apply wp_return. discriminate.
      - eapply wp_mono; [apply (Hd e)|]. intros c s5 Hc. simpl in Hc.
        subst c. exact I. }
  clear Hd.
  apply wp_bind, wp_update, wp_bind.
  apply wp_plain; [apply call_plain|intros locked s2 _|intros; exact I].
  apply wp_bind.
  apply wp_mono with
    (Q := fun c s3 => match c with Normal _ => True | _ => False end);
    [destruct locked; [apply wp_update|apply wp_ret]; exact I|].
  intros c s3 H. destruct c; try contradiction. clear H.
  apply wp_bind.
  apply wp_plain; [apply call_plain|intros [] s4 _|intros; exact I].
  apply wp_bind. eapply wp_mono; [apply executeFormStrategies_spec|].
  intros c s5 Hp. destruct c as [[|]| | | |];
    try (destruct Hp as (_ & _ & ? & ? & _ & _ & []); fail).
  - apply wp_bind, wp_return. intros _.
    apply (forms_post_explained (R:=bool) s4), Hp.
  - apply wp_bind, wp_ret, wp_bind, wp_this, wp_bind.
    destruct (Base.adaptiveScrolling _).
    + apply wp_plain; [apply call_plain|intros [] s6 _|intros; exact I].
      apply wp_ask. intros [[]|e] ? _; exact I.
    + apply wp_ret, wp_ask. intros [[]|e] ? _; exact I.
Qed.

Lemma explained_kept b (d d' : Base.DiagnosticData) :
  Base.successfulStrategy d' = Base.successfulStrategy d ->
  Base.errorMessage d' = Base.errorMessage d ->
  explained b d -> explained b d'.
Proof.
  intros Hs He. destruct b; simpl.
  - intros (n & H & Hin). exists n. split; [congruence|exact Hin].
  - congruence.
Qed.

(** [cleanup] of src/base.ts leaves the report alone; it raises only when
    closing the browser is rejected. *)
Lemma base_cleanup_spec {R} (s : St W Base.Fields) :
  wp (Base.cleanup (R:=R) drv)
    (fun c s' =>
       Base.successfulStrategy (Base.diagnostics (self s'))
       = Base.successfulStrategy (Base.diagnostics (self s)) /\
       Base.errorMessage (Base.diagnostics (self s'))
       = Base.errorMessage (Base.diagnostics (self s)) /\
       match c with
       | Normal _ => True
       | Throw e => exists pre, trace s' = pre ++ [Asked CloseBrowser (Err e)]
       | _ => False
       end) s.
Proof.
  unfold Base.cleanup. wp_go; cbn [world trace self];
    (split; [reflexivity|]; split; [reflexivity|]); eauto.
Qed.

Lemma base_run_spec {R} (s : St W Base.Fields) :
  wp (Base.run (R:=R) drv)
    (fun c s' =>
       match c with
       | Normal b => explained b (Base.diagnostics (self s'))
       | Throw e => exists pre, trace s' = pre ++ [Asked CloseBrowser (Err e)]
       | _ => False
       end) s.
Proof.
  unfold Base.run. apply wp_call, wp_bind, wp_tell. intros now w' _.
  apply wp_bind, wp_update, wp_tryFinally, wp_tryCatch.
  assert (Fin : forall b (s1 : St W Base.Fields),
             explained b (Base.diagnostics (self s1)) ->
             wp (Base.cleanup (R:=bool) drv)
               (fun cf s2 =>
                  match cf with
                  | Normal _ => explained b (Base.diagnostics (self s2))
                  | Throw e =>
                      exists pre,
                        trace s2 = pre ++ [Asked CloseBrowser (Err e)]
                  | _ => False
                  end) s1).
  { intros b s1 Hb. eapply wp_mono; [apply base_cleanup_spec|].
    intros cf s2 (Hs & He & Hc). destruct cf; try contradiction; auto.
    apply (explained_kept b _ _ Hs He Hb). }
  apply wp_mono with
    (Q := fun c s1 =>
            match c with
            | Return true => explained true (Base.diagnostics (self s1))
            | Throw _ => True
            | _ => False
            end).
  - apply wp_bind.
    apply wp_plain; [apply call_plain|intros [] s1 _|intros; exact I].
    apply wp_bind.
    apply wp_plain; [apply call_plain|intros [] s2 _|intros; exact I].
    apply wp_bind. eapply wp_mono; [apply executeNewsletterSignup_spec|].
    intros c s3 H. destruct c as [[|]| | | |]; try contradiction.
    + apply wp_return. auto.
    + apply wp_throw. exact I.
  - intros c s1 H. destruct c as [a|[|]| | |e]; try contradiction.
    + eapply wp_mono; [apply (Fin true s1 H)|].
      intros cf s2 Hc. destruct cf; try contradiction; exact Hc.
    + apply wp_bind, wp_update, wp_return.
      eapply wp_mono; [apply (Fin false)|].
      * simpl. discriminate.
      * intros cf s2 Hc. destruct cf; try contradiction; exact Hc.
Qed.

Lemma base_run_config {R} :
  steps (fun _ => True)
    (fun o o' : Base.Fields => Base.config o' = Base.config o)
    (Base.run (R:=R) drv).
Proof.
  assert (P : PreOrder
                (fun o o' : Base.Fields => Base.config o' = Base.config o)).
  { split; [intros o; reflexivity|intros a b c H1 H2; congruence]. }
  unfold Base.run. steps_go; try solve [exact I | reflexivity].
Qed.

(** X13.  A run of src/base.ts accounts for its verdict in the diagnostics.
    When [run] returns true, [successfulStrategy] names one of the six form
    strategies; when it returns false, [errorMessage] is set.  [run] raises
    only when closing the browser is rejected, with that rejection: the
    failed close is then the last thing asked of the driver.  The
    configuration is never changed. *)
Theorem base_run_verdict {R} (s : St W Base.Fields) :
  Base.config (self (snd (Base.run (R:=R) drv s))) = Base.config (self s) /\
  match fst (Base.run (R:=R) drv s) with
  | Normal true =>
      exists n,
        Base.successfulStrategy
          (Base.diagnostics (self (snd (Base.run (R:=R) drv s)))) = Some n /\
        In n (map Base.name Base.selectorStrategies)
  | Normal false =>
      Base.errorMessage
        (Base.diagnostics (self (snd (Base.run (R:=R) drv s)))) <> None
  | Throw e =>
      exists pre,
        trace (snd (Base.run (R:=R) drv s))
        = pre ++ [Asked CloseBrowser (Err e)]
  | _ => False
  end.
Proof.
  split; [apply (base_run_config (R:=R) s)|].
  pose proof (base_run_spec (R:=R) s) as H. unfold wp in H.
  destruct (fst (Base.run (R:=R) drv s)) as [[|]| | | |]; exact H.
Qed.

Lemma pageQueries_app a b :
  pageQueries (a ++ b) = (pageQueries a + pageQueries b)%Z.
Proof.
  induction a as [|ev a IH]; cbn [app pageQueries]; [reflexivity|].
  destruct ev as [? c r|? ? ?| |?]; try exact IH.
  destruct c; try exact IH. destruct root; try exact IH.
  rewrite IH. lia.
Qed.

Lemma tallied_event (s0 s : St W Base.Fields) ev w' :
  pageQueries [ev] = 0%Z ->
  tallied s0 s -> tallied s0 (mkSt w' (trace s ++ [ev]) (self s)).
Proof.
  intros H0 (d & T & C & K). exists (d ++ [ev]). simpl.
  split; [rewrite T, app_assoc; reflexivity|].
  split; [rewrite pageQueries_app, H0; lia|exact K].
Qed.

Lemma queryElement_tallied {R} s0 selector :
  keeps (tallied s0) (Base.queryElement (R:=R) drv selector).
Proof.
  intros s (d & T & C & K). unfold Base.queryElement.
  assert (H : wp (Base.queryElement (R:=R) drv selector)
                (fun _ s' => tallied s0 s') s).
  { unfold Base.queryElement. wp_go; cbn [world trace self];
      (eexists (d ++ [_]); simpl;
       split; [rewrite T, app_assoc; reflexivity|];
       split; [rewrite pageQueries_app; simpl; lia|reflexivity]). }
  exact H.
Qed.

Ltac tally :=
  keeps_with ltac:(apply queryElement_tallied);
  try solve
    [ intros; apply tallied_event; [reflexivity|assumption]
    | intros; apply (tallied_event _ _ _ (world _)); [reflexivity|assumption]
    | let dd := fresh "dd" in
      let TT := fresh "TT" in
      let CC := fresh "CC" in
      let KK := fresh "KK" in
      intros ? (dd & TT & CC & KK); exists dd;
      split; [exact TT|]; split; [exact CC|exact KK] ].

Lemma base_run_tallied {R} s0 : keeps (tallied s0) (Base.run (R:=R) drv).
Proof. unfold Base.run. tally. Qed.

(** X14.  The figure [domQueries] of the diagnostics counts the lookups of
    a pattern in the main document, and nothing else: over a run it goes up
    by exactly the number of such lookups that the page was asked for.  The
    lookups inside forms, popups, frames and shadow roots are not
    counted. *)
Theorem domQueries_counts_page_lookups {R} (s : St W Base.Fields) :
  counted (self s) ->
  exists d,
    trace (snd (Base.run (R:=R) drv s)) = trace s ++ d /\
    Base.domQueries
      (Base.performanceMetrics
         (Base.diagnostics (self (snd (Base.run (R:=R) drv s)))))
    = (Base.domQueries
         (Base.performanceMetrics (Base.diagnostics (self s)))
       + pageQueries d)%Z.
Proof.
  intros Hc.
  destruct (base_run_tallied (R:=R) s s) as (d & T & C & K).
  { exists []. simpl. rewrite app_nil_r. split; [reflexivity|].
    split; [lia|exact Hc]. }
  exists d. split; [exact T|]. unfold counted in *. congruence.
Qed.

Lemma launched_event (s0 s : St W Base.Fields) ev w' :
  ~ launch_ok ev ->
  launched s0 s -> launched s0 (mkSt w' (trace s ++ [ev]) (self s)).
Proof.
  intros Hn (d & T & L). exists (d ++ [ev]). simpl.
  split; [rewrite T, app_assoc; reflexivity|].
  intros H. apply Exists_app in H. destruct H as [H|H]; [auto|].
  inversion H as [? ? H1|? ? H1]; subst; [contradiction|inversion H1].
Qed.

Lemma initializeBrowser_launched {R} s0 :
  keeps (launched s0) (Base.initializeBrowser (R:=R) drv).
Proof.
  intros s (d & T & L).
  assert (H : wp (Base.initializeBrowser (R:=R) drv)
                (fun _ s' => launched s0 s') s).
  { unfold Base.initializeBrowser.
    wp_go; cbn [world trace self];
      (eexists; split;
       [rewrite T; repeat rewrite <- app_assoc; reflexivity|];
       intros Hl;
       first [ reflexivity
             | apply Exists_app in Hl; destruct Hl as [Hl|Hl]; [auto|];
               inversion Hl as [? ? H1|? ? H1]; subst;
               [contradiction|inversion H1] ]). }
  exact H.
Qed.

Ltac launch :=
  keeps_with ltac:(apply initializeBrowser_launched);
  try solve
    [ intros; apply launched_event; [simpl; tauto|assumption]
    | intros; apply (launched_event _ _ _ (world _));
      [simpl; tauto|assumption]
    | let dd := fresh "dd" in
      let TT := fresh "TT" in
      let LL := fresh "LL" in
      intros ? (dd & TT & LL); exists dd; split; [exact TT|exact LL] ].

(** X15.  A run of src/base.ts does not leave a browser running: when a
    launch succeeded during the run, the last thing the run asks of the
    driver is to close the browser. *)
Theorem base_run_closes_browser {R} (s : St W Base.Fields) d :
  trace (snd (Base.run (R:=R) drv s)) = trace s ++ d ->
  Exists launch_ok d ->
  exists d0 r, d = d0 ++ [Asked CloseBrowser r].
Proof.
  assert (H : wp (Base.run (R:=R) drv)
                (fun _ s' =>
                   forall d, trace s' = trace s ++ d -> Exists launch_ok d ->
                             exists d0 r, d = d0 ++ [Asked CloseBrowser r]) s).
  { unfold Base.run. apply wp_call, wp_bind, wp_tell. intros now w' _.
    apply wp_bind, wp_update, wp_tryFinally, wp_intro. intros c s1 E.
    match type of E with
    | ?body ?s0 = _ =>
        assert (K : keeps (launched s) body) by launch;
        specialize (K s0); rewrite E in K; simpl in K;
        destruct K as (d1 & T1 & L1)
    end.
    { exists [Observed DateNow now]. split; [reflexivity|].
      intros H. inversion H as [? ? H1|? ? H1]; subst;
        [contradiction|inversion H1]. }
    assert (Post : forall s2 : St W Base.Fields,
               (exists d2 r, trace s2 = trace s1 ++ d2 ++ [Asked CloseBrowser r])
               \/ (Base.browserOpen (self s1) = false /\
                   exists t, trace s2 = trace s1 ++ [Observed DateNow t]) ->
               forall d, trace s2 = trace s ++ d -> Exists launch_ok d ->
                         exists d0 r, d = d0 ++ [Asked CloseBrowser r]).
    { intros s2 [(d2 & r & T2)|(B & t & T2)] d0 T0 Hl.
      - rewrite T1, <- app_assoc in T2. rewrite T2 in T0.
        apply app_inv_head in T0. subst d0.
        exists (d1 ++ d2), r. rewrite app_assoc. reflexivity.
      - rewrite T1, <- app_assoc in T2. rewrite T2 in T0.
        apply app_inv_head in T0. subst d0.
        apply Exists_app in Hl. destruct Hl as [Hl|Hl].
        + rewrite (L1 Hl) in B. discriminate.
        + inversion Hl as [? ? H1|? ? H1]; subst;
            [contradiction|inversion H1]. }
    clear E. unfold Base.cleanup.
    destruct c; wp_go;
      match goal with
      | |- forall d, _ -> _ -> _ => eapply Post
      end;
      cbn [world trace self] in *;
      first [ left; refine (ex_intro _ [_] (ex_intro _ _ _));
              rewrite <- app_assoc; reflexivity
            | right; split;
              [first [reflexivity|assumption]|eexists; reflexivity] ]. }
  intros T Hl. exact (H d T Hl).
Qed.

End BaseFacts.

(** ** src/BQLRunner.ts *)

Section MapFacts.
Context {V : Type}.

Lemma get_set_same k (v : V) m : JsMap.get k (JsMap.set k v m) = Some v.
Proof.
  induction m as [|[k' v'] m IH]; simpl.
  - rewrite String.eqb_refl. reflexivity.
  - destruct (String.eqb k k') eqn:E; simpl.
    + rewrite String.eqb_refl. reflexivity.
    + rewrite E. exact IH.
Qed.

Lemma get_set_other k k' (v : V) m :
  k' <> k -> JsMap.get k' (JsMap.set k v m) = JsMap.get k' m.
Proof.
  intros Hn. induction m as [|[k0 v0] m IH]; simpl.
  - destruct (String.eqb_spec k' k); [contradiction|reflexivity].
  - destruct (String.eqb_spec k k0) as [->|Hk]; simpl.
    + destruct (String.eqb_spec k' k0); [contradiction|reflexivity].
    + destruct (String.eqb k' k0); [reflexivity|exact IH].
Qed.

Lemma keys_set k (v : V) m x :
  In x (JsMap.keys (JsMap.set k v m)) <-> x = k \/ In x (JsMap.keys m).
Proof.
  unfold JsMap.keys. induction m as [|[k' v'] m IH]; simpl.
  - split; intros [H|H]; auto; contradiction.
  - destruct (String.eqb_spec k k') as [->|Hn]; simpl.
    + intuition (subst; auto).
    + rewrite IH. intuition (subst; auto).
Qed.

Lemma keys_set_NoDup k (v : V) m :
  NoDup (JsMap.keys m) -> NoDup (JsMap.keys (JsMap.set k v m)).
Proof.
  unfold JsMap.keys. induction m as [|[k' v'] m IH]; simpl; intros Hd.
  - constructor; [intros []|constructor].
  - inversion Hd as [|? ? Hn Hr]; subst.
    destruct (String.eqb_spec k k') as [->|Hk]; simpl.
    + constructor; assumption.
    + constructor; [|apply IH, Hr].
      intros Hin. apply (keys_set k v m k') in Hin.
      destruct Hin as [->|Hin]; [apply Hk; reflexivity|contradiction].
Qed.

Lemma set_new k (v : V) m :
  ~ In k (JsMap.keys m) -> JsMap.set k v m = m ++ [(k, v)].
Proof.
  unfold JsMap.keys. induction m as [|[k' v'] m IH]; simpl; intros Hn.
  - reflexivity.
  - destruct (String.eqb_spec k k') as [->|Hk].
    + exfalso. apply Hn. left. reflexivity.
    + rewrite IH; [reflexivity|]. intros H. apply Hn. right. exact H.
Qed.

End MapFacts.

(** Going through a map and setting every address in a new one, as
    [getAllDiagnostics] does, gives the entries in the same order. *)
Lemma fold_set_map {A B} (f : A -> B) (m : list (string * A)) :
  forall acc,
    NoDup (JsMap.keys m) ->
    (forall k, In k (JsMap.keys m) -> ~ In k (JsMap.keys acc)) ->
    fold_left (fun out entry => JsMap.set (fst entry) (f (snd entry)) out)
      m acc
    = acc ++ map (fun entry => (fst entry, f (snd entry))) m.
Proof.
  induction m as [|[k a] m IH]; intros acc Hd Hdis; simpl.
  - rewrite app_nil_r. reflexivity.
  - unfold JsMap.keys in *. simpl in *.
    inversion Hd as [|? ? Hn Hr]; subst.
    rewrite set_new by (apply Hdis; left; reflexivity).
    rewrite IH.
    + rewrite <- app_assoc. reflexivity.
    + exact Hr.
    + intros k' Hk' Hin. unfold JsMap.keys in Hin.
      rewrite map_app, in_app_iff in Hin. destruct Hin as [Hin|[<-|[]]].
      * apply (Hdis k'); [right; exact Hk'|exact Hin].
      * apply Hn, Hk'.
Qed.

Lemma get_map {A B} (f : A -> B) (m : list (string * A)) k :
  JsMap.get k (map (fun entry => (fst entry, f (snd entry))) m)
  = option_map f (JsMap.get k m).
Proof.
  induction m as [|[k' a] m IH]; simpl; [reflexivity|].
  destruct (String.eqb k k'); [reflexivity|exact IH].
Qed.

Section BqlFacts.
Context {W : Type} (drv : Driver W).

Lemma wp_invoke {X Y R A} (obj : Y) (m : M (St W Y) R A)
    (Q : Completion R (A * Y) -> St W X -> Prop) (s : St W X) :
  wp m (fun c so =>
          Q (match c with
             | Normal a => Normal (a, self so)
             | Return r => Return r
             | Break => Break
             | Continue => Continue
             | Throw e => Throw e
             end) (mkSt (world so) (trace so) (self s)))
    (mkSt (world s) (trace s) obj) ->
  wp (invoke obj m) Q s.
Proof.
  unfold wp, invoke.
  destruct (m (mkSt (world s) (trace s) obj)) as [[] so]; simpl; auto.
Qed.

Lemma runSingleTarget_spec {R} config (s : St W BqlRunner.Fields) :
  wp (BqlRunner.runSingleTarget (R:=R) drv config)
    (fun c s' =>
       match c with
       | Normal verdict =>
           exists a,
             BqlRunner.automations (self s')
             = JsMap.set (Base.raw_targetUrl config) a
                 (BqlRunner.automations (self s)) /\
             Base.config a = Base.withDefaults config /\
             explained verdict (Base.diagnostics a)
       | Throw e =>
           self s' = self s /\
           exists pre, trace s' = pre ++ [Asked CloseBrowser (Err e)]
       | _ => False
       end) s.
Proof.
  unfold BqlRunner.runSingleTarget, Base.constructor. cbv zeta.
  apply wp_call, wp_bind, wp_bind, wp_tell. intros stamp w' _.
  apply wp_ret. cbv beta iota. apply wp_bind, wp_invoke, wp_intro.
  intros c so E.
  pose proof (wp_run _ _ _ _ _ (base_run_spec drv (R:=bool) _) E) as Hv.
  pose proof (base_run_config drv (R:=bool) (mkSt w' (trace s ++ [Observed IsoTimestamp stamp])
     (Base.mkFields (Base.withDefaults config)
        (Base.mkData stamp (Base.targetUrl (Base.withDefaults config)) 0 0
           false false [] None None (Base.mkMetrics 0 0 0 0)) 0 0 false)))
    as (_ & Hc).
  cbn [world trace self] in E. rewrite E in Hc. simpl in Hc.
  destruct c as [verdict| | | |e]; try contradiction; cbv beta iota.
  - apply wp_bind, wp_update, wp_return. cbn [self].
    exists (self so). simpl. auto.
  - simpl. auto.
Qed.

(** X16.  [runSingleTarget] stores the automation it ran under the target
    address, replacing what was stored there and leaving the other
    addresses alone.  The stored automation holds the merged configuration,
    and its diagnostics account for the verdict that is returned.  When the
    run raises, nothing is stored. *)
Theorem runSingleTarget_stores {R} config (s : St W BqlRunner.Fields) :
  match fst (BqlRunner.runSingleTarget (R:=R) drv config s) with
  | Normal verdict =>
      (exists a,
          JsMap.get (Base.raw_targetUrl config)
            (BqlRunner.automations
               (self (snd (BqlRunner.runSingleTarget (R:=R) drv config s))))
          = Some a /\
          Base.config a = Base.withDefaults config /\
          if verdict
          then Base.successfulStrategy (Base.diagnostics a) <> None
          else Base.errorMessage (Base.diagnostics a) <> None) /\
      (forall url,
          url <> Base.raw_targetUrl config ->
          JsMap.get url
            (BqlRunner.automations
               (self (snd (BqlRunner.runSingleTarget (R:=R) drv config s))))
          = JsMap.get url (BqlRunner.automations (self s)))
  | Throw e =>
      BqlRunner.automations
        (self (snd (BqlRunner.runSingleTarget (R:=R) drv config s)))
      = BqlRunner.automations (self s)
  | _ => False
  end.
Proof.
  pose proof (runSingleTarget_spec (R:=R) config s) as H. unfold wp in H.
  destruct (fst (BqlRunner.runSingleTarget (R:=R) drv config s))
    as [verdict| | | |e]; try contradiction.
  - destruct H as (a & Ha & Hc & He). rewrite Ha. split.
    + exists a. split; [apply get_set_same|]. split; [exact Hc|].
      destruct verdict; simpl in He; [|exact He].
      destruct He as (n & -> & _). discriminate.
    + intros url Hn. apply get_set_other, Hn.
  - destruct H as (-> & _). reflexivity.
Qed.

Lemma backed_set results automations url verdict a :
  backed results automations ->
  explained verdict (Base.diagnostics a) ->
  backed (JsMap.set url verdict results) (JsMap.set url a automations).
Proof.
  intros Hb He k b Hk. destruct (String.eqb_spec k url) as [->|Hn].
  - rewrite get_set_same in Hk. inversion Hk; subst b.
    exists a. split; [apply get_set_same|exact He].
  - rewrite (get_set_other _ _ _ _ Hn) in Hk.
    rewrite (get_set_other _ _ _ _ Hn). apply Hb, Hk.
Qed.

Lemma runTargetsFrom_spec {R} configs :
  forall results (s : St W BqlRunner.Fields),
    backed results (BqlRunner.automations (self s)) ->
    wp (BqlRunner.runTargetsFrom (R:=R) drv configs results)
      (fun c s' =>
         match c with
         | Normal rs =>
             backed rs (BqlRunner.automations (self s')) /\
             (forall k, JsMap.get k results <> None ->
                        JsMap.get k rs <> None) /\
             (forall config, In config configs ->
                JsMap.get (Base.raw_targetUrl config) rs <> None)
         | Throw e => exists pre, trace s' = pre ++ [Asked CloseBrowser (Err e)]
         | _ => False
         end) s.
Proof.
  induction configs as [|config rest IH]; intros results s Hb; simpl.
  - apply wp_ret. split; [exact Hb|]. split; [auto|]. intros ? [].
  - apply wp_bind. eapply wp_mono; [apply runSingleTarget_spec|].
    intros c s1 H. destruct c as [verdict| | | |e]; try contradiction.
    + destruct H as (a & Ha & _ & He). cbv zeta.
      apply wp_bind, wp_sleep. cbv beta iota.
      eapply wp_mono.
      { apply IH. cbn [self emit]. rewrite Ha. apply backed_set; assumption. }
      intros c s2 H. destruct c as [rs| | | |e]; try contradiction; [|exact H].
      destruct H as (Hrs & Hkeep & Hin).
      split; [exact Hrs|]. split.
      * intros k Hk. apply Hkeep.
        destruct (String.eqb_spec k (Base.raw_targetUrl config)) as [->|Hn].
        -- rewrite get_set_same. discriminate.
        -- rewrite (get_set_other _ _ _ _ Hn). exact Hk.
      * intros cfg [<-|Hc]; [|apply Hin, Hc].
        apply Hkeep. rewrite get_set_same. discriminate.
    + destruct H as (_ & H). exact H.
Qed.

(** X17.  [runMultipleTargets] has no handler of its own: it raises only
    with the rejection of a close of the browser, which is then the last
    thing that was asked of the driver.  When it returns, every target
    address has a verdict, and every verdict is backed by the automation
    stored under the same address: a verdict true goes with a recorded
    successful strategy, a verdict false with a recorded error message,
    also when the same address was given more than once. *)
Theorem runMultipleTargets_backed {R} configs (s : St W BqlRunner.Fields) :
  match fst (BqlRunner.runMultipleTargets (R:=R) drv configs s) with
  | Normal rs =>
      (forall config, In config configs ->
         exists verdict,
           JsMap.get (Base.raw_targetUrl config) rs = Some verdict) /\
      (forall url verdict,
         JsMap.get url rs = Some verdict ->
         exists a,
           JsMap.get url
             (BqlRunner.automations
                (self (snd (BqlRunner.runMultipleTargets (R:=R) drv
                              configs s))))
           = Some a /\
           if verdict
           then Base.successfulStrategy (Base.diagnostics a) <> None
           else Base.errorMessage (Base.diagnostics a) <> None)
  | Throw e =>
      exists pre,
        trace (snd (BqlRunner.runMultipleTargets (R:=R) drv configs s))
        = pre ++ [Asked CloseBrowser (Err e)]
  | _ => False
  end.
Proof.
  assert (H : wp (BqlRunner.runMultipleTargets (R:=R) drv configs)
                (fun c s' =>
                   match c with
                   | Normal rs =>
                       backed rs (BqlRunner.automations (self s')) /\
                       (forall config, In config configs ->
                          JsMap.get (Base.raw_targetUrl config) rs <> None)
                   | Throw e =>
                       exists pre,
                         trace s' = pre ++ [Asked CloseBrowser (Err e)]
                   | _ => False
                   end) s).
  { unfold BqlRunner.runMultipleTargets. apply wp_call, wp_bind.
    eapply wp_mono; [apply (runTargetsFrom_spec configs [] s)|].
    - intros url verdict Hk. discriminate Hk.
    - intros c s1 Hc. destruct c as [rs| | | |e]; try contradiction.
      + apply wp_return. destruct Hc as (A & _ & B). auto.
      + exact Hc. }
  unfold wp in H.
  destruct (fst (BqlRunner.runMultipleTargets (R:=R) drv configs s))
    as [rs| | | |e]; try contradiction; [|exact H].
  destruct H as (Hb & Hin). split.
  - intros config Hc. specialize (Hin config Hc).
    destruct (JsMap.get (Base.raw_targetUrl config) rs) as [v|]; eauto.
    contradiction.
  - intros url verdict Hk. destruct (Hb url verdict Hk) as (a & Ha & He).
    exists a. split; [exact Ha|].
    destruct verdict; simpl in He; [|exact He].
    destruct He as (n & -> & _). discriminate.
Qed.

(** X23.  The two accessors of [BQLRunner] read the stored automations
    without touching anything, and they agree: the map that
    [getAllDiagnostics] returns has the addresses of the stored automations,
    in the same order, and holds for every address what
    [getAutomationDiagnostics] returns for it (and nothing for an address
    that was never run).  [runSingleTarget] keeps the addresses of the map
    distinct. *)
Theorem stored_diagnostics_agree {R} (s : St W BqlRunner.Fields) :
  NoDup (JsMap.keys (BqlRunner.automations (self s))) ->
  (exists all,
      BqlRunner.getAllDiagnostics (R:=R) s = (Normal all, s) /\
      JsMap.keys all = JsMap.keys (BqlRunner.automations (self s)) /\
      forall url,
        BqlRunner.getAutomationDiagnostics (R:=R) url s
        = (Normal (JsMap.get url all), s)) /\
  forall config,
    NoDup (JsMap.keys
             (BqlRunner.automations
                (self (snd (BqlRunner.runSingleTarget (R:=R) drv config s))))).
Proof.
  intros Hd. split.
  - exists (map (fun entry => (fst entry, Base.getDiagnostics (snd entry)))
              (BqlRunner.automations (self s))).
    split; [|split].
    + unfold BqlRunner.getAllDiagnostics, call, bind, this, return_. simpl.
      rewrite (fold_set_map Base.getDiagnostics _ [] Hd);
        [reflexivity|intros k _ []].
    + unfold JsMap.keys. rewrite map_map. reflexivity.
    + intros url. rewrite get_map.
      unfold BqlRunner.getAutomationDiagnostics, call, bind, this, return_.
      simpl. destruct (JsMap.get url (BqlRunner.automations (self s)));
        reflexivity.
  - intros config.
    pose proof (runSingleTarget_spec (R:=R) config s) as H. unfold wp in H.
    destruct (BqlRunner.runSingleTarget (R:=R) drv config s) as [c s'].
    simpl in *. destruct c as [verdict| | | |e]; try contradiction.
    + destruct H as (a & -> & _). apply keys_set_NoDup, Hd.
    + destruct H as (-> & _). exact Hd.
Qed.

End BqlFacts.

Import Pages.

(** ** src/index.ts *)

#[export] Instance recorded_PreOrder : PreOrder recorded.
Proof.
  split.
  - intros o. split; auto.
  - intros a b c (A1 & A2) (B1 & B2). split; auto.
Qed.

Section IndexRun.
Context {W : Type} (drv : Driver W).

Ltac record :=
  steps_go;
  try solve
    [ exact I
    | split; simpl; auto; intros; first [discriminate | apply snoc_neq_nil] ].

Lemma index_executeAutomation_success {R} :
  steps (fun _ => True)
    (fun o o' : Index.Fields =>
       Index.success (Index.locals o') = Index.success (Index.locals o))
    (Index.executeAutomation (R:=R) drv).
Proof.
  assert (P : PreOrder
                (fun o o' : Index.Fields =>
                   Index.success (Index.locals o')
                   = Index.success (Index.locals o))).
  { split; [intros o; reflexivity|intros a b c H1 H2; congruence]. }
  unfold Index.executeAutomation. steps_go; try solve [exact I|reflexivity].
Qed.

(** A lookup of src/index.ts, whatever it gives. *)
Ltac lookup :=
  apply wp_plain; [apply call_plain|intros ? ? _|intros ? ? _].

Ltac struck_with tac :=
  wp_with
    ltac:(first
      [ tac
      | match goal with
        | |- wp (Index.trySelector _ _ _ _) _ _ => lookup
        | |- wp (Index.queryShadowDom _ _) _ _ => lookup
        | |- wp (forOf _ _) _ _ =>
            apply (wp_forOf_inv (fun _ => True));
            [intros ? ? _ _|intros ? _|exact I]
        end ]);
  try solve
    [ exact I
    | unfold struck; intros Hs; first [discriminate Hs | simpl; discriminate] ].

Lemma tryDirectSubmission_struck {R} (s : St W Index.Fields) :
  wp (Index.tryDirectSubmission (R:=R) drv) struck s.
Proof. unfold Index.tryDirectSubmission. struck_with fail. Qed.

Lemma tryShadowDomSubmission_struck {R} (s : St W Index.Fields) :
  wp (Index.tryShadowDomSubmission (R:=R) drv) struck s.
Proof. unfold Index.tryShadowDomSubmission. struck_with fail. Qed.

Lemma handleIframe_struck {R} email (s : St W Index.Fields) :
  wp (Index.handleIframe (R:=R) drv email) struck s.
Proof. unfold Index.handleIframe. struck_with fail. Qed.

Lemma tryScrollTriggeredSubmission_struck {R} (s : St W Index.Fields) :
  wp (Index.tryScrollTriggeredSubmission (R:=R) drv) struck s.
Proof.
  unfold Index.tryScrollTriggeredSubmission.
  struck_with
    ltac:(idtac;
          match goal with
          | |- wp (Index.tryDirectSubmission _) _ _ =>
              eapply wp_mono; [apply tryDirectSubmission_struck|];
              intros [[|]| | | |] ? Hs;
              try exact I; try apply wp_return; unfold struck in *;
              intros; first [apply Hs; reflexivity|discriminate]
          end).
Qed.

Lemma wp_submission {R} (m : M (St W Index.Fields) R bool)
    (Q : Completion R bool -> St W Index.Fields -> Prop) s :
  plain m -> (forall s0, wp m struck s0) ->
  (forall b s1, struck (R:=R) (Normal b) s1 -> Q (Normal b) s1) ->
  (forall e s1, Q (Throw e) s1) ->
  wp m Q s.
Proof.
  intros Hp Hs Hn Ht. apply wp_intro. intros c s1 E.
  pose proof (wp_run _ _ _ _ _ (Hs s) E) as H.
  specialize (Hp s). rewrite E in Hp.
  destruct c; simpl in Hp; try contradiction; auto.
Qed.

(** [executeAutomation] of src/index.ts answers true only with a success
    strategy recorded, and false only with a failure reason recorded. *)
Lemma index_executeAutomation_settled {R} (s : St W Index.Fields) :
  wp (Index.executeAutomation (R:=R) drv)
    (fun c s' =>
       match c with
       | Normal true =>
           Index.successStrategy (Index.diagnostics (self s')) <> None
       | Normal false =>
           Index.failureReasons (Index.diagnostics (self s')) <> []
       | Throw _ => True
       | _ => False
       end) s.
Proof.
  unfold Index.executeAutomation.
  apply wp_call, wp_bind, wp_this, wp_bind.
  destruct (negb _); [apply wp_throw; exact I|apply wp_ret].
  apply wp_bind, wp_tell. intros t0 w0 _.
  apply wp_bind, wp_ask. intros [[]|e] w1 _; [|exact I].
  apply wp_bind, wp_tell. intros t1 w2 _.
  apply wp_bind, wp_update, wp_bind, wp_ask.
  intros [[]|e] w3 _; [|exact I]. apply wp_bind.
  apply wp_plain; [apply call_plain|intros [] s1 _|intros; exact I].
  apply wp_bind.
  apply wp_plain; [apply call_plain|intros scrolled s2 _|intros; exact I].
  apply wp_bind.
  apply wp_submission;
    [apply call_plain|intros; apply tryDirectSubmission_struck
    |intros [|] s3 H3|intros; exact I];
    [apply wp_bind, wp_return; apply H3; reflexivity|].
  apply wp_bind, wp_ret, wp_bind.
  apply wp_submission;
    [apply call_plain|intros; apply tryShadowDomSubmission_struck
    |intros [|] s4 H4|intros; exact I];
    [apply wp_bind, wp_return; apply H4; reflexivity|].
  apply wp_bind, wp_ret, wp_bind.
  apply wp_submission;
    [apply call_plain|intros; apply handleIframe_struck
    |intros [|] s5 H5|intros; exact I];
    [apply wp_bind, wp_return; apply H5; reflexivity|].
  apply wp_bind, wp_ret, wp_bind.
  apply wp_submission;
    [apply call_plain|intros; apply tryScrollTriggeredSubmission_struck
    |intros [|] s6 H6|intros; exact I];
    [apply wp_bind, wp_return; apply H6; reflexivity|].
  apply wp_bind, wp_ret, wp_bind, wp_update, wp_return.
  simpl. apply snoc_neq_nil.
Qed.

Lemma index_attemptStep_settled k (s : St W Index.Fields) :
  Index.success (Index.locals (self s)) = false ->
  wp (Index.attemptStep drv k)
    (fun c s' =>
       match c with
       | Normal _ =>
           Index.success (Index.locals (self s')) = false /\
           Index.failureReasons (Index.diagnostics (self s')) <> []
       | Break =>
           Index.success (Index.locals (self s')) = true /\
           Index.successStrategy (Index.diagnostics (self s')) <> None
       | _ => False
       end) s.
Proof.
  intros Hf. unfold Index.attemptStep.
  apply wp_bind, wp_mark, wp_tryCatch, wp_bind, wp_intro. intros c s2 E.
  pose proof (wp_run _ _ _ _ _ (index_executeAutomation_settled _) E) as Hc.
  pose proof (index_executeAutomation_success (R:=bool)
                (emit (Mark (AttemptStart k)) s)) as (_ & Hk).
  rewrite E in Hk. simpl in Hk.
  destruct c as [[|]| | | |e]; try contradiction.
  - apply wp_bind, wp_update, wp_break. simpl. auto.
  - apply wp_bind, wp_update, wp_ask. intros [[]|e] w' _.
    + simpl. auto.
    + apply wp_update. simpl. split; [reflexivity|apply snoc_neq_nil].
  - apply wp_update. simpl. split; [congruence|apply snoc_neq_nil].
Qed.

Lemma index_attempts_settled xs : forall s : St W Index.Fields,
  Index.success (Index.locals (self s)) = false ->
  wp (forOf xs (Index.attemptStep drv))
    (fun c s' =>
       c = Normal tt /\
       if Index.success (Index.locals (self s'))
       then Index.successStrategy (Index.diagnostics (self s')) <> None
       else xs <> [] \/ Index.failureReasons (Index.diagnostics (self s)) <> []
            -> Index.failureReasons (Index.diagnostics (self s')) <> []) s.
Proof.
  induction xs as [|k xs IH]; intros s Hf.
  - apply wp_forOf_nil. split; [reflexivity|]. rewrite Hf.
    intros [H|H]; [contradiction H; reflexivity|exact H].
  - apply wp_forOf_cons.
    eapply wp_mono; [apply (index_attemptStep_settled k s Hf)|].
    intros c s1 H. destruct c as [[]| | | |]; try contradiction.
    + destruct H as (Hf1 & Hr1).
      eapply wp_mono; [apply (IH s1 Hf1)|].
      intros c s2 (-> & H2). split; [reflexivity|].
      destruct (Index.success (Index.locals (self s2))); [exact H2|].
      intros _. apply H2. right. exact Hr1.
    + destruct H as (Ht & Hs). split; [reflexivity|]. rewrite Ht. exact Hs.
Qed.

(** The [finally] block of [run] completes normally and undoes nothing in
    the diagnostics. *)
Lemma index_finally_recorded {R} (s : St W Index.Fields) :
  wp (Index.generateDiagnosticReport (R:=R) drv ;; Index.cleanup drv)
    (fun c s' => c = Normal tt /\ recorded (self s) (self s')) s.
Proof.
  apply wp_intro. intros c s' E.
  pose proof (wp_run _ _ _ _ _ (index_finally_spec drv (R:=R) s) E)
    as (-> & _).
  split; [reflexivity|].
  assert (H : steps (fun _ => True) recorded
                (Index.generateDiagnosticReport (R:=R) drv ;;
                 Index.cleanup drv)) by record.
  specialize (H s). rewrite E in H. apply H.
Qed.

Lemma zrange_nonempty lo hi : (lo < hi)%Z -> zrange lo hi <> [].
Proof.
  intros H E. apply (f_equal (@length Z)) in E.
  rewrite zrange_length in E. simpl in E. lia.
Qed.

Lemma index_run_settled {R} (s : St W Index.Fields) :
  wp (Index.run (R:=R) drv)
    (fun c s' =>
       exists b,
         c = Normal b /\
         if b
         then Index.successStrategy (Index.diagnostics (self s')) <> None
         else (0 < Index.maxRetries (Index.config (self s)))%Z ->
              Index.failureReasons (Index.diagnostics (self s')) <> []) s.
Proof.
  unfold Index.run. apply wp_call, wp_bind, wp_tell. intros now w0 _. tidy.
  apply wp_bind, wp_update. tidy. apply wp_tryFinally.
  assert (Fin : forall (b : bool) (s1 : St W Index.Fields),
             (if b
              then Index.successStrategy (Index.diagnostics (self s1)) <> None
              else (0 < Index.maxRetries (Index.config (self s)))%Z ->
                   Index.failureReasons (Index.diagnostics (self s1)) <> []) ->
             wp (Index.generateDiagnosticReport (R:=bool) drv ;;
                 Index.cleanup drv)
               (fun cf s2 =>
                  cf = Normal tt /\
                  if b
                  then Index.successStrategy (Index.diagnostics (self s2))
                       <> None
                  else (0 < Index.maxRetries (Index.config (self s)))%Z ->
                       Index.failureReasons (Index.diagnostics (self s2))
                       <> []) s1).
  { intros b s1 Hb. eapply wp_mono; [apply index_finally_recorded|].
    intros cf s2 (-> & K1 & K2). split; [reflexivity|].
    destruct b; auto. }
  apply wp_mono with
    (Q := fun (c : Completion bool unit) s1 =>
            exists b,
              c = Return b /\
              if b
              then Index.successStrategy (Index.diagnostics (self s1)) <> None
              else (0 < Index.maxRetries (Index.config (self s)))%Z ->
                   Index.failureReasons (Index.diagnostics (self s1)) <> []).
  2:{ intros c s1 (b & -> & Hb).
      eapply wp_mono; [apply (Fin b s1 Hb)|].
      intros cf s2 (-> & H). exists b. auto. }
  assert (Crit : forall e (s1 : St W Index.Fields),
             wp (Index.on_diagnostics (R:=bool)
                   (Index.push_failure
                      ("Critical failure: " ++ Runner.errorString e)) ;;
                 return_ false)
               (fun (c : Completion bool unit) s2 =>
                  exists b,
                    c = Return b /\
                    if b
                    then Index.successStrategy (Index.diagnostics (self s2))
                         <> None
                    else (0 < Index.maxRetries (Index.config (self s)))%Z ->
                         Index.failureReasons (Index.diagnostics (self s2))
                         <> []) s1).
  { intros e s1. apply wp_bind, wp_update, wp_return.
    exists false. split; [reflexivity|]. intros _. apply snoc_neq_nil. }
  apply wp_tryCatch, wp_bind, wp_this. tidy. apply wp_bind, wp_ask.
  intros [[]|e] w1 _; [|apply Crit]. tidy.
  apply wp_bind, wp_update. tidy. apply wp_bind, wp_ask.
  intros [[]|e] w2 _; [|apply Crit]. tidy.
  apply wp_bind, wp_update. tidy. apply wp_bind, wp_ask.
  intros [[]|e] w3 _; [|apply Crit]. tidy.
  apply wp_bind, wp_update. tidy. apply wp_bind, wp_update. tidy.
  apply wp_bind.
  eapply wp_mono; [apply index_attempts_settled; reflexivity|].
  intros c s1 (Hc & H). subst c. cbn [self] in H. cbv beta iota.
  apply wp_bind, wp_this. tidy.
  destruct (Index.success (Index.locals (self s1))) eqn:Es.
  - apply wp_bind, wp_ask. intros [[]|e] w' _; [|apply Crit].
    apply wp_return. simpl. exists true. auto.
  - apply wp_bind, wp_ret, wp_return.
    exists false. split; [reflexivity|]. intros Hn. apply H. left.
    apply zrange_nonempty. simpl. lia.
Qed.

(** X18.  [run] of src/index.ts never raises, whatever the driver does: it
    returns a boolean.  When it returns true, the diagnostics name the
    strategy that submitted.  When it returns false and the retry budget is
    positive, the diagnostics list at least one failure reason. *)
Theorem index_run_verdict {R} (s : St W Index.Fields) :
  exists b s',
    Index.run (R:=R) drv s = (Normal b, s') /\
    if b
    then Index.successStrategy (Index.diagnostics (self s')) <> None
    else (0 < Index.maxRetries (Index.config (self s)))%Z ->
         Index.failureReasons (Index.diagnostics (self s')) <> [].
Proof.
  pose proof (index_run_settled (R:=R) s) as H. unfold wp in H.
  destruct (Index.run (R:=R) drv s) as [c s']. simpl in H.
  destruct H as (b & -> & Hb). eauto.
Qed.

Lemma index_launched_event (s0 s : St W Index.Fields) ev w' :
  ~ launch_ok ev ->
  index_launched s0 s ->
  index_launched s0 (mkSt w' (trace s ++ [ev]) (self s)).
Proof.
  intros Hn (d & T & L). exists (d ++ [ev]). simpl.
  split; [rewrite T, app_assoc; reflexivity|].
  intros H. apply Exists_app in H. destruct H as [H|H]; [auto|].
  inversion H as [? ? H1|? ? H1]; subst; [contradiction|inversion H1].
Qed.

(** The launch of [run] and the assignment of its result to [this.browser],
    taken together. *)
Lemma keeps_launching {R A} s0 h f (k : M (St W Index.Fields) R A) :
  (forall o, Index.browser (f o) = true) ->
  keeps (index_launched s0) k ->
  keeps (index_launched s0)
    (bind (ask drv (Launch h)) (fun _ => bind (update f) (fun _ => k))).
Proof.
  intros Hf Hk s (d & T & L). unfold bind at 1, ask.
  destruct (answer drv (Launch h) (world s)) as [[[]|e] w']; simpl.
  - unfold bind at 1, update. simpl. apply Hk.
    exists (d ++ [Asked (Launch h) (Ok tt)]). simpl.
    split; [rewrite T, app_assoc; reflexivity|]. intros _. apply Hf.
  - apply (index_launched_event s0 s (Asked (Launch h) (Err e)) w');
      [simpl; tauto|]. exists d. auto.
Qed.

Ltac index_launch :=
  keeps_with
    ltac:(idtac;
          match goal with
          | |- keeps _ (bind (ask _ (Launch _)) _) =>
              apply keeps_launching; [intros; reflexivity|]
          end);
  try solve
    [ intros; apply index_launched_event; [simpl; tauto|assumption]
    | intros; apply (index_launched_event _ _ _ (world _));
      [simpl; tauto|assumption]
    | let dd := fresh "dd" in
      let TT := fresh "TT" in
      let LL := fresh "LL" in
      intros ? (dd & TT & LL); exists dd; split; [exact TT|exact LL] ].

Lemma index_run_closes {R} (s : St W Index.Fields) :
  wp (Index.run (R:=R) drv)
    (fun _ s' =>
       forall d, trace s' = trace s ++ d -> Exists launch_ok d ->
                 exists d0 r, d = d0 ++ [Asked CloseBrowser r]) s.
Proof.
  unfold Index.run. apply wp_call, wp_bind, wp_tell. intros now w' _.
  apply wp_bind, wp_update, wp_tryFinally, wp_intro. intros c s1 E.
  match type of E with
  | ?body ?s0 = _ =>
      assert (K : keeps (index_launched s) body) by index_launch;
      specialize (K s0); rewrite E in K; simpl in K;
      destruct K as (d1 & T1 & L1)
  end.
  { exists [Observed DateNow now]. split; [reflexivity|].
    intros H. inversion H as [? ? H1|? ? H1]; subst;
      [contradiction|inversion H1]. }
  assert (Post : forall s2 : St W Index.Fields,
             (exists d2 r,
                 trace s2 = trace s1 ++ d2 ++ [Asked CloseBrowser r])
             \/ (Index.browser (self s1) = false /\
                 exists d2, trace s2 = trace s1 ++ d2 /\
                            Forall (fun ev => ~ launch_ok ev) d2) ->
             forall d, trace s2 = trace s ++ d -> Exists launch_ok d ->
                       exists d0 r, d = d0 ++ [Asked CloseBrowser r]).
  { intros s2 [(d2 & r & T2)|(B & d2 & T2 & F2)] d0 T0 Hl.
    - rewrite T1, <- app_assoc in T2. rewrite T2 in T0.
      apply app_inv_head in T0. subst d0.
      exists (d1 ++ d2), r. rewrite app_assoc. reflexivity.
    - rewrite T1, <- app_assoc in T2. rewrite T2 in T0.
      apply app_inv_head in T0. subst d0.
      apply Exists_app in Hl. destruct Hl as [Hl|Hl].
      + rewrite (L1 Hl) in B. discriminate.
      + apply Exists_exists in Hl. destruct Hl as (ev & Hin & Hev).
        rewrite Forall_forall in F2. exfalso. exact (F2 ev Hin Hev). }
  clear E. unfold Index.generateDiagnosticReport, Index.cleanup.
  destruct c; wp_go;
    match goal with
    | |- forall d, _ -> _ -> _ => eapply Post
    end;
    cbn [world trace self Index.browser Index.with_diagnostics] in *;
    first [ left; refine (ex_intro _ [_] (ex_intro _ _ _));
            rewrite <- app_assoc; reflexivity
          | left; refine (ex_intro _ [] (ex_intro _ _ _)); reflexivity
          | right; split; [first [reflexivity|assumption]|];
            first [ exists []; split;
                    [rewrite app_nil_r; reflexivity|constructor]
                  | eexists [_]; split;
                    [reflexivity|repeat constructor; simpl; tauto] ] ].
Qed.

(** X19.  A run of src/index.ts does not leave a browser running: when a
    launch succeeded during the run, the last thing the run asks of the
    driver is to close the browser. *)
Theorem index_run_closes_browser {R} (s : St W Index.Fields) d :
  trace (snd (Index.run (R:=R) drv s)) = trace s ++ d ->
  Exists launch_ok d ->
  exists d0 r, d = d0 ++ [Asked CloseBrowser r].
Proof.
  intros T Hl. exact (index_run_closes (R:=R) s d T Hl).
Qed.

Lemma index_run_recorded {R} :
  steps (fun _ => True) recorded (Index.run (R:=R) drv).
Proof. unfold Index.run. record. Qed.

(** X22.  The exported entry point [runNewsletterAutomation] never raises:
    it builds an automation, runs it and returns its boolean.  It leaves
    the object of its caller alone, and when a launch succeeded the last
    thing it asks of the driver is to close the browser. *)
Theorem runNewsletterAutomation_total {R X} (config : Index.RawConfig)
    (s : St W X) :
  exists b s',
    Index.runNewsletterAutomation (R:=R) drv config s = (Normal b, s') /\
    self s' = self s /\
    forall d, trace s' = trace s ++ d -> Exists launch_ok d ->
              exists d0 r, d = d0 ++ [Asked CloseBrowser r].
Proof.
  assert (H : wp (Index.runNewsletterAutomation (R:=R) drv config)
                (fun c s' =>
                   exists b,
                     c = Normal b /\ self s' = self s /\
                     forall d, trace s' = trace s ++ d ->
                               Exists launch_ok d ->
                               exists d0 r,
                                 d = d0 ++ [Asked CloseBrowser r]) s).
  { assert (Ran : forall pre automation w0,
               ~ Exists launch_ok pre ->
               wp (invoke (X:=X) automation (Index.run (R:=bool) drv))
                 (fun c s' =>
                    exists b o,
                      c = Normal (b, o) /\ self s' = self s /\
                      forall d, trace s' = trace s ++ d ->
                                Exists launch_ok d ->
                                exists d0 r,
                                  d = d0 ++ [Asked CloseBrowser r])
                 (mkSt w0 (trace s ++ pre) (self s))).
    { intros pre automation w0 Hpre. apply wp_invoke, wp_intro.
      intros c so E. cbn [world trace self] in *.
      pose proof (wp_run _ _ _ _ _ (index_run_settled _) E) as (b & -> & _).
      pose proof (wp_run _ _ _ _ _ (index_run_closes _) E) as Hc.
      pose proof (index_run_recorded (R:=bool)
                    (mkSt w0 (trace s ++ pre) automation))
        as ((d1 & T1 & _) & _).
      rewrite E in T1. cbn [snd trace] in T1, Hc.
      exists b, (self so). split; [reflexivity|]. split; [reflexivity|].
      intros d T Hl. rewrite T1, <- app_assoc in T.
      apply app_inv_head in T. subst d.
      apply Exists_app in Hl. destruct Hl as [Hl|Hl]; [contradiction|].
      destruct (Hc d1 T1 Hl) as (d0 & r & ->).
      exists (pre ++ d0), r. rewrite app_assoc. reflexivity. }
    unfold Index.runNewsletterAutomation, Index.constructor.
    apply wp_call. cbv zeta.
    wp_with ltac:(idtac;
                  match goal with
                  | |- wp (invoke _ _) _ _ => fail 2
                  end);
      cbn [world trace self];
      repeat rewrite <- app_assoc;
      (eapply wp_mono;
       [ apply Ran; intros Hx; apply Exists_exists in Hx;
         destruct Hx as (ev & Hin & Hev); simpl in Hin;
         repeat (destruct Hin as [Hin|Hin]; [subst ev; exact Hev|]);
         exact Hin
       | intros c s' (b & o & -> & Hs & Hd); cbv beta iota;
         apply wp_return; exists b; auto ]). }
  unfold wp in H.
  destruct (Index.runNewsletterAutomation (R:=R) drv config s) as [c s'].
  simpl in H. destruct H as (b & -> & Hs & Hd). eauto.
Qed.

(** X20.  [trySelector] never raises.  It waits only on the root and with
    the timeout it was given, for spellings of the pattern it was given.
    When it returns an element, that element is the answer to the last
    wait, there were at most four waits and no failure reason was added.
    When it returns nothing, there were exactly four waits and exactly one
    failure reason was added, which names the pattern. *)
Theorem trySelector_outcome {R} root selector t (s : St W Index.Fields) :
  exists r s' tried,
    Index.trySelector (R:=R) drv root selector t s = (Normal r, s') /\
    trace s' = trace s ++ tried /\
    Forall (variant_wait root selector t) tried /\
    match r with
    | Some h =>
        (length tried <= 4)%nat /\
        reasons s' = reasons s /\
        exists before v,
          tried = before ++ [Asked (WaitForSelector root v t) (Ok (Some h))]
    | None =>
        length tried = 4%nat /\
        reasons s'
        = reasons s
          ++ [("All selector strategies failed for: " ++ selector)%string]
    end.
Proof.
  assert (H : wp (Index.trySelector (R:=R) drv root selector t)
                (fun c s' =>
                   exists r tried,
                     c = Normal r /\
                     trace s' = trace s ++ tried /\
                     Forall (variant_wait root selector t) tried /\
                     match r with
                     | Some h =>
                         (length tried <= 4)%nat /\
                         reasons s' = reasons s /\
                         exists before v,
                           tried = before
                                   ++ [Asked (WaitForSelector root v t)
                                         (Ok (Some h))]
                     | None =>
                         length tried = 4%nat /\
                         reasons s'
                         = reasons s
                           ++ [("All selector strategies failed for: "
                                ++ selector)%string]
                     end) s).
  { unfold Index.trySelector.
    wp_with ltac:(idtac;
                  match goal with
                  | |- wp (forOf (_ :: _) _) _ _ => apply wp_forOf_cons
                  end);
      cbn [world trace self];
      (eexists; eexists; split; [reflexivity|];
       split; [repeat rewrite <- app_assoc; cbn [app]; reflexivity|];
       split;
       [ repeat (apply Forall_cons;
                 [eexists; eexists; split; [|reflexivity]; simpl; tauto|]);
         apply Forall_nil
       | first
           [ split; [reflexivity|reflexivity]
           | split; [simpl; lia|]; split; [reflexivity|];
             first [ refine (ex_intro _ [] (ex_intro _ _ _)); reflexivity
                   | refine (ex_intro _ [_] (ex_intro _ _ _)); reflexivity
                   | refine (ex_intro _ [_; _] (ex_intro _ _ _)); reflexivity
                   | refine (ex_intro _ [_; _; _] (ex_intro _ _ _));
                     reflexivity ] ] ]). }
  unfold wp in H.
  destruct (Index.trySelector (R:=R) drv root selector t s) as [c s'].
  simpl in H. destruct H as (r & tried & -> & T & F & Hr).
  exists r, s', tried. auto.
Qed.

End IndexRun.

(** ** The three retry loops with no budget *)

Lemma zrange_empty lo hi : (hi <= lo)%Z -> zrange lo hi = [].
Proof.
  intros H. unfold zrange.
  replace (Z.to_nat (hi - lo)) with 0%nat by lia. reflexivity.
Qed.

Section Budgets.
Context {W : Type} (drv : Driver W).

(** X21.  With a retry budget of zero (or less) none of the three retry
    loops makes an attempt.  [attemptNewsletterSignup] of
    automation/newsletter-automation.ts and [executeNewsletterSignup] of
    src/base.ts return false at once and touch neither the page nor the
    object.  [run] of src/index.ts still starts and stops the browser, but
    never navigates and starts no attempt, and returns false. *)
Theorem zero_retry_budget {R} (cfg : AutomationConfig)
    (s : St W Newsletter.Fields) (sb : St W Base.Fields)
    (si : St W Index.Fields) :
  (retryAttempts cfg <= 0)%Z ->
  (Base.maxRetries (Base.config (self sb)) <= 0)%Z ->
  (Index.maxRetries (Index.config (self si)) <= 0)%Z ->
  Newsletter.attemptNewsletterSignup (R:=R) drv cfg s = (Normal false, s) /\
  Base.executeNewsletterSignup (R:=R) drv sb = (Normal false, sb) /\
  exists s' d,
    Index.run (R:=R) drv si = (Normal false, s') /\
    trace s' = trace si ++ d /\ Forall idle d.
Proof.
  intros H1 H2 H3. split; [|split].
  - unfold Newsletter.attemptNewsletterSignup.
    rewrite zrange_empty by lia.
    unfold call, bind, this. simpl.
    destruct (negb (Newsletter.f_page (self s))
              || negb (Newsletter.f_selectors (self s))); reflexivity.
  - unfold Base.executeNewsletterSignup, call, bind, this. simpl.
    rewrite zrange_empty by lia. reflexivity.
  - assert (H : wp (Index.run (R:=R) drv)
                  (fun c s' =>
                     c = Normal false /\
                     exists d, trace s' = trace si ++ d /\ Forall idle d) si).
    { assert (Fin : forall s1 : St W Index.Fields,
                 (exists d, trace s1 = trace si ++ d /\ Forall idle d) ->
                 wp (Index.generateDiagnosticReport (R:=bool) drv ;;
                     Index.cleanup drv)
                   (fun cf s2 =>
                      cf = Normal tt /\
                      exists d, trace s2 = trace si ++ d /\ Forall idle d)
                   s1).
      { intros s1 (d & T & F).
        unfold Index.generateDiagnosticReport, Index.cleanup.
        wp_go; cbn [world trace self];
          (split; [reflexivity|]; eexists (d ++ _);
           split;
           [rewrite T; repeat rewrite <- app_assoc;
            first [reflexivity|rewrite app_nil_r; reflexivity]|];
           apply Forall_app; split; [exact F|];
           repeat (apply Forall_cons; [exact I|]); apply Forall_nil). }
      assert (Done : forall s1 : St W Index.Fields,
                 (exists d, trace s1 = trace si ++ d /\ Forall idle d) ->
                 wp (Index.generateDiagnosticReport (R:=bool) drv ;;
                     Index.cleanup drv)
                   (fun cf s2 =>
                      match cf with
                      | Normal _ =>
                          Normal (R:=R) false = Normal false /\
                          exists d, trace s2 = trace si ++ d /\
                                    Forall idle d
                      | _ => False
                      end) s1).
      { intros s1 Hs. eapply wp_mono; [apply (Fin s1 Hs)|].
        intros cf s2 (-> & H). split; [reflexivity|exact H]. }
      unfold Index.run.
      apply wp_call, wp_bind, wp_tell. intros now w0 _. tidy.
      apply wp_bind, wp_update. tidy. apply wp_tryFinally, wp_tryCatch.
      apply wp_bind, wp_this. tidy. apply wp_bind, wp_ask.
      intros [[]|e] w1 _; tidy.
      2:{ apply wp_bind, wp_update. tidy. apply wp_return.
          eapply wp_mono; [apply Done|intros [] ? Hc; try contradiction; exact Hc].
          eexists. cbn [world trace self]. split;
            [repeat rewrite <- app_assoc; reflexivity|].
          repeat (apply Forall_cons; [exact I|]); apply Forall_nil. }
      apply wp_bind, wp_update. tidy. apply wp_bind, wp_ask.
      intros [[]|e] w2 _; tidy.
      2:{ apply wp_bind, wp_update. tidy. apply wp_return.
          eapply wp_mono; [apply Done|intros [] ? Hc; try contradiction; exact Hc].
          eexists. cbn [world trace self]. split;
            [repeat rewrite <- app_assoc; reflexivity|].
          repeat (apply Forall_cons; [exact I|]); apply Forall_nil. }
      apply wp_bind, wp_update. tidy. apply wp_bind, wp_ask.
      intros [[]|e] w3 _; tidy.
      2:{ apply wp_bind, wp_update. tidy. apply wp_return.
          eapply wp_mono; [apply Done|intros [] ? Hc; try contradiction; exact Hc].
          eexists. cbn [world trace self]. split;
            [repeat rewrite <- app_assoc; reflexivity|].
          repeat (apply Forall_cons; [exact I|]); apply Forall_nil. }
      apply wp_bind, wp_update. tidy. apply wp_bind, wp_update. tidy.
      apply wp_bind.
      rewrite zrange_empty
        by (cbn [self Index.config Index.maxRetries]; lia).
      apply wp_forOf_nil. tidy. apply wp_bind, wp_this. tidy.
      cbn [Index.locals Index.success Index.with_locals Index.set_success].
      apply wp_bind, wp_ret. tidy. apply wp_return.
      eapply wp_mono; [apply Done|intros [] ? Hc; try contradiction; exact Hc].
      eexists. cbn [world trace self]. split;
        [repeat rewrite <- app_assoc; reflexivity|].
      repeat (apply Forall_cons; [exact I|]); apply Forall_nil. }
    unfold wp in H. destruct (Index.run (R:=R) drv si) as [c s'].
    simpl in H. destruct H as (-> & d & T & F). eauto.
Qed.

End Budgets.

Import Pages.

(** ** What the runs of src/base.ts and src/index.ts use of their
    configuration *)

Section Within.
Context {W X : Type} (P : Event -> Prop).

Lemma within_refl (s : St W X) : within P s s.
Proof. exists []. rewrite app_nil_r. auto. Qed.

Lemma within_event (s0 s : St W X) ev w' o :
  P ev -> within P s0 s -> within P s0 (mkSt w' (trace s ++ [ev]) o).
Proof.
  intros Hp (d & T & F). exists (d ++ [ev]). simpl.
  split; [rewrite T, app_assoc; reflexivity|].
  apply Forall_app. auto.
Qed.

Lemma within_self (s0 s : St W X) w' o :
  within P s0 s -> within P s0 (mkSt w' (trace s) o).
Proof. intros (d & T & F). exists d. auto. Qed.

(** A body that reads the object first, under an invariant that fixes a
    part [C] of the object. *)
Lemma keeps_this_bind {R B} (J : St W X -> Prop) (C : X -> Prop)
    (k : X -> M (St W X) R B) :
  (forall s, J s -> C (self s)) ->
  (forall o, C o -> keeps J (k o)) ->
  keeps J (bind this k).
Proof.
  intros Hc Hk s Hs. unfold bind, this. simpl. apply Hk; auto.
Qed.

End Within.

Section BaseConfined.
Context {W : Type} (drv : Driver W).

Ltac base_leaf cfg :=
  try solve
    [ let Hc := fresh "Hc" in
      let Hw := fresh "Hw" in
      intros; 
      match goal with
      | H : _ /\ within _ _ _ |- _ => destruct H as (Hc & Hw)
      end;
      split;
      [ exact Hc
      | first
          [ apply within_self; exact Hw
          | apply within_event; [|exact Hw];
            simpl;
            repeat match goal with
                   | H : Base.config _ = _ |- _ => rewrite H
                   end;
            auto ] ] ].

Lemma base_run_within {R} (s0 : St W Base.Fields) :
  keeps (fun s1 =>
           Base.config (self s1) = Base.config (self s0) /\
           within (base_confined (Base.config (self s0))) s0 s1)
    (Base.run (R:=R) drv).
Proof.
  unfold Base.run.
  keeps_with
    ltac:(idtac;
          match goal with
          | |- keeps _ (bind this _) =>
              apply (keeps_this_bind _
                       (fun o => Base.config o = Base.config (self s0)));
              [intros ? [? _]; assumption|intros ? ?]
          end);
    base_leaf (Base.config (self s0)).
Qed.

(** X24.  Whatever the page does, a run of src/base.ts stays within its
    configuration: the browser is launched in the configured mode, every
    navigation goes to [targetUrl] with [timeoutMs], and every text typed
    into the page, also inside a shadow root, is [testEmail]. *)
Theorem base_run_confined {R} (s : St W Base.Fields) :
  exists d,
    trace (snd (Base.run (R:=R) drv s)) = trace s ++ d /\
    Forall (base_confined (Base.config (self s))) d.
Proof.
  destruct (base_run_within (R:=R) s s) as (_ & H);
    [split; [reflexivity|apply within_refl]|exact H].
Qed.

End BaseConfined.

Section IndexConfined.
Context {W : Type} (drv : Driver W).

Ltac index_leaf_within :=
  try solve
    [ let Hc := fresh "Hc" in
      let Hw := fresh "Hw" in
      intros;
      match goal with
      | H : _ /\ within _ _ _ |- _ => destruct H as (Hc & Hw)
      end;
      split;
      [ exact Hc
      | first
          [ apply within_self; exact Hw
          | apply within_event; [|exact Hw];
            simpl;
            repeat match goal with
                   | H : Index.config _ = _ |- _ => rewrite H
                   end;
            auto ] ] ].

Lemma index_run_within {R} (s0 : St W Index.Fields) :
  keeps (fun s1 =>
           Index.config (self s1) = Index.config (self s0) /\
           within (index_confined (Index.config (self s0))) s0 s1)
    (Index.run (R:=R) drv).
Proof.
  unfold Index.run.
  keeps_with
    ltac:(idtac;
          match goal with
          | |- keeps _ (bind this _) =>
              apply (keeps_this_bind _
                       (fun o => Index.config o = Index.config (self s0)));
              [intros ? [? _]; assumption|intros ? ?]
          end);
    index_leaf_within.
Qed.

(** X25.  Whatever the page does, a run of src/index.ts stays within its
    configuration, and makes no use of [timeoutMs]: the browser is launched
    in the configured mode, every navigation goes to [targetUrl] and has no
    timeout, every text typed into the page is [testEmail], and every wait
    for a selector is for 1, 2 or 3 seconds. *)
Theorem index_run_confined {R} (s : St W Index.Fields) :
  exists d,
    trace (snd (Index.run (R:=R) drv s)) = trace s ++ d /\
    Forall (index_confined (Index.config (self s))) d.
Proof.
  destruct (index_run_within (R:=R) s s) as (_ & H);
    [split; [reflexivity|apply within_refl]|exact H].
Qed.

End IndexConfined.

Import Pages.

(** ** The further properties on concrete pages *)

(** The frames cannot be counted: the lookup in the frames raises. *)
Lemma findInIframes_enumeration_witness :
  exists e w',
    Selectors.findInIframes (X:=Newsletter.Fields) (R:=unit)
      (scriptedDriver countFails [] emptyPage) attachedEmail (start true)
    = (Throw e,
       mkSt w' [Asked (Count (locator MainDoc "iframe")) (Err e)]
         (self (start true))).
Proof.
  eexists. eexists.
  apply (proj1 (findInIframes_enumeration
                  (scriptedDriver countFails [] emptyPage) (R:=unit)
                  attachedEmail (start true))).
  reflexivity.
Defined.

(** The title cannot be read: the diagnostics are the defaults. *)
Lemma collectDiagnostics_partial_witness :
  exists e w',
    Diagnostics.collectDiagnostics (X:=Newsletter.Fields) (R:=unit)
      (scriptedDriver titleFails [] emptyPage) (start true)
    = (Normal emptyDiagnostics,
       mkSt w' [Asked Title (Err e)] (self (start true))).
Proof.
  eexists. eexists.
  apply (proj1 (proj2 (collectDiagnostics_partial
                         (scriptedDriver titleFails [] emptyPage) (R:=unit)
                         (start true)))).
  reflexivity.
Defined.

(** Two ticked boxes are found and left alone. *)
Lemma handleCheckboxes_leaves_ticked_witness :
  all_checked (scriptedDriver tickedBoxes [] emptyPage) /\
  exists s' d,
    Newsletter.handleCheckboxes (R:=unit)
      (scriptedDriver tickedBoxes [] emptyPage) (start true)
    = (Normal tt, s') /\
    trace s' = trace (start true) ++ d /\ Forall noClick d /\
    self s' = self (start true).
Proof.
  split; [intros l w; reflexivity|].
  apply (handleCheckboxes_leaves_ticked
           (scriptedDriver tickedBoxes [] emptyPage) (R:=unit) (start true)).
  intros l w. reflexivity.
Defined.

Lemma runSingleSite_closes_browser_witness :
  exists d r,
    trace (snd (Runner.runSingleSite (R:=unit) (pageDriver emptyPage)
                  "https://shop.example/" "reader@example.com" (start false)))
    = trace (start false) ++ d ++ [Asked CloseBrowser r].
Proof.
  apply (runSingleSite_closes_browser (pageDriver emptyPage) (R:=unit)
           "https://shop.example/" "reader@example.com" (start false) 1%Z).
  reflexivity.
Defined.

Lemma domQueries_counts_page_lookups_witness :
  counted (self (bqlStart 1)) /\
  exists d,
    trace (snd (Base.run (R:=unit) (pageDriver emptyPage) (bqlStart 1)))
    = trace (bqlStart 1) ++ d /\
    Base.domQueries
      (Base.performanceMetrics
         (Base.diagnostics
            (self (snd (Base.run (R:=unit) (pageDriver emptyPage)
                          (bqlStart 1))))))
    = (Base.domQueries
         (Base.performanceMetrics (Base.diagnostics (self (bqlStart 1))))
       + pageQueries d)%Z.
Proof.
  split; [reflexivity|].
  apply (domQueries_counts_page_lookups (pageDriver emptyPage) (R:=unit)
           (bqlStart 1)).
  reflexivity.
Defined.

Lemma base_run_closes_browser_witness :
  exists d0 r,
    trace (snd (Base.run (R:=unit) (pageDriver emptyPage) (bqlStart 1)))
    = d0 ++ [Asked CloseBrowser r].
Proof.
  apply (base_run_closes_browser (pageDriver emptyPage) (R:=unit)
           (bqlStart 1)
           (trace (snd (Base.run (R:=unit) (pageDriver emptyPage)
                          (bqlStart 1))))).
  - symmetry. apply app_nil_l.
  - vm_compute.
    repeat first [apply Exists_cons_hd; exact I | apply Exists_cons_tl].
Defined.

Lemma index_run_verdict_witness :
  exists s',
    Index.run (R:=unit) (pageDriver emptyPage) (indexStart 2)
    = (Normal false, s') /\
    Index.failureReasons (Index.diagnostics (self s')) <> [].
Proof.
  destruct (index_run_verdict (pageDriver emptyPage) (R:=unit) (indexStart 2))
    as (b & s' & E & H).
  assert (Hb : b = false).
  { apply (f_equal fst) in E. vm_compute in E. inversion E. reflexivity. }
  subst b. exists s'. split; [exact E|]. apply H. reflexivity.
Defined.

Lemma index_run_closes_browser_witness :
  exists d0 r,
    trace (snd (Index.run (R:=unit) (pageDriver emptyPage) (indexStart 1)))
    = d0 ++ [Asked CloseBrowser r].
Proof.
  apply (index_run_closes_browser (pageDriver emptyPage) (R:=unit)
           (indexStart 1)
           (trace (snd (Index.run (R:=unit) (pageDriver emptyPage)
                          (indexStart 1))))).
  - symmetry. apply app_nil_l.
  - vm_compute.
    repeat first [apply Exists_cons_hd; exact I | apply Exists_cons_tl].
Defined.

Lemma zero_retry_budget_witness :
  (retryAttempts (config 0) <= 0)%Z /\
  (Base.maxRetries (Base.config (self (bqlStart 0))) <= 0)%Z /\
  (Index.maxRetries (Index.config (self (indexStart 0))) <= 0)%Z /\
  Newsletter.attemptNewsletterSignup (R:=unit) (pageDriver emptyPage)
    (config 0) (start true) = (Normal false, start true) /\
  Base.executeNewsletterSignup (R:=unit) (pageDriver emptyPage) (bqlStart 0)
  = (Normal false, bqlStart 0) /\
  exists s' d,
    Index.run (R:=unit) (pageDriver emptyPage) (indexStart 0)
    = (Normal false, s') /\
    trace s' = trace (indexStart 0) ++ d /\ Forall idle d.
Proof.
  split; [simpl; lia|]. split; [simpl; lia|]. split; [simpl; lia|].
  apply (zero_retry_budget (pageDriver emptyPage) (R:=unit) (config 0)
           (start true) (bqlStart 0) (indexStart 0)); simpl; lia.
Defined.

Lemma stored_diagnostics_agree_witness :
  NoDup (JsMap.keys (BqlRunner.automations (self runnerStart))) /\
  exists all,
    BqlRunner.getAllDiagnostics (R:=unit)
      (snd (BqlRunner.runSingleTarget (R:=unit) (pageDriver emptyPage)
              (bqlRaw "https://shop.example/" (Some 1%Z)) runnerStart))
    = (Normal all,
       snd (BqlRunner.runSingleTarget (R:=unit) (pageDriver emptyPage)
              (bqlRaw "https://shop.example/" (Some 1%Z)) runnerStart)) /\
    JsMap.keys all = ["https://shop.example/"].
Proof.
  split; [constructor|].
  destruct (stored_diagnostics_agree (pageDriver emptyPage) (R:=unit)
              runnerStart (NoDup_nil _)) as (_ & Hkeep).
  destruct (stored_diagnostics_agree (pageDriver emptyPage) (R:=unit)
              (snd (BqlRunner.runSingleTarget (R:=unit) (pageDriver emptyPage)
                      (bqlRaw "https://shop.example/" (Some 1%Z))
                      runnerStart))
              (Hkeep _)) as ((all & E & K & _) & _).
  exists all. split; [exact E|]. rewrite K. vm_compute. reflexivity.
Defined.
